(* ===== verification/_CoqProject ===== *)
-Q . S2P
Prelude.v
Kernel.v
Medium.v
GptBytes.v
GptTable.v
GptHeader.v
UfsBsg.v
GptUpdate.v
GptFailsafe.v
GptCrash.v
GptDisk.v
GptOwn.v
UfsIoctl.v
Lights.v
Interaction.v
PowerPid.v
PowerSession.v
PowerManager.v
Power.v
PowerRace.v
PerfClient.v
Float32.v
Text.v
PowerDump.v
VibratorHw.v
Vibrator.v
VibratorProps.v
VibratorTrace.v
VibratorDump.v
VibratorRuns.v
Services.v
