(* ===== verification/Prelude.v ===== *)
(** * Verification of the native code of the Sony pdx215 device tree

    The repository configures Android for a phone; besides configuration it holds
    native services, and this development models and verifies those:

    - gpt-utils/: the library that makes updates of the boot partitions failsafe.
      A device has two copies of the partition table (GPT) and, on UFS storage,
      two boot LUNs; an update corrupts one copy at a time on purpose, so that
      the boot loader always finds one complete table.  It also offers a
      structure for editing a table and writing it back.
    - liblight/ and lights/: the module that drives the LEDs and the backlight
      through sysfs, and the binder service in front of it.
    - aidl/power-libperfmgr/: the power HAL.  An interaction handler holds a boost
      while the user interacts; hint sessions turn reports of an application's
      frame times into a minimum utilisation for its threads; a manager combines
      the sessions.  The service in front of them turns modes and boosts into
      hints of libperfmgr.
    - aidl/vibrator/: the vibrator HAL.  It drives a haptics chip through sysfs
      files: long vibrations, predefined effects, queues of waveforms and
      piecewise-linear envelopes, with calibration data from the trim area.

    ** How the code is modelled

    C and C++ functions are Rocq functions of the same names.  [Prelude.M S A] is
    code over the state [S]; a result of [None] is undefined behaviour: an
    access outside a buffer, a null or dangling pointer, signed overflow, a
    conversion of a float or double out of range.  So a theorem of the form
    "[f s = Some (r, s')]" also shows the absence of undefined behaviour.
    Integers are [Z] with conversions written out ([u8], [u32], [i32], ...).
    Error codes and binder statuses are values.  What the code calls and this
    repository does not contain is a type class that the code takes as a
    parameter, and the theorems hold for every instance that meets their
    hypotheses:

    - [Kernel.Kernel]: for every system call on a block device, whether it
      succeeds, fails or transfers less than asked; the contents of fresh memory;
    - [Kernel.Zlib]: [crc32], of which only that it is a 32-bit number is used;
    - [UfsBsg.Ufs.Bsg], [GptUpdate.Update.Env]: the bsg driver, directories,
      properties and links of the file system;
    - [UfsIoctl.UfsIoctl.UfsHeaders] and [Sg]: the constants of the kernel header and the
      scsi generic driver;
    - [Lights.Lights.Sysfs]: opens, writes and reads of sysfs files, the module loader;
    - [Interaction.Interaction.Props]: system properties;
    - [PowerSession.Session.Platform] and [PowerPid.Pid.AdpfConfig]:
      libprocessgroup, sched_setattr and libperfmgr;
    - [VibratorHw.VHw.Driver], [Miscta] and [Properties]: the haptics driver's
      files, the library for the trim area, and system properties;
    - [Vibrator.Vibrator.Libm], [Platform] and [Actuator]: log10 and pow, ALSA and
      the scheduling of the completion jobs, and the three variants of the build;
    - [PowerDump.PowerDump.Addresses], [VibratorDump.VibratorDump.Host]: the addresses a
      dump prints; the environment, the properties and the files it reads;
    - [Services.Services.Binder]: what binder and libperfmgr answer at the start.

    ** The files

    - Prelude.v: machine integers, byte regions, C strings, the monad, the shared
      tactics and hint databases.
    - Kernel.v: block devices with failing system calls, the history of their
      contents ([images]) and whether they were opened with O_DSYNC.
    - Medium.v: what a power cut leaves on a medium that takes whole blocks, when
      writes reach it in order ([in_order]) and when they do not ([mixed]); which of
      the two it is follows from how the device was opened ([power_cut]).
    - GptBytes.v: the byte macros and offsets of gpt-utils.
    - GptTable.v (Module Table): gpt_pentry_seek and gpt_boot_chain_swap, with
      their specification on lists of entries.
    - GptHeader.v (Module Header): blk_rw, gpt_get_state, gpt_set_state and
      gpt2_set_boot_chain; what each leaves on the device, on every error path.
    - UfsBsg.v (Module Ufs): recovery-ufs-bsg.cpp.
    - GptUpdate.v (Module Update): prepare_boot_update, prepare_partitions, the
      list of LUNs and the boot LUN switch; the invariants and the abstract
      specification [stage_spec] of the update stages, a table on the stage and the
      states of the two headers.
    - GptFailsafe.v (Module Failsafe): the theorems on updates: they are failsafe
      at every moment when writes reach the medium in order, no transfer is short and
      there are fewer than 25 LUNs; they implement [stage_spec]; the three stages in
      order give back the original tables; stages out of order change nothing; the
      LUN list; and two runs where the code goes wrong.
    - GptCrash.v (Module Crash): updates through the page cache with the [fsync] of
      prepare_partitions: a stage that returned is on the medium, the last stage
      needs no order of its writes, and the first two go wrong without one.
    - GptDisk.v (Module Disk): struct gpt_disk and its operations; because of O_DSYNC
      committing is failsafe, also in the middle of a write, when the secondary table
      on the device is usable; and loading reads back what was committed, every
      member but the CRCs of the headers.
    - GptOwn.v (Module Own): the same functions with the blocks and descriptors they
      take and give back ([ledger]), and gpt_disk_free; each is simulated by the
      function without resources and its effect on the ledger is exact: the life of
      a gpt_disk leaves nothing behind, and a stage leaks one block for each
      successful gpt_set_state.
    - UfsIoctl.v (Module UfsIoctl): set_boot_lun of builds without the bsg framework.
    - Lights.v (Module Lights): lights.c and Lights.cpp.
    - Interaction.v (Module Interaction): InteractionHandler.cpp as a step
      relation of clients and worker.
    - PowerPid.v (Module Pid): the controller of a session, on checked integers
      and IEEE 754 doubles (SpecFloat), and its reference.
    - PowerSession.v (Module Session): PowerHintSession.cpp and
      PowerSessionManager.cpp: sessions, timers, the looper's messages, the
      manager's containers, and the step relation of the whole.
    - PowerManager.v (Module Manager): its theorems: the containers describe the
      open sessions in every reachable state, threads get the largest request,
      sessions release their threads; and two runs where the code goes wrong.
    - Power.v (Module Power): Power.cpp, PowerExt.cpp and power-mode.cpp over the
      interaction handler and the session manager; the service implements a
      specification over the history of calls (which requests are heard, what each
      says to libperfmgr, to the handler and to the manager), keeps the invariants of
      its parts over every interleaving, and never leaves sustained performance mode.
    - PowerRace.v (Module PowerRace): the looper's handlers and the destruction of a
      session, split at their locks: which handlers can use a freed session, and a
      boost that outlives its session.
    - PerfClient.v (Module PerfClient): the stubs of the vendor's performance library.
    - Text.v, PowerDump.v (Module PowerDump): what the power service's dump prints, and
      that it reads only live sessions and changes nothing.
    - Float32.v (Module F32): single precision floats (SpecFloat) with their
      conversions and printing; bounds of rounded results.
    - VibratorHw.v (Module VHw): utils.h, HardwareBase and Hardware.h: streams with
      their failed state, number input, the ring of records, polling, the
      calibration; the calibration is that of the trim units, and polling returns
      after exactly as many rounds as the state takes.
    - Vibrator.v (Module Vibrator): Vibrator.cpp: the constructor, every call of
      the interface, the completion job, the PCM device, envelopes and the
      bandwidth map.
    - VibratorProps.v (Module VibratorProps): the state is well typed in every
      run; what compose, perform and on send, and that they refuse the rest
      without a change; external control ends before a vibration starts; two
      defects.
    - VibratorTrace.v (Module VibratorTrace): whole runs: each accepted vibration's
      callback is called once, and in order when no envelope is sent; for the
      actuators of the source envelopes are safe to send in every reachable state
      that is idle.
    - VibratorDump.v (Module VibratorDump): the dump and debug functions; a dump always
      returns, is complete and only reads.
    - VibratorRuns.v (Module VibratorRuns): concrete devices, the witnesses, and runs
      where the code goes wrong.
    - Services.v (Module Services): the three main functions; the power process with its
      threads, composed with Power.v.

    ** Fuel and bounds

    The loop over partition entries has fuel [S (length arr)], one more than the
    bytes of the array, and every iteration advances by a whole entry; the theorems
    show that it ends.  All other recursion is structural: retries count down, and
    loops run over lists.  The vibrator's polling loop has as fuel the number of
    rounds it is given, and running out of it is a result of its own (still
    waiting); the loop that fills the map of level limits has fuel 1000, more than
    the 999 entries it can write, and is shown to end for each build.  The
    theorems on GPT operations assume a layout
    ([GptHeader.Header.layout]) in which headers and entries arrays do not
    overlap and lie on the device, a device of whole blocks, and entries of 128
    bytes, the size the code copies.  The controller's theorem assumes durations of up to 2^45 ns.

    ** What is abstracted

    Log and trace output have no effect in the model.  Blocks are written to the
    medium whole; which writes are on it matters only in GptCrash.v, elsewhere
    reads and writes see the bytes of the device.  Freeing memory and closing
    descriptors are modelled for the GPT code, in GptOwn.v.  A
    critical section under a lock is one step; a method of a hint session is one
    step and reads one value of the clock, except in PowerRace.v, which keeps of a
    session only its lifetime and whether its request is set.  The looper is a list of due messages,
    any of which may be delivered.  A binder call of the power service or the
    vibrator is one step; the vibrator's completion job makes its three calls (poll,
    deactivate, call back) between two calls of the interface or where one waits for
    it, and two jobs that run at once make theirs in any order.  A write the haptics driver refuses leaves nothing
    in the stream's buffer.

    ** Not modelled

    Class declarations and tables of function pointers, whose members are the
    functions modelled; generated interface code; and configuration files (build
    files, overlays, init scripts, SELinux policy, media and audio configuration),
    which are data for other programs. *)

From Stdlib Require Export ZArith Lia Ascii String.
From stdpp Require Export base list option gmap strings.

#[global] Open Scope Z_scope.

(** ** Machine integers

    A [w]-bit C integer is a [Z]; a conversion to the type or an arithmetic
    operation at its width wraps explicitly. *)

Definition wrapu (w z : Z) : Z := z mod 2 ^ w.
Definition wraps (w z : Z) : Z := (z + 2 ^ (w - 1)) mod 2 ^ w - 2 ^ (w - 1).

Abbreviation u8 := (wrapu 8).
Abbreviation u16 := (wrapu 16).
Abbreviation u32 := (wrapu 32).
Abbreviation u64 := (wrapu 64).
Abbreviation i8 := (wraps 8).
Abbreviation i32 := (wraps 32).
Abbreviation i64 := (wraps 64).

Lemma wrapu_range w z : 0 ≤ w → 0 ≤ wrapu w z < 2 ^ w.
Proof. intros. apply Z.mod_pos_bound. lia. Qed.

Lemma wrapu_small w z : 0 ≤ z < 2 ^ w → wrapu w z = z.
Proof. apply Z.mod_small. Qed.

Lemma wrapu_idem w z : wrapu w (wrapu w z) = wrapu w z.
Proof. apply Zmod_mod. Qed.

Lemma wraps_range w z : 0 < w → - 2 ^ (w - 1) ≤ wraps w z < 2 ^ (w - 1).
Proof.
  intros Hw. unfold wraps.
  assert (2 ^ w = 2 * 2 ^ (w - 1)) as He.
  { rewrite <- Z.pow_succ_r by lia. f_equal; lia. }
  pose proof (Z.mod_pos_bound (z + 2 ^ (w - 1)) (2 ^ w)). lia.
Qed.

Lemma wraps_small w z : 0 < w → - 2 ^ (w - 1) ≤ z < 2 ^ (w - 1) → wraps w z = z.
Proof.
  intros Hw Hz. unfold wraps.
  assert (2 ^ w = 2 * 2 ^ (w - 1)) as He.
  { rewrite <- Z.pow_succ_r by lia. f_equal; lia. }
  rewrite Z.mod_small by lia. lia.
Qed.

(** ** The development's hint databases and tactics *)

Create HintDb bytes discriminated.
Create Rewrite HintDb region.

(** Case on every boolean comparison of integers in the goal, with the
    comparison as a proposition in the context. *)
Ltac zcase :=
  repeat match goal with
  | |- context [Z.ltb ?a ?b] => destruct (Z.ltb_spec a b)
  | |- context [Z.leb ?a ?b] => destruct (Z.leb_spec a b)
  | |- context [Z.eqb ?a ?b] => destruct (Z.eqb_spec a b)
  | |- context [Nat.ltb ?a ?b] => destruct (Nat.ltb_spec a b)
  | |- context [Nat.leb ?a ?b] => destruct (Nat.leb_spec a b)
  end.

(** Reduce a decided comparison to the branch the arithmetic context selects. *)
Ltac zbool :=
  repeat match goal with
  | |- context [Z.ltb ?a ?b] =>
      first [ rewrite (proj2 (Z.ltb_lt a b)) by lia
            | rewrite (proj2 (Z.ltb_ge a b)) by lia ]
  | |- context [Z.leb ?a ?b] =>
      first [ rewrite (proj2 (Z.leb_le a b)) by lia
            | rewrite (proj2 (Z.leb_gt a b)) by lia ]
  | |- context [Z.eqb ?a ?b] =>
      first [ rewrite (proj2 (Z.eqb_eq a b)) by lia
            | rewrite (proj2 (Z.eqb_neq a b)) by lia ]
  | |- context [Nat.ltb ?a ?b] =>
      first [ rewrite (proj2 (Nat.ltb_lt a b)) by lia
            | rewrite (proj2 (Nat.ltb_ge a b)) by lia ]
  | |- context [Nat.leb ?a ?b] =>
      first [ rewrite (proj2 (Nat.leb_le a b)) by lia
            | rewrite (proj2 (Nat.leb_gt a b)) by lia ]
  end.

(** ** Byte buffers and regions

    A buffer is the list of its bytes; [slice] and [splice] read and replace
    a region, [rd] and [wr] are their checked forms, [None] being an access
    outside the buffer. *)

Definition slice {A} (l : list A) (off n : nat) : list A := take n (drop off l).
Definition splice {A} (l : list A) (off : nat) (bs : list A) : list A :=
  take off l ++ bs ++ drop (off + length bs) l.

Definition rd {A} (l : list A) (off n : nat) : option (list A) :=
  if (off + n <=? length l)%nat then Some (slice l off n) else None.
Definition wr {A} (l : list A) (off : nat) (bs : list A) : option (list A) :=
  if (off + length bs <=? length l)%nat then Some (splice l off bs) else None.

Section regions.
Context {A : Type}.
Implicit Types l bs : list A.

Lemma length_slice l off n : (off + n ≤ length l)%nat → length (slice l off n) = n.
Proof. intros. unfold slice. rewrite length_take, length_drop. lia. Qed.

Lemma length_splice l off bs :
  (off + length bs ≤ length l)%nat → length (splice l off bs) = length l.
Proof.
  intros. unfold splice. rewrite !length_app, length_take, length_drop. lia.
Qed.

Lemma lookup_slice l off n i :
  slice l off n !! i = if (i <? n)%nat then l !! (off + i)%nat else None.
Proof.
  unfold slice. zcase.
  - by rewrite lookup_take_lt, lookup_drop by lia.
  - by apply lookup_take_ge.
Qed.

Lemma lookup_splice l off bs i :
  (off + length bs ≤ length l)%nat →
  splice l off bs !! i =
    if (i <? off)%nat then l !! i
    else if (i <? off + length bs)%nat then bs !! (i - off)%nat else l !! i.
Proof.
  intros Hl. unfold splice. zcase.
  - rewrite lookup_app_l by (rewrite length_take; lia).
    by apply lookup_take_lt.
  - rewrite lookup_app_r by (rewrite length_take; lia).
    rewrite length_take, Nat.min_l by lia.
    by rewrite lookup_app_l by lia.
  - rewrite lookup_app_r by (rewrite length_take; lia).
    rewrite length_take, Nat.min_l by lia.
    rewrite lookup_app_r by lia. rewrite lookup_drop. f_equal. lia.
Qed.

Ltac region_ext :=
  apply list_eq; intros i; rewrite ?lookup_slice; rewrite ?lookup_splice by lia;
  rewrite ?lookup_slice; zcase; try done; try (f_equal; lia); try lia.

Lemma slice_splice_same l off bs :
  (off + length bs ≤ length l)%nat → slice (splice l off bs) off (length bs) = bs.
Proof.
  intros. apply list_eq. intros i. rewrite lookup_slice, lookup_splice by lia.
  zcase; try lia.
  - f_equal. lia.
  - symmetry. by apply lookup_ge_None.
Qed.

Lemma slice_splice_disj l off bs o n :
  (off + length bs ≤ length l)%nat →
  (o + n ≤ off ∨ off + length bs ≤ o)%nat →
  slice (splice l off bs) o n = slice l o n.
Proof. intros. region_ext. Qed.

Lemma slice_slice l a n b m :
  (b + m ≤ n)%nat → slice (slice l a n) b m = slice l (a + b) m.
Proof. intros. region_ext. Qed.

Lemma slice_all l : slice l 0 (length l) = l.
Proof. unfold slice. rewrite drop_0. by apply firstn_all. Qed.

Lemma slice_whole l n : length l = n → slice l 0 n = l.
Proof. intros <-. apply slice_all. Qed.

Lemma splice_slice_id l off n :
  (off + n ≤ length l)%nat → splice l off (slice l off n) = l.
Proof.
  intros. apply list_eq. intros i.
  rewrite lookup_splice by (rewrite length_slice; lia).
  rewrite length_slice, lookup_slice by lia. zcase; try done; try lia.
  f_equal. lia.
Qed.

Lemma slice_splice_inner l off bs o n :
  (off + length bs ≤ length l)%nat → (off ≤ o)%nat → (o + n ≤ off + length bs)%nat →
  slice (splice l off bs) o n = slice bs (o - off) n.
Proof. intros. region_ext. Qed.

Lemma splice_splice_same l off b1 b2 :
  (off + length b1 ≤ length l)%nat → length b1 = length b2 →
  splice (splice l off b1) off b2 = splice l off b2.
Proof.
  intros Hl He. apply list_eq. intros i.
  rewrite lookup_splice by (rewrite length_splice; lia).
  rewrite !lookup_splice by lia. rewrite <- He. zcase; done || lia.
Qed.

Lemma splice_splice_comm l o1 b1 o2 b2 :
  (o1 + length b1 ≤ length l)%nat → (o2 + length b2 ≤ length l)%nat →
  (o1 + length b1 ≤ o2 ∨ o2 + length b2 ≤ o1)%nat →
  splice (splice l o1 b1) o2 b2 = splice (splice l o2 b2) o1 b1.
Proof.
  intros. apply list_eq. intros i.
  rewrite !lookup_splice by (rewrite ?length_splice; lia). zcase; done || lia.
Qed.

Lemma rd_Some l off n : (off + n ≤ length l)%nat → rd l off n = Some (slice l off n).
Proof. intros. unfold rd. by zbool. Qed.

Lemma wr_Some l off bs :
  (off + length bs ≤ length l)%nat → wr l off bs = Some (splice l off bs).
Proof. intros. unfold wr. by zbool. Qed.

Lemma rd_inv l off n x :
  rd l off n = Some x → (off + n ≤ length l)%nat ∧ x = slice l off n.
Proof. unfold rd. zcase; naive_solver. Qed.

Lemma wr_inv l off bs x :
  wr l off bs = Some x → (off + length bs ≤ length l)%nat ∧ x = splice l off bs.
Proof. unfold wr. zcase; naive_solver. Qed.

End regions.

#[export] Hint Resolve length_slice length_splice : bytes.
#[export] Hint Rewrite @length_slice @length_splice using lia : region.

Lemma mapM_map_Some {A B} (f : A → option B) (g : A → B) l :
  Forall (λ x, f x = Some (g x)) l → mapM f l = Some (map g l).
Proof. induction 1 as [|x l Hx _ IH]; simpl; [done|]. by rewrite Hx; simpl; rewrite IH. Qed.

(** Running twice a sequence of pairwise commuting involutions does nothing. *)
Lemma fold_left_invol {A B} (f : A → B → A) (ns : list B) (P : A → Prop) a :
  NoDup ns →
  (∀ x n, P x → n ∈ ns → P (f x n)) →
  (∀ x n, P x → n ∈ ns → f (f x n) n = x) →
  (∀ x n m, P x → n ∈ ns → m ∈ ns → n ≠ m → f (f x n) m = f (f x m) n) →
  P a → fold_left f ns (fold_left f ns a) = a.
Proof.
  assert (Hcomm : ∀ l n x, (∀ x m, P x → m ∈ l → P (f x m)) → P x →
    (∀ x m, P x → m ∈ l → f (f x n) m = f (f x m) n) →
    f (fold_left f l x) n = fold_left f l (f x n)).
  { induction l as [|m l IH]; intros n x HP Hx Hc; simpl; [done|].
    rewrite (IH n (f x m)).
    - f_equal. symmetry. apply Hc; [done|]. by apply list_elem_of_here.
    - intros. apply HP; [done|]. by apply list_elem_of_further.
    - apply HP; [done|]. by apply list_elem_of_here.
    - intros. apply Hc; [done|]. by apply list_elem_of_further. }
  intros Hnd. revert a. induction Hnd as [|n ns Hn _ IH]; intros a HP Hi Hc Ha; simpl; [done|].
  assert (P (f a n)) by (apply HP; [done|apply list_elem_of_here]).
  rewrite Hcomm.
  - rewrite Hi by (done || apply list_elem_of_here).
    apply IH; intros; first [apply HP | apply Hi | apply Hc | done];
      try done; by apply list_elem_of_further.
  - intros. apply HP; [done|]. by apply list_elem_of_further.
  - done.
  - intros x m Hx Hm. symmetry. apply Hc; [done|by apply list_elem_of_further|
      apply list_elem_of_here|]. intros ->. done.
Qed.

(** ** C strings

    A C string is a byte array holding a terminating zero.  The comparison
    functions return [None] when they run past an array. *)

Definition bytes (s : string) : list Z :=
  map (λ a, Z.of_nat (nat_of_ascii a)) (list_ascii_of_string s).
Definition cstring (s : string) : list Z := bytes s ++ [0].

(** [strncmp(a, b, n) == 0] *)
Fixpoint strncmp_eq (a b : list Z) (n : nat) : option bool :=
  match n with
  | O => Some true
  | S n' =>
      match a, b with
      | x :: a', y :: b' =>
          if x =? y then if x =? 0 then Some true else strncmp_eq a' b' n'
          else Some false
      | _, _ => None
      end
  end.

(** [strcmp(a, b) == 0] *)
Fixpoint strcmp_eq (a b : list Z) : option bool :=
  match a, b with
  | x :: a', y :: b' =>
      if x =? y then if x =? 0 then Some true else strcmp_eq a' b' else Some false
  | _, _ => None
  end.

(** The characters of a C string: the bytes before its first zero. *)
Fixpoint cchars (l : list Z) : list Z :=
  match l with
  | [] => []
  | x :: l' => if x =? 0 then [] else x :: cchars l'
  end.

Definition nonzero (w : list Z) : Prop := Forall (λ x, x ≠ 0) w.

Lemma cchars_nonzero_app w l : nonzero w → cchars (w ++ l) = w ++ cchars l.
Proof.
  induction 1 as [|x w Hx Hw IH]; simpl; [done|]. zbool. by rewrite IH.
Qed.

Lemma cchars_zeros n : cchars (replicate n 0) = [].
Proof. by destruct n. Qed.

Lemma cchars_app_zeros l n : cchars (l ++ replicate n 0) = cchars l.
Proof.
  induction l as [|x l IH]; simpl; [apply cchars_zeros|]. zcase; [done|]. by rewrite IH.
Qed.

Lemma cchars_prefix l : ∃ t, l = cchars l ++ t.
Proof.
  induction l as [|x l [t IH]]; simpl; [by exists []|].
  zcase; [by exists (x :: l)|]. exists t. simpl. by rewrite <- IH.
Qed.

Lemma take_cchars_prefix w v l : cchars l = w ++ v → take (length w) l = w.
Proof.
  intros E. destruct (cchars_prefix l) as [t Ht]. rewrite E in Ht.
  rewrite Ht, <- app_assoc. by rewrite take_app_length.
Qed.

(** Comparing a terminated string of [n] characters with an array that holds
    a zero, up to [n] characters, tests the first [n] bytes. *)
Lemma strncmp_eq_take w l :
  nonzero w → 0 ∈ l →
  strncmp_eq (w ++ [0]) l (length w) = Some (bool_decide (take (length w) l = w)).
Proof.
  intros Hw. revert l. induction Hw as [|x w Hx Hw IH]; intros l Hl; [done|].
  destruct l as [|y l]; [by apply not_elem_of_nil in Hl|]. simpl.
  destruct (Z.eqb_spec x y) as [<-|Hne].
  - zbool. rewrite IH.
    + apply f_equal, bool_decide_ext. split; congruence.
    + apply elem_of_cons in Hl as [Hl|Hl]; [congruence|done].
  - apply f_equal. symmetry. apply bool_decide_eq_false. congruence.
Qed.

Lemma strcmp_eq_cchars w l :
  nonzero w → 0 ∈ l → strcmp_eq l (w ++ [0]) = Some (bool_decide (cchars l = w)).
Proof.
  intros Hw. revert l. induction Hw as [|x w Hx Hw IH]; intros l Hl.
  - destruct l as [|y l]; [by apply not_elem_of_nil in Hl|]. simpl. zcase; [done|].
    f_equal.
  - destruct l as [|y l]; [by apply not_elem_of_nil in Hl|]. simpl.
    destruct (Z.eqb_spec y x) as [->|Hne].
    + zbool. rewrite IH.
      * apply f_equal, bool_decide_ext. split; congruence.
      * apply elem_of_cons in Hl as [Hl|Hl]; [congruence|done].
    + apply f_equal. symmetry. apply bool_decide_eq_false. zcase; congruence.
Qed.

(** Comparing two terminated strings of the same length over all their bytes. *)
Lemma strncmp_eq_all a b :
  nonzero a → length a = length b →
  strncmp_eq (a ++ [0]) (b ++ [0]) (S (length b)) = Some (bool_decide (a = b)).
Proof.
  intros Ha. revert b. induction Ha as [|x a Hx Ha IH]; intros [|y b] Hl; try discriminate; [done|].
  injection Hl as Hl. cbn [app length strncmp_eq]. destruct (Z.eqb_spec x y) as [<-|Hne].
  - zbool. specialize (IH b Hl). cbn [length] in IH. rewrite IH. apply f_equal, bool_decide_ext. split; congruence.
  - apply f_equal. symmetry. apply bool_decide_eq_false. congruence.
Qed.

(** ** A monad for C code

    [M S A] is code over the state [S] returning an [A]; [None] is undefined
    behaviour (an access outside a buffer, a null dereference) or a loop that
    does not end. *)

Definition M (S A : Type) : Type := S → option (A * S).
Definition ret {S A} (a : A) : M S A := λ s, Some (a, s).
Definition bind {S A B} (m : M S A) (k : A → M S B) : M S B :=
  λ s, match m s with None => None | Some (a, s') => k a s' end.
Definition lift {S A} (o : option A) : M S A :=
  λ s, match o with None => None | Some a => Some (a, s) end.
Definition ub {S A} : M S A := λ _, None.

Declare Scope c_scope.
Delimit Scope c_scope with c.
Notation "'let*' x ':=' m 'in' k" := (bind m (λ x, k))
  (at level 10, x pattern, m at level 100, k at level 200) : c_scope.
Notation "m ;; k" := (bind m (λ _, k)) (at level 100, right associativity) : c_scope.
#[global] Open Scope c_scope.

(** Total-correctness triples: from a state satisfying the precondition the
    code runs without undefined behaviour to a result in the postcondition. *)
Definition triple {S A} (P : S → Prop) (m : M S A) (Q : A → S → Prop) : Prop :=
  ∀ s, P s → ∃ a s', m s = Some (a, s') ∧ Q a s'.

Lemma triple_ret {S A} (P : S → Prop) (a : A) (Q : A → S → Prop) :
  (∀ s, P s → Q a s) → triple P (ret a) Q.
Proof. intros H s Hs. exists a, s. auto. Qed.

Lemma triple_bind {S A B} (P : S → Prop) (m : M S A) R (k : A → M S B) Q :
  triple P m R → (∀ a, triple (R a) (k a) Q) → triple P (bind m k) Q.
Proof.
  intros Hm Hk s Hs. destruct (Hm s Hs) as (a & s' & E & HR).
  destruct (Hk a s' HR) as (b & s'' & E' & HQ).
  exists b, s''. split; [|done]. unfold bind. by rewrite E.
Qed.

Lemma triple_conseq {S A} (P P' : S → Prop) (m : M S A) (Q Q' : A → S → Prop) :
  triple P' m Q' → (∀ s, P s → P' s) → (∀ a s, Q' a s → Q a s) → triple P m Q.
Proof.
  intros H HP HQ s Hs. destruct (H s (HP s Hs)) as (a & s' & E & ?). eauto 6.
Qed.

Lemma triple_lift {S A} (P : S → Prop) (o : option A) a (Q : A → S → Prop) :
  o = Some a → (∀ s, P s → Q a s) → triple P (lift o) Q.
Proof. intros -> H s Hs. exists a, s. auto. Qed.

Lemma bind_run {S A B} (m : M S A) (k : A → M S B) s a s' :
  m s = Some (a, s') → bind m k s = k a s'.
Proof. intros E. unfold bind. by rewrite E. Qed.
