(* ===== verification/Kernel.v ===== *)
(** * Kernel: the system calls the GPT code makes on a block device

    The sources call [ioctl(BLKSSZGET)], [lseek64], [read], [write],
    [malloc] and [calloc].  This file models them on one open block device:
    its bytes, its logical block size and the file position.  What the
    environment decides (a call that fails, a transfer that is short, what
    fresh heap memory holds) is an oracle, the class [Kernel], indexed by the
    number of the call, so that a theorem about all oracles covers every
    schedule of faults.  The device also keeps every image it held before a
    write, and whether it was opened with [O_DSYNC]; what a power cut leaves of the
    images on the medium is in Medium.v.

    zlib's [crc32] is the class [Zlib]; [ZlibOk] states the documented range
    of its result, and [zlib_crc32] is the bitwise CRC-32 that shows the class
    is inhabited. *)

From S2P Require Import Prelude.

(** ** What the environment decides *)

Inductive fault :=
  | FOk                    (* the call succeeds *)
  | FFail                  (* the call fails: -1, or NULL for an allocation *)
  | FShort (n : nat).      (* a transfer moves at most [n] bytes *)

Class Kernel := {
  sys : nat → fault;            (* the outcome of the call of this number *)
  heap : nat → nat → Z;         (* the bytes malloc returns at this call *)
}.

(** No transfer is cut short by the environment. *)
Definition no_short `{Kernel} : Prop := ∀ k n, sys k ≠ FShort n.
(** No call fails either. *)
Definition no_fault `{Kernel} : Prop := ∀ k, sys k = FOk.

(** ** zlib *)

Class Zlib := {
  crc32_zero : Z;               (* [crc32(0L, Z_NULL, 0)] *)
  crc32 : Z → list Z → Z;       (* [crc32(crc, buf, len)] on the [len] bytes *)
}.

Class ZlibOk (zl : Zlib) : Prop := {
  crc32_range : ∀ c l, (0 ≤ crc32 c l < 2 ^ 32)%Z;
}.

(** The reflected CRC-32 polynomial division, one bit at a time. *)
Definition crc32_bit (c : Z) : Z :=
  if Z.odd c then Z.lxor (Z.shiftr c 1) 0xEDB88320 else Z.shiftr c 1.
Definition crc32_byte (c b : Z) : Z :=
  Nat.iter 8 crc32_bit (Z.lxor c (u8 b)).
Definition zlib_crc32 (c : Z) (l : list Z) : Z :=
  u32 (Z.lxor (fold_left crc32_byte l (Z.lxor (u32 c) 0xFFFFFFFF)) 0xFFFFFFFF).

#[global] Instance zlib : Zlib := {| crc32_zero := 0; crc32 := zlib_crc32 |}.
#[global] Instance zlib_ok : ZlibOk zlib.
Proof. constructor. intros. by apply wrapu_range. Qed.

(** The published check value of CRC-32. *)
Example crc32_check : crc32 crc32_zero (bytes "123456789") = 0xCBF43926.
Proof. vm_compute. reflexivity. Qed.

(** ** An open block device *)

Record dev := Dev {
  d_data : list Z;              (* the bytes of the device *)
  d_ssz : Z;                    (* logical block size, [BLKSSZGET] *)
  d_pos : nat;                  (* file position *)
  d_images : list (list Z);     (* what [d_data] was before each write, latest first *)
  d_step : nat;                 (* number of calls made *)
  d_dsync : bool;               (* the descriptor was opened with [O_DSYNC] *)
}.

Abbreviation D := (M dev).

Definition set_pos (p : nat) (s : dev) : dev :=
  Dev (d_data s) (d_ssz s) p (d_images s) (d_step s) (d_dsync s).
Definition set_data (l : list Z) (s : dev) : dev :=
  Dev l (d_ssz s) (d_pos s) (d_data s :: d_images s) (d_step s) (d_dsync s).
Definition tick (s : dev) : dev :=
  Dev (d_data s) (d_ssz s) (d_pos s) (d_images s) (S (d_step s)) (d_dsync s).

(** The flags of [open] the sources use (arm64 Linux). *)
Definition O_RDWR : Z := 0x2.
Definition O_DSYNC : Z := 0x1000.

(** The device once it is open: the position is 0, and the flags say whether
    [write] returns only when the bytes are on the medium. *)
Definition set_open (flags : Z) (s : dev) : dev :=
  Dev (d_data s) (d_ssz s) 0 (d_images s) (d_step s) (negb (Z.land flags O_DSYNC =? 0)).

(** Every image of the device, the current one first. *)
Definition images (s : dev) : list (list Z) := d_data s :: d_images s.

(** Linux never transfers more than this in one [read] or [write]. *)
Definition MAX_RW_COUNT : Z := 0x7ffff000.

Section syscalls.
Context `{Kernel}.

(** The outcome of the next call. *)
Definition syscall : D fault := λ s, Some (sys (d_step s), tick s).

Definition malloc (n : Z) : D (option (list Z)) := λ s,
  Some (match sys (d_step s) with
        | FFail => None
        | _ => Some (map (λ i, u8 (heap (d_step s) i)) (seq 0 (Z.to_nat n)))
        end, tick s).

Definition calloc (n : Z) : D (option (list Z)) :=
  let* f := syscall in
  ret (match f with FFail => None | _ => Some (replicate (Z.to_nat n) 0) end).

(** [ioctl(fd, BLKSSZGET, &size)]: the size, or [None] on failure. *)
Definition ioctl_BLKSSZGET : D (option Z) :=
  let* f := syscall in
  λ s, Some (match f with FFail => None | _ => Some (u32 (d_ssz s)) end, s).

(** [lseek64(fd, 0, SEEK_END)] *)
Definition lseek64_end : D Z :=
  let* f := syscall in
  match f with
  | FFail => ret (-1)
  | _ => λ s, Some (Z.of_nat (length (d_data s)), set_pos (length (d_data s)) s)
  end.

(** [lseek64(fd, offset, SEEK_SET)]: a block device refuses an offset outside
    of it. *)
Definition lseek64_set (offset : Z) : D Z :=
  let* f := syscall in
  match f with
  | FFail => ret (-1)
  | _ => λ s,
      if (offset <? 0) || (Z.of_nat (length (d_data s)) <? offset) then Some (-1, s)
      else Some (offset, set_pos (Z.to_nat offset) s)
  end.

(** How many bytes a transfer of [len] bytes at the position moves. *)
Definition xfer (f : fault) (len : Z) (s : dev) : nat :=
  let n := Nat.min (Z.to_nat (Z.min len MAX_RW_COUNT)) (length (d_data s) - d_pos s) in
  match f with FShort k => Nat.min k n | _ => n end.

(** [read(fd, buf, len)]: the result and the buffer after the call. *)
Definition sys_read (buf : list Z) (len : Z) : D (Z * list Z) :=
  let* f := syscall in
  match f with
  | FFail => ret (-1, buf)
  | _ => λ s,
      let n := xfer f len s in
      match wr buf 0 (slice (d_data s) (d_pos s) n) with
      | None => None
      | Some buf' => Some ((Z.of_nat n, buf'), set_pos (d_pos s + n) s)
      end
  end.

(** [write(fd, buf, len)]: a write at the end of the device fails. *)
Definition sys_write (buf : list Z) (len : Z) : D Z :=
  let* f := syscall in
  match f with
  | FFail => ret (-1)
  | _ => λ s,
      let n := xfer f len s in
      match rd buf 0 n with
      | None => None
      | Some bs =>
          if (0 <? len) && (length (d_data s) <=? d_pos s)%nat then Some (-1, s)
          else Some (Z.of_nat n,
                     set_pos (d_pos s + n) (set_data (splice (d_data s) (d_pos s) bs) s))
      end
  end.

End syscalls.
