(* ===== verification/Medium.v ===== *)
(** * Medium: what a power cut can leave on a block device

    The medium takes whole blocks.  A device opened with [O_DSYNC] has its writes
    on the medium in their order, so a power cut in the middle of one leaves each
    block as it was before or as it is after that write ([in_order]).  The writes
    of a device opened without it stay in the page cache, which writes blocks
    back when and in the order it likes until [fsync]: a power cut leaves each block
    in any of the versions it had since ([mixed] over all of them). *)

From S2P Require Import Prelude Kernel.

(** Block [i] of a content. *)
Definition sector (B i : nat) (l : list Z) : list Z := slice l (i * B) B.

(** Every block of [c] is that block of one of the versions [vs]. *)
Definition mixed (B : nat) (vs : list (list Z)) (c : list Z) : Prop :=
  Forall (λ v, length v = length c) vs ∧
  Forall (λ i, Exists (λ v, sector B i c = sector B i v) vs) (seq 0 (length c / B)).

#[global] Instance mixed_dec B vs c : Decision (mixed B vs c).
Proof. unfold mixed. apply _. Defined.

(** A power cut when the writes reach the medium in order; [imgs] are the
    contents before each write, the latest first. *)
Fixpoint in_order (B : nat) (imgs : list (list Z)) (c : list Z) : Prop :=
  match imgs with
  | [] => False
  | new :: olds => mixed B (new :: take 1 olds) c ∨ in_order B olds c
  end.

(** The versions of a device since its first [k] writes were on the medium. *)
Definition since (k : nat) (d : dev) : list (list Z) :=
  take (S (length (d_images d) - k)) (images d).

(** What a power cut can leave of a device whose first [k] writes are on the
    medium, given how it was opened. *)
Definition power_cut (B k : nat) (d : dev) (c : list Z) : Prop :=
  if d_dsync d then in_order B (since k d) c else mixed B (since k d) c.

Lemma since_synced d : since (length (d_images d)) d = [d_data d].
Proof. unfold since, images. rewrite Nat.sub_diag. cbn [take]. by destruct (d_images d). Qed.

Lemma slice_eq_lookup (x y : list Z) off m p :
  slice x off m = slice y off m → (off ≤ p)%nat → (p < off + m)%nat → x !! p = y !! p.
Proof.
  intros E H1 H2. apply (f_equal (λ l, l !! (p - off)%nat)) in E. rewrite !lookup_slice in E.
  replace (off + (p - off))%nat with p in E by lia. revert E. by zbool.
Qed.

Section mixed.
Context (B : nat) (vs : list (list Z)) (c : list Z).
Hypothesis HB : (0 < B)%nat.
Hypothesis Hmod : Nat.divide B (length c).
Hypothesis Hm : mixed B vs c.

Lemma mixed_sector i :
  (i * B < length c)%nat → ∃ v, v ∈ vs ∧ length v = length c ∧ sector B i c = sector B i v.
Proof.
  intros Hi. destruct Hm as [Hlen Hs], Hmod as [k Hk].
  rewrite Forall_forall in Hlen. rewrite Forall_forall in Hs.
  specialize (Hs i). rewrite Exists_exists in Hs. destruct Hs as (v & Hv & E); [|by eauto].
  apply elem_of_seq. rewrite Hk, Nat.div_mul by lia. nia.
Qed.

Lemma mixed_lookup p :
  (p < length c)%nat → ∃ v, v ∈ vs ∧ length v = length c ∧ c !! p = v !! p.
Proof.
  intros Hp. pose proof (Nat.div_mod p B ltac:(lia)) as Hd.
  pose proof (Nat.mod_upper_bound p B ltac:(lia)) as Hr.
  destruct (mixed_sector (p / B)) as (v & Hv & Hl & E); [nia|].
  exists v. split; [done|]. split; [done|].
  apply (slice_eq_lookup _ _ _ _ _ E); lia.
Qed.

(** What all versions agree on is kept. *)
Lemma mixed_slice w off m :
  (off + m ≤ length c)%nat → Forall (λ v, slice v off m = w) vs → length w = m →
  slice c off m = w.
Proof.
  intros Hb Hw Hl. apply list_eq. intros i. rewrite lookup_slice. zcase.
  - destruct (mixed_lookup (off + i)) as (v & Hv & _ & ->); [lia|].
    rewrite Forall_forall in Hw. rewrite <- (Hw v Hv), lookup_slice. by zbool.
  - symmetry. apply lookup_ge_None_2. lia.
Qed.

(** Versions that differ in one block only: the content is one of them. *)
Lemma mixed_one_sector i a b :
  vs = [b; a] → (i * B + B ≤ length c)%nat →
  (∀ p, (p < i * B ∨ i * B + B ≤ p)%nat → b !! p = a !! p) → c = a ∨ c = b.
Proof.
  intros Hvs Hi Hab.
  assert (∀ v, v ∈ vs → length v = length c →
    (∀ p, (p < i * B ∨ i * B + B ≤ p)%nat → v !! p = a !! p)) as Hout.
  { intros v Hv _ p Hp. subst vs. set_unfold in Hv. destruct Hv as [->|[->|[]]]; auto. }
  destruct (mixed_sector i) as (v & Hv & Hl & E); [nia|].
  assert (c = v) as ->.
  { apply list_eq. intros p. destruct (decide (p < length c)%nat) as [Hp|Hp].
    2:{ by rewrite !lookup_ge_None_2 by lia. }
    destruct (decide (i * B ≤ p ∧ p < i * B + B)%nat) as [Hin|Hin].
    - apply (slice_eq_lookup _ _ _ _ _ E); lia.
    - destruct (mixed_lookup p Hp) as (u & Hu & Hlu & ->).
      rewrite (Hout v), (Hout u); [done|done|done|lia|done|done|lia]. }
  subst vs. set_unfold in Hv. tauto.
Qed.

End mixed.

(** A version is a mixture of any versions of the same length that include it. *)
Lemma mixed_member B vs v :
  v ∈ vs → Forall (λ u, length u = length v) vs → mixed B vs v.
Proof.
  intros Hv Hl. split; [done|]. apply Forall_forall. intros i _. apply Exists_exists. eauto.
Qed.

Lemma mixed_singleton B v c :
  (0 < B)%nat → Nat.divide B (length c) → mixed B [v] c → c = v.
Proof.
  intros HB Hd Hm. pose proof (proj1 Hm) as Hl. rewrite Forall_singleton in Hl.
  assert (slice c 0 (length c) = v) as <-; [|by rewrite slice_all].
  apply (mixed_slice B [v] c HB Hd Hm).
  all: rewrite ?Forall_singleton, <- ?Hl, ?slice_all; done.
Qed.

(** More versions allow more contents. *)
Lemma mixed_mono B vs vs' c :
  vs ⊆ vs' → Forall (λ v, length v = length c) vs' → mixed B vs c → mixed B vs' c.
Proof.
  intros Hs Hl [_ Hm]. split; [done|]. eapply Forall_impl; [exact Hm|]. intros i.
  rewrite !Exists_exists. intros (v & Hv & E). exists v. auto.
Qed.
