(* ===== verification/GptBytes.v ===== *)
(** * GptBytes: the little-endian accessors and the header offsets of
      gpt-utils/gpt-utils.{h,cpp}

    [GET_4_BYTES], [GET_8_BYTES] and [PUT_4_BYTES] are the macros of
    gpt-utils.cpp on a byte buffer, [None] being an access outside it; the
    constants are those of gpt-utils.h. *)

From S2P Require Import Prelude.
From coqutil Require Import Z.bitblast.

(** ** gpt-utils.h: GPT header and partition entry layout *)

Definition GPT_SIGNATURE : list Z := cstring "EFI PART".
Definition HEADER_SIZE_OFFSET : nat := 12.
Definition HEADER_CRC_OFFSET : nat := 16.
Definition PENTRIES_OFFSET : nat := 72.
Definition PARTITION_COUNT_OFFSET : nat := 80.
Definition PENTRY_SIZE_OFFSET : nat := 84.
Definition PARTITION_CRC_OFFSET : nat := 88.
Definition PTN_ENTRY_SIZE : nat := 128.
Definition PARTITION_NAME_OFFSET : nat := 56.
Definition MAX_GPT_NAME_SIZE : nat := 72.

(** ** The accessor macros *)

(** [*((uint8_t * )(ptr))] *)
Definition byte_at (b : list Z) (p : nat) : option Z := u8 <$> b !! p.

Definition GET_4_BYTES (b : list Z) (p : nat) : option Z :=
  b0 ← byte_at b p;
  b1 ← byte_at b (p + 1)%nat;
  b2 ← byte_at b (p + 2)%nat;
  b3 ← byte_at b (p + 3)%nat;
  Some (Z.lor (Z.lor (Z.lor b0 (Z.shiftl b1 8)) (Z.shiftl b2 16)) (Z.shiftl b3 24)).

Definition GET_8_BYTES (b : list Z) (p : nat) : option Z :=
  b0 ← byte_at b p;
  b1 ← byte_at b (p + 1)%nat;
  b2 ← byte_at b (p + 2)%nat;
  b3 ← byte_at b (p + 3)%nat;
  b4 ← byte_at b (p + 4)%nat;
  b5 ← byte_at b (p + 5)%nat;
  b6 ← byte_at b (p + 6)%nat;
  b7 ← byte_at b (p + 7)%nat;
  Some (Z.lor (Z.lor (Z.lor (Z.lor (Z.lor (Z.lor (Z.lor b0
    (Z.shiftl b1 8)) (Z.shiftl b2 16)) (Z.shiftl b3 24)) (Z.shiftl b4 32))
    (Z.shiftl b5 40)) (Z.shiftl b6 48)) (Z.shiftl b7 56)).

(** A one-byte store. *)
Definition store (b : list Z) (p : nat) (v : Z) : option (list Z) :=
  if (p <? length b)%nat then Some (<[p := v]> b) else None.

Definition PUT_4_BYTES (b : list Z) (p : nat) (y : Z) : option (list Z) :=
  b ← store b p (Z.land y 0xff);
  b ← store b (p + 1)%nat (Z.land (Z.shiftr y 8) 0xff);
  b ← store b (p + 2)%nat (Z.land (Z.shiftr y 16) 0xff);
  store b (p + 3)%nat (Z.land (Z.shiftr y 24) 0xff).

(** ** Canonical forms *)

Definition le4 (y : Z) : list Z :=
  [Z.land y 0xff; Z.land (Z.shiftr y 8) 0xff;
   Z.land (Z.shiftr y 16) 0xff; Z.land (Z.shiftr y 24) 0xff].

Lemma length_le4 y : length (le4 y) = 4%nat.
Proof. done. Qed.

Lemma PUT_4_splice b p y :
  (p + 4 ≤ length b)%nat → PUT_4_BYTES b p y = Some (splice b p (le4 y)).
Proof.
  intros Hp. unfold PUT_4_BYTES, store.
  zbool. simpl. rewrite length_insert. zbool. simpl.
  rewrite !length_insert. zbool. simpl. rewrite !length_insert. zbool.
  f_equal. apply list_eq. intros i.
  rewrite lookup_splice by (simpl; lia). rewrite length_le4.
  rewrite !list_lookup_insert, !length_insert. repeat case_decide; zbool;
    try (replace (i - p)%nat with 0%nat by lia); try (replace (i - p)%nat with 1%nat by lia);
    try (replace (i - p)%nat with 2%nat by lia); try (replace (i - p)%nat with 3%nat by lia);
    try done; try lia; zcase; try done; lia.
Qed.

Definition lor4 (b0 b1 b2 b3 : Z) : Z :=
  Z.lor (Z.lor (Z.lor b0 (Z.shiftl b1 8)) (Z.shiftl b2 16)) (Z.shiftl b3 24).

Lemma lor4_le4 y :
  lor4 (u8 (Z.land y 0xff)) (u8 (Z.land (Z.shiftr y 8) 0xff))
    (u8 (Z.land (Z.shiftr y 16) 0xff)) (u8 (Z.land (Z.shiftr y 24) 0xff)) = u32 y.
Proof.
  unfold lor4, wrapu. change 255 with (Z.ones 8).
  rewrite <- !Z.land_ones by lia. Z.bitblast.
Qed.

Lemma lor4_u32 b0 b1 b2 b3 :
  u32 (lor4 (u8 b0) (u8 b1) (u8 b2) (u8 b3)) = lor4 (u8 b0) (u8 b1) (u8 b2) (u8 b3).
Proof. unfold lor4, wrapu. rewrite <- !Z.land_ones by lia. Z.bitblast. Qed.

Lemma byte_at_eq b b' p :
  b !! p = b' !! p → byte_at b p = byte_at b' p.
Proof. unfold byte_at. by intros ->. Qed.

Lemma slice_lookup_eq {A} (b b' : list A) p n k :
  slice b p n = slice b' p n → (k < n)%nat → b !! (p + k)%nat = b' !! (p + k)%nat.
Proof.
  intros He Hk. assert (slice b p n !! k = slice b' p n !! k) as H by by rewrite He.
  rewrite !lookup_slice in H. revert H. by zbool.
Qed.

(** The accessors read the bytes at their address and nothing else. *)
Lemma GET_4_ext b b' p : slice b p 4 = slice b' p 4 → GET_4_BYTES b p = GET_4_BYTES b' p.
Proof.
  intros He. unfold GET_4_BYTES.
  rewrite (byte_at_eq b b' p) by
    (rewrite <- (Nat.add_0_r p); eapply slice_lookup_eq; [done|lia]).
  by rewrite !(byte_at_eq b b' (p + _)) by (eapply slice_lookup_eq; [done|lia]).
Qed.

Lemma GET_8_ext b b' p : slice b p 8 = slice b' p 8 → GET_8_BYTES b p = GET_8_BYTES b' p.
Proof.
  intros He. unfold GET_8_BYTES.
  rewrite (byte_at_eq b b' p) by
    (rewrite <- (Nat.add_0_r p); eapply slice_lookup_eq; [done|lia]).
  by rewrite !(byte_at_eq b b' (p + _)) by (eapply slice_lookup_eq; [done|lia]).
Qed.

Lemma GET_4_is_Some b p : (p + 4 ≤ length b)%nat → is_Some (GET_4_BYTES b p).
Proof.
  intros Hp. unfold GET_4_BYTES, byte_at.
  destruct (lookup_lt_is_Some_2 b p) as [? ->]; [lia|].
  destruct (lookup_lt_is_Some_2 b (p + 1)) as [? ->]; [lia|].
  destruct (lookup_lt_is_Some_2 b (p + 2)) as [? ->]; [lia|].
  destruct (lookup_lt_is_Some_2 b (p + 3)) as [? ->]; [lia|]. by eexists.
Qed.

Lemma GET_4_range b p v : GET_4_BYTES b p = Some v → 0 ≤ v < 2 ^ 32.
Proof.
  unfold GET_4_BYTES, byte_at. intros Hv.
  destruct (b !! p); [|done]. destruct (b !! (p + 1)%nat); [|done].
  destruct (b !! (p + 2)%nat); [|done]. destruct (b !! (p + 3)%nat); [|done].
  simpl in Hv. injection Hv as <-. fold (lor4 (u8 z) (u8 z0) (u8 z1) (u8 z2)).
  rewrite <- lor4_u32. by apply wrapu_range.
Qed.

Lemma lookup_splice_at b p (bs : list Z) k :
  (p + length bs ≤ length b)%nat → (k < length bs)%nat →
  splice b p bs !! (p + k)%nat = bs !! k.
Proof. intros. rewrite lookup_splice by lia. zbool. f_equal. lia. Qed.

(** What [PUT_4_BYTES] stores, [GET_4_BYTES] reads back at 32 bits. *)
Lemma GET_4_splice b p y :
  (p + 4 ≤ length b)%nat → GET_4_BYTES (splice b p (le4 y)) p = Some (u32 y).
Proof.
  intros Hp. unfold GET_4_BYTES, byte_at.
  replace (splice b p (le4 y) !! p) with (splice b p (le4 y) !! (p + 0)%nat)
    by (f_equal; lia).
  rewrite !lookup_splice_at by (simpl; lia). simpl. f_equal. apply lor4_le4.
Qed.

Lemma GET_4_splice_disj b p q bs :
  (q + length bs ≤ length b)%nat → (p + 4 ≤ q ∨ q + length bs ≤ p)%nat →
  GET_4_BYTES (splice b q bs) p = GET_4_BYTES b p.
Proof. intros. apply GET_4_ext. by apply slice_splice_disj. Qed.

Lemma GET_8_splice_disj b p q bs :
  (q + length bs ≤ length b)%nat → (p + 8 ≤ q ∨ q + length bs ≤ p)%nat →
  GET_8_BYTES (splice b q bs) p = GET_8_BYTES b p.
Proof. intros. apply GET_8_ext. by apply slice_splice_disj. Qed.
