(* ===== verification/GptTable.v ===== *)
(** * GptTable: searching and swapping partition entries
      (gpt-utils/gpt-utils.cpp, [gpt_pentry_seek] and [gpt_boot_chain_swap])

    The C functions walk the partition entries array with byte pointers; here
    a pointer is an offset into the array [arr].  The abstract view of the
    array is the list of its 128-byte entries: [find_from] and [swap_spec] are
    the specification on that list, and [gpt_pentry_seek_refines] and
    [gpt_boot_chain_swap_refines] show that the pointer code implements it. *)

From S2P Require Import Prelude GptBytes.

Module Table.

Definition BAK_PTN_NAME_EXT : string := "bak".
Definition PTN_XBL : string := "xbl".
Definition PTN_XBL_CFG : string := "xbl_config".
Definition PTN_MULTIIMGOEM : string := "multiimgoem".
Definition PTN_MULTIIMGQTI : string := "multiimgqti".

Definition PTN_SWAP_LIST : list string :=
  [PTN_XBL; PTN_XBL_CFG; PTN_MULTIIMGOEM; PTN_MULTIIMGQTI; "sbl1"; "rpm"; "tz";
   "aboot"; "abl"; "hyp"; "lksecapp"; "keymaster"; "cmnlib"; "cmnlib32";
   "cmnlib64"; "pmic"; "apdp"; "devcfg"; "hosd"; "keystore"; "msadp"; "mdtp";
   "mdtpsecapp"; "dsp"; "aop"; "qupfw"; "vbmeta"; "dtbo"; "imagefv"; "ImageFv";
   "vm-bootsys"; "shrm"; "cpucp"]%string.

(** ** The C code *)

(** The local array [name8]: every second byte of the UTF-16 name, and the
    zeros it was initialised with. *)
Definition name8 (arr : list Z) (pentry_name : nat) : option (list Z) :=
  raw ← mapM (λ i, byte_at arr (pentry_name + i * 2)%nat)
             (seq 0 (MAX_GPT_NAME_SIZE / 2));
  Some (raw ++ replicate (MAX_GPT_NAME_SIZE / 2) 0).

(** The test of the loop body: the name itself or the name with the backup
    extension. *)
Definition name_matches (ptn_name : list Z) (len : nat) (n8 : list Z) : option bool :=
  eq ← strncmp_eq ptn_name n8 len;
  if eq : bool then
    c ← n8 !! len;
    if c =? 0 then Some true
    else strcmp_eq (drop len n8) (cstring BAK_PTN_NAME_EXT)
  else Some false.

Fixpoint seek_loop (fuel : nat) (ptn_name : list Z) (len : nat) (arr : list Z)
    (pentry_name pentries_end pentry_size : nat) : option (option nat) :=
  match fuel with
  | O => None
  | S fuel' =>
      if (pentry_name <? pentries_end)%nat then
        n8 ← name8 arr pentry_name;
        m ← name_matches ptn_name len n8;
        if m : bool then Some (Some (pentry_name - PARTITION_NAME_OFFSET)%nat)
        else seek_loop fuel' ptn_name len arr (pentry_name + pentry_size)
               pentries_end pentry_size
      else Some None
  end.

Definition gpt_pentry_seek (ptn_name : list Z) (arr : list Z)
    (pentries_start pentries_end pentry_size : nat) : option (option nat) :=
  let len := length (cchars ptn_name) in
  seek_loop (S (length arr)) ptn_name len arr
    (pentries_start + PARTITION_NAME_OFFSET) pentries_end pentry_size.

(** [!strncmp(name, PTN_XBL, strlen(PTN_XBL)) || ...]: swapped by switching
    the boot LUN on a UFS device. *)
Definition has_prefix (p s : string) : option bool :=
  strncmp_eq (cstring s) (cstring p) (length (bytes p)).

Definition is_xbl_family (ptn : string) : option bool :=
  a ← has_prefix PTN_XBL ptn;
  if a : bool then Some true else
  b ← has_prefix PTN_MULTIIMGOEM ptn;
  if b : bool then Some true else
  has_prefix PTN_MULTIIMGQTI ptn.

(** One iteration of the loop over [ptn_swap_list]. *)
Definition swap_iter (is_ufs : bool) (pentries_start pentries_end pentry_size : nat)
    (st : Z * list Z) (ptn : string) : option (Z * list Z) :=
  let '(backup_not_found, arr) := st in
  fam ← is_xbl_family ptn;
  if is_ufs && fam then Some st else
  ptn_entry ← gpt_pentry_seek (cstring ptn) arr pentries_start pentries_end pentry_size;
  match ptn_entry with
  | None => Some st
  | Some p =>
      ptn_bak_entry ← gpt_pentry_seek (cstring ptn) arr (p + pentry_size)
                        pentries_end pentry_size;
      match ptn_bak_entry with
      | None => Some st
      | Some q =>
          ptn_swap ← rd arr p PTN_ENTRY_SIZE;
          bak ← rd arr q PTN_ENTRY_SIZE;
          arr ← wr arr p bak;
          arr ← wr arr q ptn_swap;
          Some (0, arr)
      end
  end.

Fixpoint swap_loop (is_ufs : bool) (pentries_start pentries_end pentry_size : nat)
    (names : list string) (st : Z * list Z) : option (Z * list Z) :=
  match names with
  | [] => Some st
  | ptn :: names' =>
      st' ← swap_iter is_ufs pentries_start pentries_end pentry_size st ptn;
      swap_loop is_ufs pentries_start pentries_end pentry_size names' st'
  end.

(** The return value and the array after the call. *)
Definition gpt_boot_chain_swap (is_ufs : bool) (arr : list Z)
    (pentries_start pentries_end pentry_size : nat) : option (Z * list Z) :=
  swap_loop is_ufs pentries_start pentries_end pentry_size PTN_SWAP_LIST (1, arr).

(** ** The specification on the list of entries *)

Definition entry_ok (e : list Z) : Prop := length e = PTN_ENTRY_SIZE.

(** The characters of an entry's name. *)
Definition entry_name (e : list Z) : list Z :=
  cchars (map (λ i, u8 (default 0 (e !! (PARTITION_NAME_OFFSET + i * 2)%nat)))
              (seq 0 (MAX_GPT_NAME_SIZE / 2))).

(** An entry belongs to partition [ptn] when its name is [ptn] or [ptn]bak. *)
Definition ptn_match (ptn : string) (e : list Z) : Prop :=
  entry_name e = bytes ptn ∨ entry_name e = bytes ptn ++ bytes BAK_PTN_NAME_EXT.
#[global] Instance ptn_match_dec ptn e : Decision (ptn_match ptn e).
Proof. unfold ptn_match. apply _. Defined.

(** The first entry at or after index [k] that belongs to [ptn]. *)
Definition find_from (k : nat) (ptn : string) (es : list (list Z)) : option nat :=
  (λ p, k + p.1)%nat <$> list_find (ptn_match ptn) (drop k es).

Definition swap_at (i j : nat) (es : list (list Z)) : list (list Z) :=
  match es !! i, es !! j with
  | Some a, Some b => <[j := a]> (<[i := b]> es)
  | _, _ => es
  end.

(** The two entries a partition's swap exchanges. *)
Definition swap_pair (ptn : string) (es : list (list Z)) : option (nat * nat) :=
  match find_from 0 ptn es with
  | None => None
  | Some i =>
      match find_from (S i) ptn es with None => None | Some j => Some (i, j) end
  end.

Definition swap_one (es : list (list Z)) (ptn : string) : list (list Z) :=
  match swap_pair ptn es with None => es | Some (i, j) => swap_at i j es end.

(** The partitions [gpt_boot_chain_swap] considers. *)
Definition skipped (is_ufs : bool) (ptn : string) : bool :=
  is_ufs && default false (is_xbl_family ptn).
Definition swap_names (is_ufs : bool) : list string :=
  filter (λ p, skipped is_ufs p = false) PTN_SWAP_LIST.

Definition swap_spec (is_ufs : bool) (es : list (list Z)) : list (list Z) :=
  fold_left swap_one (swap_names is_ufs) es.

(** ** The pointer code implements the specification *)

Lemma bak_nonzero : nonzero (bytes BAK_PTN_NAME_EXT).
Proof. unfold nonzero. apply (bool_decide_unpack _). vm_compute. done. Qed.

Lemma swap_list_nonzero : Forall (λ p, nonzero (bytes p)) PTN_SWAP_LIST.
Proof. unfold nonzero. apply (bool_decide_unpack _). vm_compute. done. Qed.

(** The loop's test decides whether the array holds the name or the name with
    the backup extension. *)
Lemma name_matches_cchars w n8 :
  nonzero w → 0 ∈ n8 →
  name_matches (w ++ [0]) (length w) n8 =
    Some (bool_decide (cchars n8 = w ∨ cchars n8 = w ++ bytes BAK_PTN_NAME_EXT)).
Proof.
  intros Hw H0. unfold name_matches.
  rewrite strncmp_eq_take by done. cbn [mbind option_bind].
  destruct (bool_decide_reflect (take (length w) n8 = w)) as [Ht|Ht].
  - assert (∃ t, n8 = w ++ t) as [t ->].
    { exists (drop (length w) n8). rewrite <- Ht at 1. by rewrite take_drop. }
    clear Ht. apply elem_of_app in H0 as [H0|H0].
    { unfold nonzero in Hw. rewrite Forall_forall in Hw. by destruct (Hw 0). }
    rewrite lookup_app_r, Nat.sub_diag, drop_app_length by lia.
    destruct t as [|c t]; [by apply not_elem_of_nil in H0|].
    cbn [lookup list_lookup mbind option_bind].
    rewrite cchars_nonzero_app by done.
    destruct (Z.eqb_spec c 0) as [->|Hc].
    + symmetry. apply f_equal, bool_decide_eq_true. left. simpl. by rewrite app_nil_r.
    + unfold cstring. rewrite strcmp_eq_cchars by (done || apply bak_nonzero).
      apply f_equal, bool_decide_ext. split; [intros ->; by right|].
      intros [E|E]; [|by apply app_inv_head in E].
      apply (f_equal length) in E. rewrite length_app in E. simpl in E.
      destruct (Z.eqb_spec c 0); [lia|]. simpl in E. lia.
  - apply f_equal. symmetry. apply bool_decide_eq_false. intros [E|E]; apply Ht.
    + rewrite <- (app_nil_r w) in E at 1. by apply take_cchars_prefix in E.
    + by apply take_cchars_prefix in E.
Qed.

(** ** Offsets of entries in the array *)

#[local] Arguments Nat.mul : simpl never.
#[local] Arguments PTN_ENTRY_SIZE : simpl never.

Section entries.
Implicit Types es : list (list Z).

Lemma length_concat_entries es :
  Forall entry_ok es → length (concat es) = (PTN_ENTRY_SIZE * length es)%nat.
Proof.
  induction 1 as [|e es He _ IH]; simpl; [done|].
  rewrite length_app, IH, He. unfold PTN_ENTRY_SIZE. lia.
Qed.

Lemma lookup_concat_entries es i e k :
  Forall entry_ok es → es !! i = Some e → (k < PTN_ENTRY_SIZE)%nat →
  concat es !! (PTN_ENTRY_SIZE * i + k)%nat = e !! k.
Proof.
  intros Hes. revert i. induction Hes as [|e0 es He0 _ IH]; intros i Hi Hk; [done|].
  destruct i as [|i]; simpl in *.
  - injection Hi as ->.
    rewrite ?Nat.mul_0_r. apply lookup_app_l. by rewrite He0.
  - rewrite lookup_app_r by (rewrite He0; unfold PTN_ENTRY_SIZE; lia).
    rewrite <- (IH i Hi Hk). f_equal. rewrite He0. unfold PTN_ENTRY_SIZE. lia.
Qed.

Lemma slice_concat_entries es i e :
  Forall entry_ok es → es !! i = Some e →
  slice (concat es) (PTN_ENTRY_SIZE * i) PTN_ENTRY_SIZE = e.
Proof.
  intros Hes Hi. pose proof (Forall_lookup_1 _ _ _ _ Hes Hi) as He.
  apply list_eq. intros k. rewrite lookup_slice. zcase.
  - by apply lookup_concat_entries.
  - symmetry. apply lookup_ge_None. rewrite He. lia.
Qed.

Lemma splice_concat_entries es i e :
  Forall entry_ok es → (i < length es)%nat → entry_ok e →
  splice (concat es) (PTN_ENTRY_SIZE * i) e = concat (<[i := e]> es).
Proof.
  intros Hes. revert i. induction Hes as [|e0 es He0 _ IH]; intros i Hi He;
    cbn [length concat] in *; [lia|].
  unfold splice. rewrite He. unfold entry_ok in *. destruct i as [|i].
  - rewrite Nat.mul_0_r. simpl. by rewrite <- He0, drop_app_length.
  - change (concat (<[S i:=e]> (e0 :: es))) with (e0 ++ concat (<[i:=e]> es)).
    rewrite <- (IH i) by (done || lia). unfold splice. rewrite He.
    replace (PTN_ENTRY_SIZE * S i)%nat with (length e0 + PTN_ENTRY_SIZE * i)%nat
      by (rewrite He0; unfold PTN_ENTRY_SIZE; lia).
    rewrite take_app_add, <- app_assoc. do 3 f_equal.
    replace (length e0 + PTN_ENTRY_SIZE * i + PTN_ENTRY_SIZE)%nat
      with (length e0 + (PTN_ENTRY_SIZE * i + PTN_ENTRY_SIZE))%nat by lia.
    by rewrite drop_app_add.
Qed.

Lemma name8_entry es i e :
  Forall entry_ok es → es !! i = Some e →
  ∃ raw, name8 (concat es) (PTN_ENTRY_SIZE * i + PARTITION_NAME_OFFSET) =
           Some (raw ++ replicate (MAX_GPT_NAME_SIZE / 2) 0) ∧
         cchars raw = entry_name e.
Proof.
  intros Hes Hi. pose proof (Forall_lookup_1 _ _ _ _ Hes Hi) as He.
  unfold name8, entry_name.
  set (raw := map (λ j, u8 (default 0 (e !! (PARTITION_NAME_OFFSET + j * 2)%nat)))
                  (seq 0 (MAX_GPT_NAME_SIZE / 2))).
  exists raw. split; [|done].
  assert (mapM (λ j, byte_at (concat es)
            (PTN_ENTRY_SIZE * i + PARTITION_NAME_OFFSET + j * 2)%nat)
            (seq 0 (MAX_GPT_NAME_SIZE / 2)) = Some raw) as ->; [|done].
  apply mapM_map_Some, Forall_seq. intros j [_ Hj]. change (0 + MAX_GPT_NAME_SIZE / 2)%nat with 36%nat in Hj.
  unfold byte_at. rewrite <- Nat.add_assoc.
  rewrite (lookup_concat_entries es i e) by
    (done || unfold PARTITION_NAME_OFFSET, PTN_ENTRY_SIZE; lia).
  destruct (lookup_lt_is_Some_2 e (PARTITION_NAME_OFFSET + j * 2)) as [x ->]; [|done].
  rewrite He. unfold PARTITION_NAME_OFFSET, PTN_ENTRY_SIZE. lia.
Qed.

Lemma find_from_step ptn es k e :
  es !! k = Some e →
  find_from k ptn es =
    if decide (ptn_match ptn e) then Some k else find_from (S k) ptn es.
Proof.
  intros Hk. unfold find_from. rewrite (drop_S _ _ _ Hk). simpl.
  case_decide; simpl; [by rewrite Nat.add_0_r|].
  rewrite <- option_fmap_compose. apply option_fmap_ext.
  intros [j x]. simpl. lia.
Qed.

Lemma find_from_end ptn es k : (length es ≤ k)%nat → find_from k ptn es = None.
Proof. intros. unfold find_from. by rewrite drop_ge. Qed.

Lemma find_from_Some ptn es k i :
  find_from k ptn es = Some i →
  (k ≤ i)%nat ∧ ∃ e, es !! i = Some e ∧ ptn_match ptn e ∧
    ∀ j e', (k ≤ j < i)%nat → es !! j = Some e' → ¬ ptn_match ptn e'.
Proof.
  unfold find_from. intros Hf.
  apply fmap_Some in Hf as ([j e] & Hl & ->). apply list_find_Some in Hl as (Hj & Hm & Hb).
  rewrite lookup_drop in Hj. simpl. split; [lia|]. exists e. split_and!; [done..|].
  intros j' e' Hj' He'. apply (Hb (j' - k)%nat e'); [|lia].
  rewrite lookup_drop. rewrite <- He'. f_equal. lia.
Qed.

Lemma seek_loop_refines ptn es k fuel :
  nonzero (bytes ptn) → Forall entry_ok es →
  (k ≤ length es)%nat → (length es - k < fuel)%nat →
  seek_loop fuel (cstring ptn) (length (bytes ptn)) (concat es)
    (PTN_ENTRY_SIZE * k + PARTITION_NAME_OFFSET) (PTN_ENTRY_SIZE * length es) PTN_ENTRY_SIZE
  = Some (Nat.mul PTN_ENTRY_SIZE <$> find_from k ptn es).
Proof.
  intros Hp Hes. revert k. induction fuel as [|fuel IH]; intros k Hk Hf; [lia|].
  cbn [seek_loop]. destruct (Nat.ltb_spec (PTN_ENTRY_SIZE * k + PARTITION_NAME_OFFSET)
    (PTN_ENTRY_SIZE * length es)) as [Hlt|Hge].
  - destruct (lookup_lt_is_Some_2 es k) as [e He].
    { unfold PTN_ENTRY_SIZE, PARTITION_NAME_OFFSET in *. lia. }
    destruct (name8_entry es k e) as (raw & -> & Hraw); [done..|].
    cbn [mbind option_bind]. unfold cstring. rewrite name_matches_cchars; [|done|].
    2:{ apply elem_of_app. right. apply elem_of_replicate. by split. }
    rewrite cchars_app_zeros, Hraw. cbn [mbind option_bind].
    rewrite (find_from_step ptn es k e He).
    rewrite (bool_decide_ext _ (ptn_match ptn e)) by done.
    destruct (decide (ptn_match ptn e)) as [Hm|Hm].
    + rewrite bool_decide_true by done. cbn [fmap option_fmap option_map].
      by rewrite Nat.add_sub.
    + rewrite bool_decide_false by done.
      rewrite <- IH by (apply lookup_lt_Some in He; lia). f_equal. lia.
  - rewrite find_from_end; [done|].
    unfold PTN_ENTRY_SIZE, PARTITION_NAME_OFFSET in *. lia.
Qed.

(** Searching the array from entry [k] finds the first entry at or after [k]
    that carries the name or its backup twin, and runs to an end. *)
Lemma seek_refines ptn es k :
  nonzero (bytes ptn) → Forall entry_ok es → (k ≤ length es)%nat →
  gpt_pentry_seek (cstring ptn) (concat es) (PTN_ENTRY_SIZE * k)
    (PTN_ENTRY_SIZE * length es) PTN_ENTRY_SIZE
  = Some (Nat.mul PTN_ENTRY_SIZE <$> find_from k ptn es).
Proof.
  intros Hp Hes Hk. unfold gpt_pentry_seek.
  replace (cchars (cstring ptn)) with (bytes ptn).
  - apply seek_loop_refines; try done.
    rewrite length_concat_entries by done. unfold PTN_ENTRY_SIZE. lia.
  - unfold cstring. rewrite cchars_nonzero_app by done. simpl. by rewrite app_nil_r.
Qed.

Lemma swap_pair_Some ptn es i j :
  swap_pair ptn es = Some (i, j) →
  (i < j)%nat ∧ find_from 0 ptn es = Some i ∧ find_from (S i) ptn es = Some j ∧
  ∃ a b, es !! i = Some a ∧ es !! j = Some b ∧ ptn_match ptn a ∧ ptn_match ptn b.
Proof.
  unfold swap_pair. destruct (find_from 0 ptn es) as [i'|] eqn:E1; [|done].
  destruct (find_from (S i') ptn es) as [j'|] eqn:E2; [|done]. intros [= -> ->].
  pose proof (find_from_Some _ _ _ _ E1) as (_ & a & Ha & Hma & _).
  pose proof (find_from_Some _ _ _ _ E2) as (Hij & b & Hb & Hmb & _).
  split; [lia|]. eauto 10.
Qed.

Lemma swap_at_ok i j es : Forall entry_ok es → Forall entry_ok (swap_at i j es).
Proof.
  intros Hes. unfold swap_at. destruct (es !! i) eqn:Ei; [|done].
  destruct (es !! j) eqn:Ej; [|done]. rewrite Forall_lookup in Hes.
  apply Forall_insert; [apply Forall_insert|]; eauto. by apply Forall_lookup.
Qed.

Lemma swap_one_ok es ptn : Forall entry_ok es → Forall entry_ok (swap_one es ptn).
Proof. intros. unfold swap_one. repeat case_match; auto using swap_at_ok. Qed.

Lemma length_swap_at i j es : length (swap_at i j es) = length es.
Proof. unfold swap_at. repeat case_match; rewrite ?length_insert; done. Qed.

Lemma length_swap_one es ptn : length (swap_one es ptn) = length es.
Proof. unfold swap_one. repeat case_match; rewrite ?length_swap_at; done. Qed.

(** One iteration of the C loop exchanges the pair of the specification. *)
Lemma swap_iter_refines is_ufs r es ptn :
  nonzero (bytes ptn) → is_Some (is_xbl_family ptn) → Forall entry_ok es →
  swap_iter is_ufs 0 (PTN_ENTRY_SIZE * length es) PTN_ENTRY_SIZE (r, concat es) ptn =
    Some (if skipped is_ufs ptn then (r, concat es)
          else (if decide (is_Some (swap_pair ptn es)) then 0 else r,
                concat (swap_one es ptn))).
Proof.
  intros Hp [fam Hfam] Hes. unfold swap_iter, skipped. rewrite Hfam. cbn [mbind option_bind from_option id].
  destruct (is_ufs && fam); [done|].
  pose proof (seek_refines ptn es 0 Hp Hes (Nat.le_0_l _)) as Hs0.
  rewrite Nat.mul_0_r in Hs0. rewrite Hs0. cbn [mbind option_bind].
  unfold swap_one, swap_pair.
  destruct (find_from 0 ptn es) as [i|] eqn:Ei; cbn [fmap option_fmap option_map];
    [|by rewrite decide_False by (intros [? ?]; done)].
  pose proof (find_from_Some _ _ _ _ Ei) as (_ & a & Ha & _).
  replace (PTN_ENTRY_SIZE * i + PTN_ENTRY_SIZE)%nat with (PTN_ENTRY_SIZE * S i)%nat by lia.
  rewrite (seek_refines ptn es (S i)) by (done || apply lookup_lt_Some in Ha; lia).
  cbn [mbind option_bind].
  destruct (find_from (S i) ptn es) as [j|] eqn:Ej; cbn [fmap option_fmap option_map];
    [|by rewrite decide_False by (intros [? ?]; done)].
  pose proof (find_from_Some _ _ _ _ Ej) as (Hij & b & Hb & _).
  rewrite decide_True by eauto.
  pose proof (lookup_lt_Some _ _ _ Ha) as Hi. pose proof (lookup_lt_Some _ _ _ Hb) as Hj.
  pose proof (Forall_lookup_1 _ _ _ _ Hes Ha) as Hoa.
  pose proof (Forall_lookup_1 _ _ _ _ Hes Hb) as Hob.
  pose proof (length_concat_entries _ Hes) as Hlen.
  assert (∀ k, k < length es →
    PTN_ENTRY_SIZE * k + PTN_ENTRY_SIZE ≤ PTN_ENTRY_SIZE * length es)%nat as Hk
    by (unfold PTN_ENTRY_SIZE; lia).
  rewrite !rd_Some by (rewrite Hlen; auto). cbn [mbind option_bind].
  rewrite (slice_concat_entries es i a), (slice_concat_entries es j b) by done.
  rewrite wr_Some by (rewrite Hlen, Hob; auto). cbn [mbind option_bind].
  rewrite splice_concat_entries by done.
  rewrite wr_Some.
  - cbn [mbind option_bind]. rewrite splice_concat_entries.
    + unfold swap_at. by rewrite Ha, Hb.
    + by apply Forall_insert.
    + by rewrite length_insert.
    + done.
  - rewrite length_concat_entries, length_insert, Hoa by (by apply Forall_insert). auto.
Qed.

(** ** Which partition an entry belongs to is not changed by a swap *)

(** No entry belongs to two partitions of the list. *)
Lemma ptn_match_disjoint p q e :
  p ∈ PTN_SWAP_LIST → q ∈ PTN_SWAP_LIST → p ≠ q → ptn_match p e → ¬ ptn_match q e.
Proof.
  intros Hp Hq Hne.
  assert (Forall (λ p, Forall (λ q, p ≠ q →
    bytes p ≠ bytes q ∧ bytes p ≠ bytes q ++ bytes BAK_PTN_NAME_EXT ∧
    bytes p ++ bytes BAK_PTN_NAME_EXT ≠ bytes q) PTN_SWAP_LIST) PTN_SWAP_LIST) as Hall.
  { apply (bool_decide_unpack _). vm_compute. done. }
  rewrite Forall_forall in Hall. specialize (Hall p Hp). rewrite Forall_forall in Hall.
  destruct (Hall q Hq Hne) as (H1 & H2 & H3). unfold ptn_match.
  intros [E1|E1] [E2|E2]; rewrite E1 in E2; try done. by apply app_inv_tail in E2.
Qed.

Definition same_owner (ptn : string) (e e' : list Z) : Prop :=
  ptn_match ptn e ↔ ptn_match ptn e'.

(** Two arrays in which every position belongs to the same partition. *)
Definition same_owners es es' : Prop :=
  ∀ ptn, ptn ∈ PTN_SWAP_LIST → Forall2 (same_owner ptn) es es'.

#[global] Instance same_owners_equiv : Equivalence same_owners.
Proof.
  split.
  - intros es p _. apply Forall_Forall2_diag, Forall_forall. by intros.
  - intros es es' H p Hp. apply Forall2_flip. eapply Forall2_impl; [by apply H|].
    intros ? ? [? ?]. by split.
  - intros a b c H1 H2 p Hp. specialize (H1 p Hp). specialize (H2 p Hp).
    eapply Forall2_trans; [|done..]. unfold same_owner. intros. by etrans.
Qed.

Lemma find_from_owner ptn k es es' :
  Forall2 (same_owner ptn) es es' → find_from k ptn es = find_from k ptn es'.
Proof.
  intros H0. assert (Forall2 (same_owner ptn) (drop k es) (drop k es')) as H
    by (by apply Forall2_drop). clear H0. unfold find_from.
  revert H. generalize (drop k es), (drop k es').
  intros l l' H. enough (fst <$> list_find (ptn_match ptn) l =
    fst <$> list_find (ptn_match ptn) l') as He.
  { destruct (list_find (ptn_match ptn) l) as [[? ?]|],
      (list_find (ptn_match ptn) l') as [[? ?]|]; simpl in *; naive_solver. }
  induction H as [|e e' l l' He _ IH]; simpl; [done|]. unfold same_owner in He.
  destruct (decide (ptn_match ptn e)), (decide (ptn_match ptn e')); try tauto.
  clear He. destruct (list_find (ptn_match ptn) l) as [[? ?]|],
    (list_find (ptn_match ptn) l') as [[? ?]|]; simpl in *; congruence.
Qed.

Lemma swap_pair_owners ptn es es' :
  ptn ∈ PTN_SWAP_LIST → same_owners es es' → swap_pair ptn es = swap_pair ptn es'.
Proof.
  intros Hp H. unfold swap_pair. rewrite (find_from_owner ptn 0 es es') by auto.
  case_match; [|done]. by rewrite (find_from_owner ptn _ es es') by auto.
Qed.

Lemma lookup_swap_at i j es k :
  (i < length es)%nat → (j < length es)%nat → i ≠ j →
  swap_at i j es !! k =
    if decide (k = i) then es !! j else if decide (k = j) then es !! i else es !! k.
Proof.
  intros Hi Hj Hij. unfold swap_at.
  destruct (lookup_lt_is_Some_2 es i Hi) as [a Ha].
  destruct (lookup_lt_is_Some_2 es j Hj) as [b Hb]. rewrite Ha, Hb.
  rewrite !list_lookup_insert, length_insert.
  repeat case_decide; subst; try done; try lia; naive_solver.
Qed.

Lemma swap_one_owners es p : p ∈ PTN_SWAP_LIST → same_owners es (swap_one es p).
Proof.
  intros Hp q Hq. unfold swap_one. destruct (swap_pair p es) as [[i j]|] eqn:E.
  2:{ apply Forall_Forall2_diag, Forall_forall. by intros. }
  apply swap_pair_Some in E as (Hij & _ & _ & a & b & Ha & Hb & Hma & Hmb).
  assert (same_owner q a b) as Hab.
  { unfold same_owner. destruct (decide (p = q)) as [->|Hne]; [done|].
    split; intros Hm; exfalso; revert Hm;
      apply (ptn_match_disjoint p); assumption. }
  apply Forall2_same_length_lookup_2; [by rewrite length_swap_at|].
  intros k x y Hx. pose proof (lookup_lt_Some _ _ _ Ha). pose proof (lookup_lt_Some _ _ _ Hb).
  rewrite lookup_swap_at by lia. repeat case_decide; subst; intros Hy;
    simplify_eq; unfold same_owner in *; done || by symmetry.
Qed.

Lemma swap_at_invol i j es :
  (i < length es)%nat → (j < length es)%nat → i ≠ j → swap_at i j (swap_at i j es) = es.
Proof.
  intros. apply list_eq. intros k.
  rewrite !lookup_swap_at by (rewrite ?length_swap_at; lia).
  repeat case_decide; subst; done || lia.
Qed.

Lemma swap_one_invol es p : p ∈ PTN_SWAP_LIST → swap_one (swap_one es p) p = es.
Proof.
  intros Hp. pose proof (swap_one_owners es p Hp) as Ho.
  unfold swap_one at 1. rewrite <- (swap_pair_owners p _ _ Hp Ho). unfold swap_one.
  destruct (swap_pair p es) as [[i j]|] eqn:E; [|done].
  apply swap_pair_Some in E as (? & _ & _ & a & b & Ha & Hb & _).
  apply swap_at_invol; [by eapply lookup_lt_Some..|lia].
Qed.

(** The pairs of two partitions have no position in common. *)
Lemma swap_pair_disjoint es p q i j i' j' :
  p ∈ PTN_SWAP_LIST → q ∈ PTN_SWAP_LIST → p ≠ q →
  swap_pair p es = Some (i, j) → swap_pair q es = Some (i', j') →
  i ≠ i' ∧ i ≠ j' ∧ j ≠ i' ∧ j ≠ j'.
Proof.
  intros Hp Hq Hne Ep Eq.
  apply swap_pair_Some in Ep as (_ & _ & _ & a & b & Ha & Hb & Hma & Hmb).
  apply swap_pair_Some in Eq as (_ & _ & _ & a' & b' & Ha' & Hb' & Hma' & Hmb').
  assert (∀ k k' x x', es !! k = Some x → es !! k' = Some x' →
    ptn_match p x → ptn_match q x' → k ≠ k') as Hd.
  { intros k k' x x' Hx Hx' Hm Hm' ->. simplify_eq.
    revert Hm'. by apply (ptn_match_disjoint p). }
  split_and!; eauto.
Qed.

Lemma swap_pair_bounds ptn es i j :
  swap_pair ptn es = Some (i, j) → (i < j)%nat ∧ (j < length es)%nat.
Proof.
  intros E. apply swap_pair_Some in E as (? & _ & _ & a & b & _ & Hb & _).
  split; [done|]. by eapply lookup_lt_Some.
Qed.

Lemma lookup_swap_one es p k :
  swap_one es p !! k =
    match swap_pair p es with
    | None => es !! k
    | Some (i, j) =>
        if decide (k = i) then es !! j else if decide (k = j) then es !! i else es !! k
    end.
Proof.
  unfold swap_one. destruct (swap_pair p es) as [[i j]|] eqn:E; [|done].
  apply swap_pair_bounds in E. apply lookup_swap_at; lia.
Qed.

Lemma swap_one_comm es p q :
  p ∈ PTN_SWAP_LIST → q ∈ PTN_SWAP_LIST → p ≠ q →
  swap_one (swap_one es p) q = swap_one (swap_one es q) p.
Proof.
  intros Hp Hq Hne. apply list_eq. intros k. rewrite !lookup_swap_one.
  rewrite <- (swap_pair_owners q _ _ Hq (swap_one_owners es p Hp)).
  rewrite <- (swap_pair_owners p _ _ Hp (swap_one_owners es q Hq)).
  destruct (swap_pair p es) as [[i j]|] eqn:Ep, (swap_pair q es) as [[i' j']|] eqn:Eq;
    rewrite ?lookup_swap_one, ?Ep, ?Eq; try done.
  destruct (swap_pair_disjoint _ _ _ _ _ _ _ Hp Hq Hne Ep Eq) as (? & ? & ? & ?).
  repeat case_decide; subst; done || lia.
Qed.

(** ** The whole sequence of swaps *)

Lemma swap_list_NoDup : NoDup PTN_SWAP_LIST.
Proof. apply (bool_decide_unpack _). vm_compute. done. Qed.

Lemma swap_names_list is_ufs p : p ∈ swap_names is_ufs → p ∈ PTN_SWAP_LIST.
Proof. unfold swap_names. rewrite list_elem_of_filter. tauto. Qed.

Lemma swap_names_NoDup is_ufs : NoDup (swap_names is_ufs).
Proof. apply NoDup_filter, swap_list_NoDup. Qed.

Lemma swap_fold_owners ns es :
  (∀ p, p ∈ ns → p ∈ PTN_SWAP_LIST) → same_owners es (fold_left swap_one ns es).
Proof.
  revert es. induction ns as [|p ns IH]; intros es Hns; simpl; [done|].
  etrans; [apply (swap_one_owners es p), Hns, list_elem_of_here|].
  apply IH. intros. by apply Hns, list_elem_of_further.
Qed.

Lemma swap_fold_ok ns es :
  Forall entry_ok es → Forall entry_ok (fold_left swap_one ns es).
Proof. revert es. induction ns; intros es H; simpl; auto using swap_one_ok. Qed.

Lemma length_swap_fold ns es : length (fold_left swap_one ns es) = length es.
Proof.
  revert es. induction ns as [|p ns IH]; intros es; simpl; [done|].
  by rewrite IH, length_swap_one.
Qed.

Lemma swap_fold_invol ns es :
  NoDup ns → (∀ p, p ∈ ns → p ∈ PTN_SWAP_LIST) →
  fold_left swap_one ns (fold_left swap_one ns es) = es.
Proof.
  intros Hnd Hns. apply (fold_left_invol _ _ (λ _, True)); auto using swap_one_invol.
  intros. apply swap_one_comm; auto.
Qed.

(** A position outside every pair keeps its entry. *)
Lemma swap_fold_other ns es k :
  (∀ p, p ∈ ns → p ∈ PTN_SWAP_LIST) →
  (∀ p i j, p ∈ ns → swap_pair p es = Some (i, j) → k ≠ i ∧ k ≠ j) →
  fold_left swap_one ns es !! k = es !! k.
Proof.
  revert es. induction ns as [|p ns IH]; intros es Hns Hk; simpl; [done|].
  pose proof (Hns p (list_elem_of_here _ _)) as Hp.
  rewrite IH.
  - rewrite lookup_swap_one. destruct (swap_pair p es) as [[i j]|] eqn:E; [|done].
    destruct (Hk p i j (list_elem_of_here _ _) E). by rewrite !decide_False.
  - intros. by apply Hns, list_elem_of_further.
  - intros q i j Hq. pose proof (Hns q (list_elem_of_further _ _ _ Hq)) as Hq'.
    rewrite <- (swap_pair_owners q _ _ Hq' (swap_one_owners es p Hp)).
    intros E. eapply (Hk q); [by apply list_elem_of_further|done].
Qed.

(** The two entries of a partition's pair are exchanged. *)
Lemma swap_fold_pair ns es p i j :
  NoDup ns → (∀ p, p ∈ ns → p ∈ PTN_SWAP_LIST) →
  p ∈ ns → swap_pair p es = Some (i, j) →
  fold_left swap_one ns es !! i = es !! j ∧ fold_left swap_one ns es !! j = es !! i.
Proof.
  intros Hnd. revert es. induction Hnd as [|q ns Hq _ IH]; intros es Hns Hp E.
  { by apply not_elem_of_nil in Hp. }
  pose proof (Hns q (list_elem_of_here _ _)) as HqL.
  assert (∀ p, p ∈ ns → p ∈ PTN_SWAP_LIST) as Hns'
    by (intros; by apply Hns, list_elem_of_further).
  simpl. apply elem_of_cons in Hp as [->|Hp].
  - assert (∀ k, k = i ∨ k = j →
      fold_left swap_one ns (swap_one es q) !! k = swap_one es q !! k) as Hout.
    { intros k Hk. apply swap_fold_other; [done|]. intros p i' j' Hp.
      rewrite <- (swap_pair_owners p _ _ (Hns' p Hp) (swap_one_owners es q HqL)).
      intros E'. destruct (swap_pair_disjoint es q p i j i' j') as (? & ? & ? & ?);
        auto; [by intros ->|]. destruct Hk; subst; auto. }
    rewrite !Hout, !lookup_swap_one, E by auto.
    apply swap_pair_bounds in E. split; repeat case_decide; done || lia.
  - assert (p ≠ q) as Hne by (by intros ->). pose proof (Hns' p Hp) as HpL.
    pose proof (swap_pair_owners p _ _ HpL (swap_one_owners es q HqL)) as Ho.
    destruct (IH (swap_one es q)) as [H1 H2]; [done..|by rewrite <- Ho|].
    rewrite H1, H2, !lookup_swap_one.
    destruct (swap_pair q es) as [[i' j']|] eqn:E'; [|done].
    destruct (swap_pair_disjoint es p q i j i' j') as (? & ? & ? & ?); auto.
    by rewrite !decide_False.
Qed.

Lemma swap_at_perm i j es :
  (i < length es)%nat → (j < length es)%nat → i ≠ j → swap_at i j es ≡ₚ es.
Proof.
  intros Hi Hj Hij. apply Permutation_inj. rewrite length_swap_at. split; [done|].
  exists (λ k, if decide (k = i) then j else if decide (k = j) then i else k). split.
  - intros a b. repeat case_decide; subst; done || lia.
  - intros k. rewrite lookup_swap_at by done. by repeat case_decide.
Qed.

Lemma swap_fold_perm ns es : fold_left swap_one ns es ≡ₚ es.
Proof.
  revert es. induction ns as [|p ns IH]; intros es; simpl; [done|].
  rewrite IH. unfold swap_one. destruct (swap_pair p es) as [[i j]|] eqn:E; [|done].
  apply swap_pair_bounds in E. apply swap_at_perm; lia.
Qed.

(** Whether some partition of the list has both entries. *)
Definition any_pair (ns : list string) es : Prop := Exists (λ p, is_Some (swap_pair p es)) ns.
#[global] Instance any_pair_dec ns es : Decision (any_pair ns es).
Proof. unfold any_pair. apply _. Defined.

Lemma any_pair_owners ns es es' :
  (∀ p, p ∈ ns → p ∈ PTN_SWAP_LIST) → same_owners es es' → any_pair ns es ↔ any_pair ns es'.
Proof.
  intros Hns Ho. unfold any_pair. rewrite !Exists_exists.
  split; intros (p & Hp & Hs); exists p; split; try done; revert Hs;
    rewrite (swap_pair_owners p es es') by auto; done.
Qed.

Lemma is_xbl_family_total : Forall (λ p, is_Some (is_xbl_family p)) PTN_SWAP_LIST.
Proof. apply (bool_decide_unpack _). vm_compute. done. Qed.

Lemma swap_loop_refines is_ufs ns r es :
  (∀ p, p ∈ ns → p ∈ PTN_SWAP_LIST) → Forall entry_ok es →
  let ns' := filter (λ p, skipped is_ufs p = false) ns in
  swap_loop is_ufs 0 (PTN_ENTRY_SIZE * length es) PTN_ENTRY_SIZE ns (r, concat es) =
    Some (if decide (any_pair ns' es) then 0 else r, concat (fold_left swap_one ns' es)).
Proof.
  revert r es. induction ns as [|p ns IH]; intros r es Hns Hes; cbn [swap_loop].
  { done. }
  pose proof (Hns p (list_elem_of_here _ _)) as Hp.
  assert (∀ p, p ∈ ns → p ∈ PTN_SWAP_LIST) as Hns'
    by (intros; by apply Hns, list_elem_of_further).
  pose proof swap_list_nonzero as Hnz. rewrite Forall_forall in Hnz.
  pose proof is_xbl_family_total as Hfam. rewrite Forall_forall in Hfam.
  rewrite swap_iter_refines by auto. cbn [mbind option_bind].
  destruct (skipped is_ufs p) eqn:Eb.
  - rewrite filter_cons_False by (by rewrite Eb). by apply IH.
  - rewrite filter_cons_True by done. cbn [fold_left].
    replace (PTN_ENTRY_SIZE * length es)%nat
      with (PTN_ENTRY_SIZE * length (swap_one es p))%nat by (by rewrite length_swap_one).
    rewrite IH by auto using swap_one_ok.
    set (ns' := filter _ ns).
    assert (any_pair ns' (swap_one es p) ↔ any_pair ns' es) as Ha.
    { symmetry. apply any_pair_owners; [|by apply swap_one_owners].
      intros q Hq. apply Hns'. unfold ns' in Hq. by apply list_elem_of_filter in Hq as [_ Hq]. }
    assert (any_pair (p :: ns') es ↔ is_Some (swap_pair p es) ∨ any_pair ns' es) as Hc
      by apply Exists_cons.
    destruct (decide (any_pair (p :: ns') es)), (decide (any_pair ns' (swap_one es p))),
      (decide (is_Some (swap_pair p es))); done || tauto.
Qed.

(** C-level summary of [gpt_boot_chain_swap] on an array of entries. *)
Lemma boot_chain_swap_refines is_ufs es :
  Forall entry_ok es →
  gpt_boot_chain_swap is_ufs (concat es) 0 (PTN_ENTRY_SIZE * length es) PTN_ENTRY_SIZE =
    Some (if decide (any_pair (swap_names is_ufs) es) then 0 else 1,
          concat (swap_spec is_ufs es)).
Proof.
  intros Hes. unfold gpt_boot_chain_swap. by rewrite swap_loop_refines.
Qed.

End entries.

(** ** The entries of an array *)

Fixpoint chop (m : nat) (arr : list Z) : list (list Z) :=
  match m with
  | O => []
  | S m' => take PTN_ENTRY_SIZE arr :: chop m' (drop PTN_ENTRY_SIZE arr)
  end.
Definition entries (arr : list Z) : list (list Z) := chop (length arr / PTN_ENTRY_SIZE) arr.

Lemma chop_ok m arr :
  length arr = (PTN_ENTRY_SIZE * m)%nat →
  Forall entry_ok (chop m arr) ∧ length (chop m arr) = m ∧ concat (chop m arr) = arr.
Proof.
  revert arr. induction m as [|m IH]; intros arr Hl; cbn [chop].
  - rewrite Nat.mul_0_r in Hl. destruct arr; [|done]. done.
  - destruct (IH (drop PTN_ENTRY_SIZE arr)) as (H1 & H2 & H3).
    { rewrite length_drop. unfold PTN_ENTRY_SIZE in *. lia. }
    split; [|split].
    + constructor; [|done]. unfold entry_ok. rewrite length_take.
      unfold PTN_ENTRY_SIZE in *. lia.
    + cbn [length]. by rewrite H2.
    + cbn [concat]. rewrite H3. apply take_drop.
Qed.

Lemma entries_ok m arr :
  length arr = (PTN_ENTRY_SIZE * m)%nat →
  Forall entry_ok (entries arr) ∧ length (entries arr) = m ∧ concat (entries arr) = arr.
Proof.
  intros Hl. unfold entries. rewrite Hl, (Nat.mul_comm _ m), Nat.div_mul by done.
  by apply chop_ok.
Qed.

(** The array [gpt_boot_chain_swap] leaves. *)
Definition swapped (is_ufs : bool) (arr : list Z) : list Z :=
  concat (swap_spec is_ufs (entries arr)).
Definition has_pair (is_ufs : bool) (arr : list Z) : Prop :=
  any_pair (swap_names is_ufs) (entries arr).
#[global] Instance has_pair_dec is_ufs arr : Decision (has_pair is_ufs arr).
Proof. unfold has_pair. apply _. Defined.

Lemma length_swapped is_ufs m arr :
  length arr = (PTN_ENTRY_SIZE * m)%nat → length (swapped is_ufs arr) = length arr.
Proof.
  intros Hl. destruct (entries_ok m arr Hl) as (Hok & Hm & _).
  unfold swapped. rewrite length_concat_entries by (by apply swap_fold_ok).
  unfold swap_spec. by rewrite length_swap_fold, Hm.
Qed.

Lemma boot_chain_swap_run is_ufs m arr :
  length arr = (PTN_ENTRY_SIZE * m)%nat →
  gpt_boot_chain_swap is_ufs arr 0 (length arr) PTN_ENTRY_SIZE =
    Some (if decide (has_pair is_ufs arr) then 0 else 1, swapped is_ufs arr).
Proof.
  intros Hl. destruct (entries_ok m arr Hl) as (Hok & Hm & Hc).
  rewrite Hl, <- Hm. rewrite <- Hc at 1. by apply boot_chain_swap_refines.
Qed.

(** ** Theorems *)

(** [gpt_pentry_seek] on an array of 128-byte entries always ends, without
    an access outside the array, and returns the first entry at or after the
    start whose name is the partition name or the name followed by [bak]; it
    returns NULL exactly when there is none. *)
Theorem gpt_pentry_seek_first (ptn : string) (es : list (list Z)) (k : nat)
    (Hptn : nonzero (bytes ptn)) (Hes : Forall entry_ok es) (Hk : (k ≤ length es)%nat) :
  ∃ r, gpt_pentry_seek (cstring ptn) (concat es) (PTN_ENTRY_SIZE * k)
         (PTN_ENTRY_SIZE * length es) PTN_ENTRY_SIZE = Some r ∧
    match r with
    | None => ∀ j e, (k ≤ j)%nat → es !! j = Some e → ¬ ptn_match ptn e
    | Some p => ∃ i e, p = (PTN_ENTRY_SIZE * i)%nat ∧ (k ≤ i)%nat ∧ es !! i = Some e ∧
        ptn_match ptn e ∧
        ∀ j e', (k ≤ j < i)%nat → es !! j = Some e' → ¬ ptn_match ptn e'
    end.
Proof.
  eexists. split; [by apply seek_refines|].
  destruct (find_from k ptn es) as [i|] eqn:E; cbn [fmap option_fmap option_map].
  - apply find_from_Some in E as (? & e & ? & ? & ?). eauto 10.
  - unfold find_from in E. apply fmap_None, list_find_None in E.
    intros j e Hj He. rewrite Forall_lookup in E. apply (E (j - k)%nat).
    rewrite lookup_drop. rewrite <- He. f_equal. lia.
Qed.

(** C5. [gpt_boot_chain_swap] runs without an access outside the array; it
    exchanges, for every partition of the swap list that has both a primary
    and a backup entry, exactly these two entries, leaves every other entry
    where it is, loses none, and returns 0 when it exchanged something and 1
    otherwise. *)
Theorem gpt_boot_chain_swap_exchanges (is_ufs : bool) (es : list (list Z))
    (Hes : Forall entry_ok es) :
  ∃ es', gpt_boot_chain_swap is_ufs (concat es) 0 (PTN_ENTRY_SIZE * length es)
           PTN_ENTRY_SIZE
         = Some (if decide (any_pair (swap_names is_ufs) es) then 0 else 1, concat es') ∧
    es' ≡ₚ es ∧
    (∀ p i j, p ∈ swap_names is_ufs → swap_pair p es = Some (i, j) →
       es' !! i = es !! j ∧ es' !! j = es !! i) ∧
    (∀ k, (∀ p i j, p ∈ swap_names is_ufs → swap_pair p es = Some (i, j) →
             k ≠ i ∧ k ≠ j) → es' !! k = es !! k).
Proof.
  exists (swap_spec is_ufs es). split_and!.
  - by apply boot_chain_swap_refines.
  - apply swap_fold_perm.
  - intros. apply (swap_fold_pair _ _ p); eauto using swap_names_NoDup, swap_names_list.
  - intros k Hk. apply swap_fold_other; [|done]. eauto using swap_names_list.
Qed.

(** Swapping the boot chain twice restores the partition entries array
    byte for byte: the backup table made for an update points back to the
    normal partitions after a second swap. *)
Theorem gpt_boot_chain_swap_involutive (is_ufs : bool) (es : list (list Z)) (r : Z)
    (arr : list Z) (Hes : Forall entry_ok es)
    (Hrun : gpt_boot_chain_swap is_ufs (concat es) 0 (length (concat es)) PTN_ENTRY_SIZE
            = Some (r, arr)) :
  gpt_boot_chain_swap is_ufs arr 0 (length arr) PTN_ENTRY_SIZE = Some (r, concat es).
Proof.
  rewrite length_concat_entries, boot_chain_swap_refines in Hrun by done.
  injection Hrun as <- <-.
  assert (Forall entry_ok (swap_spec is_ufs es)) as Hes' by by apply swap_fold_ok.
  rewrite length_concat_entries, boot_chain_swap_refines by done.
  assert (any_pair (swap_names is_ufs) (swap_spec is_ufs es) ↔
          any_pair (swap_names is_ufs) es) as Ha.
  { symmetry. apply any_pair_owners; eauto using swap_names_list.
    apply swap_fold_owners. eauto using swap_names_list. }
  unfold swap_spec. rewrite swap_fold_invol
    by eauto using swap_names_NoDup, swap_names_list.
  do 2 f_equal. by apply decide_ext.
Qed.

(** ** Concrete arrays *)

(** An entry with the given name, its other bytes holding [fill]. *)
Definition mk_entry (name : string) (fill : Z) : list Z :=
  replicate PARTITION_NAME_OFFSET fill ++
  (let n := concat (map (λ c, [c; 0]) (bytes name)) in
   n ++ replicate (MAX_GPT_NAME_SIZE - length n) 0).

Definition sample_entries : list (list Z) :=
  [mk_entry "rpm" 1; mk_entry "xbl" 2; mk_entry "tz" 3; mk_entry "xblbak" 4;
   mk_entry "userdata" 5; mk_entry "tzbak" 6].

Lemma sample_entries_ok : Forall entry_ok sample_entries.
Proof. unfold entry_ok. apply (bool_decide_unpack _). vm_compute. done. Defined.

Lemma gpt_pentry_seek_first_witness :
  ∃ r, gpt_pentry_seek (cstring "tz") (concat sample_entries) (PTN_ENTRY_SIZE * 3)
         (PTN_ENTRY_SIZE * length sample_entries) PTN_ENTRY_SIZE = Some r ∧
       r = Some (PTN_ENTRY_SIZE * 5)%nat.
Proof.
  destruct (gpt_pentry_seek_first "tz" sample_entries 3) as (r & Hr & _).
  - unfold nonzero. apply (bool_decide_unpack _). vm_compute. done.
  - apply sample_entries_ok.
  - vm_compute. lia.
  - exists r. split; [exact Hr|]. vm_compute in Hr. injection Hr as <-. reflexivity.
Defined.

Lemma gpt_boot_chain_swap_exchanges_witness :
  ∃ es', gpt_boot_chain_swap false (concat sample_entries) 0
           (PTN_ENTRY_SIZE * length sample_entries) PTN_ENTRY_SIZE
         = Some (0, concat es') ∧ es' !! 3%nat = Some (mk_entry "xbl" 2).
Proof.
  destruct (gpt_boot_chain_swap_exchanges false sample_entries sample_entries_ok)
    as (es' & Hr & _ & Hp & _).
  exists es'. split; [exact Hr|].
  refine (eq_trans (proj2 (Hp "xbl"%string 1%nat 3%nat _ _)) _).
  - apply (bool_decide_unpack _). vm_compute. done.
  - vm_compute. reflexivity.
  - reflexivity.
Defined.

Lemma gpt_boot_chain_swap_involutive_witness :
  ∃ arr, gpt_boot_chain_swap true (concat sample_entries) 0
           (length (concat sample_entries)) PTN_ENTRY_SIZE = Some (0, arr) ∧
         arr ≠ concat sample_entries ∧
         gpt_boot_chain_swap true arr 0 (length arr) PTN_ENTRY_SIZE
         = Some (0, concat sample_entries).
Proof.
  eexists. split; [vm_compute; reflexivity|]. split; [vm_compute; discriminate|].
  apply (gpt_boot_chain_swap_involutive true sample_entries); [apply sample_entries_ok|].
  vm_compute. reflexivity.
Defined.

End Table.
