(* ===== verification/GptHeader.v ===== *)
(** * GptHeader: reading and writing GPT headers on a block device
      (gpt-utils/gpt-utils.cpp, [blk_rw], [gpt2_set_boot_chain],
      [gpt_get_state], [gpt_set_state])

    The functions are the C functions over the device of [Kernel]: a [goto
    error] is an early return, the result is the C return value, and [None] is
    an access outside a buffer.  The blocks are plain values here;
    GptOwn.v follows their addresses.  Then, for
    every schedule of faults in which no transfer is short: each function runs
    without undefined behaviour on a well-formed disk, and the lemmas
    [gpt_set_state_run] and [gpt2_set_boot_chain_run] list everything it can
    have written. *)

From S2P Require Import Prelude Kernel GptBytes GptTable.

Module Header.
Import Table.

Inductive gpt_state := GPT_OK | GPT_BAD_SIGNATURE | GPT_BAD_CRC.
Inductive gpt_instance := PRIMARY_GPT | SECONDARY_GPT.
Inductive boot_chain := NORMAL_BOOT | BACKUP_BOOT.

#[global] Instance gpt_state_eq_dec : EqDecision gpt_state.
Proof. solve_decision. Defined.
#[global] Instance gpt_instance_eq_dec : EqDecision gpt_instance.
Proof. solve_decision. Defined.
#[global] Instance boot_chain_eq_dec : EqDecision boot_chain.
Proof. solve_decision. Defined.

Section code.
Context `{Kernel} `{Zlib}.

(** [blk_rw(fd, rw, offset, buf, len)]: the return value and the buffer. *)
Definition blk_rw (rw : bool) (offset : Z) (buf : list Z) (len : Z) : D (Z * list Z) :=
  let* p := lseek64_set offset in
  if p <? 0 then ret (-1, buf) else
  let* (n, buf) := (if rw then let* n := sys_write buf len in ret (n, buf)
                     else sys_read buf len) in
  let r := i32 n in
  if r <? 0 then ret (r, buf) else ret (0, buf).

(** The state of a header block: signature and header CRC. *)
Definition header_state (gpt_header : list Z) : option gpt_state :=
  sig ← rd gpt_header 0 (length GPT_SIGNATURE);
  let state := if decide (sig = GPT_SIGNATURE) then GPT_OK else GPT_BAD_SIGNATURE in
  gpt_header_size ← GET_4_BYTES gpt_header HEADER_SIZE_OFFSET;
  crc ← GET_4_BYTES gpt_header HEADER_CRC_OFFSET;
  gpt_header ← PUT_4_BYTES gpt_header HEADER_CRC_OFFSET 0;
  covered ← rd gpt_header 0 (Z.to_nat gpt_header_size);
  Some (if crc32 crc32_zero covered =? crc then state else GPT_BAD_CRC).

(** Recompute the header CRC, with the CRC field cleared. *)
Definition put_header_crc (gpt_header : list Z) (gpt_header_size : Z) : option (list Z) :=
  gpt_header ← PUT_4_BYTES gpt_header HEADER_CRC_OFFSET 0;
  covered ← rd gpt_header 0 (Z.to_nat gpt_header_size);
  PUT_4_BYTES gpt_header HEADER_CRC_OFFSET (u32 (crc32 crc32_zero covered)).

(** How [gpt_get_state] and [gpt_set_state] begin: find the header's offset and
    read the header block, returning [error] when a call fails; [k] goes on
    with the block size, the offset and the block. *)
Definition read_header {A} (gpt : gpt_instance) (error : A)
    (k : Z → Z → list Z → D A) : D A :=
  let* b := ioctl_BLKSSZGET in
  match b with
  | None => ret error
  | Some blk_size =>
  let* h := malloc blk_size in
  match h with
  | None => ret error
  | Some gpt_header =>
  let* gpt_header_offset :=
    match gpt with
    | PRIMARY_GPT => ret blk_size
    | SECONDARY_GPT => let* e := lseek64_end in ret (e - blk_size)
    end in
  if gpt_header_offset <? 0 then ret error else
  let* (r, gpt_header) := blk_rw false gpt_header_offset gpt_header blk_size in
  if negb (r =? 0) then ret error else k blk_size gpt_header_offset gpt_header
  end end.

(** The return value and [*state]. *)
Definition gpt_get_state (gpt : gpt_instance) : D (Z * gpt_state) :=
  read_header gpt (-1, GPT_OK) (λ _ _ gpt_header,
    let* state := lift (header_state gpt_header) in
    ret (0, state)).

(** The header [gpt_set_state] writes; [None] inside is the invalid state. *)
Definition set_signature (state : gpt_state) (gpt_header : list Z)
    : option (option (list Z)) :=
  match state with
  | GPT_OK => Some <$> wr gpt_header 0 GPT_SIGNATURE
  | GPT_BAD_SIGNATURE => Some <$> store gpt_header 0 0
  | GPT_BAD_CRC => Some None
  end.

Definition gpt_set_state (gpt : gpt_instance) (state : gpt_state) : D Z :=
  read_header gpt (-1) (λ blk_size gpt_header_offset gpt_header,
    let* o := lift (set_signature state gpt_header) in
    match o with
    | None => ret (-1)
    | Some gpt_header =>
    let* gpt_header_size := lift (GET_4_BYTES gpt_header HEADER_SIZE_OFFSET) in
    let* gpt_header := lift (put_header_crc gpt_header gpt_header_size) in
    let* (r, _) := blk_rw true gpt_header_offset gpt_header blk_size in
    if negb (r =? 0) then ret (-1) else ret 0
    end).

(** The last part of [gpt2_set_boot_chain]: the new CRCs go in the secondary
    header, then the header and the entries array are written back. *)
Definition write_chain (blk_size gpt2_header_offset : Z) (gpt_header : list Z)
    (gpt_header_size pentries_start_offset : Z) (pentries : list Z)
    (pentries_array_size : Z) : D Z :=
  let* covered := lift (rd pentries 0 (Z.to_nat pentries_array_size)) in
  let crc := u32 (crc32 crc32_zero covered) in
  let* gpt_header := lift (PUT_4_BYTES gpt_header PARTITION_CRC_OFFSET crc) in
  let* gpt_header := lift (put_header_crc gpt_header gpt_header_size) in
  let* (r, _) := blk_rw true gpt2_header_offset gpt_header blk_size in
  if r =? 0 then
    let* (r, _) := blk_rw true (i64 pentries_start_offset) pentries pentries_array_size in
    ret r
  else ret r.

(** The middle part: the secondary header is read, the entries are swapped. *)
Definition chain_secondary (is_ufs : bool) (boot : boot_chain)
    (blk_size gpt2_header_offset : Z) (gpt_header : list Z) (pentry_size : Z)
    (pentries : list Z) (pentries_array_size : Z) : D Z :=
  (* read secondary GPT header from block dev *)
  let* (r, gpt_header) := blk_rw false gpt2_header_offset gpt_header blk_size in
  if negb (r =? 0) then ret r else
  let* gpt_header_size := lift (GET_4_BYTES gpt_header HEADER_SIZE_OFFSET) in
  let* lba := lift (GET_8_BYTES gpt_header PENTRIES_OFFSET) in
  let pentries_start_offset := u64 (lba * blk_size) in
  let* (r, pentries) :=
    match boot with
    | BACKUP_BOOT =>
        lift (gpt_boot_chain_swap is_ufs pentries 0 (Z.to_nat pentries_array_size)
                (Z.to_nat pentry_size))
    | NORMAL_BOOT => ret (0, pentries)
    end in
  if negb (r =? 0) then ret r else
  write_chain blk_size gpt2_header_offset gpt_header gpt_header_size
    pentries_start_offset pentries pentries_array_size.

(** [is_ufs] is the value of [gpt_utils_is_ufs_device()]. *)
Definition gpt2_set_boot_chain (is_ufs : bool) (boot : boot_chain) : D Z :=
  let* b := ioctl_BLKSSZGET in
  match b with
  | None => ret (-1)
  | Some blk_size =>
  let* h := malloc blk_size in
  match h with
  | None => ret (-1)
  | Some gpt_header =>
  let* e := lseek64_end in
  let gpt2_header_offset := e - blk_size in
  if gpt2_header_offset <? 0 then ret (-1) else
  (* read primary GPT header from block dev *)
  let* (r, gpt_header) := blk_rw false blk_size gpt_header blk_size in
  if negb (r =? 0) then ret r else
  let* lba := lift (GET_8_BYTES gpt_header PENTRIES_OFFSET) in
  let pentries_start_offset := u64 (lba * blk_size) in
  let* pentry_size := lift (GET_4_BYTES gpt_header PENTRY_SIZE_OFFSET) in
  let* count := lift (GET_4_BYTES gpt_header PARTITION_COUNT_OFFSET) in
  let pentries_array_size := u32 (count * pentry_size) in
  let* p := calloc pentries_array_size in
  match p with
  | None => ret (-1)
  | Some pentries =>
  (* read primary GPT partition entries array from block dev *)
  let* (r, pentries) :=
    blk_rw false (i64 pentries_start_offset) pentries pentries_array_size in
  if negb (r =? 0) then ret r else
  let* covered := lift (rd pentries 0 (Z.to_nat pentries_array_size)) in
  let crc := u32 (crc32 crc32_zero covered) in
  let* stored := lift (GET_4_BYTES gpt_header PARTITION_CRC_OFFSET) in
  if negb (stored =? crc) then ret (-1) else
  chain_secondary is_ufs boot blk_size gpt2_header_offset gpt_header pentry_size
    pentries pentries_array_size
  end end end.

End code.

(** ** Headers *)

Section headers.
Context `{!ZlibOk zl}.
Implicit Types h : list Z.

(** The bytes a header's CRC covers: the CRC field counts as zero. *)
Definition crc_image h (hs : Z) : list Z :=
  slice (splice h HEADER_CRC_OFFSET (le4 0)) 0 (Z.to_nat hs).

(** The header with its CRC recomputed. *)
Definition seal h (hs : Z) : list Z :=
  splice h HEADER_CRC_OFFSET (le4 (u32 (crc32 crc32_zero (crc_image h hs)))).

Definition header_sized h : Prop :=
  (92 ≤ length h)%nat ∧
  ∃ hs, GET_4_BYTES h HEADER_SIZE_OFFSET = Some hs ∧ hs ≤ Z.of_nat (length h).

Definition header_size h : Z := default 0 (GET_4_BYTES h HEADER_SIZE_OFFSET).

Lemma header_sized_size h :
  header_sized h → GET_4_BYTES h HEADER_SIZE_OFFSET = Some (header_size h) ∧
    (Z.to_nat (header_size h) ≤ length h)%nat.
Proof.
  intros (Hl & hs & E & Hs). unfold header_size. rewrite E. simpl. split; [done|].
  apply GET_4_range in E. lia.
Qed.

Lemma length_seal h hs : (20 ≤ length h)%nat → length (seal h hs) = length h.
Proof. intros. unfold seal, HEADER_CRC_OFFSET. apply length_splice. simpl. lia. Qed.

Lemma put_header_crc_seal h hs :
  (20 ≤ length h)%nat → (Z.to_nat hs ≤ length h)%nat →
  put_header_crc h hs = Some (seal h hs).
Proof.
  intros Hl Hs. unfold put_header_crc, seal, crc_image, HEADER_CRC_OFFSET.
  rewrite PUT_4_splice by lia. cbn [mbind option_bind].
  rewrite rd_Some by (rewrite length_splice by (simpl; lia); lia). cbn [mbind option_bind].
  rewrite PUT_4_splice by (rewrite length_splice by (simpl; lia); lia).
  by rewrite splice_splice_same by (simpl; lia).
Qed.

(** The state of a header whose CRC was just recomputed is decided by its
    signature alone. *)
Lemma header_state_seal h :
  header_sized h →
  header_state (seal h (header_size h)) =
    Some (if decide (slice h 0 (length GPT_SIGNATURE) = GPT_SIGNATURE)
          then GPT_OK else GPT_BAD_SIGNATURE).
Proof.
  intros Hh. pose proof (header_sized_size h Hh) as [Hg Hs]. destruct Hh as [Hl _].
  set (hs := header_size h) in *. unfold header_state.
  change (length GPT_SIGNATURE) with 9%nat.
  rewrite rd_Some by (rewrite length_seal; lia). cbn [mbind option_bind].
  unfold seal, HEADER_CRC_OFFSET, HEADER_SIZE_OFFSET in *.
  rewrite slice_splice_disj by (simpl; lia).
  rewrite (GET_4_splice_disj h 12 16) by (simpl; lia). rewrite Hg. cbn [mbind option_bind].
  rewrite GET_4_splice by lia. cbn [mbind option_bind].
  rewrite PUT_4_splice by (rewrite length_splice by (simpl; lia); lia). cbn [mbind option_bind].
  rewrite splice_splice_same by (simpl; lia).
  rewrite rd_Some by (rewrite length_splice by (simpl; lia); lia). cbn [mbind option_bind].
  fold (crc_image h hs). rewrite wrapu_idem, wrapu_small by apply crc32_range.
  by rewrite Z.eqb_refl.
Qed.

Lemma header_state_total h : header_sized h → is_Some (header_state h).
Proof.
  intros Hh. pose proof (header_sized_size h Hh) as [Hg Hs]. destruct Hh as [Hl _].
  unfold header_state. change (length GPT_SIGNATURE) with 9%nat.
  rewrite rd_Some by lia. cbn [mbind option_bind]. rewrite Hg. cbn [mbind option_bind].
  destruct (GET_4_is_Some h HEADER_CRC_OFFSET) as [c ->]; [unfold HEADER_CRC_OFFSET; lia|].
  cbn [mbind option_bind]. rewrite PUT_4_splice by (unfold HEADER_CRC_OFFSET; lia).
  cbn [mbind option_bind]. rewrite rd_Some; [by eexists|].
  rewrite length_splice; simpl; unfold HEADER_CRC_OFFSET; lia.
Qed.

(** A header whose CRC is right is in the state its signature says. *)
Lemma header_state_inv h st :
  header_state h = Some st →
  st = GPT_BAD_CRC ∨
  st = if decide (slice h 0 (length GPT_SIGNATURE) = GPT_SIGNATURE)
       then GPT_OK else GPT_BAD_SIGNATURE.
Proof.
  unfold header_state. intros Hs. apply bind_Some in Hs as (sg & Hr & Hs).
  apply rd_inv in Hr as [_ ->]. repeat (apply bind_Some in Hs as (? & _ & Hs)).
  injection Hs as <-. case_match; [by right|by left].
Qed.

Lemma header_state_signature h :
  header_state h = Some GPT_OK → slice h 0 (length GPT_SIGNATURE) = GPT_SIGNATURE.
Proof. intros Hs. apply header_state_inv in Hs as [|Hs]; [done|]. by case_decide. Qed.

(** The fields of a header that say where its table is: its size, the first
    block of the entries array, the number and the size of the entries. *)
Definition fields h : option Z * option Z * option Z * option Z :=
  (GET_4_BYTES h HEADER_SIZE_OFFSET, GET_8_BYTES h PENTRIES_OFFSET,
   GET_4_BYTES h PARTITION_COUNT_OFFSET, GET_4_BYTES h PENTRY_SIZE_OFFSET).

Lemma fields_splice h off bs :
  (92 ≤ length h)%nat →
  (off + length bs ≤ 12 ∨ 16 ≤ off ∧ off + length bs ≤ 72 ∨
   88 ≤ off ∧ off + length bs ≤ length h)%nat →
  fields (splice h off bs) = fields h.
Proof.
  intros Hl Ho. unfold fields, HEADER_SIZE_OFFSET, PENTRIES_OFFSET,
    PARTITION_COUNT_OFFSET, PENTRY_SIZE_OFFSET.
  by rewrite !GET_4_splice_disj, GET_8_splice_disj by lia.
Qed.

Lemma fields_seal h hs : (92 ≤ length h)%nat → fields (seal h hs) = fields h.
Proof. intros. unfold seal, HEADER_CRC_OFFSET. apply fields_splice; simpl; lia. Qed.

(** The header [gpt_set_state] writes. *)
Definition signed (st : gpt_state) h : list Z :=
  splice h 0 (match st with GPT_OK => GPT_SIGNATURE | _ => [0] end).
Definition new_header (st : gpt_state) h : list Z := seal (signed st h) (header_size h).

Lemma length_signed st h : (92 ≤ length h)%nat → length (signed st h) = length h.
Proof. intros. unfold signed. apply length_splice. destruct st; simpl; lia. Qed.

Lemma length_new_header st h : (92 ≤ length h)%nat → length (new_header st h) = length h.
Proof. intros. unfold new_header. rewrite length_seal; rewrite length_signed; lia. Qed.

Lemma fields_signed st h : (92 ≤ length h)%nat → fields (signed st h) = fields h.
Proof. intros. unfold signed. apply fields_splice; [lia|]. destruct st; simpl; lia. Qed.

Lemma fields_new_header st h : (92 ≤ length h)%nat → fields (new_header st h) = fields h.
Proof.
  intros. unfold new_header. rewrite fields_seal; rewrite ?length_signed; try lia.
  by apply fields_signed.
Qed.

Lemma header_size_fields h h' : fields h = fields h' → header_size h = header_size h'.
Proof. unfold fields, header_size. by intros [= -> _ _ _]. Qed.

Lemma header_sized_fields h h' :
  length h = length h' → fields h = fields h' → header_sized h → header_sized h'.
Proof.
  intros Hl Hf (? & hs & E & ?). split; [lia|]. exists hs.
  unfold fields in Hf. injection Hf as Hf _ _ _. rewrite <- Hf, <- Hl. done.
Qed.

Lemma signed_sized st h : header_sized h → header_sized (signed st h).
Proof.
  intros Hh. eapply header_sized_fields; [| |done]; symmetry;
    [apply length_signed|apply fields_signed]; apply Hh.
Qed.

(** Reading the state of the header [gpt_set_state] wrote gives that state. *)
Lemma header_state_new st h :
  header_sized h → st ≠ GPT_BAD_CRC → header_state (new_header st h) = Some st.
Proof.
  intros Hh Hst. unfold new_header.
  rewrite <- (header_size_fields (signed st h) h) by (apply fields_signed, Hh).
  rewrite header_state_seal by by apply signed_sized.
  destruct Hh as [Hl _]. apply f_equal. unfold signed. destruct st; [| |done].
  - rewrite slice_splice_same by (simpl; lia). by rewrite decide_True.
  - rewrite decide_False; [done|]. intros E.
    assert (slice (splice h 0 [0]) 0 (length GPT_SIGNATURE) !! 0%nat = Some 0) as E0.
    { rewrite lookup_slice, lookup_splice by (simpl; lia). done. }
    rewrite E in E0. done.
Qed.

Lemma set_signature_run st h :
  (92 ≤ length h)%nat → st ≠ GPT_BAD_CRC → set_signature st h = Some (Some (signed st h)).
Proof.
  intros Hl Hst. destruct st; [| |done]; unfold set_signature, signed.
  - rewrite wr_Some by (simpl; lia). done.
  - unfold store. zbool. cbn [fmap option_fmap option_map]. do 2 apply f_equal.
    by destruct h; [simpl in Hl; lia|].
Qed.

Lemma partition_crc_new st h :
  (92 ≤ length h)%nat →
  GET_4_BYTES (new_header st h) PARTITION_CRC_OFFSET = GET_4_BYTES h PARTITION_CRC_OFFSET.
Proof.
  intros. unfold new_header, seal, signed, PARTITION_CRC_OFFSET, HEADER_CRC_OFFSET.
  rewrite GET_4_splice_disj, GET_4_splice_disj; [done|..];
    rewrite ?length_splice; destruct st; simpl; lia.
Qed.

End headers.

(** ** Transfers *)

(** The calls between [s] and [s'] left the device as it was. *)
Definition same_disk (s s' : dev) : Prop :=
  d_data s' = d_data s ∧ d_images s' = d_images s ∧ d_ssz s' = d_ssz s.

(** The calls between [s] and [s'] replaced the device's bytes once. *)
Definition wrote (s s' : dev) (l : list Z) : Prop :=
  d_data s' = l ∧ d_images s' = d_data s :: d_images s ∧ d_ssz s' = d_ssz s.

#[global] Instance same_disk_pre : PreOrder same_disk.
Proof.
  split; [done|]. intros a b c (? & ? & ?) (? & ? & ?). split_and!; congruence.
Qed.

Lemma same_disk_wrote s s' s'' l : same_disk s s' → wrote s' s'' l → wrote s s'' l.
Proof. intros (? & ? & ?) (? & ? & ?). split_and!; congruence. Qed.

Lemma wrote_same_disk s s' s'' l : wrote s s' l → same_disk s' s'' → wrote s s'' l.
Proof. intros (? & ? & ?) (? & ? & ?). split_and!; congruence. Qed.

(** ** Well-formed disks *)

(** Where a header is on a device of [len] bytes with blocks of [B] bytes. *)
Definition hdr_off (gpt : gpt_instance) (B len : nat) : nat :=
  match gpt with PRIMARY_GPT => B | SECONDARY_GPT => (len - B)%nat end.

Definition hdr (gpt : gpt_instance) (B : nat) (data : list Z) : list Z :=
  slice data (hdr_off gpt B (length data)) B.

(** A header's fields describe [n] bytes of 128-byte entries at offset [e]. *)
Definition fields_ok (B e n : nat) (f : option Z * option Z * option Z * option Z) : Prop :=
  ∃ hs lba cnt, f = (Some hs, Some lba, Some cnt, Some (Z.of_nat PTN_ENTRY_SIZE)) ∧
    hs ≤ Z.of_nat B ∧ lba * Z.of_nat B = Z.of_nat e ∧
    cnt * Z.of_nat PTN_ENTRY_SIZE = Z.of_nat n.

(** The device has whole blocks; the two headers and the two entries arrays are
    on it, are disjoint, and each fits in one transfer. *)
Record layout (B len e1 e2 n : nat) : Prop := Layout {
  lay_B : (92 ≤ B)%nat;
  lay_Bmax : Z.of_nat B ≤ MAX_RW_COUNT;
  lay_nmax : Z.of_nat n ≤ MAX_RW_COUNT;
  lay_len : Z.of_nat len < 2 ^ 63;
  lay_blocks : Nat.divide B len;
  lay_e1 : (2 * B ≤ e1)%nat ∧ (e1 + n + B ≤ len)%nat;
  lay_e2 : (2 * B ≤ e2)%nat ∧ (e2 + n + B ≤ len)%nat;
  lay_disj : (e1 + n ≤ e2 ∨ e2 + n ≤ e1)%nat;
}.

Record gpt_wf (B : nat) (data : list Z) (e1 e2 n : nat) : Prop := GptWf {
  wf_layout : layout B (length data) e1 e2 n;
  wf_primary : fields_ok B e1 n (fields (hdr PRIMARY_GPT B data));
  wf_secondary : fields_ok B e2 n (fields (hdr SECONDARY_GPT B data));
}.

Definition dev_wf (s : dev) (B e1 e2 n : nat) : Prop :=
  d_ssz s = Z.of_nat B ∧ gpt_wf B (d_data s) e1 e2 n.

Lemma hdr_off_bound gpt B len e1 e2 n :
  layout B len e1 e2 n → (hdr_off gpt B len + B ≤ len)%nat.
Proof. intros []. destruct gpt; simpl; lia. Qed.

Lemma length_hdr gpt B data e1 e2 n :
  layout B (length data) e1 e2 n → length (hdr gpt B data) = B.
Proof. intros. apply length_slice. by eapply hdr_off_bound. Qed.

Lemma fields_ok_sized B e n h :
  (92 ≤ B)%nat → length h = B → fields_ok B e n (fields h) → header_sized h.
Proof.
  intros HB Hl (hs & lba & cnt & E & Hs & _). unfold header_sized. rewrite Hl.
  split; [done|]. exists hs. by injection E.
Qed.

Lemma wf_sized gpt B data e1 e2 n :
  gpt_wf B data e1 e2 n → header_sized (hdr gpt B data).
Proof.
  intros [Hl H1 H2]. pose proof (length_hdr gpt _ _ _ _ _ Hl) as Hlen.
  destruct gpt; [apply (fields_ok_sized B e1 n)|apply (fields_ok_sized B e2 n)];
    done || apply Hl.
Qed.

(** Replacing a region that holds no header, or a header by one with the same
    fields, keeps a disk well formed. *)
Lemma wf_fields B data data' e1 e2 n :
  gpt_wf B data e1 e2 n → length data' = length data →
  (∀ gpt, fields (hdr gpt B data') = fields (hdr gpt B data)) →
  gpt_wf B data' e1 e2 n.
Proof. intros [H0 H1 H2] Hl Hf. split; rewrite ?Hf, ?Hl; done. Qed.

Lemma hdr_splice_other gpt B data e1 e2 n off bs :
  layout B (length data) e1 e2 n → (2 * B ≤ off)%nat →
  (off + length bs + B ≤ length data)%nat →
  hdr gpt B (splice data off bs) = hdr gpt B data.
Proof.
  intros Hl Ho Hb. unfold hdr. rewrite length_splice by lia.
  apply slice_splice_disj; [lia|]. destruct gpt; simpl; lia.
Qed.

Lemma hdr_splice_hdr g gpt B data e1 e2 n h :
  layout B (length data) e1 e2 n → length h = B →
  hdr g B (splice data (hdr_off gpt B (length data)) h) =
    if decide (g = gpt) then h else hdr g B data.
Proof.
  intros Hl Hh. pose proof (hdr_off_bound gpt _ _ _ _ _ Hl) as Hb.
  unfold hdr. rewrite length_splice by lia. case_decide as Hg.
  - subst g. rewrite <- Hh at 3. apply slice_splice_same. lia.
  - apply slice_splice_disj; [lia|]. destruct Hl, g, gpt; simpl in *; try done; lia.
Qed.

Section runs.
Context `{Kernel} `{!ZlibOk zl}.
Hypothesis Hshort : no_short.

(** Case analysis on the outcome of the next call. *)
Ltac outcome s :=
  let E := fresh "Esys" in
  destruct (sys (d_step s)) as [| |?n] eqn:E; [| |by destruct (Hshort _ _ E)].

Lemma i32_count n : (Z.of_nat n ≤ MAX_RW_COUNT) → i32 (Z.of_nat n) = Z.of_nat n.
Proof. intros Hn. apply wraps_small; [lia|]. unfold MAX_RW_COUNT in Hn. simpl. lia. Qed.

(** A call that did not succeed under [sys]. *)
Ltac faulty := let Hf := fresh in intros Hf; congruence.

Lemma lseek64_set_run off s :
  (off ≤ length (d_data s))%nat →
  ∃ p s', lseek64_set (Z.of_nat off) s = Some (p, s') ∧ same_disk s s' ∧
    (p = -1 ∧ ¬ no_fault ∨ p = Z.of_nat off ∧ d_pos s' = off).
Proof.
  intros Hoff. unfold lseek64_set, syscall, bind, ret. outcome s.
  - cbn [tick d_data]. zbool. cbn [orb]. eexists _, _. split; [done|]. split; [done|].
    right. split; [done|]. simpl. lia.
  - eexists _, _. split; [done|]. split; [done|]. left. split; [done|].
    unfold no_fault. faulty.
Qed.

Lemma lseek64_end_run s :
  ∃ p s', lseek64_end s = Some (p, s') ∧ same_disk s s' ∧
    (p = -1 ∧ ¬ no_fault ∨ p = Z.of_nat (length (d_data s))).
Proof.
  unfold lseek64_end, syscall, bind, ret. outcome s.
  - eexists _, _. split; [done|]. split; [done|]. by right.
  - eexists _, _. split; [done|]. split; [done|]. left. unfold no_fault. split; [done|faulty].
Qed.

Lemma sys_read_run (buf : list Z) len s :
  (d_pos s + len ≤ length (d_data s))%nat → (len ≤ length buf)%nat →
  Z.of_nat len ≤ MAX_RW_COUNT →
  ∃ r buf' s', sys_read buf (Z.of_nat len) s = Some ((r, buf'), s') ∧ same_disk s s' ∧
    (r = -1 ∧ ¬ no_fault ∨
     r = Z.of_nat len ∧ buf' = slice (d_data s) (d_pos s) len ++ drop len buf).
Proof.
  intros Hoff Hbuf Hlen. unfold sys_read, syscall, bind, ret. outcome s.
  - unfold xfer. cbn [tick d_data d_pos]. rewrite Z.min_l, Nat2Z.id, Nat.min_l by lia.
    rewrite wr_Some by (rewrite length_slice; lia).
    eexists _, _, _. split; [done|]. split; [done|]. right. split; [done|].
    unfold splice. by rewrite take_0, length_slice by lia.
  - eexists _, _, _. split; [done|]. split; [done|]. left.
    unfold no_fault. split; [done|faulty].
Qed.

Lemma sys_write_run (buf : list Z) len s :
  (d_pos s + len ≤ length (d_data s))%nat → length buf = len →
  Z.of_nat len ≤ MAX_RW_COUNT →
  ∃ r s', sys_write buf (Z.of_nat len) s = Some (r, s') ∧
    (r = -1 ∧ same_disk s s' ∧ ¬ no_fault ∨
     r = Z.of_nat len ∧ wrote s s' (splice (d_data s) (d_pos s) buf)).
Proof.
  intros Hoff <- Hlen. unfold sys_write, syscall, bind, ret. outcome s.
  - unfold xfer. cbn [tick d_data d_pos]. rewrite Z.min_l, Nat2Z.id, Nat.min_l by lia.
    rewrite rd_Some, slice_all by lia.
    assert ((0 <? Z.of_nat (length buf)) && (length (d_data s) <=? d_pos s)%nat = false) as ->.
    { destruct buf; [done|]. cbn [length] in *. zbool. done. }
    eexists _, _. split; [done|]. right. by split.
  - eexists _, _. split; [done|]. left. unfold no_fault. split_and!; [done..|faulty].
Qed.

Lemma blk_read off len (buf : list Z) s :
  (off + len ≤ length (d_data s))%nat → length buf = len → Z.of_nat len ≤ MAX_RW_COUNT →
  ∃ r buf' s', blk_rw false (Z.of_nat off) buf (Z.of_nat len) s = Some ((r, buf'), s') ∧
    same_disk s s' ∧
    (r = -1 ∧ ¬ no_fault ∨ r = 0 ∧ buf' = slice (d_data s) off len).
Proof.
  intros Hoff Hbuf Hlen. unfold blk_rw.
  destruct (lseek64_set_run off s) as (p & s1 & E1 & Hs1 & Hp); [lia|].
  rewrite (bind_run _ _ _ _ _ E1). destruct Hp as [[-> Hp]|[-> Hp]]; zbool.
  { eexists _, _, _. split; [done|]. split; [done|]. by left. }
  destruct (sys_read_run buf len s1) as (r & buf' & s2 & E2 & Hs2 & Hr).
  1,2,3: rewrite ?(proj1 Hs1); lia.
  rewrite (bind_run _ _ _ _ _ E2).
  assert (same_disk s s2) by by etrans.
  destruct Hr as [[-> Hr]|[-> Hr]].
  - change (i32 (-1)) with (-1). zbool. eexists _, _, _. split; [done|]. split; [done|]. by left.
  - rewrite i32_count by lia. zbool. eexists _, _, _. split; [done|]. split; [done|]. right.
    split; [done|]. destruct Hs1 as (Hd & _). rewrite Hr, Hp, Hd.
    rewrite drop_ge by lia. apply app_nil_r.
Qed.

Lemma blk_write off len (buf : list Z) s :
  (off + len ≤ length (d_data s))%nat → length buf = len → Z.of_nat len ≤ MAX_RW_COUNT →
  ∃ r buf' s', blk_rw true (Z.of_nat off) buf (Z.of_nat len) s = Some ((r, buf'), s') ∧
    (r = -1 ∧ same_disk s s' ∧ ¬ no_fault ∨ r = 0 ∧ wrote s s' (splice (d_data s) off buf)).
Proof.
  intros Hoff Hbuf Hlen. unfold blk_rw.
  destruct (lseek64_set_run off s) as (p & s1 & E1 & Hs1 & Hp); [lia|].
  rewrite (bind_run _ _ _ _ _ E1). destruct Hp as [[-> Hp]|[-> Hp]]; zbool.
  { eexists _, _, _. split; [done|]. by left. }
  destruct (sys_write_run buf len s1) as (r & s2 & E2 & Hr).
  1,2,3: rewrite ?(proj1 Hs1); lia.
  unfold bind at 1 2. rewrite E2.
  destruct Hr as [(-> & Hs2 & Hr)|(-> & Hw)]; cbn [ret].
  - change (i32 (-1)) with (-1). zbool. eexists _, _, _. split; [done|]. left.
    split; [done|]. split; [by etrans|done].
  - rewrite i32_count by lia. zbool. eexists _, _, _. split; [done|]. right. split; [done|].
    rewrite Hp, (proj1 Hs1) in Hw. by eapply same_disk_wrote.
Qed.

Lemma ioctl_run s :
  ∃ b s', ioctl_BLKSSZGET s = Some (b, s') ∧ same_disk s s' ∧
    (b = None ∧ ¬ no_fault ∨ b = Some (u32 (d_ssz s))).
Proof.
  unfold ioctl_BLKSSZGET, syscall, bind. outcome s; eexists _, _;
    (split; [done|]; split; [done|]).
  - by right.
  - left. unfold no_fault. split; [done|faulty].
Qed.

Lemma malloc_run n s :
  ∃ h s', malloc n s = Some (h, s') ∧ same_disk s s' ∧
    (h = None ∧ ¬ no_fault ∨ ∃ buf, h = Some buf ∧ length buf = Z.to_nat n).
Proof.
  unfold malloc. outcome s; eexists _, _; (split; [done|]; split; [done|]).
  - right. eexists. split; [done|]. by rewrite length_map, length_seq.
  - left. unfold no_fault. split; [done|faulty].
Qed.

Lemma calloc_run n s :
  ∃ h s', calloc n s = Some (h, s') ∧ same_disk s s' ∧
    (h = None ∧ ¬ no_fault ∨ ∃ buf, h = Some buf ∧ length buf = Z.to_nat n).
Proof.
  unfold calloc, syscall, bind, ret. outcome s; eexists _, _; (split; [done|]; split; [done|]).
  - right. eexists. split; [done|]. by rewrite length_replicate.
  - left. unfold no_fault. split; [done|faulty].
Qed.

Lemma dev_wf_same s s' B e1 e2 n :
  dev_wf s B e1 e2 n → same_disk s s' → dev_wf s' B e1 e2 n.
Proof. intros [H1 H2] (E1 & _ & E3). split; congruence. Qed.

Lemma ssz_u32 s B e1 e2 n : dev_wf s B e1 e2 n → u32 (d_ssz s) = Z.of_nat B.
Proof.
  intros [-> [[] _ _]]. apply wrapu_small. unfold MAX_RW_COUNT in *. lia.
Qed.

(** Advance through a call whose run [lem] describes. *)
Ltac step_call lem x s Hs Hx :=
  let E := fresh "E" in
  destruct lem as (x & s & E & Hs & Hx); rewrite (bind_run _ _ _ _ _ E); clear E.

(** The offset [gpt_get_state] and [gpt_set_state] compute. *)
Lemma header_offset_run gpt s B e1 e2 n :
  dev_wf s B e1 e2 n →
  ∃ off s', (match gpt with
             | PRIMARY_GPT => ret (Z.of_nat B)
             | SECONDARY_GPT => let* e := lseek64_end in ret (e - Z.of_nat B)
             end : D Z) s = Some (off, s') ∧ same_disk s s' ∧
    (off < 0 ∧ ¬ no_fault ∨ off = Z.of_nat (hdr_off gpt B (length (d_data s)))).
Proof.
  intros [Hz [[] _ _]]. destruct gpt; simpl.
  - eexists _, _. split; [done|]. split; [done|]. by right.
  - destruct (lseek64_end_run s) as (p & s' & E & Hs & Hp).
    eexists _, s'. unfold bind. rewrite E. split; [done|]. split; [done|].
    destruct Hp as [[-> Hp]| ->]; [left; split; [lia|done]|right; lia].
Qed.

(** Either a call failed and nothing was written, or the continuation runs on
    the header block of the device. *)
Lemma read_header_run {A} gpt (error : A) k s B e1 e2 n :
  dev_wf s B e1 e2 n →
  ∃ s', same_disk s s' ∧
    (read_header gpt error k s = Some (error, s') ∧ ¬ no_fault ∨
     read_header gpt error k s =
       k (Z.of_nat B) (Z.of_nat (hdr_off gpt B (length (d_data s))))
         (hdr gpt B (d_data s)) s').
Proof.
  intros Hwf. unfold read_header. pose proof (ssz_u32 _ _ _ _ _ Hwf) as Hz.
  pose proof (proj2 Hwf) as Hg. pose proof (wf_layout _ _ _ _ _ Hg) as Hlay.
  step_call (ioctl_run s) b s1 Hs1 Hb1. destruct Hb1 as [[-> Hf]| ->]; [by eauto|].
  rewrite Hz. step_call (malloc_run (Z.of_nat B) s1) h s2 Hs2 Hh.
  assert (same_disk s s2) as Hs02 by by etrans.
  destruct Hh as [[-> Hf]|(buf & -> & Hlen)]; [by eauto|]. rewrite Nat2Z.id in Hlen.
  step_call (header_offset_run gpt s2 B e1 e2 n (dev_wf_same _ _ _ _ _ _ Hwf Hs02)) off s3 Hs3 Ho.
  assert (same_disk s s3) as Hs03 by by etrans.
  destruct Ho as [[Ho Hf]| ->]; zbool; [by eauto|]. rewrite (proj1 Hs02).
  destruct (blk_read (hdr_off gpt B (length (d_data s))) B buf s3)
    as (r & buf' & s4 & E4 & Hs4 & Hr);
    [rewrite (proj1 Hs03); by eapply hdr_off_bound|done|by apply Hlay|].
  rewrite (bind_run _ _ _ _ _ E4). assert (same_disk s s4) as Hs04 by by etrans.
  destruct Hr as [[-> Hf]|[-> ->]]; cbn [Z.eqb negb]; [by eauto|].
  rewrite (proj1 Hs03). eauto.
Qed.

Ltac run_header Hwf s' Hs Hf E :=
  match goal with
  | |- context [read_header ?g ?e ?k ?s] =>
      destruct (read_header_run g e k s _ _ _ _ Hwf) as (s' & Hs & [[E Hf]|E]);
      rewrite E; clear E
  end.

Lemma gpt_get_state_run gpt s B e1 e2 n :
  dev_wf s B e1 e2 n →
  ∃ r st s', gpt_get_state gpt s = Some ((r, st), s') ∧ same_disk s s' ∧
    (r = -1 ∧ ¬ no_fault ∨ r = 0 ∧ header_state (hdr gpt B (d_data s)) = Some st).
Proof.
  intros Hwf. unfold gpt_get_state.
  run_header Hwf s' Hs Hf E.
  - eexists _, _, _. split; [done|]. split; [done|]. by left.
  - destruct (header_state_total (hdr gpt B (d_data s))) as [st Hst];
      [eapply wf_sized, Hwf|].
    rewrite Hst. eexists _, _, _. split; [done|]. split; [done|]. by right.
Qed.

Lemma gpt_set_state_run gpt st s B e1 e2 n :
  dev_wf s B e1 e2 n → st ≠ GPT_BAD_CRC →
  ∃ r s', gpt_set_state gpt st s = Some (r, s') ∧
    (r = -1 ∧ same_disk s s' ∧ ¬ no_fault ∨
     r = 0 ∧ wrote s s' (splice (d_data s) (hdr_off gpt B (length (d_data s)))
                           (new_header st (hdr gpt B (d_data s))))).
Proof.
  intros Hwf Hst. unfold gpt_set_state. run_header Hwf s4 Hs4 Hf E.
  { eexists _, _. split; [done|]. by left. }
  destruct Hwf as [Hz Hwf].
  pose proof (length_hdr gpt _ _ _ _ _ (wf_layout _ _ _ _ _ Hwf)) as Hl0.
  pose proof (wf_sized gpt _ _ _ _ _ Hwf) as Hsz. set (h0 := hdr gpt B (d_data s)) in *.
  pose proof (proj1 Hsz) as H92.
  rewrite set_signature_run by done. cbn [lift bind].
  destruct (header_sized_size _ (signed_sized st _ Hsz)) as [Hg Hgs].
  rewrite Hg. cbn [lift bind].
  rewrite (header_size_fields (signed st h0) h0) in * by by apply fields_signed.
  rewrite put_header_crc_seal by (rewrite ?length_signed in *; lia).
  cbn [lift bind]. fold (new_header st h0).
  destruct (blk_write (hdr_off gpt B (length (d_data s))) B (new_header st h0) s4)
    as (r & buf' & s5 & E5 & Hr).
  { rewrite (proj1 Hs4). by eapply hdr_off_bound, Hwf. }
  { by rewrite length_new_header. } { by apply Hwf. }
  unfold bind. rewrite E5. rewrite (proj1 Hs4) in Hr.
  destruct Hr as [(-> & Hs5 & Hf)|[-> Hw]]; simpl; eexists _, _; (split; [done|]).
  - left. split; [done|]. split; [by etrans|done].
  - right. split; [done|]. by eapply same_disk_wrote.
Qed.

(** ** [gpt2_set_boot_chain] *)

(** The stored CRC of a header is the CRC of the [n] bytes at [e]. *)
Definition entries_valid (h : list Z) (arr : list Z) : Prop :=
  GET_4_BYTES h PARTITION_CRC_OFFSET = Some (crc32 crc32_zero arr).

(** The entries array and the secondary header it writes. *)
Definition chain_entries (is_ufs : bool) (boot : boot_chain) (arr : list Z) : list Z :=
  match boot with BACKUP_BOOT => swapped is_ufs arr | NORMAL_BOOT => arr end.
Definition chain_header (h arr : list Z) : list Z :=
  seal (splice h PARTITION_CRC_OFFSET (le4 (crc32 crc32_zero arr))) (header_size h).

Lemma fields_chain_header h arr :
  (92 ≤ length h)%nat → fields (chain_header h arr) = fields h.
Proof.
  intros. unfold chain_header, PARTITION_CRC_OFFSET.
  rewrite fields_seal; rewrite ?length_splice; simpl; try lia.
  apply fields_splice; simpl; lia.
Qed.

Lemma length_chain_header h arr :
  (92 ≤ length h)%nat → length (chain_header h arr) = length h.
Proof.
  intros. unfold chain_header, PARTITION_CRC_OFFSET.
  rewrite length_seal; rewrite length_splice; simpl; lia.
Qed.

Lemma chain_header_valid h arr :
  (92 ≤ length h)%nat → entries_valid (chain_header h arr) arr.
Proof.
  intros Hl. unfold entries_valid, chain_header, seal, PARTITION_CRC_OFFSET, HEADER_CRC_OFFSET.
  rewrite GET_4_splice_disj by (rewrite ?length_splice; simpl; lia).
  rewrite GET_4_splice by lia. f_equal. apply wrapu_small, crc32_range.
Qed.

(** Only the signature decides the state of the secondary header it writes. *)
Lemma chain_header_state h arr :
  header_sized h →
  header_state (chain_header h arr) =
    Some (if decide (slice h 0 (length GPT_SIGNATURE) = GPT_SIGNATURE)
          then GPT_OK else GPT_BAD_SIGNATURE).
Proof.
  intros Hh. pose proof (proj1 Hh) as Hl. unfold chain_header, PARTITION_CRC_OFFSET.
  set (h' := splice h 88 (le4 (crc32 crc32_zero arr))).
  assert (fields h' = fields h) as Hf by (apply fields_splice; simpl; lia).
  rewrite <- (header_size_fields h' h Hf), header_state_seal.
  - unfold h'. rewrite slice_splice_disj; [done|simpl; lia..].
  - eapply header_sized_fields; [|symmetry; exact Hf|exact Hh].
    unfold h'. rewrite length_splice; simpl; lia.
Qed.

(** Everything the writing part can have done. *)
Lemma write_chain_run s h arr hs off e B n :
  length h = B → (92 ≤ B)%nat → (Z.to_nat hs ≤ B)%nat → hs = header_size h →
  length arr = n → (off + B ≤ length (d_data s))%nat → (e + n ≤ length (d_data s))%nat →
  Z.of_nat B ≤ MAX_RW_COUNT → Z.of_nat n ≤ MAX_RW_COUNT →
  i64 (Z.of_nat e) = Z.of_nat e →
  ∃ r s', write_chain (Z.of_nat B) (Z.of_nat off) h hs (Z.of_nat e) arr (Z.of_nat n) s
            = Some (r, s') ∧
    let d1 := splice (d_data s) off (chain_header h arr) in
    (r = -1 ∧ same_disk s s' ∧ ¬ no_fault ∨
     r = -1 ∧ wrote s s' d1 ∧ ¬ no_fault ∨
     r = 0 ∧ ∃ s1, wrote s s1 d1 ∧ wrote s1 s' (splice d1 e arr)).
Proof.
  intros Hh HB Hhs Ehs Ha Hoff He HBm Hnm Hi64. unfold write_chain.
  rewrite Nat2Z.id, rd_Some, <- Ha, slice_all by lia. cbn [lift bind].
  rewrite PUT_4_splice by (unfold PARTITION_CRC_OFFSET; lia). cbn [lift bind].
  rewrite (wrapu_small 32) by apply crc32_range.
  rewrite put_header_crc_seal
    by (unfold PARTITION_CRC_OFFSET; rewrite length_splice; simpl; lia).
  cbn [lift bind]. rewrite Ehs. fold (chain_header h arr).
  destruct (blk_write off B (chain_header h arr) s) as (r & b & s1 & E1 & Hr);
    [done|rewrite length_chain_header; lia|done|].
  rewrite (bind_run _ _ _ _ _ E1). destruct Hr as [(-> & Hs & Hf)|(-> & Hw)]; cbn [Z.eqb].
  { eexists _, _. split; [done|]. by left. }
  rewrite Hi64. assert (length (d_data s1) = length (d_data s)) as Hl1.
  { rewrite (proj1 Hw), length_splice; [done|]. rewrite length_chain_header; lia. }
  rewrite Ha. destruct (blk_write e n arr s1) as (r & b' & s2 & E2 & Hr);
    [lia|done|done|].
  rewrite (bind_run _ _ _ _ _ E2). destruct Hr as [(-> & Hs & Hf)|(-> & Hw2)]; cbn [Z.eqb].
  - eexists _, _. split; [done|]. right. left. split; [done|].
    split; [by eapply wrote_same_disk|done].
  - eexists _, _. split; [done|]. right. right. split; [done|]. exists s1. split; [done|].
    by rewrite (proj1 Hw) in Hw2.
Qed.

Lemma i64_offset e : Z.of_nat e < 2 ^ 63 → i64 (Z.of_nat e) = Z.of_nat e.
Proof. intros. apply wraps_small; [lia|]. simpl. lia. Qed.

Lemma u64_offset e : Z.of_nat e < 2 ^ 63 → u64 (Z.of_nat e) = Z.of_nat e.
Proof. intros. apply wrapu_small. lia. Qed.

(** What a call of [gpt2_set_boot_chain] that returns the last argument can
    have done to the device. *)
Inductive chain_result (is_ufs : bool) (boot : boot_chain) (B e1 e2 n : nat)
    (s s' : dev) : Z → Prop :=
  | chain_stopped :
      same_disk s s' →
      (no_fault → ¬ entries_valid (hdr PRIMARY_GPT B (d_data s)) (slice (d_data s) e1 n)) →
      chain_result is_ufs boot B e1 e2 n s s' (-1)
  | chain_no_backup :
      same_disk s s' → boot = BACKUP_BOOT →
      entries_valid (hdr PRIMARY_GPT B (d_data s)) (slice (d_data s) e1 n) →
      ¬ has_pair is_ufs (slice (d_data s) e1 n) →
      chain_result is_ufs boot B e1 e2 n s s' 1
  | chain_torn arr h2 :
      arr = chain_entries is_ufs boot (slice (d_data s) e1 n) →
      h2 = chain_header (hdr SECONDARY_GPT B (d_data s)) arr →
      entries_valid (hdr PRIMARY_GPT B (d_data s)) (slice (d_data s) e1 n) →
      wrote s s' (splice (d_data s) (hdr_off SECONDARY_GPT B (length (d_data s))) h2) →
      ¬ no_fault →
      chain_result is_ufs boot B e1 e2 n s s' (-1)
  | chain_written arr h2 d1 s1 :
      arr = chain_entries is_ufs boot (slice (d_data s) e1 n) →
      h2 = chain_header (hdr SECONDARY_GPT B (d_data s)) arr →
      d1 = splice (d_data s) (hdr_off SECONDARY_GPT B (length (d_data s))) h2 →
      entries_valid (hdr PRIMARY_GPT B (d_data s)) (slice (d_data s) e1 n) →
      (boot = BACKUP_BOOT → has_pair is_ufs (slice (d_data s) e1 n)) →
      wrote s s1 d1 → wrote s1 s' (splice d1 e2 arr) →
      chain_result is_ufs boot B e1 e2 n s s' 0.

Lemma chain_entries_run is_ufs boot arr m :
  length arr = (PTN_ENTRY_SIZE * m)%nat →
  match boot with
  | BACKUP_BOOT => gpt_boot_chain_swap is_ufs arr 0 (length arr) PTN_ENTRY_SIZE
  | NORMAL_BOOT => Some (0, arr)
  end = Some (if decide (boot = BACKUP_BOOT ∧ ¬ has_pair is_ufs arr) then 1 else 0,
              chain_entries is_ufs boot arr) ∧
  length (chain_entries is_ufs boot arr) = length arr.
Proof.
  intros Hm. destruct boot; cbn [chain_entries].
  - split; [|done]. by rewrite decide_False by naive_solver.
  - rewrite (boot_chain_swap_run is_ufs m) by done. split; [|by eapply length_swapped].
    do 2 f_equal. destruct (decide (has_pair is_ufs arr)).
    + by rewrite decide_False by naive_solver.
    + by rewrite decide_True by naive_solver.
Qed.

Lemma chain_entries_lift boot (o : option (Z * list Z)) (x : Z * list Z) y (s : dev) :
  match boot with BACKUP_BOOT => o | NORMAL_BOOT => Some x end = Some y →
  match boot with BACKUP_BOOT => lift o | NORMAL_BOOT => ret x end s = Some (y, s).
Proof. destruct boot; unfold lift, ret; [congruence|by intros ->]. Qed.

(** Advance through the read of [len] bytes at [off] into [buf], in a state
    whose disk is that of [Hd0]'s first state. *)
Ltac step_read off len buf s Hd0 s' Hd :=
  let r := fresh "r" in let E := fresh "E" in let Hr := fresh "Hr" in
  let Hs := fresh "Hs" in
  destruct (blk_read off len buf s) as (r & ? & s' & E & Hs & Hr);
  [ rewrite (proj1 Hd0); simpl in *; lia | lia | lia | ];
  rewrite (bind_run _ _ _ _ _ E); clear E;
  rewrite (proj1 Hd0) in Hr; pose proof (transitivity Hd0 Hs) as Hd;
  destruct Hr as [[-> Hf]|[-> ->]]; cbn [Z.eqb negb]; [by eauto|].

(** The numbers [gpt2_set_boot_chain] computes from the fields of a header. *)
Lemma fields_ok_values B e n h :
  Z.of_nat e < 2 ^ 63 → Z.of_nat n ≤ MAX_RW_COUNT → fields_ok B e n (fields h) →
  ∃ lba cnt m, GET_8_BYTES h PENTRIES_OFFSET = Some lba ∧
    u64 (lba * Z.of_nat B) = Z.of_nat e ∧
    GET_4_BYTES h PENTRY_SIZE_OFFSET = Some (Z.of_nat PTN_ENTRY_SIZE) ∧
    GET_4_BYTES h PARTITION_COUNT_OFFSET = Some cnt ∧
    u32 (cnt * Z.of_nat PTN_ENTRY_SIZE) = Z.of_nat n ∧ n = (PTN_ENTRY_SIZE * m)%nat.
Proof.
  intros He Hn (hs & lba & cnt & E & _ & Hlba & Hcnt). unfold fields in E.
  injection E as _ E1 E2 E3. exists lba, cnt, (Z.to_nat cnt).
  rewrite Hlba, Hcnt, u64_offset by done.
  rewrite wrapu_small by (unfold MAX_RW_COUNT in Hn; lia).
  split_and!; try done. unfold PTN_ENTRY_SIZE in *. lia.
Qed.

(** The code from the secondary header's read on, once the primary table was
    read and checked. *)
Lemma chain_secondary_run is_ufs boot B e1 e2 n s0 s :
  gpt_wf B (d_data s0) e1 e2 n → same_disk s0 s →
  entries_valid (hdr PRIMARY_GPT B (d_data s0)) (slice (d_data s0) e1 n) →
  ∃ r s', chain_secondary is_ufs boot (Z.of_nat B)
            (Z.of_nat (hdr_off SECONDARY_GPT B (length (d_data s0))))
            (hdr PRIMARY_GPT B (d_data s0)) (Z.of_nat PTN_ENTRY_SIZE)
            (slice (d_data s0) e1 n) (Z.of_nat n) s = Some (r, s') ∧
          chain_result is_ufs boot B e1 e2 n s0 s' r.
Proof.
  intros Hwf Hs Hv. pose proof (wf_layout _ _ _ _ _ Hwf) as Hl.
  destruct (fields_ok_values B e2 n (hdr SECONDARY_GPT B (d_data s0)))
    as (lba & _ & m & G & O & _ & _ & _ & Hm); [destruct Hl; lia|apply Hl|apply Hwf|].
  destruct (header_sized_size _ (wf_sized SECONDARY_GPT _ _ _ _ _ Hwf)) as [Ghs Hhs].
  pose proof (hdr_off_bound SECONDARY_GPT _ _ _ _ _ Hl) as Hb.
  pose proof (length_hdr SECONDARY_GPT _ _ _ _ _ Hl) as Hlh.
  pose proof (length_hdr PRIMARY_GPT _ _ _ _ _ Hl) as Hl1.
  pose proof (lay_Bmax _ _ _ _ _ Hl) as HBm.
  assert (length (slice (d_data s0) e1 n) = n) as Hla by (apply length_slice; destruct Hl; lia).
  assert (∀ s', same_disk s0 s' → ¬ no_fault → chain_result is_ufs boot B e1 e2 n s0 s' (-1))
    as Hstop by (intros; by apply chain_stopped).
  unfold chain_secondary.
  step_read (hdr_off SECONDARY_GPT B (length (d_data s0))) B
    (hdr PRIMARY_GPT B (d_data s0)) s Hs s1 Hd1.
  fold (hdr SECONDARY_GPT B (d_data s0)). set (h := hdr SECONDARY_GPT B (d_data s0)) in *.
  rewrite Ghs. cbn [lift bind]. rewrite G. cbn [lift bind]. rewrite O, !Nat2Z.id.
  set (arr := slice (d_data s0) e1 n) in *.
  destruct (chain_entries_run is_ufs boot arr m) as [Hce Hlc]; [by rewrite Hla|].
  rewrite Hla in *.
  erewrite (bind_run (match boot with BACKUP_BOOT => _ | NORMAL_BOOT => _ end));
    [|apply chain_entries_lift, Hce].
  cbn beta iota. case_decide as Hd; cbn [Z.eqb negb].
  { eexists _, _. split; [done|]. apply chain_no_backup; tauto. }
  destruct (write_chain_run s1 h (chain_entries is_ufs boot arr) (header_size h)
    (hdr_off SECONDARY_GPT B (length (d_data s0))) e2 B n) as (r & s' & E & Hr).
  all: try (rewrite (proj1 Hd1)); try done; try lia; try apply Hl;
    try (destruct Hl; lia).
  { apply i64_offset. destruct Hl. lia. }
  exists r, s'. split; [done|]. rewrite (proj1 Hd1) in Hr.
  destruct Hr as [(-> & Hd' & Hf)|[(-> & Hw & Hf)|(-> & s2 & Hw1 & Hw2)]].
  - apply Hstop; [by etrans|done].
  - eapply chain_torn; eauto using same_disk_wrote.
  - eapply chain_written; eauto using same_disk_wrote.
    intros ->. destruct (decide (has_pair is_ufs arr)); tauto.
Qed.

Lemma gpt2_set_boot_chain_run is_ufs boot s B e1 e2 n :
  dev_wf s B e1 e2 n →
  ∃ r s', gpt2_set_boot_chain is_ufs boot s = Some (r, s') ∧
    chain_result is_ufs boot B e1 e2 n s s' r.
Proof.
  intros Hwf. unfold gpt2_set_boot_chain. pose proof (ssz_u32 _ _ _ _ _ Hwf) as Hz.
  destruct Hwf as [_ Hwf]. pose proof (wf_layout _ _ _ _ _ Hwf) as Hl.
  destruct (fields_ok_values B e1 n (hdr PRIMARY_GPT B (d_data s)))
    as (lba1 & cnt1 & m & G1 & O1 & S1 & C1 & N1 & Hm); [destruct Hl; lia|apply Hl|apply Hwf|].
  pose proof (hdr_off_bound PRIMARY_GPT _ _ _ _ _ Hl) as Hb1.
  pose proof (lay_Bmax _ _ _ _ _ Hl) as HBm. pose proof (lay_nmax _ _ _ _ _ Hl) as Hnm.
  assert (e1 + n ≤ length (d_data s))%nat as Hbe by (destruct Hl; lia).
  assert (∀ s', same_disk s s' → ¬ no_fault → chain_result is_ufs boot B e1 e2 n s s' (-1))
    as Hstop by (intros; by apply chain_stopped).
  step_call (ioctl_run s) b s1 Hs1 Hb. destruct Hb as [[-> Hf]| ->]; [by eauto|].
  rewrite Hz. step_call (malloc_run (Z.of_nat B) s1) h s2 Hs2 Hh.
  assert (same_disk s s2) as Hd2 by by etrans.
  destruct Hh as [[-> Hf]|(buf & -> & Hlen)]; [by eauto|]. rewrite Nat2Z.id in Hlen.
  step_call (lseek64_end_run s2) e s3 Hs3 He.
  assert (same_disk s s3) as Hd3 by by etrans.
  destruct He as [[-> Hf]| ->]; zbool; [by eauto|].
  rewrite (proj1 Hd2) in *.
  assert (Z.of_nat (length (d_data s)) - Z.of_nat B =
    Z.of_nat (hdr_off SECONDARY_GPT B (length (d_data s)))) as ->
    by (destruct Hl; simpl; lia). zbool.
  step_read (hdr_off PRIMARY_GPT B (length (d_data s))) B buf s3 Hd3 s4 Hd4.
  fold (hdr PRIMARY_GPT B (d_data s)).
  rewrite G1. cbn [lift bind]. rewrite S1. cbn [lift bind]. rewrite C1. cbn [lift bind].
  rewrite N1, O1. step_call (calloc_run (Z.of_nat n) s4) p s5 Hs5 Hp.
  assert (same_disk s s5) as Hd5 by by etrans.
  destruct Hp as [[-> Hf]|(pe & -> & Hlp)]; [by eauto|]. rewrite Nat2Z.id in Hlp.
  rewrite i64_offset by (destruct Hl; lia). step_read e1 n pe s5 Hd5 s6 Hd6.
  assert (length (slice (d_data s) e1 n) = n) as Hla by by apply length_slice.
  rewrite Nat2Z.id, rd_Some, (slice_whole _ n Hla) by (rewrite Hla; lia).
  cbn [lift bind]. rewrite (wrapu_small 32) by apply crc32_range.
  destruct (GET_4_is_Some (hdr PRIMARY_GPT B (d_data s)) PARTITION_CRC_OFFSET) as [c Hc].
  { rewrite (length_hdr PRIMARY_GPT _ _ _ _ _ Hl). destruct Hl. unfold PARTITION_CRC_OFFSET. lia. }
  rewrite Hc. cbn [lift bind].
  destruct (Z.eqb_spec c (crc32 crc32_zero (slice (d_data s) e1 n))) as [->|Hne]; cbn [negb].
  - by apply chain_secondary_run.
  - eexists _, _. split; [done|]. apply chain_stopped; [done|].
    intros _ Hv. unfold entries_valid in Hv. congruence.
Qed.

End runs.

(** ** Writes keep a disk well formed *)

Lemma wf_splice_hdr gpt B (data : list Z) e1 e2 n h :
  gpt_wf B data e1 e2 n → length h = B → fields h = fields (hdr gpt B data) →
  gpt_wf B (splice data (hdr_off gpt B (length data)) h) e1 e2 n.
Proof.
  intros Hwf Hh Hf. pose proof (wf_layout _ _ _ _ _ Hwf) as Hl.
  pose proof (hdr_off_bound gpt _ _ _ _ _ Hl).
  eapply wf_fields; [done|apply length_splice; lia|]. intros g.
  erewrite hdr_splice_hdr by done. case_decide; [by subst|done].
Qed.

Lemma wf_splice_other B data e1 e2 n off bs :
  gpt_wf B data e1 e2 n → (2 * B ≤ off)%nat → (off + length bs + B ≤ length data)%nat →
  gpt_wf B (splice data off bs) e1 e2 n.
Proof.
  intros Hwf Ho Hb. pose proof (wf_layout _ _ _ _ _ Hwf) as Hl.
  eapply wf_fields; [done|apply length_splice; lia|]. intros g.
  by erewrite hdr_splice_other.
Qed.

(** A header's write changes no entries array. *)
Lemma slice_splice_hdr gpt B (data : list Z) e1 e2 n h e :
  layout B (length data) e1 e2 n → length h = B → e = e1 ∨ e = e2 →
  slice (splice data (hdr_off gpt B (length data)) h) e n = slice data e n.
Proof.
  intros Hl Hh He. pose proof (hdr_off_bound gpt _ _ _ _ _ Hl).
  apply slice_splice_disj; [lia|]. destruct Hl, gpt, He; subst; simpl; lia.
Qed.

Lemma dev_wf_wrote s s' l B e1 e2 n :
  dev_wf s B e1 e2 n → wrote s s' l → gpt_wf B l e1 e2 n → dev_wf s' B e1 e2 n.
Proof. intros [Hz _] (E & _ & E') Hl. split; congruence. Qed.

Section theorems.
Context `{Kernel} `{!ZlibOk zl}.

(** Setting the state of a GPT header and reading it back: on a well-formed
    disk, whatever calls fail, [gpt_set_state] returns 0 or fails without
    changing the disk; after a 0 the other header and both entries arrays are
    as before, and [gpt_get_state] reports the state that was set unless one of
    its own calls fails.  Without failing calls both return 0. *)
Theorem gpt_set_get_state (gpt : gpt_instance) (st : gpt_state) (s : dev)
    (B e1 e2 n : nat) (Hshort : no_short) (Hwf : dev_wf s B e1 e2 n)
    (Hst : st ≠ GPT_BAD_CRC) :
  ∃ r s', gpt_set_state gpt st s = Some (r, s') ∧
    (r ≠ 0 → r = -1 ∧ d_data s' = d_data s ∧ ¬ no_fault) ∧
    (r = 0 →
       (∀ g, g ≠ gpt → hdr g B (d_data s') = hdr g B (d_data s)) ∧
       slice (d_data s') e1 n = slice (d_data s) e1 n ∧
       slice (d_data s') e2 n = slice (d_data s) e2 n ∧
       ∃ r' st' s'', gpt_get_state gpt s' = Some ((r', st'), s'') ∧
         (r' = 0 ∧ st' = st ∨ r' = -1 ∧ ¬ no_fault)).
Proof.
  destruct (gpt_set_state_run Hshort gpt st s B e1 e2 n Hwf Hst) as (r & s' & E & Hr).
  exists r, s'. split; [done|]. pose proof (proj2 Hwf) as Hg.
  pose proof (wf_layout _ _ _ _ _ Hg) as Hl. pose proof (wf_sized gpt _ _ _ _ _ Hg) as Hsz.
  pose proof (proj1 Hsz) as H92. pose proof (length_hdr gpt _ _ _ _ _ Hl) as Hlh.
  assert (length (new_header st (hdr gpt B (d_data s))) = B) as Hln
    by by rewrite length_new_header.
  destruct Hr as [(-> & Hd & Hf)|(-> & Hw)].
  { split; [|done]. intros _. split_and!; [done|apply Hd|done]. }
  split; [done|]. intros _. rewrite (proj1 Hw).
  split; [|split; [|split]].
  - intros g Hne. erewrite hdr_splice_hdr by done. by rewrite decide_False.
  - by eapply slice_splice_hdr; eauto.
  - by eapply slice_splice_hdr; eauto.
  - destruct (gpt_get_state_run Hshort gpt s' B e1 e2 n) as (r' & st' & s'' & E' & _ & Hr').
    { eapply dev_wf_wrote; [done..|]. apply wf_splice_hdr; [done..|].
      by apply fields_new_header. }
    exists r', st', s''. split; [done|]. destruct Hr' as [?|[-> Hh]]; [by right|left].
    split; [done|]. rewrite (proj1 Hw) in Hh.
    erewrite hdr_splice_hdr in Hh by done. rewrite decide_True in Hh by done.
    rewrite header_state_new in Hh by done. by injection Hh.
Qed.

End theorems.

(** ** A concrete disk

    Blocks of 512 bytes: the protective block, the primary header, its entries,
    one block of partitions, the secondary entries and the secondary header. *)

(** A run in which nothing fails. *)
Definition quiet : Kernel := {| sys := λ _, FOk; heap := λ _ _, 0xAA |}.

Lemma quiet_no_short : @no_short quiet.
Proof. intros k n. discriminate. Defined.

Lemma quiet_no_fault : @no_fault quiet.
Proof. intros k. reflexivity. Defined.

Definition mk_header (lba : Z) (arr : list Z) : list Z :=
  seal (take 8 GPT_SIGNATURE ++ [0; 0; 1; 0] ++ le4 92 ++ replicate 56 0 ++
        le4 lba ++ le4 0 ++ le4 (Z.of_nat (length arr) / 128) ++ le4 128 ++
        le4 (crc32 crc32_zero arr) ++ replicate 420 0) 92.

Definition sample_table : list Z := concat sample_entries ++ replicate 256 0.

Definition sample_disk : list Z :=
  replicate 512 0 ++ mk_header 2 sample_table ++ sample_table ++
  replicate 512 7 ++ sample_table ++ mk_header 5 sample_table.

Definition sample_dev : dev := Dev sample_disk 512 0 [] 0 false.

Lemma sample_layout : layout 512 (length sample_disk) 1024 2560 1024.
Proof.
  split; try (by exists 8%nat; vm_compute); vm_compute; try split; try done; try lia.
Defined.

Lemma sample_dev_wf : dev_wf sample_dev 512 1024 2560 1024.
Proof.
  split; [reflexivity|]. split; [apply sample_layout| |].
  - exists 92, 2, 8. split; [vm_compute; reflexivity|]. vm_compute. split_and!; done.
  - exists 92, 5, 8. split; [vm_compute; reflexivity|]. vm_compute. split_and!; done.
Defined.

Lemma gpt_set_get_state_witness :
  ∃ r s', @gpt_set_state quiet _ PRIMARY_GPT GPT_BAD_SIGNATURE sample_dev = Some (r, s') ∧
    r = 0 ∧
    ∃ r' st' s'', @gpt_get_state quiet _ PRIMARY_GPT s' = Some ((r', st'), s'') ∧
      st' = GPT_BAD_SIGNATURE.
Proof.
  destruct (@gpt_set_get_state quiet zlib _ PRIMARY_GPT GPT_BAD_SIGNATURE sample_dev
    512 1024 2560 1024 quiet_no_short sample_dev_wf) as (r & s' & E & H1 & H2); [done|].
  exists r, s'. split; [exact E|].
  assert (r = 0) as Hr.
  { destruct (decide (r = 0)) as [?|Hne]; [done|]. destruct (H1 Hne) as (_ & _ & Hf).
    destruct (Hf quiet_no_fault). }
  split; [exact Hr|]. destruct (H2 Hr) as (_ & _ & _ & r' & st' & s'' & E' & Hd).
  exists r', st', s''. split; [exact E'|]. destruct Hd as [[_ ?]|[_ Hf]]; [done|].
  destruct (Hf quiet_no_fault).
Defined.

End Header.
