(* ===== verification/UfsBsg.v ===== *)
(** * UfsBsg: selecting the UFS boot LUN
      (gpt-utils/recovery-ufs-bsg.{h,cpp}, built with
      [_BSG_FRAMEWORK_KERNEL_HEADERS])

    [set_boot_lun] finds the bsg node in /dev, opens it, sends one UPIU query
    that writes the attribute bBootLunEn, and closes the node.  The globals
    [ufs_bsg_dev] and [fd_ufs_bsg] and the trace of the calls made are the
    state; the directory listing, [open] and the reply of the driver are the
    class [Bsg]. *)

From S2P Require Import Prelude GptBytes.
From coqutil Require Import Z.bitblast.

Module Ufs.

(** ** recovery-ufs-bsg.h and the kernel's bsg structures *)

Definition UTP_UPIU_QUERY_REQ : Z := 0x16.
Definition QUERY_REQ_FUNC_STD_WRITE : Z := 0x81.
Definition QUERY_REQ_OP_WRITE_DESC : Z := 0x2.
Definition QUERY_REQ_OP_WRITE_ATTR : Z := 0x4.
Definition QUERY_ATTR_IDN_BOOT_LU_EN : Z := 0x00.

Inductive bsg_ioctl_dir := BSG_IOCTL_DIR_TO_DEV | BSG_IOCTL_DIR_FROM_DEV.
#[global] Instance bsg_ioctl_dir_eq_dec : EqDecision bsg_ioctl_dir.
Proof. solve_decision. Defined.

(** [struct utp_upiu_header], [struct utp_upiu_query] and
    [struct ufs_bsg_request]: the integers as the little-endian CPU holds them. *)
Record utp_upiu_header := Hdr { dword_0 : Z; dword_1 : Z; dword_2 : Z }.
Record utp_upiu_query := Qr {
  qr_opcode : Z; qr_idn : Z; qr_index : Z; qr_selector : Z; qr_length : Z; qr_value : Z }.
Record ufs_bsg_request := Req {
  msgcode : Z; req_header : utp_upiu_header; req_qr : utp_upiu_query }.

(** [struct sg_io_v4], the members the code sets; [request] is the request the
    pointer designates. *)
Record sg_io_v4 := SgIo {
  guard : Z; protocol : Z; subprotocol : Z; request : ufs_bsg_request;
  din_xfer_len : Z; dout_xfer_len : Z }.

#[global] Instance utp_upiu_header_eq_dec : EqDecision utp_upiu_header.
Proof. solve_decision. Defined.
#[global] Instance utp_upiu_query_eq_dec : EqDecision utp_upiu_query.
Proof. solve_decision. Defined.
#[global] Instance ufs_bsg_request_eq_dec : EqDecision ufs_bsg_request.
Proof. solve_decision. Defined.
#[global] Instance sg_io_v4_eq_dec : EqDecision sg_io_v4.
Proof. solve_decision. Defined.

Definition BSG_PROTOCOL_SCSI : Z := 0.
Definition BSG_SUB_PROTOCOL_SCSI_TRANSPORT : Z := 2.
Definition ENODEV : Z := 19.
Definition EINVAL : Z := 22.
Definition EAGAIN : Z := 11.

(** [htobe16] and [htobe32] on a little-endian CPU swap the bytes. *)
Definition htobe16 (x : Z) : Z :=
  Z.lor (Z.shiftl (Z.land x 0xff) 8) (Z.land (Z.shiftr x 8) 0xff).
Definition htobe32 (x : Z) : Z :=
  Z.lor (Z.lor (Z.lor (Z.shiftl (Z.land x 0xff) 24)
    (Z.shiftl (Z.land (Z.shiftr x 8) 0xff) 16))
    (Z.shiftl (Z.land (Z.shiftr x 16) 0xff) 8))
    (Z.land (Z.shiftr x 24) 0xff).

Definition DWORD (b3 b2 b1 b0 : Z) : Z :=
  htobe32 (Z.lor (Z.lor (Z.lor (Z.shiftl b3 24) (Z.shiftl b2 16)) (Z.shiftl b1 8)) b0).

(** ** The environment and the state *)

(** The driver's reply to [SG_IO]: what [ioctl] returns, [sg_io.info] and
    [rsp->result]. *)
Record bsg_reply := Reply { io_ret : Z; io_info : Z; io_result : Z }.

Class Bsg := {
  dev_entries : option (list string);   (* the names in /dev; None: opendir fails *)
  bsg_open : string → Z + Z;            (* a descriptor, or errno *)
  bsg_sg_io : sg_io_v4 → bsg_reply;
}.

Inductive bsg_event :=
  | EvOpen (path : string) (fd : Z)
  | EvIoctl (fd : Z) (io : sg_io_v4)
  | EvClose (fd : Z).

Record bsg_state := BsgState {
  ufs_bsg_dev : string;
  fd_ufs_bsg : Z;
  bsg_trace : list bsg_event;           (* the calls made, in order *)
}.

Definition bsg_init : bsg_state := BsgState "/dev/ufs-bsg" 0 [].

Definition emit (e : bsg_event) : M bsg_state unit := λ s,
  Some (tt, BsgState (ufs_bsg_dev s) (fd_ufs_bsg s) (bsg_trace s ++ [e])).
Definition set_fd (fd : Z) : M bsg_state unit := λ s,
  Some (tt, BsgState (ufs_bsg_dev s) fd (bsg_trace s)).
Definition set_dev (p : string) : M bsg_state unit := λ s,
  Some (tt, BsgState p (fd_ufs_bsg s) (bsg_trace s)).
Definition get_fd : M bsg_state Z := λ s, Some (fd_ufs_bsg s, s).
Definition get_dev : M bsg_state string := λ s, Some (ufs_bsg_dev s, s).

(** ** The code *)

Section code.
Context `{Bsg}.

(** The [readdir] loop of [get_ufs_bsg_dev]: the first matching name. *)
Fixpoint find_bsg (names : list string) : option string :=
  match names with
  | [] => None
  | d :: names' =>
      if String.eqb d "ufs-bsg" || String.eqb d "ufs-bsg0" then Some d
      else find_bsg names'
  end.

Definition get_ufs_bsg_dev : M bsg_state Z :=
  match dev_entries with
  | None => ret (- EINVAL)
  | Some names =>
      match find_bsg names with
      | Some d => set_dev ("/dev/" ++ d)%string ;; ret 0
      | None => ret (- ENODEV)
      end
  end.

Definition ufs_bsg_dev_open : M bsg_state Z :=
  let* fd := get_fd in
  if fd =? 0 then
    let* path := get_dev in
    match bsg_open path with
    | inl fd => emit (EvOpen path fd) ;; set_fd fd ;; ret 0
    | inr errno => set_fd 0 ;; ret errno
    end
  else ret 0.

Definition ufs_bsg_dev_close : M bsg_state unit :=
  let* fd := get_fd in
  if fd =? 0 then ret tt else emit (EvClose fd) ;; set_fd 0.

Definition ufs_bsg_ioctl (fd : Z) (req : ufs_bsg_request) (buf_len : Z)
    (dir : bsg_ioctl_dir) : M bsg_state Z :=
  let io := SgIo 81 (* 'Q' *) BSG_PROTOCOL_SCSI BSG_SUB_PROTOCOL_SCSI_TRANSPORT req
              (if decide (dir = BSG_IOCTL_DIR_FROM_DEV) then buf_len else 0)
              (if decide (dir = BSG_IOCTL_DIR_FROM_DEV) then 0 else buf_len) in
  emit (EvIoctl fd io) ;;
  let rsp := bsg_sg_io io in
  if negb (io_info rsp =? 0) || negb (io_result rsp =? 0) then ret (- EAGAIN)
  else ret (io_ret rsp).

Definition compose_ufs_bsg_query_req (value func opcode idn index sel length : Z)
    : ufs_bsg_request :=
  Req UTP_UPIU_QUERY_REQ
    (Hdr (DWORD UTP_UPIU_QUERY_REQ 0 0 0) (DWORD 0 func 0 0)
         (DWORD 0 0 (Z.shiftr length 8) (u8 length)))
    (Qr opcode idn index sel (htobe16 length) value).

Definition ufs_query_attr (fd value func opcode idn index sel : Z) : M bsg_state Z :=
  let dir := if (opcode =? QUERY_REQ_OP_WRITE_DESC) || (opcode =? QUERY_REQ_OP_WRITE_ATTR)
             then BSG_IOCTL_DIR_TO_DEV else BSG_IOCTL_DIR_FROM_DEV in
  let req := compose_ufs_bsg_query_req (htobe32 value) func opcode idn index sel 0 in
  ufs_bsg_ioctl fd req 0 dir.

Definition set_boot_lun (lun_id : Z) : M bsg_state Z :=
  let boot_lun_id := u8 lun_id in
  let* r := get_ufs_bsg_dev in
  if negb (r =? 0) then ret r else
  let* r := ufs_bsg_dev_open in
  if negb (r =? 0) then ret r else
  let* fd := get_fd in
  let* r := ufs_query_attr fd boot_lun_id QUERY_REQ_FUNC_STD_WRITE
              QUERY_REQ_OP_WRITE_ATTR QUERY_ATTR_IDN_BOOT_LU_EN 0 0 in
  ufs_bsg_dev_close ;; ret r.

End code.

(** ** What goes over the wire *)

(** The bytes of a 32-bit integer in memory are the bytes of its number in
    big-endian order after [htobe32]. *)
Lemma htobe32_wire x :
  0 ≤ x < 2 ^ 32 →
  le4 (htobe32 x) = [Z.land (Z.shiftr x 24) 0xff; Z.land (Z.shiftr x 16) 0xff;
                     Z.land (Z.shiftr x 8) 0xff; Z.land x 0xff].
Proof.
  intros Hx. unfold le4, htobe32. change 255 with (Z.ones 8).
  f_equal; [Z.bitblast|]. f_equal; [Z.bitblast|]. f_equal; [Z.bitblast|].
  f_equal. Z.bitblast.
Qed.

(** The query message that selects boot LUN [lun]. *)
Definition boot_lun_io (lun : Z) : sg_io_v4 :=
  SgIo 81 BSG_PROTOCOL_SCSI BSG_SUB_PROTOCOL_SCSI_TRANSPORT
    (Req UTP_UPIU_QUERY_REQ
       (Hdr (DWORD 0x16 0 0 0) (DWORD 0 0x81 0 0) (DWORD 0 0 0 0))
       (Qr QUERY_REQ_OP_WRITE_ATTR QUERY_ATTR_IDN_BOOT_LU_EN 0 0 0 (htobe32 lun)))
    0 0.

Definition accepted (r : bsg_reply) : Prop := io_ret r = 0 ∧ io_info r = 0 ∧ io_result r = 0.
#[global] Instance accepted_dec r : Decision (accepted r).
Proof. unfold accepted. apply _. Defined.

(** The bytes of the request as the driver reads them: the message code, the
    three header words, the query's octets, its reserved and length halfwords,
    its value and its reserved words. *)
Definition wire (r : ufs_bsg_request) : list Z :=
  le4 (msgcode r) ++ le4 (dword_0 (req_header r)) ++ le4 (dword_1 (req_header r)) ++
  le4 (dword_2 (req_header r)) ++
  [qr_opcode (req_qr r); qr_idn (req_qr r); qr_index (req_qr r); qr_selector (req_qr r)] ++
  [0; 0] ++ take 2 (le4 (qr_length (req_qr r))) ++ le4 (qr_value (req_qr r)) ++
  replicate 8 0.

Lemma boot_lun_wire lun :
  0 ≤ lun < 256 →
  wire (request (boot_lun_io lun)) =
    [0x16; 0; 0; 0;  0x16; 0; 0; 0;  0; 0x81; 0; 0;  0; 0; 0; 0;
     4; 0; 0; 0;  0; 0;  0; 0;  0; 0; 0; lun] ++ replicate 8 0.
Proof.
  intros Hl. unfold wire, boot_lun_io. cbn [request msgcode req_header dword_0 dword_1 dword_2
    req_qr qr_opcode qr_idn qr_index qr_selector qr_length qr_value].
  rewrite (htobe32_wire lun) by lia.
  assert (∀ k, 8 ≤ k → Z.land (Z.shiftr lun k) 255 = 0) as Hz.
  { intros k Hk. rewrite Z.shiftr_div_pow2, Z.div_small; [done| |lia].
    split; [lia|]. apply Z.lt_le_trans with (2 ^ 8); [lia|]. apply Z.pow_le_mono_r; lia. }
  rewrite !Hz by lia. change 255 with (Z.ones 8).
  rewrite Z.land_ones, Z.mod_small by lia. reflexivity.
Qed.

(** Run the straight-line parts of the code. *)
Ltac run_bsg :=
  repeat (cbv beta iota zeta delta [bind set_dev get_fd get_dev set_fd ret emit
    ufs_bsg_dev_open ufs_bsg_dev_close fd_ufs_bsg ufs_bsg_dev bsg_trace];
    cbn [Z.eqb negb orb]).

Section theorems.
Context `{Bsg}.

Lemma query_boot_lun fd lun s :
  ∃ r, ufs_query_attr fd lun QUERY_REQ_FUNC_STD_WRITE QUERY_REQ_OP_WRITE_ATTR
         QUERY_ATTR_IDN_BOOT_LU_EN 0 0 s
       = Some (r, BsgState (ufs_bsg_dev s) (fd_ufs_bsg s)
                    (bsg_trace s ++ [EvIoctl fd (boot_lun_io lun)])) ∧
    (r = 0 ↔ accepted (bsg_sg_io (boot_lun_io lun))).
Proof.
  unfold ufs_query_attr, ufs_bsg_ioctl, accepted, bind, emit, ret.
  change (SgIo 81 _ _ _ _ _) with (boot_lun_io lun).
  destruct (bsg_sg_io (boot_lun_io lun)) as [r i d]. cbn [io_info io_ret io_result].
  destruct (Z.eqb_spec i 0) as [->|Hi], (Z.eqb_spec d 0) as [->|Hd]; cbn [negb orb];
    eexists; (split; [done|]); unfold EAGAIN; split; lia || tauto || (intros; tauto).
Qed.

Lemma set_boot_lun_run lun s :
  0 ≤ lun < 256 → fd_ufs_bsg s = 0 → (∀ p e, bsg_open p = inr e → 0 < e) →
  ∃ r s' evs, set_boot_lun lun s = Some (r, s') ∧ fd_ufs_bsg s' = 0 ∧
    bsg_trace s' = bsg_trace s ++ evs ∧
    match mbind find_bsg dev_entries with
    | None => r < 0 ∧ evs = []
    | Some d =>
        match bsg_open ("/dev/" ++ d)%string with
        | inr errno => r = errno ∧ r ≠ 0 ∧ evs = []
        | inl fd =>
            evs = [EvOpen ("/dev/" ++ d)%string fd; EvIoctl fd (boot_lun_io lun)] ++
                  (if fd =? 0 then [] else [EvClose fd]) ∧
            (r = 0 ↔ accepted (bsg_sg_io (boot_lun_io lun)))
        end
    end.
Proof.
  intros Hlun Hfd Herrno. destruct s as [p fd0 tr]. cbn [fd_ufs_bsg] in Hfd. subst fd0.
  unfold set_boot_lun, get_ufs_bsg_dev. rewrite (wrapu_small 8) by (simpl; lia).
  destruct dev_entries as [names|]; cbn [mbind option_bind].
  2:{ exists (- EINVAL), (BsgState p 0 tr), []. rewrite app_nil_r. done. }
  destruct (find_bsg names) as [d|].
  2:{ exists (- ENODEV), (BsgState p 0 tr), []. rewrite app_nil_r. done. }
  run_bsg. destruct (bsg_open ("/dev/" ++ d)%string) as [fd|errno] eqn:Eo.
  2:{ specialize (Herrno _ _ Eo). run_bsg. zbool. cbn [negb].
      eexists errno, _, []. split; [done|]. cbn. rewrite app_nil_r.
      split; [done|]. split; [done|]. split; [done|]. split; [lia|done]. }
  run_bsg. destruct (query_boot_lun fd lun (BsgState ("/dev/" ++ d)%string fd
    (tr ++ [EvOpen ("/dev/" ++ d)%string fd]))) as (r & E & Hr). rewrite E. clear E.
  run_bsg. destruct (Z.eqb_spec fd 0) as [->|Hf].
  1: eexists r, _, [_; _]. 2: eexists r, _, [_; _; _].
  all: (split; [done|]); (split; [done|]);
    (split; [cbn [bsg_trace]; by rewrite <- !app_assoc|]); done.
Qed.

(** C27. [set_boot_lun], called with the bsg node closed: when /dev has no bsg
    node or it cannot be opened it fails and sends nothing; otherwise it opens
    the first node, sends exactly one query, whose bytes write attribute
    bBootLunEn with the LUN's number, closes the node again, and returns 0
    exactly when the driver accepted the query. *)
Theorem set_boot_lun_spec (lun : Z) (s : bsg_state)
    (Hlun : 0 ≤ lun < 256) (Hfd : fd_ufs_bsg s = 0)
    (Herrno : ∀ p e, bsg_open p = inr e → 0 < e) :
  ∃ r s' evs, set_boot_lun lun s = Some (r, s') ∧ fd_ufs_bsg s' = 0 ∧
    bsg_trace s' = bsg_trace s ++ evs ∧
    match mbind find_bsg dev_entries with
    | None => r < 0 ∧ evs = []
    | Some d =>
        match bsg_open ("/dev/" ++ d)%string with
        | inr errno => r = errno ∧ r ≠ 0 ∧ evs = []
        | inl fd => ∃ io,
            evs = [EvOpen ("/dev/" ++ d)%string fd; EvIoctl fd io] ++
                  (if fd =? 0 then [] else [EvClose fd]) ∧
            wire (request io) =
              [0x16; 0; 0; 0;  0x16; 0; 0; 0;  0; 0x81; 0; 0;  0; 0; 0; 0;
               4; 0; 0; 0;  0; 0;  0; 0;  0; 0; 0; lun] ++ replicate 8 0 ∧
            (r = 0 ↔ accepted (bsg_sg_io io))
        end
    end.
Proof.
  destruct (set_boot_lun_run lun s Hlun Hfd Herrno) as (r & s' & evs & E & Hf & Ht & Hr).
  exists r, s', evs. do 3 (split; [done|]).
  destruct (mbind find_bsg dev_entries) as [d|]; [|done].
  destruct (bsg_open ("/dev/" ++ d)%string) as [fd|errno]; [|done].
  exists (boot_lun_io lun). destruct Hr as [-> Hr]. split; [done|].
  split; [by apply boot_lun_wire|done].
Qed.

End theorems.

(** A bsg node that opens and a driver that accepts everything. *)
Definition sample_bsg : Bsg :=
  {| dev_entries := Some ["null"; "ufs-bsg0"; "zero"]%string;
     bsg_open := λ p, if String.eqb p "/dev/ufs-bsg0" then inl 7 else inr 2;
     bsg_sg_io := λ _, Reply 0 0 0 |}.

Lemma set_boot_lun_spec_witness :
  ∃ r s' io, @set_boot_lun sample_bsg 2 bsg_init = Some (r, s') ∧ r = 0 ∧
    bsg_trace s' = [EvOpen "/dev/ufs-bsg0" 7; EvIoctl 7 io; EvClose 7].
Proof.
  destruct (@set_boot_lun_spec sample_bsg 2 bsg_init) as (r & s' & evs & E & _ & Ht & io & He & _ & Hr).
  - lia.
  - reflexivity.
  - cbn. intros p e. destruct (String.eqb p "/dev/ufs-bsg0"); intros [= <-]. lia.
  - exists r, s', io. split; [exact E|]. split; [apply Hr; vm_compute; done|].
    rewrite Ht, He. reflexivity.
Defined.

End Ufs.
