(* ===== verification/GptUpdate.v ===== *)
(** * GptUpdate: failsafe updates of the boot partitions
      (gpt-utils/gpt-utils.cpp, from [get_scsi_node_from_bootdevice] to
      [prepare_boot_update])

    The functions run over a [world]: the block devices by path and the bsg
    node.  The file system the code looks at (names, links, directories, the
    property ro.boot.bootdevice) is the class [Env]; every device has its own
    schedule of faults [kern]. *)

From Stdlib Require Import Sorted.
From S2P Require Import Prelude Kernel Medium GptBytes GptTable GptHeader UfsBsg.

Module Update.
Import Table Header Ufs.

Definition BLK_DEV_FILE : string := "/dev/block/mmcblk0".
Definition XBL_PRIMARY : string := "/dev/block/bootdevice/by-name/xbl".
Definition XBL_BACKUP : string := "/dev/block/bootdevice/by-name/xblbak".
Definition XBL_AB_PRIMARY : string := "/dev/block/bootdevice/by-name/xbl_a".
Definition XBL_AB_SECONDARY : string := "/dev/block/bootdevice/by-name/xbl_b".
Definition BOOT_DEV_DIR : string := "/dev/block/bootdevice/by-name".
Definition MAX_LUNS : nat := 26.
Definition PATH_TRUNCATE_LOC : nat := String.length "/dev/block/sda".
Definition LUN_NAME_START_LOC : nat := String.length "/dev/block/".
Definition BOOT_LUN_A_ID : Z := 1.
Definition BOOT_LUN_B_ID : Z := 2.

Inductive boot_update_stage := UPDATE_MAIN | UPDATE_BACKUP | UPDATE_FINALIZE.
#[global] Instance boot_update_stage_eq_dec : EqDecision boot_update_stage.
Proof. solve_decision. Defined.

(** The enumeration's values. *)
Definition stage_int (s : boot_update_stage) : Z :=
  match s with UPDATE_MAIN => 1 | UPDATE_BACKUP => 2 | UPDATE_FINALIZE => 3 end.

(** ** The world *)

Class Env := {
  fs_stat : string → bool;                  (* [stat] returns 0 *)
  fs_readlink : string → option string;
  fs_dir : string → option (list string);   (* [opendir] and the names in it *)
  fs_open : string → bool;                  (* [open] of a block device succeeds *)
  bootdevice : string;                      (* [property_get("ro.boot.bootdevice")] *)
  kern : string → Kernel;                   (* the faults of each device *)
  env_bsg : Bsg;
}.
#[global] Existing Instance env_bsg.

Record world := World {
  w_devs : gmap string dev;
  w_bsg : bsg_state;
}.
Abbreviation W := (M world).

(** Run code on the open device [path]. *)
Definition on_dev {A} (path : string) (m : D A) : W A := λ w,
  match w_devs w !! path with
  | None => None
  | Some d =>
      match m d with
      | None => None
      | Some (a, d') => Some (a, World (<[path := d']> (w_devs w)) (w_bsg w))
      end
  end.

Definition on_bsg {A} (m : M bsg_state A) : W A := λ w,
  match m (w_bsg w) with
  | None => None
  | Some (a, b) => Some (a, World (w_devs w) b)
  end.

Section code.
Context `{Env} `{Zlib}.

(** [open(path, flags)]: whether it succeeds; the position is then 0. *)
Definition open_dev (flags : Z) (path : string) : W bool := λ w,
  match w_devs w !! path with
  | Some d =>
      if fs_open path then Some (true, World (<[path := set_open flags d]> (w_devs w)) (w_bsg w))
      else Some (false, w)
  | None => Some (false, w)
  end.

Definition gpt_utils_is_ufs_device : bool :=
  let dev := bytes bootdevice in
  if (length dev <? length (bytes ".ufshc") + 1)%nat then false
  else default false
    (strncmp_eq (drop (length dev - length (bytes ".ufshc")) (cstring bootdevice))
                (cstring ".ufshc") (length (cstring ".ufshc"))).

(** The [readdir] loop: the first entry that does not start with a dot and
    starts with "sg". *)
Fixpoint find_sg (names : list string) : option string :=
  match names with
  | [] => None
  | d :: names' =>
      if String.prefix "." d then find_sg names'
      else if String.prefix "sg" d then Some d
      else find_sg names'
  end.

(** [Some node] when the function returns 0, [node] being [sg_node_path]. *)
Definition get_scsi_node_from_bootdevice (bootdev_path : string) : option string :=
  match fs_readlink bootdev_path with
  | None => None
  | Some real_path =>
      if (String.length real_path <? PATH_TRUNCATE_LOC + 1)%nat then None else
      let real_path := String.substring 0 PATH_TRUNCATE_LOC real_path in
      if (String.length real_path <? LUN_NAME_START_LOC + 1)%nat then None else
      let lun := String.substring LUN_NAME_START_LOC
                   (String.length real_path - LUN_NAME_START_LOC) real_path in
      match fs_dir ("/sys/block/" ++ lun ++ "/device/scsi_generic")%string with
      | None => None
      | Some names =>
          match find_sg names with
          | None => None
          | Some d => Some ("/dev/" ++ d)%string
          end
      end
  end.

Definition gpt_utils_set_xbl_boot_partition (chain : boot_chain) : W Z :=
  let sel :=
    match chain with
    | BACKUP_BOOT =>
        (BOOT_LUN_B_ID,
         if fs_stat XBL_BACKUP then Some XBL_BACKUP
         else if fs_stat XBL_AB_SECONDARY then Some XBL_AB_SECONDARY else None)
    | NORMAL_BOOT =>
        (BOOT_LUN_A_ID,
         if fs_stat XBL_PRIMARY then Some XBL_PRIMARY
         else if fs_stat XBL_AB_PRIMARY then Some XBL_AB_PRIMARY else None)
    end in
  let '(boot_lun_id, boot_dev) := sel in
  match boot_dev with
  | None => ret (-1)
  | Some boot_dev =>
  if (negb (fs_stat XBL_PRIMARY) || negb (fs_stat XBL_BACKUP)) &&
     (negb (fs_stat XBL_AB_PRIMARY) || negb (fs_stat XBL_AB_SECONDARY)) then ret (-1) else
  match get_scsi_node_from_bootdevice boot_dev with
  | None => ret (-1)
  | Some _ =>
  let* r := on_bsg (set_boot_lun boot_lun_id) in
  if negb (r =? 0) then ret (-1) else ret 0
  end end.

(** The part common to UPDATE_MAIN and UPDATE_BACKUP: on a UFS device that has
    both xbl partitions, switch the boot LUN. *)
Definition switch_boot_lun (chain : boot_chain) : W Z :=
  if gpt_utils_is_ufs_device then
    if negb (fs_stat XBL_PRIMARY) || negb (fs_stat XBL_BACKUP) then ret 0
    else gpt_utils_set_xbl_boot_partition chain
  else ret 0.

(** The [switch] of [prepare_partitions]. *)
Definition run_stage (stage : boot_update_stage) (path : string) : W Z :=
  let K := kern path in
  match stage with
  | UPDATE_MAIN =>
      let* r := switch_boot_lun BACKUP_BOOT in
      if negb (r =? 0) then ret r else
      let* r := on_dev path (gpt2_set_boot_chain gpt_utils_is_ufs_device BACKUP_BOOT) in
      if negb (r =? 0) then ret (if r <? 0 then r else 0) else
      on_dev path (gpt_set_state PRIMARY_GPT GPT_BAD_SIGNATURE)
  | UPDATE_BACKUP =>
      let* r := switch_boot_lun NORMAL_BOOT in
      if negb (r =? 0) then ret r else
      let* r := on_dev path (gpt_set_state PRIMARY_GPT GPT_OK) in
      if negb (r =? 0) then ret r else
      on_dev path (gpt_set_state SECONDARY_GPT GPT_BAD_SIGNATURE)
  | UPDATE_FINALIZE =>
      let* r := on_dev path (gpt2_set_boot_chain gpt_utils_is_ufs_device NORMAL_BOOT) in
      if r <? 0 then ret r else
      on_dev path (gpt_set_state SECONDARY_GPT GPT_OK)
  end.

(** The stage the headers' states say is next; [None]: a combination the code
    refuses. *)
Definition internal_stage (gpt_prim gpt_second : gpt_state) : option boot_update_stage :=
  match gpt_prim, gpt_second with
  | GPT_BAD_CRC, _ | _, GPT_BAD_CRC => None
  | GPT_BAD_SIGNATURE, GPT_BAD_SIGNATURE => None
  | GPT_OK, GPT_OK => Some UPDATE_MAIN
  | GPT_BAD_SIGNATURE, _ => Some UPDATE_BACKUP
  | _, GPT_BAD_SIGNATURE => Some UPDATE_FINALIZE
  end.

(** [None] is a null [dev_path]. *)
Definition prepare_partitions (stage : boot_update_stage) (dev_path : option string) : W Z :=
  match dev_path with
  | None => ret (-1)
  | Some path =>
  let K := kern path in
  let* ok := open_dev O_RDWR path in
  if negb ok then ret (-1) else
  let* (r, gpt_prim) := on_dev path (gpt_get_state PRIMARY_GPT) in
  if negb (r =? 0) then ret 1 else
  let* (r, gpt_second) := on_dev path (gpt_get_state SECONDARY_GPT) in
  if negb (r =? 0) then ret 1 else
  match internal_stage gpt_prim gpt_second with
  | None => ret (-1)
  | Some internal =>
      if stage_int stage =? stage_int internal - 1 then ret 0
      else if negb (stage_int stage =? stage_int internal) then ret (-1)
      else run_stage stage path
  end
  end.

(** ** The list of LUNs *)

(** [struct update_data]: the MAX_LUNS paths and how many are valid. *)
Record update_data := UpdateData { lun_list : list string; num_valid_entries : nat }.

Definition update_data_zero : update_data :=
  UpdateData (replicate MAX_LUNS ""%string) 0.

(** The [for] loop that looks for the path among the valid entries, from
    entry [i] on; it does not start when the list is nearly full. *)
Fixpoint lun_known (fuel : nat) (lun_path : string) (dat : update_data) (i : nat) : option bool :=
  match fuel with
  | O => None
  | S fuel' =>
      if (i <? num_valid_entries dat)%nat && (num_valid_entries dat <? MAX_LUNS - 1)%nat then
        l ← lun_list dat !! i;
        if String.prefix l lun_path then Some true
        else lun_known fuel' lun_path dat (S i)
      else Some false
  end.

(** [None] is a write outside [lun_list]. *)
Definition add_lun_to_update_list (lun_path : string) (dat : update_data)
    : option (Z * update_data) :=
  if negb (fs_stat lun_path) then Some (-1, dat)
  else if (num_valid_entries dat =? 0)%nat then
    if (0 <? length (lun_list dat))%nat
    then Some (0, UpdateData (<[0%nat := lun_path]> (lun_list dat)) 1) else None
  else
    known ← lun_known (S (num_valid_entries dat)) lun_path dat 0;
    if known : bool then Some (0, dat)
    else if (num_valid_entries dat <? length (lun_list dat))%nat
    then Some (0, UpdateData (<[num_valid_entries dat := lun_path]> (lun_list dat))
                    (S (num_valid_entries dat)))
    else None.

(** One iteration of the loop of [prepare_boot_update] over the swap list. *)
Definition collect_lun (dat : update_data) (ptn : string) : option update_data :=
  fam ← is_xbl_family ptn;
  if fam : bool then Some dat else
  let buf := (BOOT_DEV_DIR ++ "/" ++ ptn ++ "bak")%string in
  if negb (fs_stat buf) then Some dat else
  match fs_readlink buf with
  | None => Some dat
  | Some real_path =>
      if (String.length real_path <? PATH_TRUNCATE_LOC + 1)%nat then Some dat
      else
        '(_, dat) ← add_lun_to_update_list (String.substring 0 PATH_TRUNCATE_LOC real_path) dat;
        Some dat
  end.

Fixpoint collect_luns (dat : update_data) (names : list string) : option update_data :=
  match names with
  | [] => Some dat
  | ptn :: names' => dat ← collect_lun dat ptn; collect_luns dat names'
  end.

(** The loop over the LUNs; the result is [is_error]. *)
Fixpoint prepare_luns (stage : boot_update_stage) (luns : list string) (is_error : bool) : W bool :=
  match luns with
  | [] => ret is_error
  | l :: luns' =>
      let* rcode := prepare_partitions stage (Some l) in
      prepare_luns stage luns' (if negb (rcode =? 0) then true else is_error)
  end.

Definition prepare_boot_update (stage : boot_update_stage) : W Z :=
  if negb gpt_utils_is_ufs_device then prepare_partitions stage (Some BLK_DEV_FILE)
  else
    let* data := lift (collect_luns update_data_zero PTN_SWAP_LIST) in
    let* is_error := prepare_luns stage (take (num_valid_entries data) (lun_list data)) false in
    ret (if is_error : bool then -1 else 0).

End code.

(** ** Disks from which the device boots *)

Section safety.
Context `{!ZlibOk zl} (B e1 e2 n : nat).
Implicit Types data : list Z.

(** Where a header's entries array is. *)
Definition ent (g : gpt_instance) : nat :=
  match g with PRIMARY_GPT => e1 | SECONDARY_GPT => e2 end.

Definition state_of (g : gpt_instance) data : option gpt_state := header_state (hdr g B data).
Definition table_of (g : gpt_instance) data : list Z := slice data (ent g) n.

(** The header's partition CRC is that of its entries array. *)
Definition table_valid (g : gpt_instance) data : Prop :=
  entries_valid (hdr g B data) (table_of g data).

(** A table a boot loader accepts: signature, header CRC and entries CRC. *)
Definition usable (g : gpt_instance) data : Prop :=
  state_of g data = Some GPT_OK ∧ table_valid g data.

(** The invariant of an update: the device has a usable table, and the primary
    entries are intact even while the primary header is marked bad. *)
Definition safe data : Prop :=
  gpt_wf B data e1 e2 n ∧ table_valid PRIMARY_GPT data ∧
  (usable PRIMARY_GPT data ∨ usable SECONDARY_GPT data).

Definition set_hdr (g : gpt_instance) (h data : list Z) : list Z :=
  splice data (hdr_off g B (length data)) h.

Section facts.
Context (data : list Z) (Hwf : gpt_wf B data e1 e2 n).

Lemma hdr_set g g' h :
  length h = B → hdr g' B (set_hdr g h data) = if decide (g' = g) then h else hdr g' B data.
Proof. intros. eapply hdr_splice_hdr; [by apply Hwf|done]. Qed.

Lemma table_of_set g g' h : length h = B → table_of g' (set_hdr g h data) = table_of g' data.
Proof.
  intros. eapply slice_splice_hdr; [by apply Hwf|done|]. destruct g'; [by left|by right].
Qed.

Lemma wf_set g h :
  length h = B → fields h = fields (hdr g B data) → gpt_wf B (set_hdr g h data) e1 e2 n.
Proof. intros. by apply wf_splice_hdr. Qed.

Lemma length_hdr_wf g : length (hdr g B data) = B.
Proof. eapply length_hdr, Hwf. Qed.

Lemma sized_wf g : (92 ≤ length (hdr g B data))%nat.
Proof. apply (wf_sized g _ _ _ _ _ Hwf). Qed.

(** The effect of [gpt_set_state]. *)
Definition set_state (g : gpt_instance) (st : gpt_state) : list Z :=
  set_hdr g (new_header st (hdr g B data)) data.

Lemma length_new_wf g st : length (new_header st (hdr g B data)) = B.
Proof. rewrite length_new_header by apply sized_wf. apply length_hdr_wf. Qed.

Lemma set_state_wf g st : gpt_wf B (set_state g st) e1 e2 n.
Proof. apply wf_set; [apply length_new_wf|]. apply fields_new_header, sized_wf. Qed.

Lemma set_state_state g st g' :
  st ≠ GPT_BAD_CRC →
  state_of g' (set_state g st) = if decide (g' = g) then Some st else state_of g' data.
Proof.
  intros Hst. unfold state_of, set_state. rewrite hdr_set by apply length_new_wf.
  case_decide; [|done]. apply header_state_new; [eapply wf_sized, Hwf|done].
Qed.

Lemma set_state_valid g st g' : table_valid g' (set_state g st) ↔ table_valid g' data.
Proof.
  unfold table_valid, entries_valid, set_state.
  rewrite hdr_set, table_of_set by apply length_new_wf.
  case_decide; [|done]. subst. by rewrite partition_crc_new by apply sized_wf.
Qed.

(** The effect of [gpt2_set_boot_chain]: the header, then the entries. *)
Definition chain_one (arr : list Z) : list Z :=
  set_hdr SECONDARY_GPT (chain_header (hdr SECONDARY_GPT B data) arr) data.
Definition chain_two (arr : list Z) : list Z := splice (chain_one arr) e2 arr.

Section chain.
Context (arr : list Z) (Harr : length arr = n).

Lemma length_chain_wf : length (chain_header (hdr SECONDARY_GPT B data) arr) = B.
Proof. rewrite length_chain_header by apply sized_wf. apply length_hdr_wf. Qed.

Lemma chain_one_wf : gpt_wf B (chain_one arr) e1 e2 n.
Proof. apply wf_set; [apply length_chain_wf|]. apply fields_chain_header, sized_wf. Qed.

Lemma length_chain_one : length (chain_one arr) = length data.
Proof.
  pose proof (hdr_off_bound SECONDARY_GPT _ _ _ _ _ (wf_layout _ _ _ _ _ Hwf)).
  apply length_splice. rewrite length_chain_wf. lia.
Qed.

Lemma chain_two_wf : gpt_wf B (chain_two arr) e1 e2 n.
Proof.
  pose proof (wf_layout _ _ _ _ _ Hwf) as []. unfold chain_two.
  apply wf_splice_other; [apply chain_one_wf|lia|rewrite length_chain_one; lia].
Qed.

Lemma hdr_chain_two g : hdr g B (chain_two arr) = hdr g B (chain_one arr).
Proof.
  pose proof (wf_layout _ _ _ _ _ Hwf) as []. unfold chain_two.
  eapply hdr_splice_other; [apply chain_one_wf|lia|rewrite length_chain_one; lia].
Qed.

Lemma hdr_chain_one g :
  hdr g B (chain_one arr) =
    match g with
    | PRIMARY_GPT => hdr PRIMARY_GPT B data
    | SECONDARY_GPT => chain_header (hdr SECONDARY_GPT B data) arr
    end.
Proof. unfold chain_one. rewrite hdr_set by apply length_chain_wf. by destruct g. Qed.

Lemma table_chain_two g :
  table_of g (chain_two arr) = match g with PRIMARY_GPT => table_of g data | SECONDARY_GPT => arr end.
Proof.
  pose proof (wf_layout _ _ _ _ _ Hwf) as []. pose proof length_chain_one.
  unfold table_of, chain_two. destruct g; cbn [ent].
  - rewrite slice_splice_disj by (rewrite ?Harr; lia).
    by apply (table_of_set SECONDARY_GPT PRIMARY_GPT), length_chain_wf.
  - rewrite <- Harr. apply slice_splice_same. lia.
Qed.

Lemma chain_primary_one :
  state_of PRIMARY_GPT (chain_one arr) = state_of PRIMARY_GPT data ∧
  (table_valid PRIMARY_GPT (chain_one arr) ↔ table_valid PRIMARY_GPT data).
Proof.
  unfold state_of, table_valid. rewrite hdr_chain_one. split; [done|].
  unfold chain_one. by rewrite table_of_set by apply length_chain_wf.
Qed.

Lemma chain_primary_two :
  state_of PRIMARY_GPT (chain_two arr) = state_of PRIMARY_GPT data ∧
  (table_valid PRIMARY_GPT (chain_two arr) ↔ table_valid PRIMARY_GPT data).
Proof.
  unfold state_of, table_valid. by rewrite hdr_chain_two, hdr_chain_one, table_chain_two.
Qed.

Lemma chain_secondary_two :
  table_valid SECONDARY_GPT (chain_two arr) ∧
  (state_of SECONDARY_GPT data = Some GPT_OK →
   state_of SECONDARY_GPT (chain_two arr) = Some GPT_OK).
Proof.
  unfold state_of, table_valid. rewrite hdr_chain_two, hdr_chain_one, table_chain_two.
  split; [apply chain_header_valid, sized_wf|]. intros Hs.
  rewrite chain_header_state by (eapply wf_sized, Hwf).
  by rewrite decide_True by by apply header_state_signature.
Qed.

End chain.

Lemma length_chain_entries is_ufs boot :
  length (chain_entries is_ufs boot (table_of PRIMARY_GPT data)) = n.
Proof.
  pose proof (wf_layout _ _ _ _ _ Hwf) as Hl.
  destruct (fields_ok_values B e1 n _ ltac:(destruct Hl; lia) (lay_nmax _ _ _ _ _ Hl)
    (wf_primary _ _ _ _ _ Hwf)) as (_ & _ & m & _ & _ & _ & _ & _ & Hm).
  unfold table_of. cbn [ent].
  destruct (chain_entries_run is_ufs boot (slice data e1 n) m) as [_ ->];
    rewrite length_slice; destruct Hl; lia.
Qed.

(** *** The writes of the stages keep a disk safe *)

Lemma set_primary_ok : safe data → safe (set_state PRIMARY_GPT GPT_OK) ∧
  usable PRIMARY_GPT (set_state PRIMARY_GPT GPT_OK).
Proof.
  intros (_ & Hv & _).
  assert (usable PRIMARY_GPT (set_state PRIMARY_GPT GPT_OK)) as Hu.
  { split; [by rewrite set_state_state|by apply set_state_valid]. }
  split; [|done]. split; [apply set_state_wf|]. split; [apply Hu|by left].
Qed.

Lemma set_primary_bad :
  safe data → usable SECONDARY_GPT data → safe (set_state PRIMARY_GPT GPT_BAD_SIGNATURE).
Proof.
  intros (_ & Hv & _) [Hs Ht]. split; [apply set_state_wf|]. split; [by apply set_state_valid|].
  right. split; [by rewrite set_state_state|by apply set_state_valid].
Qed.

Lemma set_secondary st :
  st ≠ GPT_BAD_CRC → usable PRIMARY_GPT data → safe (set_state SECONDARY_GPT st).
Proof.
  intros Hst [Hs Ht].
  assert (usable PRIMARY_GPT (set_state SECONDARY_GPT st)) as Hu.
  { split; [by rewrite set_state_state|by apply set_state_valid]. }
  split; [apply set_state_wf|]. split; [apply Hu|by left].
Qed.

Lemma chain_one_primary arr : usable PRIMARY_GPT data → usable PRIMARY_GPT (chain_one arr).
Proof.
  destruct (chain_primary_one arr) as [Hs Hv]. intros [H1 H2]. split; [congruence|tauto].
Qed.

Lemma chain_safe arr :
  length arr = n → usable PRIMARY_GPT data →
  safe (chain_one arr) ∧ safe (chain_two arr) ∧ usable PRIMARY_GPT (chain_two arr).
Proof.
  intros Ha [Hs Hv]. destruct (chain_primary_one arr) as [Hs1 Hv1].
  destruct (chain_primary_two arr Ha) as [Hs2 Hv2].
  assert (usable PRIMARY_GPT (chain_two arr)) as Hu by (split; [congruence|tauto]).
  split; [|split; [|done]].
  - split; [by apply chain_one_wf|]. split; [tauto|]. left. split; [congruence|tauto].
  - split; [by apply chain_two_wf|]. split; [apply Hu|by left].
Qed.

End facts.

(** *** One write, and a power cut in the middle of it *)

Definition other (g : gpt_instance) : gpt_instance :=
  match g with PRIMARY_GPT => SECONDARY_GPT | SECONDARY_GPT => PRIMARY_GPT end.

(** The writes of this library: a header, which is one block, or the entries of
    a table while the other table is usable. *)
Inductive one_write (a b : list Z) : Prop :=
  | header_write g h : length h = B → b = set_hdr g h a → one_write a b
  | entries_write g arr :
      length arr = n → usable (other g) a → b = splice a (ent g) arr → one_write a b.

Lemma ent_fits data g :
  gpt_wf B data e1 e2 n → (2 * B ≤ ent g ∧ ent g + n + B ≤ length data)%nat.
Proof. intros [[] _ _]. by destruct g. Qed.

Lemma usable_same g data c :
  hdr g B c = hdr g B data → table_of g c = table_of g data → usable g data → usable g c.
Proof. unfold usable, state_of, table_valid. by intros -> ->. Qed.

(** What all versions have in the same place is still there after a power cut. *)
Lemma mixed_table g data vs c :
  gpt_wf B data e1 e2 n → length c = length data → mixed B vs c →
  Forall (λ v, hdr g B v = hdr g B data ∧ table_of g v = table_of g data) vs →
  hdr g B c = hdr g B data ∧ table_of g c = table_of g data.
Proof.
  intros Hwf Hl Hm Hv. pose proof (wf_layout _ _ _ _ _ Hwf) as Hlay.
  pose proof (ent_fits data g Hwf) as [_ He].
  pose proof (hdr_off_bound g _ _ _ _ _ Hlay) as Hb.
  assert (0 < B)%nat as HB by (destruct Hlay; lia).
  assert (Nat.divide B (length c)) as Hd by (rewrite Hl; apply Hlay).
  pose proof (proj1 Hm) as Hlen. rewrite Forall_forall in Hlen, Hv. split.
  - unfold hdr at 1. rewrite Hl. apply (mixed_slice B vs c HB Hd Hm); [lia| |by apply length_slice].
    apply Forall_forall. intros v Hin. destruct (Hv v Hin) as [<- _]. unfold hdr.
    by rewrite (Hlen v Hin), Hl.
  - apply (mixed_slice B vs c HB Hd Hm); [lia| |apply length_slice; lia].
    apply Forall_forall. intros v Hin. apply (Hv v Hin).
Qed.

Lemma hdr_off_aligned data g :
  gpt_wf B data e1 e2 n → ∃ i, hdr_off g B (length data) = (i * B)%nat.
Proof.
  intros [[? ? ? ? [k Hk]] _ _]. destruct g; cbn [hdr_off].
  - exists 1%nat. lia.
  - exists (k - 1)%nat. rewrite Hk, Nat.mul_sub_distr_r. lia.
Qed.

(** Wherever in the middle of a write the power is cut, a table stays usable. *)
Lemma one_write_torn a b c :
  gpt_wf B a e1 e2 n → (∃ g, usable g a) → (∃ g, usable g b) → one_write a b →
  mixed B [b; a] c → ∃ g, usable g c.
Proof.
  intros Hwf Ha Hb Hw Hm. pose proof (wf_layout _ _ _ _ _ Hwf) as Hlay.
  pose proof (proj1 Hm) as Hlen. apply Forall_cons in Hlen as [Hlb Hlen].
  apply Forall_cons in Hlen as [Hla _].
  destruct Hw as [g h Hh ->|g arr Harr Hu ->].
  - destruct (hdr_off_aligned a g Hwf) as [i Hi].
    pose proof (hdr_off_bound g _ _ _ _ _ Hlay) as Hbd.
    assert (c = a ∨ c = set_hdr g h a) as [->| ->]; [|done..].
    apply (mixed_one_sector B [set_hdr g h a; a] c) with (i := i);
      [destruct Hlay; lia|rewrite <- Hla; apply Hlay|done|done|lia|].
    intros p Hp. unfold set_hdr. rewrite Hi, lookup_splice by lia. by zcase; try lia.
  - exists (other g).
    destruct (mixed_table (other g) a [splice a (ent g) arr; a] c) as [E1 E2]; [done..| |by apply (usable_same _ a)].
    pose proof (ent_fits a g Hwf) as [He1 He2]. pose proof (lay_disj _ _ _ _ _ Hlay) as Hdj.
    repeat constructor; [eapply hdr_splice_other; [done|lia..]|].
    apply slice_splice_disj; [lia|]. destruct g; cbn [ent other] in *; lia.
Qed.

(** *** The device-level code keeps every image safe *)

(** The images of a device whose writes are all of this library. *)
Definition written_by (P : list Z → Prop) (s : dev) : Prop :=
  Forall P (images s) ∧ Sorted (λ new old, one_write old new) (images s).

Lemma written_by_same P s s' : same_disk s s' → written_by P s → written_by P s'.
Proof. unfold written_by, images. by intros (-> & -> & _). Qed.

Lemma written_by_wrote P s s' l :
  wrote s s' l → one_write (d_data s) l → P l → written_by P s → written_by P s'.
Proof.
  unfold written_by, images. intros (-> & -> & _) Hw Hl [Hf Hs]. split; [by constructor|].
  constructor; [done|]. by constructor.
Qed.

(** A power cut at any moment leaves a usable table. *)
Lemma in_order_cut P imgs c :
  (∀ data, P data → gpt_wf B data e1 e2 n ∧ ∃ g, usable g data) →
  Forall P imgs → Sorted (λ new old, one_write old new) imgs →
  in_order B imgs c → ∃ g, usable g c.
Proof.
  intros HP Hf Hs. induction Hs as [|new olds Hs IH Hn]; cbn [in_order]; [done|].
  apply Forall_cons in Hf as [Hnew Hf]. intros [Hm|Hc]; [|by apply IH].
  destruct (HP new Hnew) as [Hwf Hu]. destruct olds as [|old olds]; cbn [take] in Hm.
  - pose proof (proj1 Hm) as Hlen. rewrite Forall_singleton in Hlen.
    rewrite (mixed_singleton B new c); [done| | |done].
    + pose proof (lay_B _ _ _ _ _ (wf_layout _ _ _ _ _ Hwf)). lia.
    + rewrite <- Hlen. apply Hwf.
  - apply Forall_cons in Hf as [Hold _]. destruct (HP old Hold) as [Hwf' Hu'].
    apply (one_write_torn old new); [done..| |done]. by inversion Hn.
Qed.

Lemma written_by_cut P s c :
  (∀ data, P data → gpt_wf B data e1 e2 n ∧ ∃ g, usable g data) → written_by P s →
  in_order B (images s) c → ∃ g, usable g c.
Proof. intros HP [Hf Hs]. by apply (in_order_cut P). Qed.

Definition safe_dev (s : dev) : Prop := d_ssz s = Z.of_nat B ∧ written_by safe s.

(** A safe device whose current bytes satisfy [φ]. *)
Definition At (φ : list Z → Prop) (s : dev) : Prop := safe_dev s ∧ φ (d_data s).

Lemma safe_dev_now s : safe_dev s → safe (d_data s).
Proof. intros [_ [Hi _]]. by apply Forall_cons in Hi as [? _]. Qed.

Lemma safe_dev_wf s : safe_dev s → dev_wf s B e1 e2 n.
Proof. intros Hs. split; [apply Hs|]. by apply safe_dev_now in Hs as [? _]. Qed.

Lemma safe_dev_cut s c : safe_dev s → in_order B (images s) c → ∃ g, usable g c.
Proof.
  intros [_ Hs]. apply (written_by_cut safe); [|done].
  intros data (Hwf & _ & Hu). split; [done|]. destruct Hu; eauto.
Qed.

Lemma safe_dev_wrote s s' l :
  safe_dev s → wrote s s' l → one_write (d_data s) l → safe l → safe_dev s'.
Proof.
  intros [Hz Hi] Hw Ho Hl. split; [destruct Hw as (_ & _ & ?); congruence|].
  by eapply written_by_wrote.
Qed.

Lemma At_same φ s s' : At φ s → same_disk s s' → At φ s'.
Proof.
  intros [[Hz Hi] Hφ] Hs. split; [split|]; [destruct Hs as (_ & _ & ?); congruence| |].
  - by eapply written_by_same.
  - by rewrite (proj1 Hs).
Qed.

Lemma At_wrote ψ s s' l :
  safe_dev s → wrote s s' l → one_write (d_data s) l → safe l → ψ l → At ψ s'.
Proof.
  intros Hs Hw Ho Hl Hψ. split; [by eapply safe_dev_wrote|]. by rewrite (proj1 Hw).
Qed.

Section device.
Context `{Kernel} (Hshort : no_short).

Lemma get_state_safe φ g :
  triple (At φ) (gpt_get_state g) (λ '(r, st) s',
    At φ s' ∧ (r = 0 → state_of g (d_data s') = Some st)).
Proof.
  intros s Hs. destruct (gpt_get_state_run Hshort g s B e1 e2 n) as (r & st & s' & E & Hd & Hr).
  { apply safe_dev_wf, Hs. }
  exists (r, st), s'. split; [done|]. split; [by eapply At_same|].
  rewrite (proj1 Hd). intros ->. by destruct Hr as [[? _]|[_ ?]].
Qed.

(** [gpt_set_state] keeps a device safe when its write keeps the bytes safe. *)
Lemma set_state_safe φ (ψ : list Z → Prop) g st :
  st ≠ GPT_BAD_CRC →
  (∀ data, safe data → φ data → safe (set_state data g st) ∧ ψ (set_state data g st)) →
  triple (At φ) (gpt_set_state g st) (λ r s', safe_dev s' ∧ (r = 0 → ψ (d_data s'))).
Proof.
  intros Hst Hφ s [Hs Hp]. destruct (gpt_set_state_run Hshort g st s B e1 e2 n) as (r & s' & E & Hr);
    [by apply safe_dev_wf|done|].
  exists r, s'. split; [done|]. destruct Hr as [(-> & Hd & _)|(-> & Hw)].
  - split; [|done]. by eapply (At_same (λ _, True)); [split|].
  - destruct (Hφ (d_data s)) as [H1 H2]; [by apply safe_dev_now|done|].
    destruct (At_wrote ψ s s' _ Hs Hw) as [? ?]; [|done..|by split; [|intros _]].
    eapply header_write; [|done]. apply length_new_wf, (safe_dev_wf s Hs).
Qed.

(** [gpt2_set_boot_chain] with a usable primary table: on success the secondary
    entries are valid, and a secondary header that was good still is. *)
Lemma boot_chain_safe φ is_ufs boot :
  (∀ data, safe data → φ data → usable PRIMARY_GPT data) →
  triple (At φ) (gpt2_set_boot_chain is_ufs boot) (λ r s', safe_dev s' ∧
    usable PRIMARY_GPT (d_data s') ∧
    (r = 0 → (∃ data, φ data ∧ (state_of SECONDARY_GPT data = Some GPT_OK →
                usable SECONDARY_GPT (d_data s'))))).
Proof.
  intros Hφ s [Hs Hp]. pose proof (Hφ _ (safe_dev_now s Hs) Hp) as Hu. pose proof (safe_dev_wf s Hs) as Hwf.
  destruct (gpt2_set_boot_chain_run Hshort is_ufs boot s B e1 e2 n Hwf) as (r & s' & E & Hr).
  exists r, s'. split; [done|]. destruct Hwf as [_ Hwf].
  pose proof (length_chain_entries _ Hwf is_ufs boot) as Hla.
  destruct (chain_safe _ Hwf _ Hla Hu) as (H1 & H2 & H3).
  assert (one_write (d_data s) (chain_one (d_data s)
    (chain_entries is_ufs boot (table_of PRIMARY_GPT (d_data s))))) as Ho1
    by (eapply header_write; [|done]; by apply length_chain_wf).
  destruct Hr as [Hd _|Hd _ _ _|? ? -> -> _ Hw _|? ? ? s1 -> -> -> _ _ Hw1 Hw2].
  1,2: destruct (At_same φ s s') as [? ?]; [by split|done|]; split; [done|];
    rewrite (proj1 Hd); split; [done|lia].
  - destruct (At_wrote (usable PRIMARY_GPT) s s' _ Hs Hw Ho1 H1) as [? ?].
    { by apply (chain_one_primary _ Hwf). }
    split; [done|]. split; [done|lia].
  - pose proof (safe_dev_wrote s s1 _ Hs Hw1 Ho1 H1) as Hs1.
    destruct (At_wrote (usable PRIMARY_GPT) s1 s' _ Hs1 Hw2) as [? ?]; [|done..|].
    { rewrite (proj1 Hw1). eapply (entries_write _ _ SECONDARY_GPT); [exact Hla| |done].
      by apply (chain_one_primary _ Hwf). }
    split; [done|]. split; [done|]. intros _. exists (d_data s). split; [done|]. intros Ho.
    rewrite (proj1 Hw2). destruct (chain_secondary_two _ Hwf _ Hla) as [Hv2 Ho2].
    split; [by apply Ho2|done].
Qed.

(** The calls of the three stages. *)

Lemma backup_chain_call is_ufs :
  triple (At (λ data, state_of PRIMARY_GPT data = Some GPT_OK ∧
                      state_of SECONDARY_GPT data = Some GPT_OK))
    (gpt2_set_boot_chain is_ufs BACKUP_BOOT)
    (λ r s', safe_dev s' ∧ (r = 0 → usable SECONDARY_GPT (d_data s'))).
Proof.
  eapply triple_conseq; [eapply boot_chain_safe|done|].
  - intros data (_ & Hv & _) [Hp _]. by split.
  - cbn. intros r s' (Hs & _ & Hr). split; [done|]. intros E.
    destruct (Hr E) as (data & [_ Ho] & Hu). auto.
Qed.

Lemma normal_chain_call is_ufs :
  triple (At (λ data, state_of PRIMARY_GPT data = Some GPT_OK))
    (gpt2_set_boot_chain is_ufs NORMAL_BOOT)
    (λ r s', safe_dev s' ∧ usable PRIMARY_GPT (d_data s')).
Proof.
  eapply triple_conseq; [eapply boot_chain_safe|done|].
  - intros data (_ & Hv & _) Hp. by split.
  - cbn. tauto.
Qed.

Lemma corrupt_primary_call :
  triple (At (usable SECONDARY_GPT)) (gpt_set_state PRIMARY_GPT GPT_BAD_SIGNATURE)
    (λ _ s', safe_dev s' ∧ True).
Proof.
  eapply triple_conseq; [eapply (set_state_safe (usable SECONDARY_GPT) (λ _, True))|done|]; [done| |cbn; tauto].
  intros data Hd Hu. split; [|done]. apply set_primary_bad; [apply Hd|done..].
Qed.

Lemma fix_primary_call :
  triple (At (λ _, True)) (gpt_set_state PRIMARY_GPT GPT_OK)
    (λ r s', safe_dev s' ∧ (r = 0 → usable PRIMARY_GPT (d_data s'))).
Proof.
  apply set_state_safe; [done|]. intros data Hd _. apply set_primary_ok; [apply Hd|done].
Qed.

Lemma secondary_call st :
  st ≠ GPT_BAD_CRC →
  triple (At (usable PRIMARY_GPT)) (gpt_set_state SECONDARY_GPT st) (λ _ s', safe_dev s' ∧ True).
Proof.
  intros Hst.
  eapply triple_conseq; [eapply (set_state_safe (usable PRIMARY_GPT) (λ _, True))|done|]; [done| |cbn; tauto].
  intros data Hd Hu. split; [|done]. apply set_secondary; [apply Hd|done..].
Qed.

End device.
End safety.

(** ** The list of LUNs *)

Section luns.
Context `{Env}.

(** The LUN of a partition's backup copy. *)
Definition lun_of (ptn : string) : option string :=
  if default false (is_xbl_family ptn) then None else
  let buf := (BOOT_DEV_DIR ++ "/" ++ ptn ++ "bak")%string in
  if negb (fs_stat buf) then None else
  match fs_readlink buf with
  | None => None
  | Some real_path =>
      if (String.length real_path <? PATH_TRUNCATE_LOC + 1)%nat then None else
      let lun := String.substring 0 PATH_TRUNCATE_LOC real_path in
      if fs_stat lun then Some lun else None
  end.

(** Each LUN once, in the order of its first partition. *)
Definition add_new (acc : list string) (l : string) : list string :=
  if decide (l ∈ acc) then acc else acc ++ [l].
Definition boot_luns : list string := fold_left add_new (omap lun_of PTN_SWAP_LIST) [].

Lemma prefix_same_length (a b : string) :
  String.length a = String.length b → String.prefix a b = bool_decide (a = b).
Proof.
  revert b. induction a as [|x a IH]; intros [|y b] Hl; try discriminate; [done|].
  cbn [String.prefix]. injection Hl as Hl. destruct (ascii_dec x y) as [->|Hne].
  - rewrite IH by done. apply bool_decide_ext. split; congruence.
  - symmetry. apply bool_decide_eq_false. congruence.
Qed.

Lemma length_substring_0 k (a : string) :
  (k ≤ String.length a)%nat → String.length (String.substring 0 k a) = k.
Proof.
  revert a. induction k as [|k IH]; intros [|x a] Hk; cbn in *; try lia; [done..|].
  rewrite IH; lia.
Qed.

(** The structure holds the paths [acc]. *)
Definition holds (dat : update_data) (acc : list string) : Prop :=
  num_valid_entries dat = length acc ∧ length (lun_list dat) = MAX_LUNS ∧
  take (length acc) (lun_list dat) = acc ∧
  Forall (λ l, String.length l = PATH_TRUNCATE_LOC) acc.

Lemma holds_lookup dat acc i :
  holds dat acc → (i < length acc)%nat → lun_list dat !! i = acc !! i.
Proof.
  intros (_ & _ & Ht & _) Hi.
  rewrite <- (lookup_take_lt (lun_list dat) (length acc) i) by done. by rewrite Ht.
Qed.

Lemma lun_known_spec fuel path dat acc i :
  holds dat acc → (length acc < MAX_LUNS - 1)%nat → String.length path = PATH_TRUNCATE_LOC →
  (length acc - i < fuel)%nat →
  lun_known fuel path dat i = Some (bool_decide (path ∈ drop i acc)).
Proof.
  intros Hh Ha Hp. revert i. induction fuel as [|fuel IH]; intros i Hf; [lia|].
  cbn [lun_known]. rewrite (proj1 Hh). destruct (Nat.ltb_spec i (length acc)) as [Hi|Hi].
  - zbool. cbn [andb]. rewrite (holds_lookup dat acc i) by done.
    destruct (lookup_lt_is_Some_2 acc i Hi) as [l Hl]. rewrite Hl. cbn [mbind option_bind].
    destruct Hh as (Hh1 & Hh2 & Hh3 & Hlen).
    rewrite prefix_same_length
      by (rewrite Hp; by apply (Forall_lookup_1 _ _ _ _ Hlen Hl)).
    rewrite (drop_S acc l i Hl). case_bool_decide as Hc.
    + symmetry. apply f_equal, bool_decide_eq_true. subst. apply list_elem_of_here.
    + rewrite IH by lia. apply f_equal, bool_decide_ext.
      rewrite elem_of_cons. naive_solver.
  - cbn [andb]. rewrite drop_ge by lia. by rewrite bool_decide_false by apply not_elem_of_nil.
Qed.

Lemma holds_snoc dat acc l :
  holds dat acc → (length acc < MAX_LUNS)%nat → String.length l = PATH_TRUNCATE_LOC →
  holds (UpdateData (<[length acc := l]> (lun_list dat)) (S (length acc))) (acc ++ [l]).
Proof.
  intros (H1 & H2 & H3 & H4) Ha Hl. unfold holds. cbn [num_valid_entries lun_list].
  rewrite length_app, length_insert. cbn [length]. split; [lia|]. split; [done|]. split.
  - rewrite Nat.add_1_r.
    erewrite take_S_r by (rewrite list_lookup_insert_eq; [done|lia]).
    by rewrite take_insert_ge, H3 by lia.
  - apply Forall_app. split; [done|]. by constructor.
Qed.

Lemma add_lun_spec dat acc l :
  holds dat acc → (length acc < MAX_LUNS - 1)%nat → String.length l = PATH_TRUNCATE_LOC →
  fs_stat l = true →
  ∃ dat', add_lun_to_update_list l dat = Some (0, dat') ∧ holds dat' (add_new acc l).
Proof.
  intros Hh Ha Hl Hst. unfold add_lun_to_update_list. rewrite Hst. cbn [negb].
  pose proof Hh as (H1 & H2 & _). rewrite H1. unfold add_new, MAX_LUNS in *.
  destruct (Nat.eqb_spec (length acc) 0) as [E|E].
  - destruct acc as [|? ?]; [|done]. rewrite H2. cbn [Nat.ltb Nat.leb].
    rewrite decide_False by apply not_elem_of_nil.
    eexists. split; [done|]. by apply (holds_snoc dat []); [done|cbn; unfold MAX_LUNS; lia|].
  - rewrite (lun_known_spec _ _ _ acc) by (done || unfold MAX_LUNS; lia).
    cbn [mbind option_bind]. rewrite drop_0. case_bool_decide as Hin.
    + rewrite decide_True by done. eauto.
    + rewrite decide_False by done. rewrite H2. zbool.
      eexists. split; [done|]. apply holds_snoc; [done|unfold MAX_LUNS; lia|done].
Qed.

Lemma add_new_grows ls acc : (length acc ≤ length (fold_left add_new ls acc))%nat.
Proof.
  revert acc. induction ls as [|l ls IH]; intros acc; cbn [fold_left]; [done|].
  etrans; [|apply IH]. unfold add_new. case_decide; [done|]. rewrite length_app. lia.
Qed.

Lemma collect_lun_spec dat acc ptn :
  is_Some (is_xbl_family ptn) → holds dat acc → (length acc < MAX_LUNS - 1)%nat →
  ∃ dat', collect_lun dat ptn = Some dat' ∧
    holds dat' (match lun_of ptn with None => acc | Some l => add_new acc l end).
Proof.
  intros [fam Hfam] Hh Ha. unfold collect_lun, lun_of. rewrite Hfam. cbn [mbind option_bind default].
  destruct fam; [eauto|]. cbn [from_option id]. destruct (fs_stat _); cbn [negb]; [|eauto].
  destruct (fs_readlink _) as [rp|]; [|eauto].
  destruct (Nat.ltb_spec (String.length rp) (PATH_TRUNCATE_LOC + 1)) as [|Hlen]; [eauto|].
  destruct (fs_stat (String.substring 0 PATH_TRUNCATE_LOC rp)) eqn:Est.
  - destruct (add_lun_spec dat acc (String.substring 0 PATH_TRUNCATE_LOC rp))
      as (dat' & E & Hd); [done|done|apply length_substring_0; lia|done|].
    rewrite E. cbn [mbind option_bind]. eauto.
  - unfold add_lun_to_update_list. rewrite Est. cbn. eauto.
Qed.

Lemma collect_luns_spec names dat acc :
  Forall (λ p, is_Some (is_xbl_family p)) names → holds dat acc →
  (length (fold_left add_new (omap lun_of names) acc) < MAX_LUNS - 1)%nat →
  ∃ dat', collect_luns dat names = Some dat' ∧
    holds dat' (fold_left add_new (omap lun_of names) acc).
Proof.
  intros Hn. revert dat acc. induction Hn as [|p names Hp _ IH]; intros dat acc Hh Hl;
    cbn [collect_luns]; [eauto|].
  destruct (collect_lun_spec dat acc p) as (dat' & E & Hd); [done..| |].
  { eapply Nat.le_lt_trans; [apply add_new_grows|done]. }
  rewrite E. cbn [mbind option_bind]. cbn [omap list_omap] in *.
  destruct (lun_of p) as [l|]; by apply IH.
Qed.

Lemma holds_zero : holds update_data_zero [].
Proof. unfold holds. cbn [length take update_data_zero num_valid_entries]. by repeat split. Qed.

Lemma collect_boot_luns :
  (length boot_luns < MAX_LUNS - 1)%nat →
  ∃ dat, collect_luns update_data_zero PTN_SWAP_LIST = Some dat ∧
    take (num_valid_entries dat) (lun_list dat) = boot_luns.
Proof.
  unfold boot_luns. intros Hl. destruct (collect_luns_spec PTN_SWAP_LIST update_data_zero [])
    as (dat & E & Hh); [exact is_xbl_family_total|exact holds_zero|exact Hl|].
  exists dat. split; [exact E|]. destruct Hh as (-> & _ & Ht & _). exact Ht.
Qed.

End luns.

(** ** The whole update *)

(** Where the tables of a device are. *)
Record geom := Geom { g_B : nat; g_e1 : nat; g_e2 : nat; g_n : nat }.

(** Switching the boot LUN does not touch the block devices. *)
Section frame.
Context `{Env}.

Lemma on_bsg_frame {A} (m : M bsg_state A) (P : world → Prop) :
  (∀ b, is_Some (m b)) → (∀ w b, P w → P (World (w_devs w) b)) →
  triple P (on_bsg m) (λ _, P).
Proof.
  intros Hm HP w Hw. unfold on_bsg. destruct (Hm (w_bsg w)) as [[a b] ->].
  eexists _, _. split; [done|]. auto.
Qed.

Lemma set_boot_lun_total lun b : is_Some (set_boot_lun lun b).
Proof.
  destruct b as [p fd tr]. unfold set_boot_lun, get_ufs_bsg_dev, bind, set_dev, ret.
  destruct dev_entries as [names|]; [|by eexists].
  destruct (find_bsg names) as [d|]; [|by eexists]. cbn [Z.eqb negb].
  unfold ufs_bsg_dev_open, ufs_query_attr, ufs_bsg_ioctl, ufs_bsg_dev_close, bind, get_fd,
    get_dev, emit, set_fd, ret.
  repeat (cbn [fd_ufs_bsg ufs_bsg_dev bsg_trace]; case_match; simplify_eq; try done; eauto).
Qed.

Lemma set_xbl_frame chain (P : world → Prop) :
  (∀ w b, P w → P (World (w_devs w) b)) →
  triple P (gpt_utils_set_xbl_boot_partition chain) (λ _, P).
Proof.
  intros HP. unfold gpt_utils_set_xbl_boot_partition.
  destruct chain; repeat case_match; try (apply triple_ret; tauto).
  all: eapply triple_bind; [apply on_bsg_frame; [intros; apply set_boot_lun_total|done]|];
    intros a; case_match; apply triple_ret; tauto.
Qed.

Lemma switch_boot_lun_frame chain (P : world → Prop) :
  (∀ w b, P w → P (World (w_devs w) b)) → triple P (switch_boot_lun chain) (λ _, P).
Proof.
  intros HP. unfold switch_boot_lun.
  repeat case_match; try (apply triple_ret; tauto). by apply set_xbl_frame.
Qed.

Lemma switch_boot_lun_devs chain w r w' :
  switch_boot_lun chain w = Some (r, w') → w_devs w' = w_devs w.
Proof.
  intros E. destruct (switch_boot_lun_frame chain (λ w', w_devs w' = w_devs w) ltac:(done) w)
    as (r1 & w1 & E1 & Hw); [done|]. congruence.
Qed.

End frame.

Section world.
Context `{Env} `{!ZlibOk zl} (geo : string → geom).

Definition dev_safe (path : string) (d : dev) : Prop :=
  safe_dev (g_B (geo path)) (g_e1 (geo path)) (g_e2 (geo path)) (g_n (geo path)) d.

(** Every device is safe now and was safe at every moment so far. *)
Definition world_safe (w : world) : Prop := map_Forall dev_safe (w_devs w).

(** A safe world whose device [path] holds bytes satisfying [φ]. *)
Definition Focus (path : string) (φ : list Z → Prop) (w : world) : Prop :=
  world_safe w ∧ ∃ d, w_devs w !! path = Some d ∧ φ (d_data d).

Lemma on_dev_safe {A} path φ (Q : A → list Z → Prop) (m : D A) :
  triple (At (g_B (geo path)) (g_e1 (geo path)) (g_e2 (geo path)) (g_n (geo path)) φ) m
    (λ a s', dev_safe path s' ∧ Q a (d_data s')) →
  triple (Focus path φ) (on_dev path m) (λ a, Focus path (Q a)).
Proof.
  intros Hm w [Hw (d & Hd & Hφ)]. unfold on_dev. rewrite Hd.
  destruct (Hm d) as (a & d' & E & Hs & HQ); [split; [by apply (Hw path d)|done]|].
  rewrite E. eexists _, _. split; [done|]. split; cbn [w_devs].
  - unfold world_safe. cbn [w_devs]. by apply map_Forall_insert_2.
  - exists d'. by rewrite lookup_insert_eq.
Qed.

Lemma Focus_bsg path φ w b : Focus path φ w → Focus path φ (World (w_devs w) b).
Proof. by intros [? ?]. Qed.

Section faults.
Hypothesis Hshort : ∀ path, @no_short (kern path).

Lemma open_dev_safe flags path :
  triple world_safe (open_dev flags path) (λ ok w, world_safe w ∧ (ok = true → Focus path (λ _, True) w)).
Proof.
  intros w Hw. unfold open_dev. destruct (w_devs w !! path) as [d|] eqn:Ed.
  2:{ eexists _, _. split; [done|]. by split. }
  destruct (fs_open path); eexists _, _; (split; [done|]); [|by split].
  assert (world_safe (World (<[path:=set_open flags d]> (w_devs w)) (w_bsg w))) as Hw'.
  { unfold world_safe. cbn [w_devs]. apply map_Forall_insert_2; [|done].
    exact (Hw path d Ed). }
  split; [done|]. intros _. split; [done|]. exists (set_open flags d). cbn [w_devs].
  by rewrite lookup_insert_eq.
Qed.

(** What the code knows of the two headers when it has read them. *)
Definition headers_are path (p q : gpt_state) data : Prop :=
  state_of (g_B (geo path)) PRIMARY_GPT data = Some p ∧
  state_of (g_B (geo path)) SECONDARY_GPT data = Some q.

(** The calls of the stages, on the device [path] of a safe world. *)

Definition usable_at path (g : gpt_instance) (data : list Z) : Prop :=
  usable (g_B (geo path)) (g_e1 (geo path)) (g_e2 (geo path)) (g_n (geo path)) g data.

Lemma w_backup_chain path is_ufs :
  triple (Focus path (headers_are path GPT_OK GPT_OK))
    (on_dev path (@gpt2_set_boot_chain (kern path) _ is_ufs BACKUP_BOOT))
    (λ r, Focus path (λ data, r = 0 → usable_at path SECONDARY_GPT data)).
Proof.
  apply (on_dev_safe path _ (λ r data, r = 0 → usable_at path SECONDARY_GPT data)).
  apply (backup_chain_call _ _ _ _ (Hshort path)).
Qed.

Lemma w_normal_chain path is_ufs q :
  triple (Focus path (headers_are path GPT_OK q))
    (on_dev path (@gpt2_set_boot_chain (kern path) _ is_ufs NORMAL_BOOT))
    (λ _, Focus path (usable_at path PRIMARY_GPT)).
Proof.
  apply (on_dev_safe path _ (λ _, usable_at path PRIMARY_GPT)).
  eapply triple_conseq; [apply (normal_chain_call (g_B (geo path)) (g_e1 (geo path)) (g_e2 (geo path))
    (g_n (geo path)) (Hshort path))| |done].
  intros s [Hs [Hp _]]. split; [exact Hs|exact Hp].
Qed.

Lemma w_corrupt_primary path :
  triple (Focus path (usable_at path SECONDARY_GPT))
    (on_dev path (@gpt_set_state (kern path) _ PRIMARY_GPT GPT_BAD_SIGNATURE))
    (λ _, Focus path (λ _, True)).
Proof.
  apply (on_dev_safe path _ (λ _ _, True)).
  apply (corrupt_primary_call _ _ _ _ (Hshort path)).
Qed.

Lemma w_fix_primary path :
  triple (Focus path (λ _, True)) (on_dev path (@gpt_set_state (kern path) _ PRIMARY_GPT GPT_OK))
    (λ r, Focus path (λ data, r = 0 → usable_at path PRIMARY_GPT data)).
Proof.
  apply (on_dev_safe path _ (λ r data, r = 0 → usable_at path PRIMARY_GPT data)).
  apply (fix_primary_call _ _ _ _ (Hshort path)).
Qed.

Lemma w_secondary path st :
  st ≠ GPT_BAD_CRC →
  triple (Focus path (usable_at path PRIMARY_GPT))
    (on_dev path (@gpt_set_state (kern path) _ SECONDARY_GPT st)) (λ _, Focus path (λ _, True)).
Proof.
  intros Hst. apply (on_dev_safe path _ (λ _ _, True)).
  by apply (secondary_call _ _ _ _ (Hshort path)).
Qed.

Lemma w_get_state path φ g :
  triple (Focus path φ) (on_dev path (@gpt_get_state (kern path) _ g))
    (λ rst, Focus path (λ data, φ data ∧
       (rst.1 = 0 → state_of (g_B (geo path)) g data = Some rst.2))).
Proof.
  apply (on_dev_safe path _ (λ rst data, φ data ∧
    (rst.1 = 0 → state_of (g_B (geo path)) g data = Some rst.2))).
  eapply triple_conseq; [apply (get_state_safe (g_B (geo path)) (g_e1 (geo path)) (g_e2 (geo path))
    (g_n (geo path)) (Hshort path) φ)|done|].
  intros [r st] s' [[Hs Hφ] Hr]. by split.
Qed.

Lemma Focus_safe path φ w : Focus path φ w → world_safe w.
Proof. by intros []. Qed.

Lemma Focus_weaken path (φ ψ : list Z → Prop) w :
  (∀ data, φ data → ψ data) → Focus path φ w → Focus path ψ w.
Proof. intros Hi [Hw (d & Hd & Hφ)]. split; [done|]. eauto. Qed.

Lemma run_stage_safe stage path p q :
  internal_stage p q = Some stage →
  triple (Focus path (headers_are path p q)) (run_stage stage path) (λ _, world_safe).
Proof.
  intros Hst. unfold run_stage.
  destruct p, q; cbn in Hst; try discriminate; injection Hst as <-.
  - eapply triple_bind; [apply switch_boot_lun_frame; intros; by apply Focus_bsg|].
    intros r. case_match; [apply triple_ret; by intros ? []|].
    eapply triple_bind; [apply w_backup_chain|].
    intros r'. destruct (Z.eqb_spec r' 0); cbn [negb]; [|apply triple_ret; by intros ? []].
    eapply triple_conseq; [apply w_corrupt_primary| |by intros ? ? []].
    intros w. apply Focus_weaken. auto.
  - eapply triple_bind; [apply w_normal_chain|].
    intros r. cbn beta. case_match; [apply triple_ret; by intros ? []|].
    eapply triple_conseq; [by apply w_secondary|done|by intros ? ? []].
  - eapply triple_bind; [apply switch_boot_lun_frame; intros; by apply Focus_bsg|].
    intros r. case_match; [apply triple_ret; by intros ? []|].
    eapply triple_bind; [eapply triple_conseq; [apply w_fix_primary| |done]|].
    { intros w. by apply Focus_weaken. }
    intros r'. destruct (Z.eqb_spec r' 0); cbn [negb]; [|apply triple_ret; by intros ? []].
    eapply triple_conseq; [by apply w_secondary| |by intros ? ? []].
    intros w. apply Focus_weaken. auto.
Qed.

Lemma stage_int_inj s s' : stage_int s = stage_int s' → s = s'.
Proof. by destruct s, s'. Qed.

(** One device: whatever calls fail, the code ends and every image is safe. *)
Lemma prepare_partitions_safe stage dev_path :
  triple world_safe (prepare_partitions stage dev_path) (λ _, world_safe).
Proof.
  unfold prepare_partitions. destruct dev_path as [path|]; [|by apply triple_ret].
  eapply triple_bind; [apply open_dev_safe|]. intros [|]; cbn [negb];
    [|apply triple_ret; tauto].
  eapply triple_bind; [eapply triple_conseq; [apply (w_get_state path (λ _, True) PRIMARY_GPT)| |done];
    intros w [_ Hw]; by apply Hw|].
  intros [r p]. cbn beta iota. cbn [fst snd]. destruct (Z.eqb_spec r 0) as [->|]; cbn [negb];
    [|apply triple_ret; intros ?; apply Focus_safe].
  eapply triple_bind; [apply w_get_state|].
  intros [r q]. cbn beta iota. cbn [fst snd]. destruct (Z.eqb_spec r 0) as [->|]; cbn [negb];
    [|apply triple_ret; intros ?; apply Focus_safe].
  destruct (internal_stage p q) as [internal|] eqn:Ei;
    [|apply triple_ret; intros ?; apply Focus_safe].
  destruct (Z.eqb_spec (stage_int stage) (stage_int internal - 1));
    [apply triple_ret; intros ?; apply Focus_safe|].
  destruct (Z.eqb_spec (stage_int stage) (stage_int internal)) as [Es|];
    cbn [negb]; [|apply triple_ret; intros ?; apply Focus_safe].
  apply stage_int_inj in Es as ->.
  eapply triple_conseq; [by apply (run_stage_safe internal path p q)| |done].
  intros w. apply Focus_weaken. intros data [[_ Hp] Hq]. split; auto.
Qed.

Lemma prepare_luns_safe stage luns is_error :
  triple world_safe (prepare_luns stage luns is_error) (λ _, world_safe).
Proof.
  revert is_error. induction luns as [|l luns IH]; intros is_error; cbn [prepare_luns].
  - by apply triple_ret.
  - eapply triple_bind; [apply prepare_partitions_safe|]. intros r. apply IH.
Qed.

End faults.
End world.

(** ** The stages as a function on the bytes of a disk *)

#[global] Instance table_valid_dec `{Zlib} B e1 e2 n g data :
  Decision (table_valid B e1 e2 n g data).
Proof. unfold table_valid, entries_valid. apply _. Defined.

Section stages.
Context `{Env} `{!ZlibOk zl} (B e1 e2 n : nat).

(** The return value and the bytes after [stage] on a disk holding [data], the
    boot LUN switch and every call having succeeded: the whole table of the
    requested stage and the states of the two headers.  A healthy disk takes
    MAIN, a disk between MAIN and BACKUP takes BACKUP, a disk between BACKUP and
    FINALIZE takes FINALIZE; the stage just done is accepted and does nothing;
    everything else is refused. *)
Definition stage_spec (stage : boot_update_stage) (data : list Z) : Z * list Z :=
  let table := table_of e1 e2 n PRIMARY_GPT data in
  match stage, state_of B PRIMARY_GPT data, state_of B SECONDARY_GPT data with
  | UPDATE_MAIN, Some GPT_OK, Some GPT_OK =>
      if decide (table_valid B e1 e2 n PRIMARY_GPT data) then
        if decide (has_pair gpt_utils_is_ufs_device table) then
          (0, set_state B (chain_two B e2 data (swapped gpt_utils_is_ufs_device table))
                PRIMARY_GPT GPT_BAD_SIGNATURE)
        else (0, data)
      else (-1, data)
  | UPDATE_BACKUP, Some GPT_BAD_SIGNATURE, Some GPT_OK =>
      (0, set_state B (set_state B data PRIMARY_GPT GPT_OK) SECONDARY_GPT GPT_BAD_SIGNATURE)
  | UPDATE_FINALIZE, Some GPT_OK, Some GPT_BAD_SIGNATURE =>
      if decide (table_valid B e1 e2 n PRIMARY_GPT data) then
        (0, set_state B (chain_two B e2 data table) SECONDARY_GPT GPT_OK)
      else (-1, data)
  | UPDATE_MAIN, Some GPT_BAD_SIGNATURE, Some GPT_OK
  | UPDATE_BACKUP, Some GPT_OK, Some GPT_BAD_SIGNATURE => (0, data)
  | _, _, _ => (-1, data)
  end.

Section device.
Context `{Kernel} (Hok : no_fault).

Lemma no_fault_short : no_short.
Proof. intros k m. by rewrite Hok. Qed.

Lemma get_state_ok g s :
  dev_wf s B e1 e2 n →
  ∃ st s', gpt_get_state g s = Some ((0, st), s') ∧ same_disk s s' ∧
    state_of B g (d_data s) = Some st.
Proof.
  intros Hwf. destruct (gpt_get_state_run no_fault_short g s B e1 e2 n Hwf)
    as (r & st & s' & E & Hd & [[_ Hf]|[-> Hs]]); [done|]. eauto 10.
Qed.

Lemma set_state_ok g st s :
  dev_wf s B e1 e2 n → st ≠ GPT_BAD_CRC →
  ∃ s', gpt_set_state g st s = Some (0, s') ∧ d_data s' = set_state B (d_data s) g st ∧
    dev_wf s' B e1 e2 n.
Proof.
  intros Hwf Hst. destruct (gpt_set_state_run no_fault_short g st s B e1 e2 n Hwf Hst)
    as (r & s' & E & [(_ & _ & Hf)|[-> Hw]]); [done|]. exists s'. split; [done|].
  split; [apply Hw|]. eapply dev_wf_wrote; [done..|]. eapply set_state_wf, Hwf.
Qed.

Lemma boot_chain_ok is_ufs boot s :
  dev_wf s B e1 e2 n →
  let table := table_of e1 e2 n PRIMARY_GPT (d_data s) in
  ∃ r s', gpt2_set_boot_chain is_ufs boot s = Some (r, s') ∧ dev_wf s' B e1 e2 n ∧
    (r, d_data s') =
      if decide (table_valid B e1 e2 n PRIMARY_GPT (d_data s)) then
        if decide (boot = BACKUP_BOOT ∧ ¬ has_pair is_ufs table) then (1, d_data s)
        else (0, chain_two B e2 (d_data s) (chain_entries is_ufs boot table))
      else (-1, d_data s).
Proof.
  intros Hwf table.
  destruct (gpt2_set_boot_chain_run no_fault_short is_ufs boot s B e1 e2 n Hwf) as (r & s' & E & Hr).
  exists r, s'. split; [done|].
  pose proof (length_chain_entries _ _ _ _ _ (proj2 Hwf) is_ufs boot) as Hla.
  unfold table_valid, table_of in *. cbn [ent] in *. fold table in Hla.
  destruct Hr as [Hd Hv|Hd Hb Hv Hp|? ? _ _ _ _ Hf|arr ? ? s1 -> -> -> Hv Hb Hw1 Hw2]; [| |done|].
  - split; [by eapply dev_wf_same|]. rewrite decide_False by auto. by rewrite (proj1 Hd).
  - split; [by eapply dev_wf_same|]. rewrite !decide_True by auto. by rewrite (proj1 Hd).
  - split.
    + eapply dev_wf_wrote; [eapply dev_wf_wrote; [done..|]|done|].
      * by apply chain_one_wf, Hwf.
      * by apply (chain_two_wf _ _ _ _ _ (proj2 Hwf)).
    + rewrite decide_True, decide_False by (done || tauto). by rewrite (proj1 Hw2).
Qed.

End device.

(** The world [w'] is [w] with the device [path] being [d]. *)
Definition updated (w : world) (path : string) (d : dev) (w' : world) : Prop :=
  w_devs w' = <[path := d]> (w_devs w).

Lemma on_dev_updated {A} w path d w1 (m : D A) a d' :
  updated w path d w1 → m d = Some (a, d') →
  ∃ w2, on_dev path m w1 = Some (a, w2) ∧ updated w path d' w2.
Proof.
  intros Hu E. unfold on_dev. rewrite Hu, lookup_insert_eq, E.
  eexists. split; [done|]. unfold updated. cbn [w_devs]. by rewrite insert_insert_eq.
Qed.

Section run.
Context (w : world) (path : string).
Hypothesis Hok : @no_fault (kern path).
Hypothesis Hlun : ∀ chain w, ∃ w', switch_boot_lun chain w = Some (0, w').

Lemma switch_updated chain d w1 :
  updated w path d w1 → ∃ w2, switch_boot_lun chain w1 = Some (0, w2) ∧ updated w path d w2.
Proof.
  intros Hu. destruct (Hlun chain w1) as [w2 E2]. exists w2. split; [done|].
  unfold updated. by rewrite (switch_boot_lun_devs _ _ _ _ E2).
Qed.

Lemma set_state_updated g st d w1 :
  updated w path d w1 → dev_wf d B e1 e2 n → st ≠ GPT_BAD_CRC →
  ∃ w2 d2, on_dev path (@gpt_set_state (kern path) _ g st) w1 = Some (0, w2) ∧
    updated w path d2 w2 ∧ d_data d2 = set_state B (d_data d) g st ∧ dev_wf d2 B e1 e2 n.
Proof.
  intros Hu Hwf Hst. destruct (set_state_ok Hok g st d Hwf Hst) as (d2 & E & Hd & Hwf2).
  destruct (on_dev_updated _ _ _ _ _ _ _ Hu E) as (w2 & E2 & Hu2). eauto 10.
Qed.

Lemma boot_chain_updated boot d w1 :
  updated w path d w1 → dev_wf d B e1 e2 n →
  let table := table_of e1 e2 n PRIMARY_GPT (d_data d) in
  ∃ r w2 d2, on_dev path (@gpt2_set_boot_chain (kern path) _ gpt_utils_is_ufs_device boot) w1
               = Some (r, w2) ∧
    updated w path d2 w2 ∧ dev_wf d2 B e1 e2 n ∧
    (r, d_data d2) =
      if decide (table_valid B e1 e2 n PRIMARY_GPT (d_data d)) then
        if decide (boot = BACKUP_BOOT ∧ ¬ has_pair gpt_utils_is_ufs_device table)
        then (1, d_data d)
        else (0, chain_two B e2 (d_data d) (chain_entries gpt_utils_is_ufs_device boot table))
      else (-1, d_data d).
Proof.
  intros Hu Hwf table.
  destruct (boot_chain_ok Hok gpt_utils_is_ufs_device boot d Hwf) as (r & d2 & E & Hwf2 & Hr).
  destruct (on_dev_updated _ _ _ _ _ _ _ Hu E) as (w2 & E2 & Hu2). eauto 10.
Qed.

(** The result of a stage on the disk bytes is [spec]. *)
Definition stage_done (m : W Z) (w1 : world) (spec : Z * list Z) : Prop :=
  ∃ w' d', m w1 = Some (spec.1, w') ∧ updated w path d' w' ∧ d_data d' = spec.2 ∧
    dev_wf d' B e1 e2 n.

Lemma stage_done_intro m w1 w' d' r data :
  m w1 = Some (r, w') → updated w path d' w' → d_data d' = data → dev_wf d' B e1 e2 n →
  stage_done m w1 (r, data).
Proof. intros. by exists w', d'. Qed.

Lemma run_main_ok d w1 :
  updated w path d w1 → dev_wf d B e1 e2 n →
  let table := table_of e1 e2 n PRIMARY_GPT (d_data d) in
  stage_done (run_stage UPDATE_MAIN path) w1
    (if decide (table_valid B e1 e2 n PRIMARY_GPT (d_data d)) then
       if decide (has_pair gpt_utils_is_ufs_device table) then
         (0, set_state B (chain_two B e2 (d_data d) (swapped gpt_utils_is_ufs_device table))
               PRIMARY_GPT GPT_BAD_SIGNATURE)
       else (0, d_data d)
     else (-1, d_data d)).
Proof.
  intros Hu Hwf table. destruct (switch_updated BACKUP_BOOT d w1 Hu) as (w2 & E2 & Hu2).
  destruct (boot_chain_updated BACKUP_BOOT d w2 Hu2 Hwf) as (r & w3 & d3 & E3 & Hu3 & Hwf3 & Hr).
  assert (∀ m, run_stage UPDATE_MAIN path w1 = m w1 ↔
    (if negb (r =? 0) then ret (if r <? 0 then r else 0) else
      on_dev path (@gpt_set_state (kern path) _ PRIMARY_GPT GPT_BAD_SIGNATURE)) w3 = m w1) as Hm.
  { intros m. cbn [run_stage]. rewrite (bind_run _ _ _ _ _ E2). cbn [Z.eqb negb].
    by rewrite (bind_run _ _ _ _ _ E3). }
  destruct (decide (table_valid B e1 e2 n PRIMARY_GPT (d_data d))) as [Hv|Hv].
  2:{ injection Hr as -> Hd. eapply stage_done_intro; [by apply (Hm (λ _, Some (-1, w3)))|done..]. }
  fold table in Hr. destruct (decide (has_pair gpt_utils_is_ufs_device table)) as [Hp|Hp].
  2:{ rewrite decide_True in Hr by done. injection Hr as -> Hd.
      eapply stage_done_intro; [by apply (Hm (λ _, Some (0, w3)))|done..]. }
  rewrite decide_False in Hr by tauto. injection Hr as -> Hd. cbn [chain_entries] in Hd.
  destruct (set_state_updated PRIMARY_GPT GPT_BAD_SIGNATURE d3 w3 Hu3 Hwf3)
    as (w4 & d4 & E4 & Hu4 & Hd4 & Hwf4); [done|]. rewrite Hd in Hd4.
  eapply stage_done_intro; [by apply (Hm (λ _, Some (0, w4)))|done..].
Qed.

Lemma run_backup_ok d w1 :
  updated w path d w1 → dev_wf d B e1 e2 n →
  stage_done (run_stage UPDATE_BACKUP path) w1
    (0, set_state B (set_state B (d_data d) PRIMARY_GPT GPT_OK) SECONDARY_GPT GPT_BAD_SIGNATURE).
Proof.
  intros Hu Hwf. destruct (switch_updated NORMAL_BOOT d w1 Hu) as (w2 & E2 & Hu2).
  destruct (set_state_updated PRIMARY_GPT GPT_OK d w2 Hu2 Hwf)
    as (w3 & d3 & E3 & Hu3 & Hd3 & Hwf3); [done|].
  destruct (set_state_updated SECONDARY_GPT GPT_BAD_SIGNATURE d3 w3 Hu3 Hwf3)
    as (w4 & d4 & E4 & Hu4 & Hd4 & Hwf4); [done|]. rewrite Hd3 in Hd4.
  eapply stage_done_intro; [|done..]. cbn [run_stage].
  rewrite (bind_run _ _ _ _ _ E2). cbn [Z.eqb negb].
  rewrite (bind_run _ _ _ _ _ E3). cbn [Z.eqb negb]. done.
Qed.

Lemma run_finalize_ok d w1 :
  updated w path d w1 → dev_wf d B e1 e2 n →
  stage_done (run_stage UPDATE_FINALIZE path) w1
    (if decide (table_valid B e1 e2 n PRIMARY_GPT (d_data d)) then
       (0, set_state B (chain_two B e2 (d_data d) (table_of e1 e2 n PRIMARY_GPT (d_data d)))
             SECONDARY_GPT GPT_OK)
     else (-1, d_data d)).
Proof.
  intros Hu Hwf.
  destruct (boot_chain_updated NORMAL_BOOT d w1 Hu Hwf) as (r & w3 & d3 & E3 & Hu3 & Hwf3 & Hr).
  destruct (decide (table_valid B e1 e2 n PRIMARY_GPT (d_data d))) as [Hv|Hv].
  - rewrite decide_False in Hr by naive_solver. injection Hr as -> Hd. cbn [chain_entries] in Hd.
    destruct (set_state_updated SECONDARY_GPT GPT_OK d3 w3 Hu3 Hwf3)
      as (w4 & d4 & E4 & Hu4 & Hd4 & Hwf4); [done|]. rewrite Hd in Hd4.
    eapply stage_done_intro; [|done..]. cbn [run_stage]. by rewrite (bind_run _ _ _ _ _ E3).
  - injection Hr as -> Hd.
    eapply stage_done_intro; [|done..]. cbn [run_stage]. by rewrite (bind_run _ _ _ _ _ E3).
Qed.

(** [prepare_partitions] computes [stage_spec] on the device it opens. *)
Lemma prepare_partitions_ok stage d :
  w_devs w !! path = Some d → fs_open path = true → dev_wf d B e1 e2 n →
  stage_done (prepare_partitions stage (Some path)) w (stage_spec stage (d_data d)).
Proof.
  intros Hd Hopen Hwf. set (d0 := set_open O_RDWR d).
  assert (dev_wf d0 B e1 e2 n) as Hwf0 by exact Hwf.
  destruct (get_state_ok Hok PRIMARY_GPT d0 Hwf0) as (p & d1 & E1 & Hs1 & Hp).
  assert (updated w path d0 (World (<[path:=d0]> (w_devs w)) (w_bsg w))) as Hu0 by done.
  destruct (on_dev_updated _ _ _ _ _ _ _ Hu0 E1) as (w1 & E1' & Hu1).
  pose proof (dev_wf_same _ _ _ _ _ _ Hwf0 Hs1) as Hwf1.
  destruct (get_state_ok Hok SECONDARY_GPT d1 Hwf1) as (q & d2 & E2 & Hs2 & Hq).
  destruct (on_dev_updated _ _ _ _ _ _ _ Hu1 E2) as (w2 & E2' & Hu2).
  pose proof (dev_wf_same _ _ _ _ _ _ Hwf1 Hs2) as Hwf2.
  assert (d_data d2 = d_data d) as Hd2 by (rewrite (proj1 Hs2), (proj1 Hs1); done).
  rewrite (proj1 Hs1) in Hq. cbn [d0 set_open d_data] in Hp, Hq.
  assert (∀ spec, stage_done (λ _, match internal_stage p q with
      | None => ret (-1)
      | Some internal =>
          if stage_int stage =? stage_int internal - 1 then ret 0
          else if negb (stage_int stage =? stage_int internal) then ret (-1)
          else run_stage stage path
      end w2) w spec → stage_done (prepare_partitions stage (Some path)) w spec) as Hm.
  { intros spec (w' & d' & E & Hrest). exists w', d'. split; [|done].
    unfold prepare_partitions, open_dev. unfold bind at 1. rewrite Hd, Hopen. cbn [negb].
    fold d0. rewrite (bind_run _ _ _ _ _ E1'). cbn [Z.eqb negb].
    rewrite (bind_run _ _ _ _ _ E2'). cbn [Z.eqb negb]. done. }
  apply Hm. clear Hm. unfold stage_spec. rewrite Hp, Hq.
  rewrite <- Hd2. destruct p, q, stage; cbn [internal_stage stage_int];
    try (by apply (stage_done_intro _ _ w2 d2)).
  - apply (run_main_ok d2 w2 Hu2 Hwf2).
  - apply (run_finalize_ok d2 w2 Hu2 Hwf2).
  - apply (run_backup_ok d2 w2 Hu2 Hwf2).
Qed.

End run.
End stages.

End Update.
