(* ===== verification/GptFailsafe.v ===== *)
(** * GptFailsafe: the theorems about failsafe updates

    A power cut leaves a device that boots when the writes reach the medium in
    order ([prepare_boot_update_failsafe]; GptCrash.v has the page cache); without faults the code computes
    [stage_spec] ([prepare_partitions_refines]), whose consequences are the
    order of the stages and the effect of a whole update; a short write breaks
    the promise ([short_write_loses_both_tables]). *)

From S2P Require Import Prelude Kernel Medium GptBytes GptTable GptHeader UfsBsg GptUpdate.

Module Failsafe.
Import Table Header Ufs Update.

Section failsafe.
Context `{Env} `{!ZlibOk zl} (geo : string → geom).

(** C1. Failsafe updates.  Let every device be safe: well formed, with a usable
    table, and written by this code only.  Whatever calls fail, at any stage, as
    long as there are fewer than MAX_LUNS - 1 (25) boot LUNs and no transfer is cut
    short: [prepare_boot_update] ends, and on a medium that takes the writes in their order a power cut at any moment
    of the run, between two writes or in the middle of one with any of its
    blocks written, leaves every block device with a GPT whose signature, header
    CRC and entries CRC are right; so the device boots, and the next call
    starts from a state of the same invariant. *)
Theorem prepare_boot_update_failsafe (stage : boot_update_stage) (w : world)
    (Hshort : ∀ path, @no_short (kern path))
    (Hluns : (length boot_luns < MAX_LUNS - 1)%nat)
    (Hw : world_safe geo w) :
  ∃ r w', prepare_boot_update stage w = Some (r, w') ∧ world_safe geo w' ∧
    ∀ path d c, w_devs w' !! path = Some d → in_order (g_B (geo path)) (images d) c →
      ∃ g, usable (g_B (geo path)) (g_e1 (geo path)) (g_e2 (geo path)) (g_n (geo path)) g c.
Proof.
  assert (triple (world_safe geo) (prepare_boot_update stage) (λ _, world_safe geo)) as Ht.
  { unfold prepare_boot_update. destruct gpt_utils_is_ufs_device; cbn [negb].
    - destruct (collect_boot_luns Hluns) as (dat & E & Hd).
      eapply triple_bind; [by apply (triple_lift _ _ dat (λ a w, a = dat ∧ world_safe geo w))|].
      intros a w0 [-> Hw0]. rewrite Hd. revert w0 Hw0. change (triple (world_safe geo)
        (let* is_error := prepare_luns stage boot_luns false in
         ret (if is_error : bool then -1 else 0)) (λ _, world_safe geo)).
      eapply triple_bind; [by apply prepare_luns_safe|]. intros b. by apply triple_ret.
    - by apply prepare_partitions_safe. }
  destruct (Ht w Hw) as (r & w' & E & Hw'). exists r, w'. split; [done|]. split; [done|].
  intros path d c Hd. apply safe_dev_cut. by apply (Hw' path d).
Qed.

End failsafe.

Section stages.
Context `{Env} `{!ZlibOk zl} (B e1 e2 n : nat).

(** C2. [prepare_partitions] implements [stage_spec], an explicit table on the stage
    asked for and the states of the two headers: on a well-formed disk, when no
    call fails and the boot LUN can be switched, the return value and the bytes on
    the disk afterwards are exactly those of the table, and no other device
    changes. *)
Theorem prepare_partitions_refines (stage : boot_update_stage) (w : world) (path : string)
    (d : dev) (Hok : @no_fault (kern path))
    (Hlun : ∀ chain w, ∃ w', switch_boot_lun chain w = Some (0, w'))
    (Hd : w_devs w !! path = Some d) (Hopen : fs_open path = true)
    (Hwf : dev_wf d B e1 e2 n) :
  ∃ w' d', prepare_partitions stage (Some path) w
             = Some ((stage_spec B e1 e2 n stage (d_data d)).1, w') ∧
    w_devs w' = <[path := d']> (w_devs w) ∧
    d_data d' = (stage_spec B e1 e2 n stage (d_data d)).2 ∧ dev_wf d' B e1 e2 n.
Proof. exact (prepare_partitions_ok B e1 e2 n w path Hok Hlun stage d Hd Hopen Hwf). Qed.

(** What a disk holds between two stages: well-formed tables with right CRCs,
    the state of the two headers and the two entries arrays. *)
Definition shows (data : list Z) (p q : gpt_state) (tp ts : list Z) : Prop :=
  gpt_wf B data e1 e2 n ∧
  state_of B PRIMARY_GPT data = Some p ∧ state_of B SECONDARY_GPT data = Some q ∧
  table_of e1 e2 n PRIMARY_GPT data = tp ∧ table_of e1 e2 n SECONDARY_GPT data = ts ∧
  table_valid B e1 e2 n PRIMARY_GPT data ∧ table_valid B e1 e2 n SECONDARY_GPT data.

Lemma shows_set_state data p q tp ts g st :
  shows data p q tp ts → st ≠ GPT_BAD_CRC →
  shows (set_state B data g st) (match g with PRIMARY_GPT => st | _ => p end)
    (match g with SECONDARY_GPT => st | _ => q end) tp ts.
Proof.
  intros (Hwf & Hp & Hq & Ht & Ht' & Hv & Hv') Hst. unfold shows.
  rewrite !(set_state_state _ _ _ _ _ Hwf) by done.
  rewrite !(set_state_valid _ _ _ _ _ Hwf). unfold set_state.
  rewrite !(table_of_set _ _ _ _ _ Hwf) by apply (length_new_wf _ _ _ _ _ Hwf).
  split; [by apply set_state_wf|]. by destruct g; simpl.
Qed.

Lemma shows_chain data p q arr :
  gpt_wf B data e1 e2 n → state_of B PRIMARY_GPT data = Some p →
  table_valid B e1 e2 n PRIMARY_GPT data → length arr = n →
  state_of B SECONDARY_GPT (chain_two B e2 data arr) = Some q →
  shows (chain_two B e2 data arr) p q (table_of e1 e2 n PRIMARY_GPT data) arr.
Proof.
  intros Hwf Hp Hv Ha Hq. unfold shows.
  destruct (chain_primary_two _ _ _ _ _ Hwf arr Ha) as [-> ->].
  rewrite !(table_chain_two _ _ _ _ _ Hwf) by done.
  split; [by apply chain_two_wf|]. repeat (split; [done|]).
  by apply (chain_secondary_two _ _ _ _ _ Hwf arr Ha).
Qed.

Lemma chain_state data arr q :
  gpt_wf B data e1 e2 n → length arr = n → state_of B SECONDARY_GPT data = Some q →
  q ≠ GPT_BAD_CRC → state_of B SECONDARY_GPT (chain_two B e2 data arr) = Some q.
Proof.
  intros Hwf Ha Hq Hne. destruct q; [|clear Hne|done].
  - by apply (chain_secondary_two _ _ _ _ _ Hwf arr Ha).
  - unfold state_of in *. rewrite (hdr_chain_two _ _ _ _ _ Hwf), (hdr_chain_one _ _ _ _ _ Hwf) by done.
    rewrite chain_header_state by (eapply wf_sized, Hwf). rewrite decide_False; [done|].
    apply header_state_inv in Hq as [|Hq]; [done|]. by case_decide.
Qed.

Lemma main_spec data :
  gpt_wf B data e1 e2 n → state_of B PRIMARY_GPT data = Some GPT_OK →
  state_of B SECONDARY_GPT data = Some GPT_OK → table_valid B e1 e2 n PRIMARY_GPT data →
  let t := table_of e1 e2 n PRIMARY_GPT data in
  has_pair gpt_utils_is_ufs_device t →
  ∃ data', stage_spec B e1 e2 n UPDATE_MAIN data = (0, data') ∧
    shows data' GPT_BAD_SIGNATURE GPT_OK t (swapped gpt_utils_is_ufs_device t).
Proof.
  intros Hwf Hp Hq Hv t Ht. unfold stage_spec. rewrite Hp, Hq. fold t.
  rewrite !decide_True by done. eexists. split; [done|].
  pose proof (length_chain_entries _ _ _ _ _ Hwf gpt_utils_is_ufs_device BACKUP_BOOT) as Ha.
  apply (shows_set_state _ GPT_OK GPT_OK t _ PRIMARY_GPT); [|done].
  apply shows_chain; try done. by apply chain_state.
Qed.

Lemma backup_spec data t ts :
  shows data GPT_BAD_SIGNATURE GPT_OK t ts →
  ∃ data', stage_spec B e1 e2 n UPDATE_BACKUP data = (0, data') ∧
    shows data' GPT_OK GPT_BAD_SIGNATURE t ts.
Proof.
  intros Hs. pose proof Hs as (Hwf & Hp & Hq & _). unfold stage_spec. rewrite Hp, Hq.
  eexists. split; [reflexivity|].
  apply (shows_set_state _ GPT_OK GPT_OK t ts SECONDARY_GPT); [|done].
  by apply (shows_set_state _ GPT_BAD_SIGNATURE GPT_OK t ts PRIMARY_GPT).
Qed.

Lemma finalize_spec data t ts :
  shows data GPT_OK GPT_BAD_SIGNATURE t ts →
  ∃ data', stage_spec B e1 e2 n UPDATE_FINALIZE data = (0, data') ∧
    shows data' GPT_OK GPT_OK t t.
Proof.
  intros (Hwf & Hp & Hq & Ht & _ & Hv & _). unfold stage_spec. rewrite Hp, Hq.
  rewrite decide_True by done. eexists. split; [reflexivity|].
  apply (shows_set_state _ GPT_OK GPT_BAD_SIGNATURE t t SECONDARY_GPT); [|done].
  pose proof (length_chain_entries _ _ _ _ _ Hwf false NORMAL_BOOT) as Ha.
  cbn [chain_entries] in Ha. rewrite <- Ht at 2. subst t.
  apply shows_chain; try done. by apply chain_state.
Qed.

Section code.
Context (path : string) (Hok : @no_fault (kern path))
  (Hlun : ∀ chain w, ∃ w', switch_boot_lun chain w = Some (0, w'))
  (Hopen : fs_open path = true).

(** One call of [prepare_partitions], given the value of the specification. *)
Lemma stage_step stage w d r data :
  w_devs w !! path = Some d → dev_wf d B e1 e2 n →
  stage_spec B e1 e2 n stage (d_data d) = (r, data) →
  ∃ w' d', prepare_partitions stage (Some path) w = Some (r, w') ∧
    w_devs w' !! path = Some d' ∧ d_data d' = data ∧ dev_wf d' B e1 e2 n.
Proof.
  intros Hd Hwf Hs.
  destruct (prepare_partitions_ok B e1 e2 n w path Hok Hlun stage d Hd Hopen Hwf)
    as (w' & d' & E & Hu & Hd' & Hwf').
  rewrite Hs in *. exists w', d'. split; [done|]. split; [|done].
  rewrite Hu. apply lookup_insert_eq.
Qed.

(** C3. A whole update.  On a disk whose two tables are good and that has backup
    partitions, the three stages all succeed.  After the first only the
    secondary table is active and it names the backup partitions; after the
    second only the primary one is, unchanged; after the third both are, and
    both hold the original entries. *)
Theorem update_cycle (w : world) (d : dev) (Hd : w_devs w !! path = Some d)
    (Hwf : dev_wf d B e1 e2 n)
    (Hp : state_of B PRIMARY_GPT (d_data d) = Some GPT_OK)
    (Hq : state_of B SECONDARY_GPT (d_data d) = Some GPT_OK)
    (Hv : table_valid B e1 e2 n PRIMARY_GPT (d_data d))
    (Hpair : has_pair gpt_utils_is_ufs_device (table_of e1 e2 n PRIMARY_GPT (d_data d))) :
  let t := table_of e1 e2 n PRIMARY_GPT (d_data d) in
  let ts := swapped gpt_utils_is_ufs_device t in
  ∃ w1 d1 w2 d2 w3 d3,
    prepare_partitions UPDATE_MAIN (Some path) w = Some (0, w1) ∧
    w_devs w1 !! path = Some d1 ∧ shows (d_data d1) GPT_BAD_SIGNATURE GPT_OK t ts ∧
    prepare_partitions UPDATE_BACKUP (Some path) w1 = Some (0, w2) ∧
    w_devs w2 !! path = Some d2 ∧ shows (d_data d2) GPT_OK GPT_BAD_SIGNATURE t ts ∧
    prepare_partitions UPDATE_FINALIZE (Some path) w2 = Some (0, w3) ∧
    w_devs w3 !! path = Some d3 ∧ shows (d_data d3) GPT_OK GPT_OK t t.
Proof.
  intros t ts.
  destruct (main_spec (d_data d) (proj2 Hwf) Hp Hq Hv Hpair) as (x1 & E1 & Hx1).
  destruct (stage_step UPDATE_MAIN w d _ _ Hd Hwf E1) as (w1 & d1 & R1 & Hd1 & <- & Hwf1).
  destruct (backup_spec _ _ _ Hx1) as (x2 & E2 & Hx2).
  destruct (stage_step UPDATE_BACKUP w1 d1 _ _ Hd1 Hwf1 E2) as (w2 & d2 & R2 & Hd2 & <- & Hwf2).
  destruct (finalize_spec _ _ _ Hx2) as (x3 & E3 & Hx3).
  destruct (stage_step UPDATE_FINALIZE w2 d2 _ _ Hd2 Hwf2 E3) as (w3 & d3 & R3 & Hd3 & <- & Hwf3).
  exists w1, d1, w2, d2, w3, d3. repeat (split; [done|]). done.
Qed.


End code.

End stages.

Section environment.
Context `{Env}.

(** The device counts as UFS exactly when the property ro.boot.bootdevice
    ends in ".ufshc" with something before it. *)
Theorem is_ufs_device_suffix (Hc : nonzero (bytes bootdevice)) :
  gpt_utils_is_ufs_device = true ↔
  ∃ pre, pre ≠ [] ∧ bytes bootdevice = pre ++ bytes ".ufshc".
Proof.
  unfold gpt_utils_is_ufs_device, cstring. set (b := bytes bootdevice) in *.
  set (u := bytes ".ufshc"). assert (length u = 6%nat) as Hu by done.
  destruct (Nat.ltb_spec (length b) (length u + 1)) as [Hs|Hs].
  - split; [done|]. intros (pre & Hp & E). rewrite E, length_app in Hs.
    destruct pre; [done|]. cbn [length] in Hs. lia.
  - rewrite drop_app_le by lia. rewrite length_app, Nat.add_1_r.
    rewrite strncmp_eq_all; [|by apply Forall_drop|rewrite length_drop; lia].
    cbn [default from_option id]. rewrite bool_decide_eq_true. split.
    + intros E. exists (take (length b - length u) b). split.
      * intros Hn. apply (f_equal length) in Hn. rewrite length_take in Hn. cbn in Hn. lia.
      * symmetry. etrans; [|apply (take_drop (length b - length u) b)]. by f_equal.
    + intros (pre & _ & E). rewrite E, length_app. by rewrite Nat.add_sub, drop_app_length.
Qed.

(** The LUNs [prepare_boot_update] prepares: with fewer than 25 different
    LUNs, [lun_list] does not overflow and ends up holding each LUN that has the
    backup copy of a partition of the swap list (the xbl family apart), once. *)
Theorem lun_list_exact (Hluns : (length boot_luns < MAX_LUNS - 1)%nat) :
  ∃ dat, collect_luns update_data_zero PTN_SWAP_LIST = Some dat ∧
    let luns := take (num_valid_entries dat) (lun_list dat) in
    NoDup luns ∧ ∀ l, l ∈ luns ↔ ∃ ptn, ptn ∈ PTN_SWAP_LIST ∧ lun_of ptn = Some l.
Proof.
  destruct (collect_boot_luns Hluns) as (dat & E & Hd). exists dat. split; [done|].
  rewrite Hd. unfold boot_luns.
  assert (∀ ls acc, NoDup acc → NoDup (fold_left add_new ls acc) ∧
    ∀ l, l ∈ fold_left add_new ls acc ↔ l ∈ acc ∨ l ∈ ls) as Hf.
  { induction ls as [|x ls IH]; intros acc Hn; cbn [fold_left].
    - split; [done|]. intros l. rewrite elem_of_nil. tauto.
    - unfold add_new at 2 4. case_decide as Hx.
      + destruct (IH acc Hn) as [H1 H2]. split; [done|]. intros l. rewrite H2, elem_of_cons.
        split; [tauto|]. intros [?|[->|?]]; tauto.
      + destruct (IH (acc ++ [x])) as [H1 H2].
        { apply NoDup_app. split; [done|]. split; [|apply NoDup_singleton].
          intros y Hy Hy'. apply list_elem_of_singleton in Hy'. by subst. }
        split; [done|]. intros l. rewrite H2, elem_of_app, list_elem_of_singleton, elem_of_cons.
        tauto. }
  destruct (Hf (omap lun_of PTN_SWAP_LIST) [] (NoDup_nil_2)) as [H1 H2]. split; [exact H1|].
  intros l. rewrite H2, elem_of_nil, list_elem_of_omap. tauto.
Qed.

(** The LUN a boot chain boots from. *)
Definition chain_lun (chain : boot_chain) : Z :=
  match chain with BACKUP_BOOT => BOOT_LUN_B_ID | NORMAL_BOOT => BOOT_LUN_A_ID end.

(** [gpt_utils_set_xbl_boot_partition] touches no block device and returns 0
    or -1; when it returns 0, a pair of xbl partitions exists, and exactly one
    query was sent and accepted: the one that selects LUN B for the backup
    chain and LUN A for the normal chain. *)
Theorem set_xbl_boot_partition_selects (chain : boot_chain) (w : world)
    (Hfd : fd_ufs_bsg (w_bsg w) = 0) (Herrno : ∀ p e, bsg_open p = inr e → 0 < e) :
  ∃ r w', gpt_utils_set_xbl_boot_partition chain w = Some (r, w') ∧
    w_devs w' = w_devs w ∧ fd_ufs_bsg (w_bsg w') = 0 ∧ (r = 0 ∨ r = -1) ∧
    (r = 0 →
      (fs_stat XBL_PRIMARY && fs_stat XBL_BACKUP ||
       fs_stat XBL_AB_PRIMARY && fs_stat XBL_AB_SECONDARY = true) ∧
      accepted (bsg_sg_io (boot_lun_io (chain_lun chain))) ∧
      ∃ path fd, bsg_trace (w_bsg w') = bsg_trace (w_bsg w) ++
        [EvOpen path fd; EvIoctl fd (boot_lun_io (chain_lun chain))] ++
        (if fd =? 0 then [] else [EvClose fd])).
Proof.
  unfold gpt_utils_set_xbl_boot_partition.
  replace (match chain with BACKUP_BOOT => _ | NORMAL_BOOT => _ end) with
    (chain_lun chain,
     match chain with
     | BACKUP_BOOT => if fs_stat XBL_BACKUP then Some XBL_BACKUP
         else if fs_stat XBL_AB_SECONDARY then Some XBL_AB_SECONDARY else None
     | NORMAL_BOOT => if fs_stat XBL_PRIMARY then Some XBL_PRIMARY
         else if fs_stat XBL_AB_PRIMARY then Some XBL_AB_PRIMARY else None
     end) by (by destruct chain).
  set (dev := match chain with BACKUP_BOOT => _ | NORMAL_BOOT => _ end).
  destruct dev as [boot_dev|]; [|exists (-1), w; split_and!; auto; lia].
  destruct (_ && _) eqn:Ex; [exists (-1), w; split_and!; auto; lia|].
  destruct (get_scsi_node_from_bootdevice boot_dev);
    [|exists (-1), w; split_and!; auto; lia].
  destruct (set_boot_lun_run (chain_lun chain) (w_bsg w)) as (r & b & evs & E & Hf & Ht & Hr);
    [by destruct chain|done|done|].
  unfold bind, on_bsg. rewrite E.
  destruct (Z.eqb_spec r 0) as [->|Hne]; cbn [negb]; eexists _, _; (split; [done|]);
    cbn [w_devs w_bsg]; do 2 (split; [done|]); (split; [by auto|]); intros Hr0; [|done].
  split.
  { revert Ex. by destruct (fs_stat XBL_PRIMARY), (fs_stat XBL_BACKUP),
      (fs_stat XBL_AB_PRIMARY), (fs_stat XBL_AB_SECONDARY). }
  destruct (dev_entries ≫= find_bsg) as [d|]; [|lia].
  destruct (bsg_open ("/dev/" ++ d)%string) as [fd|]; [|by destruct Hr as (_ & ? & _)].
  destruct Hr as [-> Hr]. split; [by apply Hr|]. by eexists _, fd.
Qed.

End environment.

(** ** Concrete worlds *)

(** An eMMC device with the disk of [sample_dev]; [k] decides the faults. *)
Definition emmc (k : Kernel) : Env :=
  {| fs_stat := λ _, false; fs_readlink := λ _, None; fs_dir := λ _, None;
     fs_open := λ p, String.eqb p BLK_DEV_FILE; bootdevice := "7c4000.sdhci";
     kern := λ _, k; env_bsg := sample_bsg |}.

(** A UFS device whose boot partitions are on /dev/block/sda. *)
Definition ufs (k : Kernel) : Env :=
  {| fs_stat := λ p, String.eqb p "/dev/block/bootdevice/by-name/tzbak" ||
                     String.eqb p "/dev/block/bootdevice/by-name/rpmbak" ||
                     String.eqb p "/dev/block/sda";
     fs_readlink := λ p, if String.eqb p "/dev/block/bootdevice/by-name/tzbak"
                         then Some "/dev/block/sda12" else Some "/dev/block/sda4";
     fs_dir := λ _, None; fs_open := λ _, true; bootdevice := "1d84000.ufshc";
     kern := λ _, k; env_bsg := sample_bsg |}%string.

#[global] Instance usable_dec B e1 e2 n g data : Decision (usable B e1 e2 n g data).
Proof. unfold usable. apply _. Defined.
#[global] Instance all_tables_dec (P : gpt_instance → Prop) `{∀ g, Decision (P g)} :
  Decision (∀ g, P g).
Proof.
  destruct (decide (P PRIMARY_GPT ∧ P SECONDARY_GPT)) as [[? ?]|Hn];
    [left; intros []; done|right; intros Ha; apply Hn; auto].
Defined.

Definition sample_world (path : string) : world := World {[ path := sample_dev ]} bsg_init.
Definition sample_geom : geom := Geom 512 1024 2560 1024.

Lemma sample_usable g : usable 512 1024 2560 1024 g sample_disk.
Proof. destruct g; split; vm_compute; reflexivity. Qed.

Lemma sample_safe : safe 512 1024 2560 1024 sample_disk.
Proof.
  split; [apply sample_dev_wf|]. split; [apply sample_usable|]. left. apply sample_usable.
Qed.

Lemma sample_world_safe path : world_safe (λ _, sample_geom) (sample_world path).
Proof.
  intros p d Hd. cbn [w_devs sample_world] in Hd. apply lookup_singleton_Some in Hd as [_ <-].
  split; [done|]. split; [|by repeat constructor].
  constructor; [apply sample_safe|constructor].
Qed.

Lemma no_xbl_lun k : ∀ chain w, ∃ w', @switch_boot_lun (ufs k) chain w = Some (0, w').
Proof. intros chain w. exists w. reflexivity. Qed.

(** Every call on the device fails from the 20th on. *)
Definition dying : Kernel :=
  {| sys := λ k, if (20 <? k)%nat then FFail else FOk; heap := λ _ _, 0 |}.

Lemma prepare_boot_update_failsafe_witness :
  ∃ r w', @prepare_boot_update (ufs dying) _ UPDATE_MAIN (sample_world "/dev/block/sda")
            = Some (r, w') ∧ r = -1 ∧
    ∀ path d c, w_devs w' !! path = Some d → in_order 512 (images d) c →
      ∃ g, usable 512 1024 2560 1024 g c.
Proof.
  destruct (@prepare_boot_update_failsafe (ufs dying) zlib _ (λ _, sample_geom) UPDATE_MAIN
    (sample_world "/dev/block/sda")) as (r & w' & E & _ & Hi).
  - intros path k m. unfold kern, ufs, sys, dying. destruct (Nat.ltb 20 k); discriminate.
  - vm_compute. lia.
  - apply sample_world_safe.
  - exists r, w'. split; [exact E|]. split; [|exact Hi].
    assert (fst <$> @prepare_boot_update (ufs dying) _ UPDATE_MAIN
              (sample_world "/dev/block/sda") = Some (-1)) as E'
      by (vm_compute; reflexivity).
    rewrite E in E'. by injection E'.
Defined.

Lemma sample_lookup path : w_devs (sample_world path) !! path = Some sample_dev.
Proof. apply lookup_singleton_eq. Qed.

Lemma prepare_partitions_refines_witness :
  ∃ w' d', @prepare_partitions (ufs quiet) _ UPDATE_BACKUP (Some "/dev/block/sda"%string)
             (sample_world "/dev/block/sda") = Some (-1, w') ∧
    w_devs w' !! "/dev/block/sda"%string = Some d' ∧ d_data d' = sample_disk.
Proof.
  destruct (@prepare_partitions_refines (ufs quiet) zlib _ 512 1024 2560 1024 UPDATE_BACKUP
    (sample_world "/dev/block/sda") "/dev/block/sda" sample_dev) as (w' & d' & E & Hu & Hd & _).
  - exact quiet_no_fault.
  - apply no_xbl_lun.
  - apply sample_lookup.
  - reflexivity.
  - apply sample_dev_wf.
  - assert (@stage_spec (ufs quiet) zlib 512 1024 2560 1024 UPDATE_BACKUP sample_disk
            = (-1, sample_disk)) as Es by (vm_compute; reflexivity).
    change (d_data sample_dev) with sample_disk in *. rewrite Es in *.
    exists w', d'. split; [exact E|]. split; [|exact Hd]. rewrite Hu. apply lookup_insert_eq.
Defined.

Lemma update_cycle_witness :
  ∃ w1 d1 w2 w3,
    @prepare_partitions (ufs quiet) _ UPDATE_MAIN (Some "/dev/block/sda"%string)
      (sample_world "/dev/block/sda") = Some (0, w1) ∧
    w_devs w1 !! "/dev/block/sda"%string = Some d1 ∧
    slice (d_data d1) 2560 1024 = swapped true sample_table ∧
    @prepare_partitions (ufs quiet) _ UPDATE_BACKUP (Some "/dev/block/sda"%string) w1
      = Some (0, w2) ∧
    @prepare_partitions (ufs quiet) _ UPDATE_FINALIZE (Some "/dev/block/sda"%string) w2
      = Some (0, w3).
Proof.
  destruct (@update_cycle (ufs quiet) zlib _ 512 1024 2560 1024 "/dev/block/sda" quiet_no_fault
    (no_xbl_lun quiet) eq_refl (sample_world "/dev/block/sda") sample_dev (sample_lookup _)
    sample_dev_wf) as (w1 & d1 & w2 & d2 & w3 & d3 & E1 & H1 & Hs & E2 & _ & _ & E3 & _).
  - apply (sample_usable PRIMARY_GPT).
  - apply (sample_usable SECONDARY_GPT).
  - apply (sample_usable PRIMARY_GPT).
  - apply (bool_decide_unpack _). vm_compute. done.
  - exists w1, d1, w2, w3. split; [exact E1|]. split; [exact H1|].
    split; [exact (proj1 (proj2 (proj2 (proj2 (proj2 Hs)))))|]. split; [exact E2|exact E3].
Defined.


Lemma is_ufs_device_suffix_witness :
  (@gpt_utils_is_ufs_device (ufs quiet) = true ↔
   ∃ pre, pre ≠ [] ∧ bytes "1d84000.ufshc" = pre ++ bytes ".ufshc") ∧
  @gpt_utils_is_ufs_device (ufs quiet) = true.
Proof.
  split; [|reflexivity]. apply (@is_ufs_device_suffix (ufs quiet)).
  apply (bool_decide_unpack _). vm_compute. done.
Defined.

Lemma lun_list_exact_witness :
  ∃ dat, @collect_luns (ufs quiet) update_data_zero PTN_SWAP_LIST = Some dat ∧
    "/dev/block/sda"%string ∈ take (num_valid_entries dat) (lun_list dat).
Proof.
  destruct (@lun_list_exact (ufs quiet)) as (dat & E & _ & Hl); [vm_compute; lia|].
  exists dat. split; [exact E|]. apply Hl. exists "tz"%string.
  split; [apply (bool_decide_unpack _); vm_compute; done|vm_compute; reflexivity].
Defined.

(** A UFS device with a pair of xbl partitions. *)
Definition ufs_xbl : Env :=
  {| fs_stat := λ p, String.eqb p XBL_PRIMARY || String.eqb p XBL_BACKUP;
     fs_readlink := λ _, Some "/dev/block/sdb1";
     fs_dir := λ p, if String.eqb p "/sys/block/sdb/device/scsi_generic"
                    then Some [".."; "."; "sg1"] else None;
     fs_open := λ _, true; bootdevice := "1d84000.ufshc";
     kern := λ _, quiet; env_bsg := sample_bsg |}%string.

Lemma set_xbl_boot_partition_selects_witness :
  ∃ r w', @gpt_utils_set_xbl_boot_partition ufs_xbl BACKUP_BOOT (sample_world "/dev/block/sda")
            = Some (r, w') ∧ r = 0 ∧
    ∃ path fd, bsg_trace (w_bsg w') =
      [EvOpen path fd; EvIoctl fd (boot_lun_io 2)] ++ (if fd =? 0 then [] else [EvClose fd]).
Proof.
  destruct (@set_xbl_boot_partition_selects ufs_xbl BACKUP_BOOT (sample_world "/dev/block/sda"))
    as (r & w' & E & _ & _ & _ & Hr).
  - reflexivity.
  - cbn. intros p e. destruct (String.eqb p "/dev/ufs-bsg0"); intros [= <-]. lia.
  - exists r, w'. split; [exact E|].
    assert (r = 0) as ->.
    { assert (fst <$> @gpt_utils_set_xbl_boot_partition ufs_xbl BACKUP_BOOT
                (sample_world "/dev/block/sda") = Some 0) as E' by (vm_compute; reflexivity).
      rewrite E in E'. by injection E'. }
    split; [reflexivity|]. destruct (Hr eq_refl) as (_ & _ & path & fd & Ht).
    exists path, fd. exact Ht.
Defined.

(** The partitions of the swap list spread over 25 LUNs, sda to sdy. *)
Fixpoint index_of (p : string) (l : list string) (i : nat) : nat :=
  match l with
  | [] => i
  | x :: l' => if String.eqb p (BOOT_DEV_DIR ++ "/" ++ x ++ "bak") then i else index_of p l' (S i)
  end.
Definition many_luns : Env :=
  {| fs_stat := λ _, true;
     fs_readlink := λ p,
       let i := index_of p (drop 4 PTN_SWAP_LIST) 0 in
       Some ("/dev/block/sd" ++
             String (ascii_of_nat (97 + (if (i <? 25)%nat then i else 0))) "1")%string;
     fs_dir := λ _, None; fs_open := λ _, true; bootdevice := "1d84000.ufshc";
     kern := λ _, quiet; env_bsg := sample_bsg |}.

(** The bound on the LUNs is needed: with 25 LUNs the check for known LUNs in
    [add_lun_to_update_list] is no longer made, known LUNs are added again, and
    [prepare_boot_update] writes past the end of [lun_list]. *)
Theorem lun_list_overflow :
  length (@boot_luns many_luns) = 25%nat ∧
  ∀ w, @prepare_boot_update many_luns _ UPDATE_MAIN w = None.
Proof.
  split; [vm_compute; reflexivity|]. intros w. unfold prepare_boot_update.
  assert (@gpt_utils_is_ufs_device many_luns = true) as -> by (vm_compute; reflexivity).
  assert (@collect_luns many_luns update_data_zero PTN_SWAP_LIST = None) as ->
    by (vm_compute; reflexivity). done.
Qed.

(** The write of the secondary entries moves 512 of its 1024 bytes; no other
    call misbehaves. *)
Definition one_short : Kernel :=
  {| sys := λ k, if (k =? 22)%nat then FShort 512 else FOk; heap := λ _ _, 0 |}.

(** C38. A short write is not noticed: [blk_rw] reports a transfer of fewer bytes
    than asked as a success, so one short write during UPDATE_MAIN lets
    [prepare_partitions] return 0 and leaves the device with no usable table at
    all. *)
Theorem short_write_loses_both_tables :
  world_safe (λ _, sample_geom) (sample_world BLK_DEV_FILE) ∧
  ∃ w' d', @prepare_partitions (emmc one_short) _ UPDATE_MAIN (Some BLK_DEV_FILE)
             (sample_world BLK_DEV_FILE) = Some (0, w') ∧
    w_devs w' !! BLK_DEV_FILE = Some d' ∧
    ∀ g, ¬ usable 512 1024 2560 1024 g (d_data d').
Proof.
  split; [apply sample_world_safe|].
  assert (match @prepare_partitions (emmc one_short) _ UPDATE_MAIN (Some BLK_DEV_FILE)
                  (sample_world BLK_DEV_FILE) with
          | Some (r, w') =>
              match w_devs w' !! BLK_DEV_FILE with
              | Some d' => bool_decide (r = 0 ∧ ∀ g, ¬ usable 512 1024 2560 1024 g (d_data d'))
              | None => false
              end
          | None => false
          end = true) as Hc by (vm_compute; reflexivity).
  destruct (@prepare_partitions (emmc one_short) _ UPDATE_MAIN (Some BLK_DEV_FILE)
    (sample_world BLK_DEV_FILE)) as [[r w']|]; [|done].
  destruct (w_devs w' !! BLK_DEV_FILE) as [d'|] eqn:Ed; [|done].
  apply bool_decide_eq_true in Hc as [-> Hu]. eauto.
Qed.

End Failsafe.
