(* ===== verification/GptCrash.v ===== *)
(** * GptCrash: boot updates through the page cache
      (gpt-utils/gpt-utils.cpp, [prepare_partitions], [prepare_boot_update])

    [gpt_disk_commit] opens the device with [O_DSYNC]; [prepare_partitions] opens
    it without, so its writes stay in the page cache until the [fsync] at its
    label EXIT.  [cached] adds to the world how many writes of each device are
    known to be on the medium; a power cut leaves a mixture of the versions the
    blocks had since ([pending], Medium.v).

    Between two stages nothing is pending ([stages_durable]) and UPDATE_FINALIZE is
    safe in whatever order its blocks are written ([finalize_any_order]).  The
    other two stages are not: nothing orders the writes that make one table
    good before the write that marks the other one bad
    ([missing_barrier_loses_both_tables]). *)

From S2P Require Import Prelude Kernel Medium GptBytes GptTable GptHeader UfsBsg GptUpdate GptFailsafe.

Module Crash.
Import Table Header Ufs Update Failsafe.

(** ** The page cache *)

Record cached := Cached {
  c_world : world;
  c_synced : gmap string nat;   (* the writes of each device known to be on the medium *)
}.

Abbreviation C := (M cached).

Definition pending (c : cached) (path : string) : list (list Z) :=
  match w_devs (c_world c) !! path with
  | Some d => since (default 0%nat (c_synced c !! path)) d
  | None => []
  end.

(** Everything written is on the medium. *)
Definition synced (c : cached) : Prop :=
  map_Forall (λ path d, c_synced c !! path = Some (length (d_images d))) (w_devs (c_world c)).

Definition on_world {A} (m : W A) : C A := λ c,
  match m (c_world c) with
  | Some (a, w) => Some (a, Cached w (c_synced c))
  | None => None
  end.

(** ** The code *)

Section code.
Context `{Env} `{Zlib} (fsync_ok : string → bool).

(** [fsync(fd)], whose result is not looked at. *)
Definition fsync (path : string) : C unit := λ c,
  Some (tt,
    match w_devs (c_world c) !! path with
    | Some d =>
        if fsync_ok path
        then Cached (c_world c) (<[path := length (d_images d)]> (c_synced c)) else c
    | None => c
    end).

(** [open(dev_path, O_RDWR)] returns a descriptor. *)
Definition opens (path : string) (w : world) : bool :=
  bool_decide (is_Some (w_devs w !! path)) && fs_open path.

(** What follows the label EXIT. *)
Definition prepare_exit (fd_open : bool) (path : string) (r : Z) : C Z :=
  (if fd_open then fsync path else ret tt) ;; ret r.

Definition prepare_partitions_c (stage : boot_update_stage) (path : string) : C Z := λ c,
  (let fd_open := opens path (c_world c) in
   let* r := on_world (prepare_partitions stage (Some path)) in
   prepare_exit fd_open path r) c.

Fixpoint prepare_luns_c (stage : boot_update_stage) (luns : list string) (is_error : bool)
    : C bool :=
  match luns with
  | [] => ret is_error
  | l :: luns' =>
      let* rcode := prepare_partitions_c stage l in
      prepare_luns_c stage luns' (if negb (rcode =? 0) then true else is_error)
  end.

Definition prepare_boot_update_c (stage : boot_update_stage) : C Z :=
  if negb gpt_utils_is_ufs_device then prepare_partitions_c stage BLK_DEV_FILE
  else
    let* data := lift (collect_luns update_data_zero PTN_SWAP_LIST) in
    let* is_error := prepare_luns_c stage (take (num_valid_entries data) (lun_list data)) false in
    ret (if is_error : bool then -1 else 0).

End code.

(** ** One device at a time *)

(** A run changes no device but [path]. *)
Definition only_dev {A} (path : string) (m : W A) : Prop :=
  ∀ w a w', m w = Some (a, w') → ∀ p, p ≠ path → w_devs w' !! p = w_devs w !! p.

Lemma only_ret {A} path (a : A) : only_dev path (ret a).
Proof. by intros w b w' [= <- <-]. Qed.

Lemma only_bind {A B} path (m : W A) (k : A → W B) :
  only_dev path m → (∀ a, only_dev path (k a)) → only_dev path (bind m k).
Proof.
  intros Hm Hk w b w'. unfold bind. destruct (m w) as [[a w1]|] eqn:E; [|done]. intros E' p Hp.
  rewrite (Hk _ _ _ _ E' p Hp). by apply (Hm _ _ _ E).
Qed.

Lemma only_on_dev {A} path (m : D A) : only_dev path (on_dev path m).
Proof.
  intros w a w'. unfold on_dev. destruct (w_devs w !! path) as [d|]; [|done].
  destruct (m d) as [[x d']|]; [|done]. intros [= <- <-] p Hp. cbn [w_devs].
  by rewrite lookup_insert_ne.
Qed.

Section frame.
Context `{Env} `{Zlib}.

Lemma only_open path : only_dev path (open_dev O_RDWR path).
Proof.
  intros w a w'. unfold open_dev. repeat case_match; intros [= <- <-] p Hp; [|done..].
  cbn [w_devs]. by rewrite lookup_insert_ne.
Qed.

Lemma only_switch path chain : only_dev path (switch_boot_lun chain).
Proof. intros w a w' E p _. by rewrite (switch_boot_lun_devs _ _ _ _ E). Qed.

Lemma only_prepare stage path : only_dev path (prepare_partitions stage (Some path)).
Proof.
  unfold prepare_partitions, run_stage.
  repeat first [ apply only_ret | apply only_open | apply only_on_dev | apply only_switch
               | apply only_bind; [|intros ?] | case_match ].
Qed.

(** A device that cannot be opened stays as it is. *)
Lemma prepare_unopened stage path w r w' :
  opens path w = false → prepare_partitions stage (Some path) w = Some (r, w') → w' = w.
Proof.
  unfold opens, prepare_partitions, bind, open_dev. intros Ho.
  destruct (w_devs w !! path) as [d|]; cbn in Ho; rewrite ?Ho; cbn [negb]; by intros [= _ <-].
Qed.

End frame.

(** ** Between two stages *)

Lemma pending_synced c path d :
  synced c → w_devs (c_world c) !! path = Some d → pending c path = [d_data d].
Proof.
  intros Hs Hd. unfold pending. rewrite Hd, (Hs path d Hd). apply since_synced.
Qed.

Section durable.
Context `{Env} `{!ZlibOk zl} (geo : string → geom) (fsync_ok : string → bool).
Hypothesis Hfsync : ∀ path, fsync_ok path = true.
Hypothesis Hshort : ∀ path, @no_short (kern path).

(** [m'] runs as [m] does on the world, and leaves nothing pending. *)
Definition durable {A} (m' : C A) (m : W A) : Prop :=
  ∀ c, world_safe geo (c_world c) → synced c →
  ∃ a c', m' c = Some (a, c') ∧ m (c_world c) = Some (a, c_world c') ∧
    world_safe geo (c_world c') ∧ synced c'.

Lemma durable_prepare stage path :
  durable (prepare_partitions_c fsync_ok stage path) (prepare_partitions stage (Some path)).
Proof.
  intros [w k] Hw Hs. cbn [c_world] in *.
  destruct (prepare_partitions_safe geo Hshort stage (Some path) w Hw) as (r & w' & E & Hw').
  unfold prepare_partitions_c, prepare_exit, bind, on_world. cbn [c_world c_synced]. rewrite E.
  destruct (opens path w) eqn:Ho.
  - unfold fsync, ret. cbn [c_world]. rewrite Hfsync. eexists _, _. split; [done|].
    pose proof (only_prepare stage path w r w' E) as Hf.
    destruct (w_devs w' !! path) as [d'|] eqn:Ed; cbn [c_world]; (split; [done|]); (split; [done|]);
      intros p d Hd; cbn [c_world c_synced] in *; (destruct (decide (p = path)) as [->|Hp]; [|]).
    + rewrite Ed in Hd. injection Hd as <-. by rewrite lookup_insert_eq.
    + rewrite lookup_insert_ne by done. apply (Hs p d). cbn [c_world]. by rewrite <- Hf.
    + congruence.
    + apply (Hs p d). cbn [c_world]. by rewrite <- Hf.
  - rewrite (prepare_unopened _ _ _ _ _ Ho E). unfold ret. eexists _, _. split; [done|]. done.
Qed.

Lemma durable_luns stage luns is_error :
  durable (prepare_luns_c fsync_ok stage luns is_error) (prepare_luns stage luns is_error).
Proof.
  revert is_error. induction luns as [|l luns IH]; intros is_error c Hw Hs;
    cbn [prepare_luns_c prepare_luns].
  - by exists is_error, c.
  - destruct (durable_prepare stage l c Hw Hs) as (r & c1 & E1 & E1' & Hw1 & Hs1).
    rewrite !(bind_run _ _ _ _ _ E1), !(bind_run _ _ _ _ _ E1'). by apply IH.
Qed.

Lemma durable_update stage :
  (length boot_luns < MAX_LUNS - 1)%nat →
  durable (prepare_boot_update_c fsync_ok stage) (prepare_boot_update stage).
Proof.
  intros Hl c Hw Hs. unfold prepare_boot_update_c, prepare_boot_update.
  destruct gpt_utils_is_ufs_device; cbn [negb]; [|by apply durable_prepare].
  destruct (collect_boot_luns Hl) as (dat & E & _). rewrite E. cbn [lift bind].
  destruct (durable_luns stage (take (num_valid_entries dat) (lun_list dat)) false c Hw Hs)
    as (b & c1 & E1 & E1' & Hw1 & Hs1).
  rewrite (bind_run _ _ _ _ _ E1), (bind_run _ _ _ _ _ E1'). by eexists _, c1.
Qed.

End durable.

Section theorems.
Context `{Env} `{!ZlibOk zl} (geo : string → geom) (fsync_ok : string → bool).

(** C20. A stage that has returned is on the medium.  Let every device be safe and
    nothing be pending, let there be fewer than MAX_LUNS - 1 (25) boot LUNs, no
    transfer cut short and an [fsync] that works.  Then through the page cache
    [prepare_boot_update] returns what it returns without one, and whatever
    calls failed on the way nothing is pending afterwards: a power cut between two stages leaves every device with exactly
    the bytes the stage left there, and a usable table among them. *)
Theorem stages_durable (stage : boot_update_stage) (c : cached)
    (Hfsync : ∀ path, fsync_ok path = true) (Hshort : ∀ path, @no_short (kern path))
    (Hluns : (length boot_luns < MAX_LUNS - 1)%nat)
    (Hw : world_safe geo (c_world c)) (Hs : synced c) :
  ∃ r c', prepare_boot_update_c fsync_ok stage c = Some (r, c') ∧
    prepare_boot_update stage (c_world c) = Some (r, c_world c') ∧ synced c' ∧
    ∀ path d x, w_devs (c_world c') !! path = Some d →
      mixed (g_B (geo path)) (pending c' path) x →
      x = d_data d ∧
      ∃ g, usable (g_B (geo path)) (g_e1 (geo path)) (g_e2 (geo path)) (g_n (geo path)) g x.
Proof.
  destruct (durable_update geo fsync_ok Hfsync Hshort stage Hluns c Hw Hs)
    as (r & c' & E & E' & Hw' & Hs').
  exists r, c'. do 3 (split; [done|]). intros path d x Hd Hm.
  rewrite (pending_synced c' path d Hs' Hd) in Hm. pose proof (Hw' path d Hd) as Hd'.
  apply safe_dev_now in Hd' as (Hwf & _ & Hu). pose proof (proj1 Hm) as Hl.
  rewrite Forall_singleton in Hl. pose proof (wf_layout _ _ _ _ _ Hwf) as Hlay.
  assert (x = d_data d) as ->.
  { apply (mixed_singleton (g_B (geo path))); [destruct Hlay; lia|rewrite <- Hl; apply Hlay|done]. }
  split; [done|]. destruct Hu; eauto.
Qed.

End theorems.
(** ** Runs that leave the primary table alone *)

Section kept.
Context `{Env} `{!ZlibOk zl} (B e1 e2 n : nat) (path : string).
Hypothesis Hshort : @no_short (kern path).

(** Between [s] and [s'] no write touched the primary table. *)
Definition kept (s s' : dev) : Prop :=
  ∃ new, images s' = new ++ images s ∧
    Forall (λ v, hdr PRIMARY_GPT B v = hdr PRIMARY_GPT B (d_data s) ∧
                 table_of e1 e2 n PRIMARY_GPT v = table_of e1 e2 n PRIMARY_GPT (d_data s)) new.

Lemma kept_same s s' : same_disk s s' → kept s s'.
Proof. intros (E1 & E2 & _). exists []. unfold images. by rewrite E1, E2. Qed.

Lemma kept_wrote s s' l :
  wrote s s' l → hdr PRIMARY_GPT B l = hdr PRIMARY_GPT B (d_data s) →
  table_of e1 e2 n PRIMARY_GPT l = table_of e1 e2 n PRIMARY_GPT (d_data s) → kept s s'.
Proof.
  intros (E1 & E2 & _) Hh Ht. exists [l]. unfold images. rewrite E1, E2. split; [done|].
  by repeat constructor.
Qed.

#[local] Instance kept_pre : PreOrder kept.
Proof.
  split; [intros s; by apply kept_same|].
  intros a b c (n1 & E1 & H1) (n2 & E2 & H2). exists (n2 ++ n1). rewrite E2, E1. split; [by rewrite app_assoc|].
  apply Forall_app. split; [|done]. eapply Forall_impl; [exact H2|]. cbn.
  assert (hdr PRIMARY_GPT B (d_data b) = hdr PRIMARY_GPT B (d_data a) ∧
    table_of e1 e2 n PRIMARY_GPT (d_data b) = table_of e1 e2 n PRIMARY_GPT (d_data a)) as [-> ->]; [|done].
  destruct n1 as [|v n1]; injection E1 as E1 _; rewrite E1; [done|].
  by apply Forall_cons in H1 as [? _].
Qed.

(** The device [path] has kept its primary table since it was [d0]. *)
Definition Kept (d0 : dev) (w : world) : Prop :=
  ∃ d, w_devs w !! path = Some d ∧ dev_wf d B e1 e2 n ∧ kept d0 d.

Lemma kept_call {A} d0 (m : D A) :
  (∀ s, dev_wf s B e1 e2 n → ∃ a s', m s = Some (a, s') ∧ dev_wf s' B e1 e2 n ∧ kept s s') →
  triple (Kept d0) (on_dev path m) (λ _, Kept d0).
Proof.
  intros Hm w (d & Hd & Hwf & Hk). destruct (Hm d Hwf) as (a & d' & E & Hwf' & Hk').
  unfold on_dev. rewrite Hd, E. eexists _, _. split; [done|]. exists d'. cbn [w_devs].
  rewrite lookup_insert_eq. split; [done|]. split; [done|]. by etrans.
Qed.

Lemma kept_get_state g s :
  dev_wf s B e1 e2 n →
  ∃ a s', @gpt_get_state (kern path) _ g s = Some (a, s') ∧ dev_wf s' B e1 e2 n ∧ kept s s'.
Proof.
  intros Hwf. destruct (gpt_get_state_run Hshort g s B e1 e2 n Hwf) as (r & st & s' & E & Hs & _).
  exists (r, st), s'. split; [done|]. split; [by eapply dev_wf_same|by apply kept_same].
Qed.

Lemma kept_set_secondary st s :
  dev_wf s B e1 e2 n → st ≠ GPT_BAD_CRC →
  ∃ a s', @gpt_set_state (kern path) _ SECONDARY_GPT st s = Some (a, s') ∧
    dev_wf s' B e1 e2 n ∧ kept s s'.
Proof.
  intros Hwf Hst.
  destruct (gpt_set_state_run Hshort SECONDARY_GPT st s B e1 e2 n Hwf Hst) as (r & s' & E & Hr).
  exists r, s'. split; [done|]. pose proof (proj2 Hwf) as Hg.
  pose proof (length_new_wf _ _ _ _ _ Hg SECONDARY_GPT st) as Hl.
  destruct Hr as [(_ & Hs & _)|(_ & Hw)]; [split; [by eapply dev_wf_same|by apply kept_same]|].
  split; [eapply dev_wf_wrote; [done..|]; by apply (set_state_wf _ _ _ _ _ Hg SECONDARY_GPT)|].
  apply (kept_wrote _ _ _ Hw).
  - by apply (hdr_set _ _ _ _ _ Hg SECONDARY_GPT PRIMARY_GPT).
  - by apply (table_of_set _ _ _ _ _ Hg SECONDARY_GPT PRIMARY_GPT).
Qed.

Lemma kept_chain is_ufs boot s :
  dev_wf s B e1 e2 n →
  ∃ a s', @gpt2_set_boot_chain (kern path) _ is_ufs boot s = Some (a, s') ∧
    dev_wf s' B e1 e2 n ∧ kept s s'.
Proof.
  intros Hwf. destruct (gpt2_set_boot_chain_run Hshort is_ufs boot s B e1 e2 n Hwf) as (r & s' & E & Hr).
  exists r, s'. split; [done|]. pose proof (proj2 Hwf) as Hg.
  pose proof (length_chain_entries _ _ _ _ _ Hg is_ufs boot) as Ha.
  assert (∀ s1, wrote s s1 (chain_one B (d_data s) (chain_entries is_ufs boot
    (table_of e1 e2 n PRIMARY_GPT (d_data s)))) → dev_wf s1 B e1 e2 n ∧ kept s s1) as Hone.
  { intros s1 Hw. split; [eapply dev_wf_wrote; [done..|]; by apply chain_one_wf|].
    apply (kept_wrote _ _ _ Hw); [by rewrite (hdr_chain_one _ _ _ _ _ Hg)|].
    by apply (table_of_set _ _ _ _ _ Hg SECONDARY_GPT PRIMARY_GPT), (length_chain_wf _ _ _ _ _ Hg). }
  destruct Hr as [Hs _|Hs _ _ _|? ? -> -> _ Hw _|? ? ? s1 -> -> -> _ _ Hw1 Hw2].
  1,2: split; [by eapply dev_wf_same|by apply kept_same].
  - by apply Hone.
  - destruct (Hone s1 Hw1) as [Hwf1 Hk1].
    split; [eapply dev_wf_wrote; [exact Hwf1|exact Hw2|]; by apply (chain_two_wf _ _ _ _ _ Hg)|].
    etrans; [exact Hk1|]. apply (kept_wrote _ _ _ Hw2); rewrite (proj1 Hw1).
    + by apply (hdr_chain_two _ _ _ _ _ Hg).
    + etrans; [by apply (table_chain_two _ _ _ _ _ Hg _ Ha PRIMARY_GPT)|]. symmetry.
      by apply (table_of_set _ _ _ _ _ Hg SECONDARY_GPT PRIMARY_GPT), (length_chain_wf _ _ _ _ _ Hg).
Qed.

Lemma kept_open d0 : triple (Kept d0) (open_dev O_RDWR path) (λ _, Kept d0).
Proof.
  intros w (d & Hd & Hwf & Hk). unfold open_dev. rewrite Hd.
  destruct (fs_open path); eexists _, _; (split; [done|]); [|by exists d].
  exists (set_open O_RDWR d). cbn [w_devs]. by rewrite lookup_insert_eq.
Qed.

Lemma finalize_kept d0 :
  triple (Kept d0) (prepare_partitions UPDATE_FINALIZE (Some path)) (λ _, Kept d0).
Proof.
  unfold prepare_partitions, run_stage.
  eapply triple_bind; [apply kept_open|]. intros [|]; cbn [negb]; [|by apply triple_ret].
  eapply triple_bind; [apply kept_call, kept_get_state|]. intros [r p].
  case_match; [by apply triple_ret|].
  eapply triple_bind; [apply kept_call, kept_get_state|]. intros [r' q].
  repeat (case_match; [by apply triple_ret|]). case_match; [|by apply triple_ret].
  repeat (case_match; [by apply triple_ret|]).
  eapply triple_bind; [apply kept_call; intros; by apply kept_chain|].
  intros r2. case_match; [by apply triple_ret|].
  apply kept_call. intros. by apply kept_set_secondary.
Qed.

(** C21. UPDATE_FINALIZE needs no order.  It starts with the primary table in use and
    writes only the secondary one: whatever calls fail, and whichever versions
    of the blocks it wrote the page cache has brought to the medium when the
    power is cut, the primary table is usable and the one it was. *)
Theorem finalize_any_order (c : cached) (d : dev)
    (Hd : w_devs (c_world c) !! path = Some d) (Hwf : dev_wf d B e1 e2 n)
    (Hs : c_synced c !! path = Some (length (d_images d)))
    (Hu : usable B e1 e2 n PRIMARY_GPT (d_data d)) :
  ∃ r c', on_world (prepare_partitions UPDATE_FINALIZE (Some path)) c = Some (r, c') ∧
    ∀ x, mixed B (pending c' path) x →
      usable B e1 e2 n PRIMARY_GPT x ∧
      table_of e1 e2 n PRIMARY_GPT x = table_of e1 e2 n PRIMARY_GPT (d_data d).
Proof.
  destruct (finalize_kept d (c_world c)) as (r & w' & E & d' & Hd' & _ & new & Hi & Hn).
  { exists d. split; [done|]. split; [done|]. by apply kept_same. }
  unfold on_world. rewrite E. eexists _, _. split; [done|]. intros x Hm.
  unfold pending in Hm. cbn [c_world c_synced] in Hm. rewrite Hd', Hs in Hm. cbn [default from_option id] in Hm.
  assert (since (length (d_images d)) d' = new ++ [d_data d]) as Hp.
  { assert (length (images d') = length (new ++ images d)) as Hl by by rewrite Hi.
    unfold since. rewrite Hi. unfold images in *. rewrite length_app in Hl. cbn [length] in Hl.
    replace (S (length (d_images d') - length (d_images d))) with (length (new ++ [d_data d]))
      by (rewrite length_app; cbn [length]; lia).
    by rewrite (cons_middle (d_data d) new (d_images d)), app_assoc, take_app_length. }
  rewrite Hp in Hm. pose proof (proj1 Hm) as Hl. apply Forall_app in Hl as [_ Hl].
  rewrite Forall_singleton in Hl.
  destruct (mixed_table B e1 e2 n PRIMARY_GPT (d_data d) (new ++ [d_data d]) x) as [E1 E2];
    [apply Hwf|done|done|apply Forall_app; by split; [|repeat constructor]|].
  split; [by apply (usable_same _ _ _ _ _ (d_data d))|done].
Qed.

End kept.

(** ** Concrete runs *)

(** An eMMC device holding [data], all of it on the medium. *)
Definition on_medium (data : list Z) : cached :=
  Cached (World {[ BLK_DEV_FILE := Dev data 512 0 [] 0 false ]} bsg_init) {[ BLK_DEV_FILE := 0%nat ]}.

(** The disk of GptFailsafe.v: before an update, and with a header marked bad as the first
    and the second stage do. *)
Definition sample_cached : cached := on_medium sample_disk.
Definition marked (g : gpt_instance) : list Z := set_state 512 sample_disk g GPT_BAD_SIGNATURE.

Lemma on_medium_synced data : synced (on_medium data).
Proof.
  intros p d Hd. cbn [c_world on_medium w_devs] in Hd.
  apply lookup_singleton_Some in Hd as [<- <-]. apply lookup_singleton_eq.
Qed.

Lemma on_medium_safe data :
  safe 512 1024 2560 1024 data → world_safe (λ _, sample_geom) (c_world (on_medium data)).
Proof.
  intros Hs p d Hd. cbn [c_world on_medium w_devs] in Hd.
  apply lookup_singleton_Some in Hd as [_ <-]. split; [done|]. split; [|by repeat constructor].
  constructor; [exact Hs|constructor].
Qed.

Lemma marked_safe g : safe 512 1024 2560 1024 (marked g).
Proof.
  pose proof (proj2 sample_dev_wf) as Hwf. destruct g.
  - apply (set_primary_bad _ _ _ _ _ Hwf sample_safe), sample_usable.
  - apply (set_secondary _ _ _ _ _ Hwf); [done|apply sample_usable].
Qed.

(** A run of a stage up to the label EXIT. *)
Definition stage_run (stage : boot_update_stage) : C Z :=
  on_world (@prepare_partitions (emmc quiet) _ stage (Some BLK_DEV_FILE)).

(** No call fails, and cutting the power before EXIT can leave no usable table. *)
Definition loses_both (stage : boot_update_stage) (c : cached) : Prop :=
  ∃ c' x, stage_run stage c = Some (0, c') ∧ mixed 512 (pending c' BLK_DEV_FILE) x ∧
    ∀ g, ¬ usable 512 1024 2560 1024 g x.

(** The content is the one after the run with the [m] bytes at [off] not written yet. *)
Lemma loses_both_check stage data off m :
  match stage_run stage (on_medium data) with
  | Some (r, c') =>
      match pending c' BLK_DEV_FILE with
      | new :: _ =>
          let x := splice new off (slice data off m) in
          bool_decide (r = 0 ∧ mixed 512 (pending c' BLK_DEV_FILE) x ∧
                       ∀ g, ¬ usable 512 1024 2560 1024 g x)
      | [] => false
      end
  | None => false
  end = true → loses_both stage (on_medium data).
Proof.
  unfold loses_both. destruct (stage_run stage (on_medium data)) as [[r c']|]; [|done].
  destruct (pending c' BLK_DEV_FILE) as [|new olds] eqn:Ep; [done|].
  intros Hc. apply bool_decide_eq_true in Hc as (-> & Hm & Hu).
  exists c', (splice new off (slice data off m)). rewrite Ep. done.
Qed.

(** C37. The writes of UPDATE_MAIN and UPDATE_BACKUP are not ordered.  No call
    fails and [fsync] works; but until the [fsync] at EXIT the page cache may write
    the blocks back in any order.  The power is cut in UPDATE_MAIN when both
    headers are on the medium and the secondary entries are not yet, or in
    UPDATE_BACKUP when the secondary header is marked bad on the medium and the
    primary one is not yet repaired: neither table is usable. *)
Theorem missing_barrier_loses_both_tables :
  (world_safe (λ _, sample_geom) (c_world sample_cached) ∧ synced sample_cached ∧
   loses_both UPDATE_MAIN sample_cached) ∧
  (world_safe (λ _, sample_geom) (c_world (on_medium (marked PRIMARY_GPT))) ∧
   synced (on_medium (marked PRIMARY_GPT)) ∧
   loses_both UPDATE_BACKUP (on_medium (marked PRIMARY_GPT))).
Proof.
  split; (split; [apply on_medium_safe|split; [apply on_medium_synced|]]).
  - apply sample_safe.
  - apply (loses_both_check _ _ 2560 1024). vm_compute. reflexivity.
  - apply marked_safe.
  - apply (loses_both_check _ _ 512 512). vm_compute. reflexivity.
Qed.

Lemma stages_durable_witness :
  ∃ r c', @prepare_boot_update_c (emmc dying) _ (λ _, true) UPDATE_MAIN sample_cached
            = Some (r, c') ∧ r = -1 ∧ synced c'.
Proof.
  destruct (@stages_durable (emmc dying) zlib _ (λ _, sample_geom) (λ _, true) UPDATE_MAIN
    sample_cached) as (r & c' & E & _ & Hs & _).
  - reflexivity.
  - intros path k m. unfold kern, emmc, sys, dying. destruct (Nat.ltb 20 k); discriminate.
  - vm_compute. lia.
  - apply on_medium_safe, sample_safe.
  - apply on_medium_synced.
  - exists r, c'. split; [exact E|]. split; [|exact Hs].
    assert (fst <$> @prepare_boot_update_c (emmc dying) _ (λ _, true) UPDATE_MAIN sample_cached
              = Some (-1)) as E' by (vm_compute; reflexivity).
    rewrite E in E'. by injection E'.
Defined.

Lemma finalize_any_order_witness :
  ∃ r c', @on_world Z (@prepare_partitions (emmc quiet) _ UPDATE_FINALIZE (Some BLK_DEV_FILE))
            (on_medium (marked SECONDARY_GPT)) = Some (r, c') ∧ r = 0 ∧
    length (pending c' BLK_DEV_FILE) = 4%nat ∧
    ∀ x, mixed 512 (pending c' BLK_DEV_FILE) x → usable 512 1024 2560 1024 PRIMARY_GPT x.
Proof.
  pose proof (proj2 sample_dev_wf) as Hwf.
  destruct (@finalize_any_order (emmc quiet) zlib _ 512 1024 2560 1024 BLK_DEV_FILE
    quiet_no_short (on_medium (marked SECONDARY_GPT)) (Dev (marked SECONDARY_GPT) 512 0 [] 0 false))
    as (r & c' & E & Hx).
  - apply lookup_singleton_eq.
  - split; [reflexivity|]. exact (set_state_wf _ _ _ _ _ Hwf SECONDARY_GPT GPT_BAD_SIGNATURE).
  - apply lookup_singleton_eq.
  - destruct (sample_usable PRIMARY_GPT) as [Hs Hv]. split.
    + cbn [d_data]. unfold marked. rewrite (set_state_state _ _ _ _ _ Hwf) by discriminate. exact Hs.
    + apply (set_state_valid _ _ _ _ _ Hwf). exact Hv.
  - exists r, c'. split; [exact E|].
    assert ((λ rc, (rc.1, length (pending rc.2 BLK_DEV_FILE))) <$>
      stage_run UPDATE_FINALIZE (on_medium (marked SECONDARY_GPT)) = Some (0, 4%nat)) as E'
      by (vm_compute; reflexivity).
    unfold stage_run in E'. rewrite E in E'. cbn [fmap option_fmap option_map fst snd] in E'.
    injection E' as -> El. split; [reflexivity|]. split; [exact El|].
    intros x Hm. exact (proj1 (Hx x Hm)).
Defined.

End Crash.
