(* ===== verification/GptDisk.v ===== *)
(** * GptDisk: the gpt_disk interface (gpt-utils/gpt-utils.cpp, from
      [get_dev_path_from_partition_name] to [gpt_disk_commit])

    The boot control code reads both tables of a disk into a [gpt_disk],
    edits the entries, recomputes the CRCs and writes everything back.  The
    structure is a record whose pointers are optional buffers; the functions
    run over the world of [GptUpdate]. *)

From Stdlib Require Import Sorted.
From S2P Require Import Prelude Kernel Medium GptBytes GptTable GptHeader UfsBsg GptUpdate GptFailsafe.

Module Disk.
Import Table Header Ufs Update Failsafe.

Definition GPT_DISK_INIT_MAGIC : Z := 0xABCD.

(** [struct gpt_disk] *)
Record gpt_disk := GptDisk {
  dk_hdr : option (list Z);
  dk_hdr_crc : Z;
  dk_hdr_bak : option (list Z);
  dk_hdr_bak_crc : Z;
  dk_pentry_arr : option (list Z);
  dk_pentry_arr_bak : option (list Z);
  dk_pentry_arr_size : Z;
  dk_pentry_size : Z;
  dk_pentry_arr_crc : Z;
  dk_pentry_arr_bak_crc : Z;
  dk_devpath : string;
  dk_block_size : Z;
  dk_is_initialized : Z;
}.

(** What [gpt_disk_alloc] returns when its allocation succeeds. *)
Definition gpt_disk_alloc : gpt_disk :=
  GptDisk None 0 None 0 None None 0 0 0 0 "" 0 0.

(** Assignments to members of the structure. *)
Definition set_primary (h : option (list Z)) (crc : Z) (d : gpt_disk) : gpt_disk :=
  GptDisk h crc (dk_hdr_bak d) (dk_hdr_bak_crc d) (dk_pentry_arr d) (dk_pentry_arr_bak d)
    (dk_pentry_arr_size d) (dk_pentry_size d) (dk_pentry_arr_crc d) (dk_pentry_arr_bak_crc d)
    (dk_devpath d) (dk_block_size d) (dk_is_initialized d).
Definition set_secondary (h : option (list Z)) (crc : Z) (d : gpt_disk) : gpt_disk :=
  GptDisk (dk_hdr d) (dk_hdr_crc d) h crc (dk_pentry_arr d) (dk_pentry_arr_bak d)
    (dk_pentry_arr_size d) (dk_pentry_size d) (dk_pentry_arr_crc d) (dk_pentry_arr_bak_crc d)
    (dk_devpath d) (dk_block_size d) (dk_is_initialized d).
Definition set_arr (a : option (list Z)) (d : gpt_disk) : gpt_disk :=
  GptDisk (dk_hdr d) (dk_hdr_crc d) (dk_hdr_bak d) (dk_hdr_bak_crc d) a (dk_pentry_arr_bak d)
    (dk_pentry_arr_size d) (dk_pentry_size d) (dk_pentry_arr_crc d) (dk_pentry_arr_bak_crc d)
    (dk_devpath d) (dk_block_size d) (dk_is_initialized d).
Definition set_arr_bak (b : option (list Z)) (d : gpt_disk) : gpt_disk :=
  GptDisk (dk_hdr d) (dk_hdr_crc d) (dk_hdr_bak d) (dk_hdr_bak_crc d) (dk_pentry_arr d) b
    (dk_pentry_arr_size d) (dk_pentry_size d) (dk_pentry_arr_crc d) (dk_pentry_arr_bak_crc d)
    (dk_devpath d) (dk_block_size d) (dk_is_initialized d).
Definition set_devpath (p : string) (d : gpt_disk) : gpt_disk :=
  GptDisk (dk_hdr d) (dk_hdr_crc d) (dk_hdr_bak d) (dk_hdr_bak_crc d) (dk_pentry_arr d)
    (dk_pentry_arr_bak d) (dk_pentry_arr_size d) (dk_pentry_size d) (dk_pentry_arr_crc d)
    (dk_pentry_arr_bak_crc d) p (dk_block_size d) (dk_is_initialized d).

Section code.
Context `{Env} `{Zlib}.

(** The characters of the buffer after a copy of [link] over [buf]. *)
Definition overwrite (link buf : string) : string :=
  (link ++ String.substring (String.length link) (String.length buf) buf)%string.

(** [Some path] when the function returns 0, [path] being the buffer then;
    [buf] is the buffer before the call. *)
Definition get_dev_path_from_partition_name (partname buf : string) : option string :=
  if gpt_utils_is_ufs_device then
    let path := (BOOT_DEV_DIR ++ "/" ++ partname)%string in
    if negb (fs_stat path) then None
    else
      match fs_readlink path with
      | None => None
      | Some link => Some (String.substring 0 PATH_TRUNCATE_LOC (overwrite link buf))
      end
  else Some BLK_DEV_FILE.

(** One iteration of the loop of [gpt_utils_get_partition_map]. *)
Definition map_partition (m : gmap string (list string)) (ptn : string)
    : gmap string (list string) :=
  match get_dev_path_from_partition_name ptn "" with
  | None => m
  | Some path =>
      match m !! path with
      | Some ps => <[path := ps ++ [ptn]]> m
      | None => <[path := [ptn]]> m
      end
  end.

Definition gpt_utils_get_partition_map (ptn_list : list string)
    (partition_map : gmap string (list string)) : Z * gmap string (list string) :=
  if (length ptn_list <? 1)%nat then (-1, partition_map)
  else (0, fold_left map_partition ptn_list partition_map).

Section fd.
Context `{Kernel}.

Definition gpt_get_block_size : D Z :=
  let* b := ioctl_BLKSSZGET in
  ret (match b with None => 0 | Some block_size => block_size end).

Definition gpt_set_header (gpt_header : option (list Z)) (instance : gpt_instance) : D Z :=
  match gpt_header with
  | None => ret (-1)
  | Some gpt_header =>
  let* block_size := gpt_get_block_size in
  if block_size =? 0 then ret (-1) else
  let* gpt_header_offset :=
    match instance with
    | PRIMARY_GPT => ret block_size
    | SECONDARY_GPT => let* e := lseek64_end in ret (e - block_size)
    end in
  if gpt_header_offset <=? 0 then ret (-1) else
  let* (r, _) := blk_rw true gpt_header_offset gpt_header block_size in
  if negb (r =? 0) then ret (-1) else ret 0
  end.

(** The offset and the size of the entries array a header describes. *)
Definition pentries_of (hdr : list Z) (block_size : Z) : option (Z * Z) :=
  lba ← GET_8_BYTES hdr PENTRIES_OFFSET;
  pentry_size ← GET_4_BYTES hdr PENTRY_SIZE_OFFSET;
  count ← GET_4_BYTES hdr PARTITION_COUNT_OFFSET;
  Some (u64 (lba * block_size), u32 (count * pentry_size)).

(** [None] inside is a null result. *)
Definition gpt_get_pentry_arr (hdr : option (list Z)) : D (option (list Z)) :=
  match hdr with
  | None => ret None
  | Some hdr =>
  let* block_size := gpt_get_block_size in
  if block_size =? 0 then ret None else
  let* (pentries_start, pentries_arr_size) := lift (pentries_of hdr block_size) in
  let* p := calloc pentries_arr_size in
  match p with
  | None => ret None
  | Some pentry_arr =>
  let* (rc, pentry_arr) := blk_rw false (i64 pentries_start) pentry_arr pentries_arr_size in
  if negb (rc =? 0) then ret None else ret (Some pentry_arr)
  end end.

Definition gpt_set_pentry_arr (hdr arr : option (list Z)) : D Z :=
  match hdr, arr with
  | Some hdr, Some arr =>
  let* block_size := gpt_get_block_size in
  if block_size =? 0 then ret (-1) else
  let* (pentries_start, pentries_arr_size) := lift (pentries_of hdr block_size) in
  let* (rc, _) := blk_rw true (i64 pentries_start) arr pentries_arr_size in
  if negb (rc =? 0) then ret (-1) else ret 0
  | _, _ => ret (-1)
  end.

(** [gpt_get_header] once the device is open.  When [malloc] fails the code goes
    on with a null buffer, which [read] refuses. *)
Definition read_header_block (instance : gpt_instance) : D (option (list Z)) :=
  let* block_size := gpt_get_block_size in
  if block_size =? 0 then ret None else
  let* h := malloc block_size in
  let* hdr_offset :=
    match instance with
    | PRIMARY_GPT => ret block_size
    | SECONDARY_GPT => let* e := lseek64_end in ret (e - block_size)
    end in
  if hdr_offset <? 0 then ret None else
  match h with
  | None => let* _ := lseek64_set hdr_offset in ret None
  | Some hdr =>
  let* (r, hdr) := blk_rw false hdr_offset hdr block_size in
  if negb (r =? 0) then ret None else ret (Some hdr)
  end.

End fd.

Definition gpt_get_header (partname : string) (instance : gpt_instance) : W (option (list Z)) :=
  match get_dev_path_from_partition_name partname "" with
  | None => ret None
  | Some devpath =>
  let K := kern devpath in
  let* ok := open_dev O_RDWR devpath in
  if negb ok then ret None else on_dev devpath (read_header_block instance)
  end.

(** [gpt_disk_get_disk_info] from the [open] on: [disk] has its headers and
    path already. *)
Definition load_arrays (disk : gpt_disk) (hdr hdr_bak : list Z) : W (Z * gpt_disk) :=
  let devpath := dk_devpath disk in
  let K := kern devpath in
  let* ok := open_dev O_RDWR devpath in
  if negb ok then ret (-1, disk) else
  let* a := on_dev devpath (gpt_get_pentry_arr (dk_hdr disk)) in
  let disk := set_arr a disk in
  match a with
  | None => ret (-1, disk)
  | Some _ =>
  let* b := on_dev devpath (gpt_get_pentry_arr (dk_hdr_bak disk)) in
  let disk := set_arr_bak b disk in
  match b with
  | None => ret (-1, disk)
  | Some _ =>
  let* pentry_size := lift (GET_4_BYTES hdr PENTRY_SIZE_OFFSET) in
  let* count := lift (GET_4_BYTES hdr PARTITION_COUNT_OFFSET) in
  let* pentry_arr_crc := lift (GET_4_BYTES hdr PARTITION_CRC_OFFSET) in
  let* pentry_arr_bak_crc := lift (GET_4_BYTES hdr_bak PARTITION_CRC_OFFSET) in
  let* block_size := on_dev devpath gpt_get_block_size in
  ret (0, GptDisk (dk_hdr disk) (dk_hdr_crc disk) (dk_hdr_bak disk) (dk_hdr_bak_crc disk)
            a b (u32 (count * pentry_size)) pentry_size
            pentry_arr_crc pentry_arr_bak_crc devpath block_size GPT_DISK_INIT_MAGIC)
  end end.

(** The return value and the structure after the call. *)
Definition gpt_disk_get_disk_info (dev : string) (disk : gpt_disk) : W (Z * gpt_disk) :=
  let* h := gpt_get_header dev PRIMARY_GPT in
  let disk := set_primary h (dk_hdr_crc disk) disk in
  match h with
  | None => ret (-1, disk)
  | Some hdr =>
  let* gpt_header_size := lift (GET_4_BYTES hdr HEADER_SIZE_OFFSET) in
  let* covered := lift (rd hdr 0 (Z.to_nat gpt_header_size)) in
  let disk := set_primary h (u32 (crc32 crc32_zero covered)) disk in
  let* hb := gpt_get_header dev SECONDARY_GPT in
  let disk := set_secondary hb (dk_hdr_bak_crc disk) disk in
  match hb with
  | None => ret (-1, disk)
  | Some hdr_bak =>
  let* covered := lift (rd hdr_bak 0 (Z.to_nat gpt_header_size)) in
  let disk := set_secondary hb (u32 (crc32 crc32_zero covered)) disk in
  match get_dev_path_from_partition_name dev (dk_devpath disk) with
  | None => ret (-1, disk)
  | Some devpath => load_arrays (set_devpath devpath disk) hdr hdr_bak
  end end end.

(** [None] inside is NULL; a pointer is an offset into the chosen array. *)
Definition gpt_disk_get_pentry (disk : gpt_disk) (partname : list Z) (instance : gpt_instance)
    : option (option nat) :=
  if negb (dk_is_initialized disk =? GPT_DISK_INIT_MAGIC) then Some None
  else
    ptn_arr ← (match instance with
               | PRIMARY_GPT => dk_pentry_arr disk
               | SECONDARY_GPT => dk_pentry_arr_bak disk
               end);
    gpt_pentry_seek partname ptn_arr 0 (Z.to_nat (dk_pentry_arr_size disk))
      (Z.to_nat (dk_pentry_size disk)).

(** The return value and the structure; [None] is an access through a null
    pointer or outside a buffer. *)
Definition gpt_disk_update_crc (disk : gpt_disk) : option (Z * gpt_disk) :=
  if negb (dk_is_initialized disk =? GPT_DISK_INIT_MAGIC) then Some (-1, disk)
  else
    arr ← dk_pentry_arr disk;
    arr_bak ← dk_pentry_arr_bak disk;
    hdr ← dk_hdr disk;
    hdr_bak ← dk_hdr_bak disk;
    covered ← rd arr 0 (Z.to_nat (dk_pentry_arr_size disk));
    let pentry_arr_crc := u32 (crc32 crc32_zero covered) in
    covered ← rd arr_bak 0 (Z.to_nat (dk_pentry_arr_size disk));
    let pentry_arr_bak_crc := u32 (crc32 crc32_zero covered) in
    hdr ← PUT_4_BYTES hdr PARTITION_CRC_OFFSET pentry_arr_crc;
    hdr_bak ← PUT_4_BYTES hdr_bak PARTITION_CRC_OFFSET pentry_arr_bak_crc;
    gpt_header_size ← GET_4_BYTES hdr HEADER_SIZE_OFFSET;
    hdr ← PUT_4_BYTES hdr HEADER_CRC_OFFSET 0;
    hdr_bak ← PUT_4_BYTES hdr_bak HEADER_CRC_OFFSET 0;
    covered ← rd hdr 0 (Z.to_nat gpt_header_size);
    let hdr_crc := u32 (crc32 crc32_zero covered) in
    covered ← rd hdr_bak 0 (Z.to_nat gpt_header_size);
    let hdr_bak_crc := u32 (crc32 crc32_zero covered) in
    hdr ← PUT_4_BYTES hdr HEADER_CRC_OFFSET hdr_crc;
    hdr_bak ← PUT_4_BYTES hdr_bak HEADER_CRC_OFFSET hdr_bak_crc;
    Some (0, GptDisk (Some hdr) hdr_crc (Some hdr_bak) hdr_bak_crc (Some arr) (Some arr_bak)
               (dk_pentry_arr_size disk) (dk_pentry_size disk) pentry_arr_crc
               pentry_arr_bak_crc (dk_devpath disk) (dk_block_size disk)
               (dk_is_initialized disk)).

Definition gpt_disk_commit (disk : gpt_disk) : W Z :=
  if negb (dk_is_initialized disk =? GPT_DISK_INIT_MAGIC) then ret (-1) else
  let path := dk_devpath disk in
  let K := kern path in
  let* ok := open_dev (Z.lor O_RDWR O_DSYNC) path in
  if negb ok then ret (-1) else
  let* r := on_dev path (gpt_set_header (dk_hdr disk) PRIMARY_GPT) in
  if negb (r =? 0) then ret (-1) else
  let* r := on_dev path (gpt_set_pentry_arr (dk_hdr disk) (dk_pentry_arr disk)) in
  if negb (r =? 0) then ret (-1) else
  let* r := on_dev path (gpt_set_header (dk_hdr_bak disk) SECONDARY_GPT) in
  if negb (r =? 0) then ret (-1) else
  let* r := on_dev path (gpt_set_pentry_arr (dk_hdr_bak disk) (dk_pentry_arr_bak disk)) in
  if negb (r =? 0) then ret (-1) else ret 0.

End code.

(** ** Recomputing the CRCs *)

Section crc.
Context `{!ZlibOk zl}.

(** The structure holds both headers, which agree on their size, and both
    arrays at the size it says. *)
Record disk_loaded (disk : gpt_disk) (h hb a b : list Z) : Prop := Loaded {
  ld_init : dk_is_initialized disk = GPT_DISK_INIT_MAGIC;
  ld_hdr : dk_hdr disk = Some h;
  ld_hdr_bak : dk_hdr_bak disk = Some hb;
  ld_arr : dk_pentry_arr disk = Some a;
  ld_arr_bak : dk_pentry_arr_bak disk = Some b;
  ld_sized : header_sized h;
  ld_sized_bak : header_sized hb;
  ld_same_size : header_size h = header_size hb;
  ld_len : Z.of_nat (length a) = dk_pentry_arr_size disk;
  ld_len_bak : Z.of_nat (length b) = dk_pentry_arr_size disk;
}.

(** The CRC stored in a header just sealed. *)
Definition sealed_crc (h arr : list Z) : Z :=
  crc32 crc32_zero
    (crc_image (splice h PARTITION_CRC_OFFSET (le4 (crc32 crc32_zero arr))) (header_size h)).

Lemma update_crc_run disk h hb a b :
  disk_loaded disk h hb a b →
  gpt_disk_update_crc disk =
    Some (0, GptDisk (Some (chain_header h a)) (sealed_crc h a)
               (Some (chain_header hb b)) (sealed_crc hb b) (Some a) (Some b)
               (dk_pentry_arr_size disk) (dk_pentry_size disk) (crc32 crc32_zero a)
               (crc32 crc32_zero b) (dk_devpath disk) (dk_block_size disk)
               (dk_is_initialized disk)).
Proof.
  intros [Hi Hh Hhb Ha Hb Hs Hsb Hsz Hl Hlb]. unfold gpt_disk_update_crc.
  rewrite Hi, Hh, Hhb, Ha, Hb, Z.eqb_refl. cbn [negb mbind option_bind].
  destruct (header_sized_size h Hs) as [Hg Hgs]. destruct (header_sized_size hb Hsb) as [Hgb Hgsb].
  pose proof (proj1 Hs) as H92. pose proof (proj1 Hsb) as H92b.
  rewrite !rd_Some, !slice_whole by lia. cbn [mbind option_bind].
  rewrite !(wrapu_small 32) by apply crc32_range.
  unfold PARTITION_CRC_OFFSET, HEADER_SIZE_OFFSET, HEADER_CRC_OFFSET in *.
  rewrite !(PUT_4_splice _ 88) by lia. cbn [mbind option_bind].
  rewrite (GET_4_splice_disj h 12 88) by (simpl; lia). rewrite Hg. cbn [mbind option_bind].
  rewrite !(PUT_4_splice _ 16) by (rewrite length_splice; simpl; lia). cbn [mbind option_bind].
  rewrite !rd_Some by (rewrite !length_splice; simpl; rewrite ?length_splice; simpl; lia).
  cbn [mbind option_bind]. rewrite !(wrapu_small 32) by apply crc32_range.
  rewrite !(PUT_4_splice _ 16) by (rewrite !length_splice; simpl; rewrite ?length_splice; simpl; lia).
  cbn [mbind option_bind].
  rewrite !splice_splice_same by (rewrite ?length_splice; simpl; lia).
  unfold chain_header, seal, sealed_crc, crc_image, HEADER_CRC_OFFSET, PARTITION_CRC_OFFSET.
  rewrite <- Hsz. by rewrite !(wrapu_small 32) by apply crc32_range.
Qed.

(** After [gpt_disk_update_crc] the structure is consistent: each header
    carries the CRC of its entries array, its own CRC is right whatever its
    other bytes, so that only a bad signature could make it unusable; the
    arrays, sizes and path are not changed. *)
Theorem update_crc_consistent (disk : gpt_disk) (h hb a b : list Z)
    (Hd : disk_loaded disk h hb a b) :
  ∃ disk' h' hb', gpt_disk_update_crc disk = Some (0, disk') ∧
    disk_loaded disk' h' hb' a b ∧ dk_devpath disk' = dk_devpath disk ∧
    dk_pentry_arr_crc disk' = crc32 crc32_zero a ∧
    dk_pentry_arr_bak_crc disk' = crc32 crc32_zero b ∧
    entries_valid h' a ∧ entries_valid hb' b ∧ fields h' = fields h ∧ fields hb' = fields hb ∧
    header_state h' = Some (if decide (slice h 0 (length GPT_SIGNATURE) = GPT_SIGNATURE)
                            then GPT_OK else GPT_BAD_SIGNATURE) ∧
    header_state hb' = Some (if decide (slice hb 0 (length GPT_SIGNATURE) = GPT_SIGNATURE)
                             then GPT_OK else GPT_BAD_SIGNATURE).
Proof.
  pose proof (proj1 (ld_sized _ _ _ _ _ Hd)) as H92.
  pose proof (proj1 (ld_sized_bak _ _ _ _ _ Hd)) as H92b.
  pose proof (fields_chain_header h a H92) as Hf.
  pose proof (fields_chain_header hb b H92b) as Hfb.
  pose proof Hd as [Hi Hh Hhb Ha Hb Hs Hsb Hsz Hl Hlb].
  eexists _, (chain_header h a), (chain_header hb b).
  split; [by apply update_crc_run|]. split.
  { split; try done; cbn [dk_is_initialized dk_pentry_arr_size]; try done.
    - eapply header_sized_fields; [|by symmetry|done]. by rewrite length_chain_header.
    - eapply header_sized_fields; [|by symmetry|done]. by rewrite length_chain_header.
    - rewrite (header_size_fields _ _ Hf), (header_size_fields _ _ Hfb). done. }
  do 3 (split; [done|]). split; [by apply chain_header_valid|].
  split; [by apply chain_header_valid|]. do 2 (split; [done|]).
  split; by apply chain_header_state.
Qed.

End crc.

(** ** Reading and writing the tables *)

Section tables.
Context `{!ZlibOk zl} (B e1 e2 n : nat).
Implicit Types data : list Z.

Abbreviation ent := (ent e1 e2).
Abbreviation table_of := (table_of e1 e2 n).
Abbreviation usable := (usable B e1 e2 n).

(** A header that describes the table of [g]. *)
Definition header_for (g : gpt_instance) (h : list Z) : Prop :=
  length h = B ∧ fields_ok B (ent g) n (fields h).

(** A header and an array that make a usable table. *)
Definition table_for (g : gpt_instance) (h arr : list Z) : Prop :=
  header_for g h ∧ length arr = n ∧ header_state h = Some GPT_OK ∧ entries_valid h arr.

Definition put_arr (g : gpt_instance) (arr data : list Z) : list Z := splice data (ent g) arr.

Section facts.
Context (data : list Z) (Hwf : gpt_wf B data e1 e2 n).

Lemma ent_bound g : (2 * B ≤ ent g)%nat ∧ (ent g + n + B ≤ length data)%nat.
Proof. destruct (wf_layout _ _ _ _ _ Hwf), g; simpl; lia. Qed.

Lemma wf_set_for g h : header_for g h → gpt_wf B (set_hdr B g h data) e1 e2 n.
Proof.
  intros [Hl Hf]. destruct Hwf as [Hlay H1 H2].
  assert (length (set_hdr B g h data) = length data) as Hlen.
  { apply length_splice. pose proof (hdr_off_bound g _ _ _ _ _ Hlay). lia. }
  split; [by rewrite Hlen|..]; rewrite (hdr_set _ _ _ _ _ Hwf) by done; by destruct g.
Qed.

Lemma wf_put g arr : length arr = n → gpt_wf B (put_arr g arr data) e1 e2 n.
Proof. intros Ha. pose proof (ent_bound g). apply wf_splice_other; [done|lia|lia]. Qed.

Lemma hdr_put g arr g' : length arr = n → hdr g' B (put_arr g arr data) = hdr g' B data.
Proof.
  intros Ha. pose proof (ent_bound g). eapply hdr_splice_other; [apply Hwf|lia|lia].
Qed.

Lemma table_put g arr g' :
  length arr = n → table_of g' (put_arr g arr data) = if decide (g' = g) then arr else table_of g' data.
Proof.
  intros Ha. pose proof (ent_bound g). pose proof (lay_disj _ _ _ _ _ (wf_layout _ _ _ _ _ Hwf)).
  unfold table_of, put_arr. case_decide as Hg.
  - subst g' n. apply slice_splice_same. lia.
  - apply slice_splice_disj; [lia|]. destruct g, g'; simpl in *; try done; lia.
Qed.

End facts.

Section device.
Context `{Kernel} (Hshort : no_short).

Lemma block_size_run s :
  dev_wf s B e1 e2 n →
  ∃ b s', gpt_get_block_size s = Some (b, s') ∧ same_disk s s' ∧
    (b = 0 ∧ ¬ no_fault ∨ b = Z.of_nat B ∧ 0 < b).
Proof.
  intros Hwf. unfold gpt_get_block_size.
  destruct (ioctl_run Hshort s) as (o & s' & E & Hs & Ho). rewrite (bind_run _ _ _ _ _ E).
  eexists _, _. split; [done|]. split; [done|]. destruct Ho as [[-> Hf]| ->]; [by left|right].
  rewrite (ssz_u32 _ _ _ _ _ Hwf). destruct Hwf as [_ [[] _ _]]. lia.
Qed.

Lemma set_header_run g h s :
  dev_wf s B e1 e2 n → length h = B →
  ∃ r s', gpt_set_header (Some h) g s = Some (r, s') ∧
    (r = -1 ∧ same_disk s s' ∧ ¬ no_fault ∨ r = 0 ∧ wrote s s' (set_hdr B g h (d_data s))).
Proof.
  intros Hwf Hh. unfold gpt_set_header. pose proof (wf_layout _ _ _ _ _ (proj2 Hwf)) as Hl.
  destruct (block_size_run s Hwf) as (b & s1 & E1 & Hs1 & Hb). rewrite (bind_run _ _ _ _ _ E1).
  destruct Hb as [[-> Hf]|[-> Hb]].
  { eexists _, _. split; [done|]. by left. }
  rewrite (proj2 (Z.eqb_neq _ _)) by lia.
  destruct (header_offset_run Hshort g s1 B e1 e2 n (dev_wf_same _ _ _ _ _ _ Hwf Hs1))
    as (off & s2 & E2 & Hs2 & Ho). rewrite (bind_run _ _ _ _ _ E2). rewrite (proj1 Hs1) in Ho.
  assert (same_disk s s2) as Hd2 by by etrans.
  destruct Ho as [[Ho Hf]| ->].
  { rewrite (proj2 (Z.leb_le _ _)) by lia. eexists _, _. split; [done|]. by left. }
  rewrite (proj2 (Z.leb_gt _ _)) by (destruct Hl, g; simpl; lia).
  destruct (blk_write Hshort (hdr_off g B (length (d_data s))) B h s2) as (r & b' & s3 & E3 & Hr);
    [rewrite (proj1 Hd2); by eapply hdr_off_bound|done|apply Hl|].
  rewrite (bind_run _ _ _ _ _ E3). rewrite (proj1 Hd2) in Hr.
  destruct Hr as [(-> & Hs3 & Hf)|(-> & Hw)]; cbn [Z.eqb negb]; eexists _, _; (split; [done|]).
  - left. split; [done|]. split; [by etrans|done].
  - right. split; [done|]. by eapply same_disk_wrote.
Qed.

Lemma pentries_of_for g h :
  header_for g h → Z.of_nat (ent g) < 2 ^ 63 → Z.of_nat n ≤ MAX_RW_COUNT →
  pentries_of h (Z.of_nat B) = Some (Z.of_nat (ent g), Z.of_nat n).
Proof.
  intros [_ Hf] He Hn.
  destruct (fields_ok_values B (ent g) n h He Hn Hf) as (lba & cnt & m & G1 & G2 & G3 & G4 & G5 & _).
  unfold pentries_of. rewrite G1, G3, G4. cbn [mbind option_bind]. by rewrite G2, G5.
Qed.

Lemma set_pentry_arr_run g h arr s :
  dev_wf s B e1 e2 n → header_for g h → length arr = n →
  ∃ r s', gpt_set_pentry_arr (Some h) (Some arr) s = Some (r, s') ∧
    (r = -1 ∧ same_disk s s' ∧ ¬ no_fault ∨ r = 0 ∧ wrote s s' (put_arr g arr (d_data s))).
Proof.
  intros Hwf Hh Ha. unfold gpt_set_pentry_arr. pose proof (wf_layout _ _ _ _ _ (proj2 Hwf)) as Hl.
  destruct (block_size_run s Hwf) as (b & s1 & E1 & Hs1 & Hb). rewrite (bind_run _ _ _ _ _ E1).
  destruct Hb as [[-> Hf]|[-> Hb]].
  { eexists _, _. split; [done|]. by left. }
  rewrite (proj2 (Z.eqb_neq _ _)) by lia.
  destruct (ent_bound _ (proj2 Hwf) g) as [_ Hbe]. pose proof (lay_len _ _ _ _ _ Hl).
  rewrite (pentries_of_for g) by (done || (apply Hl) || lia). cbn [lift bind].
  rewrite i64_offset by lia.
  destruct (blk_write Hshort (ent g) n arr s1) as (r & b' & s3 & E3 & Hr);
    [rewrite (proj1 Hs1); lia|done|apply Hl|].
  rewrite (bind_run _ _ _ _ _ E3). rewrite (proj1 Hs1) in Hr.
  destruct Hr as [(-> & Hs3 & Hf)|(-> & Hw)]; cbn [Z.eqb negb]; eexists _, _; (split; [done|]).
  - left. split; [done|]. split; [by etrans|done].
  - right. split; [done|]. by eapply same_disk_wrote.
Qed.

Lemma get_pentry_arr_run g h s :
  dev_wf s B e1 e2 n → header_for g h →
  ∃ o s', gpt_get_pentry_arr (Some h) s = Some (o, s') ∧ same_disk s s' ∧
    (o = None ∧ ¬ no_fault ∨ o = Some (table_of g (d_data s))).
Proof.
  intros Hwf Hh. unfold gpt_get_pentry_arr. pose proof (wf_layout _ _ _ _ _ (proj2 Hwf)) as Hl.
  destruct (block_size_run s Hwf) as (b & s1 & E1 & Hs1 & Hb). rewrite (bind_run _ _ _ _ _ E1).
  destruct Hb as [[-> Hf]|[-> Hb]].
  { eexists _, _. split; [done|]. split; [done|]. by left. }
  rewrite (proj2 (Z.eqb_neq _ _)) by lia.
  destruct (ent_bound _ (proj2 Hwf) g) as [_ Hbe]. pose proof (lay_len _ _ _ _ _ Hl).
  rewrite (pentries_of_for g) by (done || (apply Hl) || lia). cbn [lift bind].
  destruct (calloc_run Hshort (Z.of_nat n) s1) as (p & s2 & E2 & Hs2 & Hp).
  rewrite (bind_run _ _ _ _ _ E2). assert (same_disk s s2) as Hd2 by by etrans.
  destruct Hp as [[-> Hf]|(buf & -> & Hlb)].
  { eexists _, _. split; [done|]. split; [done|]. by left. }
  rewrite Nat2Z.id in Hlb. rewrite i64_offset by lia.
  destruct (blk_read Hshort (ent g) n buf s2) as (r & b' & s3 & E3 & Hs3 & Hr);
    [rewrite (proj1 Hd2); lia|done|apply Hl|].
  rewrite (bind_run _ _ _ _ _ E3). rewrite (proj1 Hd2) in Hr.
  assert (same_disk s s3) as Hd3 by by etrans.
  destruct Hr as [[-> Hf]|[-> ->]]; cbn [Z.eqb negb]; eexists _, _; (split; [done|]);
    (split; [done|]); [by left|by right].
Qed.

Lemma read_header_block_run g s :
  dev_wf s B e1 e2 n →
  ∃ o s', read_header_block g s = Some (o, s') ∧ same_disk s s' ∧
    (o = None ∧ ¬ no_fault ∨ o = Some (hdr g B (d_data s))).
Proof.
  intros Hwf. unfold read_header_block. pose proof (wf_layout _ _ _ _ _ (proj2 Hwf)) as Hl.
  destruct (block_size_run s Hwf) as (b & s1 & E1 & Hs1 & Hb). rewrite (bind_run _ _ _ _ _ E1).
  destruct Hb as [[-> Hf]|[-> Hb]].
  { eexists _, _. split; [done|]. split; [done|]. by left. }
  rewrite (proj2 (Z.eqb_neq _ _)) by lia.
  destruct (malloc_run Hshort (Z.of_nat B) s1) as (p & s2 & E2 & Hs2 & Hp).
  rewrite (bind_run _ _ _ _ _ E2). assert (same_disk s s2) as Hd2 by by etrans.
  destruct (header_offset_run Hshort g s2 B e1 e2 n (dev_wf_same _ _ _ _ _ _ Hwf Hd2))
    as (off & s3 & E3 & Hs3 & Ho). rewrite (bind_run _ _ _ _ _ E3). rewrite (proj1 Hd2) in Ho.
  assert (same_disk s s3) as Hd3 by by etrans.
  destruct Ho as [[Ho Hf]| ->].
  { rewrite (proj2 (Z.ltb_lt _ _)) by lia. eexists _, _. split; [done|]. split; [done|]. by left. }
  rewrite (proj2 (Z.ltb_ge _ _)) by lia. pose proof (hdr_off_bound g _ _ _ _ _ Hl) as Hbo.
  destruct Hp as [[-> Hf]|(buf & -> & Hlb)].
  - destruct (lseek64_set_run Hshort (hdr_off g B (length (d_data s))) s3) as (p & s4 & E4 & Hs4 & _);
      [rewrite (proj1 Hd3); lia|].
    rewrite (bind_run _ _ _ _ _ E4). eexists _, _. split; [done|]. split; [by etrans|]. by left.
  - rewrite Nat2Z.id in Hlb.
    destruct (blk_read Hshort (hdr_off g B (length (d_data s))) B buf s3) as (r & b' & s4 & E4 & Hs4 & Hr);
      [rewrite (proj1 Hd3); lia|done|apply Hl|].
    rewrite (bind_run _ _ _ _ _ E4). rewrite (proj1 Hd3) in Hr.
    assert (same_disk s s4) as Hd4 by by etrans.
    destruct Hr as [[-> Hf]|[-> ->]]; cbn [Z.eqb negb]; eexists _, _; (split; [done|]);
      (split; [done|]); [by left|by right].
Qed.

End device.

(** ** Writing everything back *)

(** A run that leaves the way the device was opened alone. *)
Definition steady {A} (m : D A) : Prop :=
  ∀ s a s', m s = Some (a, s') → d_dsync s' = d_dsync s.

Lemma steady_ret {A} (a : A) : steady (ret a).
Proof. by intros s b s' [= _ <-]. Qed.
Lemma steady_lift {A} (o : option A) : steady (lift o).
Proof. intros s b s'. unfold lift. destruct o; [|done]. by intros [= _ <-]. Qed.
Lemma steady_bind {A A'} (m : D A) (f : A → D A') :
  steady m → (∀ a, steady (f a)) → steady (bind m f).
Proof.
  intros Hm Hf s b s'. unfold bind. destruct (m s) as [[a s1]|] eqn:E; [|done]. intros E'.
  by rewrite (Hf _ _ _ _ E'), (Hm _ _ _ E).
Qed.

Section steady.
Context `{Kernel}.

Ltac steady_call :=
  intros s r s'; unfold bind, syscall, ret; cbv zeta; repeat case_match;
  intros; simplify_eq; done.

Lemma steady_ioctl : steady ioctl_BLKSSZGET.
Proof. unfold ioctl_BLKSSZGET. steady_call. Qed.
Lemma steady_lseek_end : steady lseek64_end.
Proof. unfold lseek64_end. steady_call. Qed.
Lemma steady_lseek_set off : steady (lseek64_set off).
Proof. unfold lseek64_set. steady_call. Qed.
Lemma steady_read buf len : steady (sys_read buf len).
Proof. unfold sys_read. steady_call. Qed.
Lemma steady_write buf len : steady (sys_write buf len).
Proof. unfold sys_write. steady_call. Qed.

Ltac steady :=
  repeat first [ apply steady_ret | apply steady_lift | apply steady_ioctl
               | apply steady_lseek_end | apply steady_lseek_set | apply steady_read
               | apply steady_write | apply steady_bind; [|intros ?] | case_match ].

Lemma steady_set_header h g : steady (gpt_set_header h g).
Proof. unfold gpt_set_header, gpt_get_block_size, blk_rw. steady. Qed.
Lemma steady_set_pentry_arr h a : steady (gpt_set_pentry_arr h a).
Proof. unfold gpt_set_pentry_arr, gpt_get_block_size, blk_rw. steady. Qed.

End steady.

Definition bootable data : Prop := gpt_wf B data e1 e2 n ∧ ∃ g, usable g data.

(** The device was opened with [O_DSYNC] and every version it had since its first
    [k] writes is bootable, each being one write away from the one before. *)
Record bootable_since (k : nat) (d : dev) : Prop := BootableSince {
  bs_ssz : d_ssz d = Z.of_nat B;
  bs_dsync : d_dsync d = true;
  bs_k : (k ≤ length (d_images d))%nat;
  bs_all : Forall bootable (since k d);
  bs_one : Sorted (λ new old, one_write B e1 e2 n old new) (since k d);
}.

Lemma bootable_since_wf k d : bootable_since k d → dev_wf d B e1 e2 n.
Proof.
  intros [Hz _ _ Hi _]. split; [done|]. unfold since, images in Hi. cbn [take] in Hi.
  by apply Forall_cons in Hi as [[? _] _].
Qed.

Lemma bootable_since_cut k d c : bootable_since k d → power_cut B k d c → ∃ g, usable g c.
Proof.
  intros [_ Hs _ Hi Ho]. unfold power_cut. rewrite Hs. by apply (in_order_cut _ _ _ _ bootable).
Qed.

Lemma bootable_since_same k d d' :
  same_disk d d' → d_dsync d' = d_dsync d → bootable_since k d → bootable_since k d'.
Proof.
  intros (E1 & E2 & E3) E4 [H1 H2 H3 H4 H5].
  assert (since k d' = since k d) as E by (unfold since, images; by rewrite E1, E2).
  split; rewrite ?E, ?E2, ?E4; congruence || done.
Qed.

Lemma bootable_since_wrote k d d' l :
  wrote d d' l → d_dsync d' = d_dsync d → one_write B e1 e2 n (d_data d) l → bootable l →
  bootable_since k d → bootable_since k d'.
Proof.
  intros (E1 & E2 & E3) E4 Ho Hl [H1 H2 H3 H4 H5].
  assert (since k d' = l :: since k d) as E.
  { unfold since, images. rewrite E1, E2. cbn [length].
    by replace (S (S (length (d_images d)) - k))%nat with (S (S (length (d_images d) - k))) by lia. }
  split; rewrite ?E, ?E2, ?E4; cbn [length]; try congruence; [lia|by constructor|].
  constructor; [done|]. unfold since, images. cbn [take]. by constructor.
Qed.

Section commit.
Context `{Env} (path : string) (devs : gmap string dev) (k : nat).
Hypothesis Hshort : @no_short (kern path).

(** The world is [devs] but for the device [path], which was bootable at every
    moment since its first [k] writes and holds bytes satisfying [φ]. *)
Definition Holds (φ : list Z → Prop) (w : world) : Prop :=
  ∃ d, w_devs w = <[path := d]> devs ∧ bootable_since k d ∧ φ (d_data d).

Lemma write_step φ (ψ : list Z → Prop) (m : D Z) f :
  steady m →
  (∀ s, dev_wf s B e1 e2 n → ∃ r s', m s = Some (r, s') ∧
     (r = -1 ∧ same_disk s s' ∧ ¬ @no_fault (kern path) ∨
      r = 0 ∧ wrote s s' (f (d_data s)))) →
  (∀ data, gpt_wf B data e1 e2 n → φ data →
     one_write B e1 e2 n data (f data) ∧ bootable (f data) ∧ ψ (f data)) →
  triple (Holds φ) (on_dev path m) (λ r w,
    r = 0 ∧ Holds ψ w ∨ r = -1 ∧ ¬ @no_fault (kern path) ∧ Holds (λ _, True) w).
Proof.
  intros Hst Hm Hf w (d & Hw & Hb & Hφ). pose proof (bootable_since_wf k d Hb) as Hwf.
  destruct (Hm d Hwf) as (r & d' & E & Hr).
  unfold on_dev. rewrite Hw, lookup_insert_eq, E. eexists _, _. split; [done|].
  unfold Holds. cbn [w_devs]. rewrite insert_insert_eq. pose proof (Hst _ _ _ E) as Hds.
  destruct Hr as [(-> & Hs & Hn)|(-> & Hs)]; pose proof Hs as (Hd1 & _).
  - right. split; [done|]. split; [done|]. exists d'. split; [done|]. split; [|done].
    by eapply bootable_since_same.
  - left. split; [done|]. exists d'. split; [done|].
    destruct (Hf (d_data d)) as (Ho & H1 & H2); [apply Hwf|done|].
    split; [|by rewrite Hd1]. by eapply bootable_since_wrote.
Qed.

Context (h a hb b : list Z).
Hypothesis Ht : table_for PRIMARY_GPT h a.
Hypothesis Htb : table_for SECONDARY_GPT hb b.

(** What the device holds after each of the four writes. *)
Definition after_1 data : Prop := hdr PRIMARY_GPT B data = h ∧ usable SECONDARY_GPT data.
Definition after_2 data : Prop := hdr PRIMARY_GPT B data = h ∧ table_of PRIMARY_GPT data = a.
Definition after_3 data : Prop := after_2 data ∧ hdr SECONDARY_GPT B data = hb.
Definition after_4 data : Prop := after_3 data ∧ table_of SECONDARY_GPT data = b.

Lemma after_2_usable data : after_2 data → usable PRIMARY_GPT data.
Proof.
  intros [E1 E2]. destruct Ht as (_ & _ & Hs & Hv).
  split; [unfold state_of; by rewrite E1|]. unfold table_valid. by rewrite E1, E2.
Qed.

Lemma write_1 data :
  gpt_wf B data e1 e2 n → usable SECONDARY_GPT data →
  one_write B e1 e2 n data (set_hdr B PRIMARY_GPT h data) ∧
  bootable (set_hdr B PRIMARY_GPT h data) ∧ after_1 (set_hdr B PRIMARY_GPT h data).
Proof.
  intros Hwf [Hs Hv]. destruct Ht as ([Hl Hf] & _).
  assert (usable SECONDARY_GPT (set_hdr B PRIMARY_GPT h data)) as Hu.
  { split.
    - unfold state_of in *. by rewrite (hdr_set _ _ _ _ _ Hwf) by done.
    - unfold table_valid in *. by rewrite (hdr_set _ _ _ _ _ Hwf), (table_of_set _ _ _ _ _ Hwf) by done. }
  split; [by eapply header_write|].
  split; [split; [by apply wf_set_for|eauto]|]. split; [|done].
  by rewrite (hdr_set _ _ _ _ _ Hwf).
Qed.

Lemma write_2 data :
  gpt_wf B data e1 e2 n → after_1 data →
  one_write B e1 e2 n data (put_arr PRIMARY_GPT a data) ∧
  bootable (put_arr PRIMARY_GPT a data) ∧ after_2 (put_arr PRIMARY_GPT a data).
Proof.
  intros Hwf [E Hu]. destruct Ht as (_ & Hl & _).
  assert (after_2 (put_arr PRIMARY_GPT a data)) as Ha.
  { split; [by rewrite hdr_put|]. by rewrite table_put. }
  split; [by eapply (entries_write _ _ _ _ _ _ PRIMARY_GPT)|]. split; [|done]. split; [by apply wf_put|]. eexists. by apply after_2_usable.
Qed.

Lemma write_3 data :
  gpt_wf B data e1 e2 n → after_2 data →
  one_write B e1 e2 n data (set_hdr B SECONDARY_GPT hb data) ∧
  bootable (set_hdr B SECONDARY_GPT hb data) ∧ after_3 (set_hdr B SECONDARY_GPT hb data).
Proof.
  intros Hwf [E1 E2]. destruct Htb as ([Hl Hf] & _).
  assert (after_2 (set_hdr B SECONDARY_GPT hb data)) as Ha.
  { split; [by rewrite (hdr_set _ _ _ _ _ Hwf)|by rewrite (table_of_set _ _ _ _ _ Hwf)]. }
  split; [by eapply header_write|].
  split; [split; [by apply wf_set_for|eexists; by apply after_2_usable]|]. split; [done|].
  by rewrite (hdr_set _ _ _ _ _ Hwf).
Qed.

Lemma write_4 data :
  gpt_wf B data e1 e2 n → after_3 data →
  one_write B e1 e2 n data (put_arr SECONDARY_GPT b data) ∧
  bootable (put_arr SECONDARY_GPT b data) ∧ after_4 (put_arr SECONDARY_GPT b data).
Proof.
  intros Hwf [[E1 E2] E3]. destruct Htb as (_ & Hl & _).
  assert (after_3 (put_arr SECONDARY_GPT b data)) as Ha.
  { split; [split|]; by rewrite ?hdr_put, ?table_put. }
  split; [by eapply (entries_write _ _ _ _ _ _ SECONDARY_GPT); [|apply after_2_usable|]|].
  split; [|split; [done|by rewrite table_put]].
  split; [by apply wf_put|]. eexists. apply after_2_usable, Ha.
Qed.

(** The postcondition of the code from some write on. *)
Definition committed (r : Z) (w : world) : Prop :=
  r = 0 ∧ Holds after_4 w ∨ r = -1 ∧ ¬ @no_fault (kern path) ∧ Holds (λ _, True) w.

(** One guarded write: go on with [k], or fail. *)
Lemma commit_step φ ψ m f rest :
  steady m →
  (∀ s, dev_wf s B e1 e2 n → ∃ r s', m s = Some (r, s') ∧
     (r = -1 ∧ same_disk s s' ∧ ¬ @no_fault (kern path) ∨
      r = 0 ∧ wrote s s' (f (d_data s)))) →
  (∀ data, gpt_wf B data e1 e2 n → φ data →
     one_write B e1 e2 n data (f data) ∧ bootable (f data) ∧ ψ (f data)) →
  triple (Holds ψ) rest committed →
  triple (Holds φ) (let* r := on_dev path m in if negb (r =? 0) then ret (-1) else rest) committed.
Proof.
  intros Hst Hm Hf Hk. eapply triple_bind; [by apply (write_step φ ψ m f)|].
  intros r w [[-> Hw]|(-> & Hn & Hw)]; cbn [Z.eqb negb].
  - by apply Hk.
  - eexists _, _. split; [done|]. right. done.
Qed.

Lemma commit_writes disk :
  dk_is_initialized disk = GPT_DISK_INIT_MAGIC → dk_devpath disk = path →
  dk_hdr disk = Some h → dk_hdr_bak disk = Some hb →
  dk_pentry_arr disk = Some a → dk_pentry_arr_bak disk = Some b → fs_open path = true →
  triple (λ w, ∃ d, w_devs w = <[path := d]> devs ∧ dev_wf d B e1 e2 n ∧
                 length (d_images d) = k ∧ usable SECONDARY_GPT (d_data d))
    (gpt_disk_commit disk) committed.
Proof.
  intros Hi Hp E1 E2 E3 E4 Ho. unfold gpt_disk_commit. rewrite Hi, Hp, E1, E2, E3, E4, Z.eqb_refl.
  cbn [negb]. pose proof Ht as (Hh & Hla & _). pose proof Htb as (Hhb & Hlb & _).
  eapply triple_bind with (R := λ ok w, ok = true ∧ Holds (usable SECONDARY_GPT) w).
  { intros w (d & Hw & [Hz Hwf] & Hk & Hu). unfold open_dev. rewrite Hw, lookup_insert_eq, Ho.
    eexists _, _. split; [done|]. split; [done|]. exists (set_open (Z.lor O_RDWR O_DSYNC) d).
    cbn [w_devs]. rewrite insert_insert_eq. split; [done|]. split; [|done]. subst k.
    assert (since (length (d_images d)) (set_open (Z.lor O_RDWR O_DSYNC) d) = [d_data d]) as Es
      by exact (since_synced (set_open (Z.lor O_RDWR O_DSYNC) d)).
    split; rewrite ?Es; [done|done|done| |by repeat constructor].
    constructor; [|done]. split; [done|]. by exists SECONDARY_GPT. }
  intros ok w [-> Hw]. cbn [negb]. revert w Hw.
  eapply commit_step; [apply steady_set_header|intros; apply (set_header_run Hshort); [done|apply Hh]|apply write_1|].
  eapply commit_step; [apply steady_set_pentry_arr|intros; by apply (set_pentry_arr_run Hshort PRIMARY_GPT)|apply write_2|].
  eapply commit_step; [apply steady_set_header|intros; apply (set_header_run Hshort); [done|apply Hhb]|apply write_3|].
  eapply commit_step; [apply steady_set_pentry_arr|intros; by apply (set_pentry_arr_run Hshort SECONDARY_GPT)|apply write_4|].
  apply triple_ret. intros w Hw. by left.
Qed.

End commit.

(** ** Loading *)

(** The CRC of the bytes of a header as they are, its CRC field included. *)
Definition stored_crc (h : list Z) : Z :=
  crc32 crc32_zero (slice h 0 (Z.to_nat (header_size h))).
(** The CRC of the entries a header carries. *)
Definition entries_crc (h : list Z) : Z := default 0 (GET_4_BYTES h PARTITION_CRC_OFFSET).

Section load.
Context `{Env} (dev path : string).
Hypothesis Hpath : get_dev_path_from_partition_name dev "" = Some path.
Hypothesis Hopen : fs_open path = true.
Hypothesis Hok : @no_fault (kern path).

(** Opening a device and reading from it leaves the world's other devices and
    the bytes alone. *)
Lemma get_header_ok g w d :
  w_devs w !! path = Some d → dev_wf d B e1 e2 n →
  ∃ w' d', gpt_get_header dev g w = Some (Some (hdr g B (d_data d)), w') ∧
    updated w path d' w' ∧ same_disk d d'.
Proof.
  intros Hd Hwf. unfold gpt_get_header. rewrite Hpath. unfold open_dev, bind. rewrite Hd, Hopen.
  cbn [negb]. assert (dev_wf (set_open O_RDWR d) B e1 e2 n) as Hwf0 by exact Hwf.
  destruct (read_header_block_run (no_fault_short Hok) g _ Hwf0) as (o & d' & E & Hs & Ho).
  destruct Ho as [[_ Hf]| ->]; [done|].
  destruct (on_dev_updated w path (set_open O_RDWR d) (World (<[path:=set_open O_RDWR d]> (w_devs w)) (w_bsg w))
    _ _ d' eq_refl E) as (w' & E' & Hu). exists w', d'. split; [exact E'|].
  split; [done|]. destruct Hs as (? & ? & ?). by split.
Qed.

Lemma load_arrays_ok w d disk h hb :
  w_devs w !! path = Some d → dev_wf d B e1 e2 n →
  dk_devpath disk = path → dk_hdr disk = Some h → dk_hdr_bak disk = Some hb →
  header_for PRIMARY_GPT h → header_for SECONDARY_GPT hb → header_sized h → header_sized hb →
  ∃ disk' w' d', load_arrays disk h hb w = Some ((0, disk'), w') ∧
    updated w path d' w' ∧ same_disk d d' ∧
    disk' = GptDisk (Some h) (dk_hdr_crc disk) (Some hb) (dk_hdr_bak_crc disk)
              (Some (table_of PRIMARY_GPT (d_data d))) (Some (table_of SECONDARY_GPT (d_data d)))
              (Z.of_nat n) (Z.of_nat PTN_ENTRY_SIZE) (entries_crc h) (entries_crc hb)
              path (Z.of_nat B) GPT_DISK_INIT_MAGIC.
Proof.
  intros Hd Hwf Hp Eh Ehb Hh Hhb Hs Hsb. unfold load_arrays, entries_crc. rewrite Hp, Eh.
  pose proof (wf_layout _ _ _ _ _ (proj2 Hwf)) as Hl. pose proof (no_fault_short Hok) as Hshort.
  unfold open_dev, bind at 1. rewrite Hd, Hopen. cbn [negb].
  set (d0 := set_open O_RDWR d). set (w0 := World (<[path:=d0]> (w_devs w)) (w_bsg w)).
  assert (updated w path d0 w0) as Hu0 by done.
  assert (dev_wf d0 B e1 e2 n) as Hwf0 by exact Hwf.
  destruct (get_pentry_arr_run Hshort PRIMARY_GPT h d0 Hwf0 Hh) as (o & d1 & E1 & Hs1 & [[_ Hf]| ->]);
    [done|].
  destruct (on_dev_updated _ _ _ _ _ _ _ Hu0 E1) as (w1 & E1' & Hu1).
  rewrite (bind_run _ _ _ _ _ E1'). cbn [dk_hdr_bak set_arr]. rewrite Ehb.
  pose proof (dev_wf_same _ _ _ _ _ _ Hwf0 Hs1) as Hwf1.
  destruct (get_pentry_arr_run Hshort SECONDARY_GPT hb d1 Hwf1 Hhb) as (o & d2 & E2 & Hs2 & [[_ Hf]| ->]);
    [done|].
  destruct (on_dev_updated _ _ _ _ _ _ _ Hu1 E2) as (w2 & E2' & Hu2).
  rewrite (bind_run _ _ _ _ _ E2'). rewrite (proj1 Hs1) in *. cbn [d0 set_open d_data] in *.
  pose proof (dev_wf_same _ _ _ _ _ _ Hwf1 Hs2) as Hwf2.
  destruct (fields_ok_values B e1 n h) as (lba & cnt & m & _ & _ & G3 & G4 & G5 & _);
    [destruct Hl; lia|apply Hl|apply Hh|]. rewrite G3, G4. cbn [lift bind].
  destruct (GET_4_is_Some h PARTITION_CRC_OFFSET) as [c1 ->]; [apply Hs|].
  destruct (GET_4_is_Some hb PARTITION_CRC_OFFSET) as [c2 ->]; [apply Hsb|]. cbn [lift bind].
  destruct (block_size_run Hshort d2 Hwf2) as (bs & d3 & E3 & Hs3 & [[_ Hf]|[-> _]]); [done|].
  destruct (on_dev_updated _ _ _ _ _ _ _ Hu2 E3) as (w3 & E3' & Hu3).
  rewrite (bind_run _ _ _ _ _ E3'). eexists _, w3, d3. split; [done|]. split; [done|].
  split; [by etrans; [exact Hs1|]; etrans|].
  cbn [set_arr set_arr_bak dk_hdr dk_hdr_bak dk_hdr_crc dk_hdr_bak_crc default]. by rewrite G5, Eh, Ehb.
Qed.

Lemma load_ok w d :
  w_devs w !! path = Some d → dev_wf d B e1 e2 n →
  header_size (hdr PRIMARY_GPT B (d_data d)) = header_size (hdr SECONDARY_GPT B (d_data d)) →
  ∃ disk w' d', gpt_disk_get_disk_info dev gpt_disk_alloc w = Some ((0, disk), w') ∧
    updated w path d' w' ∧ same_disk d d' ∧
    disk = GptDisk
             (Some (hdr PRIMARY_GPT B (d_data d))) (stored_crc (hdr PRIMARY_GPT B (d_data d)))
             (Some (hdr SECONDARY_GPT B (d_data d))) (stored_crc (hdr SECONDARY_GPT B (d_data d)))
             (Some (table_of PRIMARY_GPT (d_data d))) (Some (table_of SECONDARY_GPT (d_data d)))
             (Z.of_nat n) (Z.of_nat PTN_ENTRY_SIZE)
             (entries_crc (hdr PRIMARY_GPT B (d_data d)))
             (entries_crc (hdr SECONDARY_GPT B (d_data d)))
             path (Z.of_nat B) GPT_DISK_INIT_MAGIC.
Proof.
  intros Hd Hwf Hsz. unfold gpt_disk_get_disk_info.
  pose proof (wf_layout _ _ _ _ _ (proj2 Hwf)) as Hl.
  destruct (get_header_ok PRIMARY_GPT w d Hd Hwf) as (w1 & d1 & E1 & Hu1 & Hs1).
  rewrite (bind_run _ _ _ _ _ E1). set (h := hdr PRIMARY_GPT B (d_data d)) in *.
  pose proof (wf_sized PRIMARY_GPT _ _ _ _ _ (proj2 Hwf)) as Hsh.
  pose proof (wf_sized SECONDARY_GPT _ _ _ _ _ (proj2 Hwf)) as Hshb.
  destruct (header_sized_size h Hsh) as [Hg Hgs].
  rewrite Hg. cbn [lift bind]. rewrite rd_Some by lia. cbn [lift bind].
  assert (w_devs w1 !! path = Some d1) as Hd1 by (rewrite Hu1; apply lookup_insert_eq).
  pose proof (dev_wf_same _ _ _ _ _ _ Hwf Hs1) as Hwf1.
  destruct (get_header_ok SECONDARY_GPT w1 d1 Hd1 Hwf1) as (w2 & d2 & E2 & Hu2 & Hs2).
  rewrite (bind_run _ _ _ _ _ E2). rewrite (proj1 Hs1) in *.
  set (hb := hdr SECONDARY_GPT B (d_data d)) in *.
  destruct (header_sized_size hb Hshb) as [_ Hgsb].
  rewrite rd_Some by (rewrite Hsz; lia). cbn [lift bind].
  match goal with |- context [get_dev_path_from_partition_name dev ?b] =>
    change b with ""%string end. rewrite Hpath.
  assert (w_devs w2 !! path = Some d2) as Hd2 by (rewrite Hu2; apply lookup_insert_eq).
  assert (same_disk d d2) as Hs02 by by etrans.
  pose proof (dev_wf_same _ _ _ _ _ _ Hwf Hs02) as Hwf2.
  match goal with |- context [load_arrays ?x h hb w2] =>
    destruct (load_arrays_ok w2 d2 x h hb) as (disk & w3 & d3 & E3 & Hu3 & Hs3 & Hld) end.
  all: try done. 
  1,2: split; [by apply length_hdr_wf with (1 := proj2 Hwf)|apply Hwf].
  exists disk, w3, d3. rewrite (proj1 Hs02) in Hld. split; [exact E3|]. split.
  { unfold updated in *. by rewrite Hu3, Hu2, Hu1, !insert_insert_eq. }
  split; [by etrans|]. rewrite Hld. cbn [dk_hdr_crc dk_hdr_bak_crc set_primary set_secondary set_devpath].
  unfold stored_crc. by rewrite !(wrapu_small 32), Hsz by apply crc32_range.
Qed.

End load.

Section theorems.
Context `{Env} (dev path : string) (disk : gpt_disk) (h hb a b : list Z).

(** The structure can be written to the device it came from: it is loaded for
    [path] and both its tables are good. *)
Definition committable : Prop :=
  disk_loaded disk h hb a b ∧ dk_devpath disk = path ∧
  table_for PRIMARY_GPT h a ∧ table_for SECONDARY_GPT hb b.

(** C4. Writing a [gpt_disk] back is failsafe.  Let the structure hold good tables,
    let the device be well formed with a usable SECONDARY table already on the
    medium, and let no transfer be cut short.  Then, whatever calls fail,
    [gpt_disk_commit] ends, and a power cut during it (or right after it) leaves
    a usable table on the medium, because the device is opened with [O_DSYNC];
    no other device changes, and the result is 0 with both headers and both
    arrays on the device being those of the structure, or -1, which takes a
    failing call. *)
Theorem commit_failsafe (w : world) (d : Kernel.dev)
    (Hshort : @no_short (kern path)) (Hopen : fs_open path = true) (Hc : committable)
    (Hd : w_devs w !! path = Some d) (Hwf : dev_wf d B e1 e2 n)
    (Hu : usable SECONDARY_GPT (d_data d)) :
  ∃ r w' d', gpt_disk_commit disk w = Some (r, w') ∧ w_devs w' = <[path := d']> (w_devs w) ∧
    (∀ c, power_cut B (length (d_images d)) d' c → ∃ g, usable g c) ∧
    (r = -1 ∧ ¬ @no_fault (kern path) ∨
     r = 0 ∧ hdr PRIMARY_GPT B (d_data d') = h ∧ table_of PRIMARY_GPT (d_data d') = a ∧
     hdr SECONDARY_GPT B (d_data d') = hb ∧ table_of SECONDARY_GPT (d_data d') = b).
Proof.
  destruct Hc as ([Hi E1 E2 E3 E4 _ _ _ _ _] & Hp & Ht & Htb).
  destruct (commit_writes path (w_devs w) (length (d_images d)) Hshort h a hb b Ht Htb disk
    Hi Hp E1 E2 E3 E4 Hopen w) as (r & w' & E & Hr).
  { exists d. by rewrite insert_id. }
  destruct Hr as [[-> (d' & Hw & Hbd & [[E5 E6] E7] & E8)]|(-> & Hn & d' & Hw & Hbd & _)].
  all: eexists _, w', d'; (split; [done|]); (split; [done|]); split;
    [intros c; by apply bootable_since_cut|].
  - right. done.
  - by left.
Qed.

(** The sizes and the CRCs of the arrays are what loading and then
    [gpt_disk_update_crc] leave. *)
Record settled : Prop := Settled {
  st_pentry_size : dk_pentry_size disk = Z.of_nat PTN_ENTRY_SIZE;
  st_arr_crc : dk_pentry_arr_crc disk = crc32 crc32_zero a;
  st_arr_bak_crc : dk_pentry_arr_bak_crc disk = crc32 crc32_zero b;
  st_block_size : dk_block_size disk = Z.of_nat B;
}.

(** C24. Commit and load are inverse but for the header CRCs: after a
    [gpt_disk_commit] without failing calls, [gpt_disk_get_disk_info] on a fresh
    structure returns 0 and gives the very structure committed, every member of
    it, except [hdr_crc] and [hdr_bak_crc]: those are the CRCs of the headers
    as stored, CRC field included, not the CRCs stored in them. *)
Theorem commit_load_roundtrip (w : world) (d : Kernel.dev)
    (Hpath : get_dev_path_from_partition_name dev "" = Some path)
    (Hok : @no_fault (kern path)) (Hopen : fs_open path = true) (Hc : committable)
    (Hset : settled) (Hd : w_devs w !! path = Some d) (Hwf : dev_wf d B e1 e2 n)
    (Hu : usable SECONDARY_GPT (d_data d)) :
  ∃ w1 w2, gpt_disk_commit disk w = Some (0, w1) ∧
    gpt_disk_get_disk_info dev gpt_disk_alloc w1 =
      Some ((0, set_primary (Some h) (stored_crc h)
                  (set_secondary (Some hb) (stored_crc hb) disk)), w2).
Proof.
  pose proof (no_fault_short Hok) as Hshort.
  destruct Hc as ([Hi E1 E2 E3 E4 _ _ Hsz Hl _] & Hp & Ht & Htb), Hset as [S1 S2 S3 S4].
  destruct (commit_writes path (w_devs w) (length (d_images d)) Hshort h a hb b Ht Htb disk
    Hi Hp E1 E2 E3 E4 Hopen w) as (r & w1 & E & Hr).
  { exists d. by rewrite insert_id. }
  destruct Hr as [[-> (d1 & Hw & Hb1 & [[E5 E6] E7] & E8)]|(_ & Hn & _)]; [|done].
  destruct (load_ok dev path Hpath Hopen Hok w1 d1) as (disk' & w2 & d2 & El & _ & _ & Hld).
  { rewrite Hw. apply lookup_insert_eq. } { by eapply bootable_since_wf. } { by rewrite E5, E7. }
  exists w1, w2. split; [done|]. rewrite El, Hld, E5, E6, E7, E8. unfold entries_crc.
  destruct Ht as (_ & Hla & _ & ->), Htb as (_ & _ & _ & ->). cbn [default].
  rewrite <- S1, <- S2, <- S3, <- S4, <- Hp, <- Hi, <- Hla, Hl. destruct disk. cbn in *. by subst.
Qed.

(** Looking a partition up in a loaded disk returns the offset of the first
    entry of the chosen table that carries the name or its backup twin, NULL
    when there is none, and NULL when the structure is not initialised. *)
Theorem disk_get_pentry_first (ptn : string) (g : gpt_instance) (es : list (list Z))
    (Hptn : nonzero (bytes ptn)) (Hd : disk_loaded disk h hb a b)
    (Hsz : dk_pentry_size disk = Z.of_nat PTN_ENTRY_SIZE) (Hes : Forall entry_ok es)
    (Ha : match g with PRIMARY_GPT => a | SECONDARY_GPT => b end = concat es) :
  gpt_disk_get_pentry disk (cstring ptn) g = Some (Nat.mul PTN_ENTRY_SIZE <$> find_from 0 ptn es) ∧
  (∀ i, find_from 0 ptn es = Some i → ∃ e, es !! i = Some e ∧ ptn_match ptn e ∧
     ∀ j e', (j < i)%nat → es !! j = Some e' → ¬ ptn_match ptn e') ∧
  (∀ disk', dk_is_initialized disk' ≠ GPT_DISK_INIT_MAGIC →
     gpt_disk_get_pentry disk' (cstring ptn) g = Some None).
Proof.
  destruct Hd as [Hi _ _ E3 E4 _ _ _ Hl Hlb]. split; [|split].
  - unfold gpt_disk_get_pentry. rewrite Hi, Z.eqb_refl. cbn [negb].
    assert (match g with PRIMARY_GPT => dk_pentry_arr disk | SECONDARY_GPT => dk_pentry_arr_bak disk end
            = Some (concat es)) as -> by (destruct g; by rewrite ?E3, ?E4, Ha).
    cbn [mbind option_bind]. rewrite Hsz, Nat2Z.id.
    assert (dk_pentry_arr_size disk = Z.of_nat (PTN_ENTRY_SIZE * length es)) as ->.
    { rewrite <- length_concat_entries, <- Ha by done. destruct g; congruence. }
    rewrite Nat2Z.id. pose proof (seek_refines ptn es 0 Hptn Hes (Nat.le_0_l _)) as Hs.
    by rewrite Nat.mul_0_r in Hs.
  - intros i Hf. apply find_from_Some in Hf as (_ & e & He & Hm & Hj). exists e.
    split; [done|]. split; [done|]. intros j e' Hlt. apply Hj. lia.
  - intros disk' Hn. unfold gpt_disk_get_pentry. rewrite (proj2 (Z.eqb_neq _ _)) by done. done.
Qed.

End theorems.
End tables.

(** ** The partition map *)

Section partition_map.
Context `{Env}.

(** The partitions of a list that are on the device [path]. *)
Definition on_path (path : string) (ptns : list string) : list string :=
  filter (λ p, get_dev_path_from_partition_name p "" = Some path) ptns.

Lemma map_partition_lookup m ptn path :
  map_partition m ptn !! path =
    if decide (get_dev_path_from_partition_name ptn "" = Some path)
    then Some (default [] (m !! path) ++ [ptn]) else m !! path.
Proof.
  unfold map_partition. destruct (get_dev_path_from_partition_name ptn "") as [p|].
  2:{ by rewrite decide_False. }
  destruct (decide (Some p = Some path)) as [[= ->]|Hne].
  - destruct (m !! path) as [ps|]; by rewrite lookup_insert_eq.
  - assert (p ≠ path) by congruence. destruct (m !! p); by rewrite lookup_insert_ne.
Qed.

(** [gpt_utils_get_partition_map] on a non-empty list returns 0 and maps each
    device path to exactly the partitions of the list that are on it, in the
    order of the list, after those the map already had; a partition that
    cannot be resolved is left out, and a path without partitions gets no
    entry.  On an empty list it returns -1 and leaves the map alone. *)
Theorem partition_map_groups (ptns : list string) (m : gmap string (list string)) :
  gpt_utils_get_partition_map ptns m =
    (if decide (ptns = []) then -1 else 0, (gpt_utils_get_partition_map ptns m).2) ∧
  ∀ path, (gpt_utils_get_partition_map ptns m).2 !! path =
    if decide (on_path path ptns = []) then m !! path
    else Some (default [] (m !! path) ++ on_path path ptns).
Proof.
  assert (∀ ptns m path, fold_left map_partition ptns m !! path =
    if decide (on_path path ptns = []) then m !! path
    else Some (default [] (m !! path) ++ on_path path ptns)) as Hf.
  { clear. induction ptns as [|p ptns IH]; intros m path; cbn [fold_left].
    { by rewrite decide_True. }
    rewrite IH, map_partition_lookup. unfold on_path. rewrite filter_cons.
    destruct (decide (get_dev_path_from_partition_name p "" = Some path)) as [Hp|Hp]; [|done].
    rewrite (decide_False (P := p :: _ = [])) by done. cbn [default].
    destruct (decide (filter _ ptns = [])) as [->|Hn]; [done|]. cbn [from_option id].
    by rewrite <- app_assoc. }
  unfold gpt_utils_get_partition_map. destruct ptns as [|p ptns].
  - split; [done|]. intros path. by rewrite decide_True.
  - change (length (p :: ptns) <? 1)%nat with false. cbn [snd].
    split; [by rewrite decide_False|]. intros path. apply Hf.
Qed.

End partition_map.

(** ** Concrete disks *)

(** The disk of [sample_dev] with its boot chain swapped in both tables. *)
Definition new_table : list Z := swapped false sample_table.
Definition sample_gpt_disk : gpt_disk :=
  GptDisk (Some (mk_header 2 new_table)) 0 (Some (mk_header 5 new_table)) 0
    (Some new_table) (Some new_table) 1024 128 (crc32 crc32_zero new_table)
    (crc32 crc32_zero new_table) BLK_DEV_FILE 512 GPT_DISK_INIT_MAGIC.

Lemma sample_loaded :
  disk_loaded sample_gpt_disk (mk_header 2 new_table) (mk_header 5 new_table) new_table new_table.
Proof.
  split; try reflexivity; try (vm_compute; reflexivity).
  - split; [vm_compute; lia|]. exists 92. split; [vm_compute; reflexivity|vm_compute; done].
  - split; [vm_compute; lia|]. exists 92. split; [vm_compute; reflexivity|vm_compute; done].
Qed.

Lemma sample_committable :
  committable 512 1024 2560 1024 BLK_DEV_FILE sample_gpt_disk (mk_header 2 new_table)
    (mk_header 5 new_table) new_table new_table.
Proof.
  split; [apply sample_loaded|]. split; [reflexivity|]. split.
  - split; [split; [vm_compute; reflexivity|]|split; [|split]; vm_compute; reflexivity].
    exists 92, 2, 8. split; [vm_compute; reflexivity|]. vm_compute. done.
  - split; [split; [vm_compute; reflexivity|]|split; [|split]; vm_compute; reflexivity].
    exists 92, 5, 8. split; [vm_compute; reflexivity|]. vm_compute. done.
Qed.

Lemma update_crc_consistent_witness :
  ∃ disk' h' hb', gpt_disk_update_crc sample_gpt_disk = Some (0, disk') ∧
    disk_loaded disk' h' hb' new_table new_table ∧ entries_valid h' new_table.
Proof.
  destruct (update_crc_consistent sample_gpt_disk _ _ _ _ sample_loaded)
    as (disk' & h' & hb' & E & Hl & _ & _ & _ & Hv & _).
  exists disk', h', hb'. split; [exact E|]. split; [exact Hl|exact Hv].
Defined.

Lemma commit_failsafe_witness :
  ∃ r w' d', @gpt_disk_commit (emmc dying) sample_gpt_disk (sample_world BLK_DEV_FILE)
               = Some (r, w') ∧ w_devs w' !! BLK_DEV_FILE = Some d' ∧
    ∀ c, power_cut 512 0 d' c → ∃ g, usable 512 1024 2560 1024 g c.
Proof.
  destruct (@commit_failsafe zlib 512 1024 2560 1024 (emmc dying) BLK_DEV_FILE sample_gpt_disk
    (mk_header 2 new_table) (mk_header 5 new_table) new_table new_table
    (sample_world BLK_DEV_FILE) sample_dev) as (r & w' & d' & E & Hw & Hi & _).
  - intros k m. unfold kern, emmc, sys, dying. destruct (Nat.ltb 20 k); discriminate.
  - reflexivity.
  - exact sample_committable.
  - apply sample_lookup.
  - exact sample_dev_wf.
  - apply (sample_usable SECONDARY_GPT).
  - exists r, w', d'. split; [exact E|]. split; [|exact Hi].
    rewrite Hw. apply lookup_insert_eq.
Defined.

Lemma commit_load_roundtrip_witness :
  ∃ w1 disk' w2, @gpt_disk_commit (emmc quiet) sample_gpt_disk (sample_world BLK_DEV_FILE)
                   = Some (0, w1) ∧
    @gpt_disk_get_disk_info (emmc quiet) _ "tz" gpt_disk_alloc w1 = Some ((0, disk'), w2) ∧
    dk_pentry_arr disk' = Some new_table.
Proof.
  destruct (@commit_load_roundtrip zlib _ 512 1024 2560 1024 (emmc quiet) "tz" BLK_DEV_FILE
    sample_gpt_disk (mk_header 2 new_table) (mk_header 5 new_table) new_table new_table
    (sample_world BLK_DEV_FILE) sample_dev) as (w1 & w2 & E1 & E2).
  - vm_compute. reflexivity.
  - exact quiet_no_fault.
  - reflexivity.
  - exact sample_committable.
  - split; reflexivity.
  - apply sample_lookup.
  - exact sample_dev_wf.
  - apply (sample_usable SECONDARY_GPT).
  - eexists w1, _, w2. split; [exact E1|]. split; [exact E2|]. reflexivity.
Defined.

Lemma disk_get_pentry_first_witness :
  gpt_disk_get_pentry sample_gpt_disk (cstring "xbl") SECONDARY_GPT = Some (Some 128%nat).
Proof.
  assert (Forall entry_ok (entries new_table) ∧ concat (entries new_table) = new_table)
    as [Hok Hc].
  { destruct (entries_ok 8 new_table) as (H1 & _ & H2); [vm_compute; reflexivity|].
    exact (conj H1 H2). }
  destruct (@disk_get_pentry_first sample_gpt_disk (mk_header 2 new_table)
    (mk_header 5 new_table) new_table new_table "xbl" SECONDARY_GPT (entries new_table))
    as [E _].
  - apply (bool_decide_unpack _). vm_compute. done.
  - exact sample_loaded.
  - reflexivity.
  - exact Hok.
  - symmetry. exact Hc.
  - refine (eq_trans E _). vm_compute. reflexivity.
Defined.

End Disk.
