(* ===== verification/GptOwn.v ===== *)
(** * GptOwn: who owns the memory and the descriptors of gpt-utils
      (gpt-utils/gpt-utils.cpp: every [malloc], [calloc], [free], [open],
      [close], [opendir] and [closedir])

    [GptHeader], [GptUpdate] and [GptDisk] model what the functions read and
    write and leave the release of memory and descriptors out.  Here the same
    functions are written again over a state that also has a [ledger]: the
    addresses [malloc] returned that are not freed yet and the descriptors that
    are open.  Freeing or closing what is not in the ledger is undefined
    ([None]).  The relation [sim] says two things at once of such a function:
    it computes exactly what its counterpart without a ledger computes, for
    every schedule of faults, and what it does to the ledger.  The ledger also
    counts the calls of [gpt_set_state] that succeeded ([marked]), which no
    function reads: the leak of [prepare_partitions] is stated with it. *)

From S2P Require Import Prelude Kernel GptBytes GptTable GptHeader UfsBsg GptUpdate.
From S2P Require Import GptFailsafe GptDisk.

Module Own.
Import Table Header Ufs Update Failsafe Disk.

(** ** The ledger *)

Record ledger := Ledger {
  live : gset nat;        (* blocks allocated and not freed *)
  opened : gset nat;      (* descriptors and directory streams not closed *)
  nxt : nat;              (* the next address or descriptor handed out *)
  marked : nat;           (* ghost: the calls of [gpt_set_state] that returned 0 *)
}.

(** Nothing handed out is at or above [nxt]. *)
Definition lwf (l : ledger) : Prop :=
  (∀ x, x ∈ live l → (x < nxt l)%nat) ∧ (∀ x, x ∈ opened l → (x < nxt l)%nat).

Definition no_resource : ledger := Ledger ∅ ∅ 0 0.

Definition take_block (l : ledger) : ledger :=
  Ledger ({[nxt l]} ∪ live l) (opened l) (S (nxt l)) (marked l).
Definition take_fd (l : ledger) : ledger :=
  Ledger (live l) ({[nxt l]} ∪ opened l) (S (nxt l)) (marked l).

Definition add_mark (l : ledger) : ledger :=
  Ledger (live l) (opened l) (nxt l) (S (marked l)).

(** State [S] with a ledger beside it. *)
Abbreviation R S := (M (S * ledger)%type).

Section monad.
Context {S : Type}.

(** Code that touches no resource. *)
Definition up {A} (m : M S A) : R S A := λ '(s, l),
  match m s with None => None | Some (a, s') => Some (a, (s', l)) end.

(** Code that only touches the ledger. *)
Definition local {A} (f : ledger → option (A * ledger)) : R S A := λ '(s, l),
  match f l with None => None | Some (a, l') => Some (a, (s, l')) end.

Definition free (p : nat) : R S unit := local (λ l,
  if decide (p ∈ live l) then Some (tt, Ledger (live l ∖ {[p]}) (opened l) (nxt l) (marked l)) else None).

(** [if (p) free(p);] *)
Definition free_opt (p : option nat) : R S unit :=
  match p with None => ret tt | Some p => free p end.

(** A header was marked. *)
Definition mark : R S unit := local (λ l, Some (tt, add_mark l)).

Definition new_fd : R S nat := local (λ l, Some (nxt l, take_fd l)).

(** [close] and [closedir] *)
Definition close_fd (fd : nat) : R S unit := local (λ l,
  if decide (fd ∈ opened l) then Some (tt, Ledger (live l) (opened l ∖ {[fd]}) (nxt l) (marked l)) else None).

(** An allocation: the address goes with the block. *)
Definition with_address {A} (m : M S (option A)) : R S (option (nat * A)) := λ '(s, l),
  match m s with
  | None => None
  | Some (None, s') => Some (None, (s', l))
  | Some (Some a, s') => Some (Some (nxt l, a), (s', take_block l))
  end.
End monad.

(** ** The functions on one open device *)

Section code.
Context `{Kernel} `{Zlib}.

(** How [gpt_get_state] and [gpt_set_state] begin; from the [malloc] on, an
    error frees the block. *)
Definition read_header_r {A} (gpt : gpt_instance) (error : A)
    (k : Z → Z → nat * list Z → R dev A) : R dev A :=
  let* b := up ioctl_BLKSSZGET in
  match b with
  | None => ret error
  | Some blk_size =>
  let* h := with_address (malloc blk_size) in
  match h with
  | None => ret error
  | Some (p, gpt_header) =>
  let* gpt_header_offset := up
    match gpt with
    | PRIMARY_GPT => ret blk_size
    | SECONDARY_GPT => let* e := lseek64_end in ret (e - blk_size)
    end in
  if gpt_header_offset <? 0 then free p ;; ret error else
  let* (r, gpt_header) := up (blk_rw false gpt_header_offset gpt_header blk_size) in
  if negb (r =? 0) then free p ;; ret error
  else k blk_size gpt_header_offset (p, gpt_header)
  end end.

Definition gpt_get_state_r (gpt : gpt_instance) : R dev (Z * gpt_state) :=
  read_header_r gpt (-1, GPT_OK) (λ _ _ '(p, gpt_header),
    let* state := lift (header_state gpt_header) in
    free p ;; ret (0, state)).

(** The last [return 0] does not go through [error]: nothing frees the block. *)
Definition gpt_set_state_r (gpt : gpt_instance) (state : gpt_state) : R dev Z :=
  read_header_r gpt (-1) (λ blk_size gpt_header_offset '(p, gpt_header),
    let* o := lift (set_signature state gpt_header) in
    match o with
    | None => free p ;; ret (-1)
    | Some gpt_header =>
    let* gpt_header_size := lift (GET_4_BYTES gpt_header HEADER_SIZE_OFFSET) in
    let* gpt_header := lift (put_header_crc gpt_header gpt_header_size) in
    let* (r, _) := up (blk_rw true gpt_header_offset gpt_header blk_size) in
    if negb (r =? 0) then free p ;; ret (-1) else ret 0
    end).

(** A call of [gpt_set_state], counted when it returns 0. *)
Definition gpt_set_state_counted (gpt : gpt_instance) (state : gpt_state) : R dev Z :=
  let* r := gpt_set_state_r gpt state in
  (if r =? 0 then mark else ret tt) ;; ret r.

(** The label [EXIT] of [gpt2_set_boot_chain]. *)
Definition chain_exit (gpt_header pentries : option nat) (r : Z) : R dev Z :=
  free_opt gpt_header ;; free_opt pentries ;; ret r.

Definition gpt2_set_boot_chain_r (is_ufs : bool) (boot : boot_chain) : R dev Z :=
  let* b := up ioctl_BLKSSZGET in
  match b with
  | None => chain_exit None None (-1)
  | Some blk_size =>
  let* h := with_address (malloc blk_size) in
  match h with
  | None => chain_exit None None (-1)
  | Some (hp, gpt_header) =>
  let* e := up lseek64_end in
  let gpt2_header_offset := e - blk_size in
  if gpt2_header_offset <? 0 then chain_exit (Some hp) None (-1) else
  let* (r, gpt_header) := up (blk_rw false blk_size gpt_header blk_size) in
  if negb (r =? 0) then chain_exit (Some hp) None r else
  let* lba := lift (GET_8_BYTES gpt_header PENTRIES_OFFSET) in
  let pentries_start_offset := u64 (lba * blk_size) in
  let* pentry_size := lift (GET_4_BYTES gpt_header PENTRY_SIZE_OFFSET) in
  let* count := lift (GET_4_BYTES gpt_header PARTITION_COUNT_OFFSET) in
  let pentries_array_size := u32 (count * pentry_size) in
  let* p := with_address (calloc pentries_array_size) in
  match p with
  | None => chain_exit (Some hp) None (-1)
  | Some (pp, pentries) =>
  let* (r, pentries) :=
    up (blk_rw false (i64 pentries_start_offset) pentries pentries_array_size) in
  if negb (r =? 0) then chain_exit (Some hp) (Some pp) r else
  let* covered := lift (rd pentries 0 (Z.to_nat pentries_array_size)) in
  let crc := u32 (crc32 crc32_zero covered) in
  let* stored := lift (GET_4_BYTES gpt_header PARTITION_CRC_OFFSET) in
  if negb (stored =? crc) then chain_exit (Some hp) (Some pp) (-1) else
  let* r := up (chain_secondary is_ufs boot blk_size gpt2_header_offset gpt_header pentry_size
                  pentries pentries_array_size) in
  chain_exit (Some hp) (Some pp) r
  end end end.

(** [gpt_get_header] once the device is open: whether it succeeds and the block. *)
Definition read_header_block_r (instance : gpt_instance)
    : R dev (bool * option (nat * list Z)) :=
  let* block_size := up gpt_get_block_size in
  if block_size =? 0 then ret (false, None) else
  let* h := with_address (malloc block_size) in
  let* hdr_offset := up
    match instance with
    | PRIMARY_GPT => ret block_size
    | SECONDARY_GPT => let* e := lseek64_end in ret (e - block_size)
    end in
  if hdr_offset <? 0 then ret (false, h) else
  match h with
  | None => let* _ := up (lseek64_set hdr_offset) in ret (false, None)
  | Some (p, hdr) =>
  let* (r, hdr) := up (blk_rw false hdr_offset hdr block_size) in
  if negb (r =? 0) then ret (false, Some (p, hdr)) else ret (true, Some (p, hdr))
  end.

Definition gpt_get_pentry_arr_r (hdr : option (list Z)) : R dev (option (nat * list Z)) :=
  match hdr with
  | None => ret None
  | Some hdr =>
  let* block_size := up gpt_get_block_size in
  if block_size =? 0 then ret None else
  let* (pentries_start, pentries_arr_size) := lift (pentries_of hdr block_size) in
  let* p := with_address (calloc pentries_arr_size) in
  match p with
  | None => ret None
  | Some (p, pentry_arr) =>
  let* (rc, pentry_arr) := up (blk_rw false (i64 pentries_start) pentry_arr pentries_arr_size) in
  if negb (rc =? 0) then free p ;; ret None else ret (Some (p, pentry_arr))
  end end.

End code.

(** ** The functions that open devices *)

Definition on_dev_r {A} (path : string) (m : R dev A) : R world A := λ '(w, l),
  match w_devs w !! path with
  | None => None
  | Some d =>
      match m (d, l) with
      | None => None
      | Some (a, (d', l')) => Some (a, (World (<[path := d']> (w_devs w)) (w_bsg w), l'))
      end
  end.

Section files.
Context `{Env} `{Zlib}.

(** [open]: a descriptor, or [None] for a negative result. *)
Definition open_r (flags : Z) (path : string) : R world (option nat) :=
  let* ok := up (open_dev flags path) in
  if ok : bool then let* fd := new_fd in ret (Some fd) else ret None.

(** [get_scsi_node_from_bootdevice]: the stream [opendir] returns is closed on
    both ways out. *)
Definition get_scsi_node_from_bootdevice_r (bootdev_path : string) : R world (option string) :=
  match fs_readlink bootdev_path with
  | None => ret None
  | Some real_path =>
      if (String.length real_path <? PATH_TRUNCATE_LOC + 1)%nat then ret None else
      let real_path := String.substring 0 PATH_TRUNCATE_LOC real_path in
      if (String.length real_path <? LUN_NAME_START_LOC + 1)%nat then ret None else
      let lun := String.substring LUN_NAME_START_LOC
                   (String.length real_path - LUN_NAME_START_LOC) real_path in
      match fs_dir ("/sys/block/" ++ lun ++ "/device/scsi_generic")%string with
      | None => ret None
      | Some names =>
          let* scsi_dir := new_fd in
          match find_sg names with
          | None => close_fd scsi_dir ;; ret None
          | Some d => close_fd scsi_dir ;; ret (Some ("/dev/" ++ d)%string)
          end
      end
  end.

(** [gpt_utils_set_xbl_boot_partition] *)
Definition set_xbl_boot_partition_r (chain : boot_chain) : R world Z :=
  let sel :=
    match chain with
    | BACKUP_BOOT =>
        (BOOT_LUN_B_ID,
         if fs_stat XBL_BACKUP then Some XBL_BACKUP
         else if fs_stat XBL_AB_SECONDARY then Some XBL_AB_SECONDARY else None)
    | NORMAL_BOOT =>
        (BOOT_LUN_A_ID,
         if fs_stat XBL_PRIMARY then Some XBL_PRIMARY
         else if fs_stat XBL_AB_PRIMARY then Some XBL_AB_PRIMARY else None)
    end in
  let '(boot_lun_id, boot_dev) := sel in
  match boot_dev with
  | None => ret (-1)
  | Some boot_dev =>
  if (negb (fs_stat XBL_PRIMARY) || negb (fs_stat XBL_BACKUP)) &&
     (negb (fs_stat XBL_AB_PRIMARY) || negb (fs_stat XBL_AB_SECONDARY)) then ret (-1) else
  let* node := get_scsi_node_from_bootdevice_r boot_dev in
  match node with
  | None => ret (-1)
  | Some _ =>
  let* r := up (on_bsg (set_boot_lun boot_lun_id)) in
  if negb (r =? 0) then ret (-1) else ret 0
  end end.

Definition switch_boot_lun_r (chain : boot_chain) : R world Z :=
  if gpt_utils_is_ufs_device then
    if negb (fs_stat XBL_PRIMARY) || negb (fs_stat XBL_BACKUP) then ret 0
    else set_xbl_boot_partition_r chain
  else ret 0.

Definition run_stage_r (stage : boot_update_stage) (path : string) : R world Z :=
  let K := kern path in
  match stage with
  | UPDATE_MAIN =>
      let* r := switch_boot_lun_r BACKUP_BOOT in
      if negb (r =? 0) then ret r else
      let* r := on_dev_r path (gpt2_set_boot_chain_r gpt_utils_is_ufs_device BACKUP_BOOT) in
      if negb (r =? 0) then ret (if r <? 0 then r else 0) else
      on_dev_r path (gpt_set_state_counted PRIMARY_GPT GPT_BAD_SIGNATURE)
  | UPDATE_BACKUP =>
      let* r := switch_boot_lun_r NORMAL_BOOT in
      if negb (r =? 0) then ret r else
      let* r := on_dev_r path (gpt_set_state_counted PRIMARY_GPT GPT_OK) in
      if negb (r =? 0) then ret r else
      on_dev_r path (gpt_set_state_counted SECONDARY_GPT GPT_BAD_SIGNATURE)
  | UPDATE_FINALIZE =>
      let* r := on_dev_r path (gpt2_set_boot_chain_r gpt_utils_is_ufs_device NORMAL_BOOT) in
      if r <? 0 then ret r else
      on_dev_r path (gpt_set_state_counted SECONDARY_GPT GPT_OK)
  end.

(** [prepare_partitions] between [open] and the label [EXIT]. *)
Definition prepare_open_r (stage : boot_update_stage) (path : string) : R world Z :=
  let K := kern path in
  let* (r, gpt_prim) := on_dev_r path (gpt_get_state_r PRIMARY_GPT) in
  if negb (r =? 0) then ret 1 else
  let* (r, gpt_second) := on_dev_r path (gpt_get_state_r SECONDARY_GPT) in
  if negb (r =? 0) then ret 1 else
  match internal_stage gpt_prim gpt_second with
  | None => ret (-1)
  | Some internal =>
      if stage_int stage =? stage_int internal - 1 then ret 0
      else if negb (stage_int stage =? stage_int internal) then ret (-1)
      else run_stage_r stage path
  end.

Definition prepare_partitions_r (stage : boot_update_stage) (dev_path : option string)
    : R world Z :=
  match dev_path with
  | None => ret (-1)
  | Some path =>
  let* f := open_r O_RDWR path in
  match f with
  | None => ret (-1)
  | Some fd =>
  let* r := prepare_open_r stage path in
  close_fd fd ;; ret r
  end end.

(** The error exit closes the descriptor before it frees the block. *)
Definition gpt_get_header_r (partname : string) (instance : gpt_instance)
    : R world (option (nat * list Z)) :=
  match get_dev_path_from_partition_name partname "" with
  | None => ret None
  | Some devpath =>
  let K := kern devpath in
  let* f := open_r O_RDWR devpath in
  match f with
  | None => ret None
  | Some fd =>
  let* (ok, hdr) := on_dev_r devpath (read_header_block_r instance) in
  close_fd fd ;;
  if ok : bool then ret hdr else free_opt (fst <$> hdr) ;; ret None
  end end.

(** ** The gpt_disk handle *)

(** A [struct gpt_disk] in memory: its own address, the addresses its pointer
    members hold, and its contents with the buffers they point to. *)
Record handle := Handle {
  h_self : nat;
  h_hdr : option nat;
  h_hdr_bak : option nat;
  h_arr : option nat;
  h_arr_bak : option nat;
  h_disk : gpt_disk;
}.

(** [malloc(sizeof(struct gpt_disk))] succeeds or not. *)
Context (mem : nat → bool).

Definition gpt_disk_alloc_r : R world (option handle) :=
  local (λ l, if mem (nxt l)
              then Some (Some (Handle (nxt l) None None None None gpt_disk_alloc), take_block l)
              else Some (None, l)).

Definition gpt_disk_free (disk : option handle) : R world unit :=
  match disk with
  | None => ret tt
  | Some disk =>
      free_opt (h_hdr disk) ;;
      free_opt (h_hdr_bak disk) ;;
      free_opt (h_arr disk) ;;
      free_opt (h_arr_bak disk) ;;
      free (h_self disk) ;;
      ret tt
  end.

Definition load_arrays_r (k : handle) (hdr hdr_bak : list Z) : R world (Z * handle) :=
  let disk := h_disk k in
  let devpath := dk_devpath disk in
  let K := kern devpath in
  let* f := open_r O_RDWR devpath in
  match f with
  | None => ret (-1, k)
  | Some fd =>
  let* a := on_dev_r devpath (gpt_get_pentry_arr_r (dk_hdr disk)) in
  let disk := set_arr (snd <$> a) disk in
  let k := Handle (h_self k) (h_hdr k) (h_hdr_bak k) (fst <$> a) (h_arr_bak k) disk in
  match a with
  | None => close_fd fd ;; ret (-1, k)
  | Some _ =>
  let* b := on_dev_r devpath (gpt_get_pentry_arr_r (dk_hdr_bak disk)) in
  let disk := set_arr_bak (snd <$> b) disk in
  let k := Handle (h_self k) (h_hdr k) (h_hdr_bak k) (h_arr k) (fst <$> b) disk in
  match b with
  | None => close_fd fd ;; ret (-1, k)
  | Some _ =>
  let* pentry_size := lift (GET_4_BYTES hdr PENTRY_SIZE_OFFSET) in
  let* count := lift (GET_4_BYTES hdr PARTITION_COUNT_OFFSET) in
  let* pentry_arr_crc := lift (GET_4_BYTES hdr PARTITION_CRC_OFFSET) in
  let* pentry_arr_bak_crc := lift (GET_4_BYTES hdr_bak PARTITION_CRC_OFFSET) in
  let* block_size := on_dev_r devpath (up gpt_get_block_size) in
  close_fd fd ;;
  ret (0, Handle (h_self k) (h_hdr k) (h_hdr_bak k) (h_arr k) (h_arr_bak k)
            (GptDisk (dk_hdr disk) (dk_hdr_crc disk) (dk_hdr_bak disk) (dk_hdr_bak_crc disk)
               (dk_pentry_arr disk) (dk_pentry_arr_bak disk)
               (u32 (count * pentry_size)) pentry_size
               pentry_arr_crc pentry_arr_bak_crc devpath block_size GPT_DISK_INIT_MAGIC))
  end end end.

(** [gpt_disk_get_disk_info]: each pointer member is overwritten by the result
    of the call that fills it, whatever it held. *)
Definition gpt_disk_get_disk_info_r (dev : string) (k : handle) : R world (Z * handle) :=
  let* h := gpt_get_header_r dev PRIMARY_GPT in
  let disk := set_primary (snd <$> h) (dk_hdr_crc (h_disk k)) (h_disk k) in
  let k := Handle (h_self k) (fst <$> h) (h_hdr_bak k) (h_arr k) (h_arr_bak k) disk in
  match h with
  | None => ret (-1, k)
  | Some (p, hdr) =>
  let* gpt_header_size := lift (GET_4_BYTES hdr HEADER_SIZE_OFFSET) in
  let* covered := lift (rd hdr 0 (Z.to_nat gpt_header_size)) in
  let disk := set_primary (Some hdr) (u32 (crc32 crc32_zero covered)) disk in
  let* hb := gpt_get_header_r dev SECONDARY_GPT in
  let disk := set_secondary (snd <$> hb) (dk_hdr_bak_crc disk) disk in
  let k := Handle (h_self k) (h_hdr k) (fst <$> hb) (h_arr k) (h_arr_bak k) disk in
  match hb with
  | None => ret (-1, k)
  | Some (_, hdr_bak) =>
  let* covered := lift (rd hdr_bak 0 (Z.to_nat gpt_header_size)) in
  let disk := set_secondary (Some hdr_bak) (u32 (crc32 crc32_zero covered)) disk in
  let k := Handle (h_self k) (h_hdr k) (h_hdr_bak k) (h_arr k) (h_arr_bak k) disk in
  match get_dev_path_from_partition_name dev (dk_devpath disk) with
  | None => ret (-1, k)
  | Some devpath =>
      load_arrays_r (Handle (h_self k) (h_hdr k) (h_hdr_bak k) (h_arr k) (h_arr_bak k)
                       (set_devpath devpath disk)) hdr hdr_bak
  end end end.

Definition gpt_disk_update_crc_r (k : handle) : R world (Z * handle) :=
  let* (r, disk) := lift (gpt_disk_update_crc (h_disk k)) in
  ret (r, Handle (h_self k) (h_hdr k) (h_hdr_bak k) (h_arr k) (h_arr_bak k) disk).

(** [gpt_disk_commit] between [open] and [close]. *)
Definition commit_open_r (disk : gpt_disk) : R world Z :=
  let path := dk_devpath disk in
  let K := kern path in
  let* r := on_dev_r path (up (gpt_set_header (dk_hdr disk) PRIMARY_GPT)) in
  if negb (r =? 0) then ret (-1) else
  let* r := on_dev_r path (up (gpt_set_pentry_arr (dk_hdr disk) (dk_pentry_arr disk))) in
  if negb (r =? 0) then ret (-1) else
  let* r := on_dev_r path (up (gpt_set_header (dk_hdr_bak disk) SECONDARY_GPT)) in
  if negb (r =? 0) then ret (-1) else
  let* r := on_dev_r path (up (gpt_set_pentry_arr (dk_hdr_bak disk) (dk_pentry_arr_bak disk))) in
  if negb (r =? 0) then ret (-1) else ret 0.

Definition gpt_disk_commit_r (k : handle) : R world Z :=
  let disk := h_disk k in
  if negb (dk_is_initialized disk =? GPT_DISK_INIT_MAGIC) then ret (-1) else
  let* f := open_r (Z.lor O_RDWR O_DSYNC) (dk_devpath disk) in
  match f with
  | None => ret (-1)
  | Some fd => let* r := commit_open_r disk in close_fd fd ;; ret r
  end.

End files.

(** ** What a run adds to the ledger *)

(** From [l] to [l'] the blocks of [X] and the descriptors of [F] were added,
    nothing else changed hands, and [n] headers were marked. *)
Record delta (X F : gset nat) (n : nat) (l l' : ledger) : Prop := Delta {
  dl_wf : lwf l';
  dl_nxt : (nxt l ≤ nxt l')%nat;
  dl_live : live l' = X ∪ live l;
  dl_new : X ## live l;
  dl_opened : opened l' = F ∪ opened l;
  dl_new_fd : F ## opened l;
  dl_marked : marked l' = (n + marked l)%nat;
}.

Lemma delta_refl l : lwf l → delta ∅ ∅ 0 l l.
Proof. intros Hl. split; [done|lia|set_solver..|done]. Qed.

Lemma delta_eq X Y F G n n' l l' :
  delta X F n l l' → X = Y → F = G → n = n' → delta Y G n' l l'.
Proof. by intros ? -> -> ->. Qed.

Lemma delta_trans X F n Y G n' l l1 l2 :
  delta X F n l l1 → delta Y G n' l1 l2 →
  delta (Y ∪ X) (G ∪ F) (n' + n) l l2 ∧ Y ## X ∧ G ## F.
Proof.
  intros [_ ? E1 D1 O1 N1 M1] [W ? E2 D2 O2 N2 M2]. rewrite E1 in *. rewrite O1 in *.
  split; [|set_solver]. split; [done|lia|set_solver..|lia].
Qed.

Lemma delta_take_block X F n l0 l :
  delta X F n l0 l → delta ({[nxt l]} ∪ X) F n l0 (take_block l) ∧ nxt l ∉ X.
Proof.
  intros [[W1 W2] Hn E D O N M].
  assert (nxt l ∉ live l) as Hf by (intros Hx; apply W1 in Hx; lia).
  rewrite E in Hf. split; [|set_solver].
  split; [|simpl; lia|simpl; rewrite E; set_solver|set_solver|done|done|done].
  split; simpl; intros x Hx.
  - apply elem_of_union in Hx as [->%elem_of_singleton|Hx%W1]; lia.
  - apply W2 in Hx. lia.
Qed.

Lemma delta_take_fd X F n l0 l :
  delta X F n l0 l → delta X ({[nxt l]} ∪ F) n l0 (take_fd l) ∧ nxt l ∉ F.
Proof.
  intros [[W1 W2] Hn E D O N M].
  assert (nxt l ∉ opened l) as Hf by (intros Hx; apply W2 in Hx; lia).
  rewrite O in Hf. split; [|set_solver].
  split; [|simpl; lia|done|done|simpl; rewrite O; set_solver|set_solver|done].
  split; simpl; intros x Hx.
  - apply W1 in Hx. lia.
  - apply elem_of_union in Hx as [->%elem_of_singleton|Hx%W2]; lia.
Qed.

Lemma delta_free X F n l0 l p :
  delta X F n l0 l → p ∈ X →
  p ∈ live l ∧
  delta (X ∖ {[p]}) F n l0 (Ledger (live l ∖ {[p]}) (opened l) (nxt l) (marked l)).
Proof.
  intros [[W1 W2] Hn E D O N M] Hp. split; [set_solver|].
  split; [split; simpl; intros x Hx; [apply W1; set_solver|by apply W2]|simpl; lia|
    simpl; rewrite E; set_solver|set_solver|done|done|done].
Qed.

Lemma delta_close X F n l0 l fd :
  delta X F n l0 l → fd ∈ F →
  fd ∈ opened l ∧
  delta X (F ∖ {[fd]}) n l0 (Ledger (live l) (opened l ∖ {[fd]}) (nxt l) (marked l)).
Proof.
  intros [[W1 W2] Hn E D O N M] Hp. split; [set_solver|].
  split; [split; simpl; intros x Hx; [by apply W1|apply W2; set_solver]|simpl; lia|
    done|done|simpl; rewrite O; set_solver|set_solver|done].
Qed.

Lemma delta_mark X F n l0 l : delta X F n l0 l → delta X F (S n) l0 (add_mark l).
Proof. intros [W Hn E D O N M]. split; try done. simpl. lia. Qed.

(** ** The simulation *)

(** From [s] and [l], [m] goes wrong exactly when [m'] does, and otherwise
    reaches the same state and related results. *)
Definition sim {S A B} (m : R S A) (m' : M S B) (s : S) (l : ledger)
    (φ : A → B → ledger → Prop) : Prop :=
  match m' s with
  | None => m (s, l) = None
  | Some (b, s') => ∃ a l', m (s, l) = Some (a, (s', l')) ∧ φ a b l'
  end.

#[local] Arguments sim : simpl never.

Section rules.
Context {S : Type}.
Implicit Types (s : S) (l : ledger).

Lemma sim_ret {A B} (a : A) (b : B) s l (φ : A → B → ledger → Prop) :
  φ a b l → sim (ret a) (ret b) s l φ.
Proof. intros Hφ. exists a, l. done. Qed.

Lemma sim_ret_bind {A B C} (a : A) (k : A → R S B) (m' : M S C) s l φ :
  sim (k a) m' s l φ → sim (bind (ret a) k) m' s l φ.
Proof. done. Qed.

Lemma sim_bind {A B A' B'} (m : R S A) (m' : M S A') (k : A → R S B) (k' : A' → M S B') s l φ :
  sim m m' s l (λ a b l', ∀ s', sim (k a) (k' b) s' l' φ) → sim (bind m k) (bind m' k') s l φ.
Proof.
  unfold sim, bind. destruct (m' s) as [[b s']|]; [|by intros ->].
  intros (a & l' & -> & Hk). exact (Hk s').
Qed.

Lemma sim_up {A} (m : M S A) s l (φ : A → A → ledger → Prop) :
  (∀ a, φ a a l) → sim (up m) m s l φ.
Proof.
  intros Hφ. unfold sim, up. destruct (m s) as [[a s']|]; [|done]. by exists a, l.
Qed.

(** The tail of a function that has something to release. *)
Lemma sim_tail {A B C} (m : R S A) (m' : M S B) (k : A → R S C) s l φ :
  sim m m' s l (λ a b l', ∀ s', sim (k a) (ret b) s' l' φ) → sim (bind m k) m' s l φ.
Proof.
  unfold sim, bind. destruct (m' s) as [[b s']|]; [|by intros ->].
  intros (a & l' & -> & Hk). exact (Hk s').
Qed.

(** A call whose counterpart is a pure function of its arguments. *)
Lemma sim_pure {A B C D} (m : R S A) (b : B) (k : A → R S C) (m' : M S D) s l φ :
  sim m (ret b) s l (λ a b' l', b = b' → sim (k a) m' s l' φ) → sim (bind m k) m' s l φ.
Proof. unfold sim, bind. cbn. intros (a & l' & -> & Hk). exact (Hk eq_refl). Qed.

Lemma sim_lift {A} (o : option A) s l (φ : A → A → ledger → Prop) :
  (∀ a, φ a a l) → sim (lift o) (lift o) s l φ.
Proof. intros Hφ. unfold sim, lift. destruct o as [a|]; [|done]. by exists a, l. Qed.

Lemma sim_mono {A B} (m : R S A) (m' : M S B) s l (φ ψ : A → B → ledger → Prop) :
  sim m m' s l φ → (∀ a b l', φ a b l' → ψ a b l') → sim m m' s l ψ.
Proof.
  unfold sim. destruct (m' s) as [[b s']|]; [|done].
  intros (a & l' & E & Hφ) Hi. exists a, l'. auto.
Qed.

Lemma sim_alloc {A} (m : M S (option A)) s l0 l X F n
    (φ : option (nat * A) → option A → ledger → Prop) :
  delta X F n l0 l →
  φ None None l →
  (∀ p a l', p ∉ X → delta ({[p]} ∪ X) F n l0 l' → φ (Some (p, a)) (Some a) l') →
  sim (with_address m) m s l φ.
Proof.
  intros Hd H0 H1. unfold sim, with_address. destruct (m s) as [[[a|] s']|]; [..|done].
  - destruct (delta_take_block _ _ _ _ _ Hd) as [Hd' Hn]. eauto.
  - eauto.
Qed.

Lemma sim_free {A B} (k : R S A) (m' : M S B) p s l0 l X F n φ :
  delta X F n l0 l → p ∈ X →
  (∀ l', delta (X ∖ {[p]}) F n l0 l' → sim k m' s l' φ) → sim (free p ;; k) m' s l φ.
Proof.
  intros Hd Hp Hk. destruct (delta_free _ _ _ _ _ _ Hd Hp) as [Hl Hd'].
  specialize (Hk _ Hd'). unfold sim, bind, free, local in *.
  rewrite decide_True by done. exact Hk.
Qed.

Lemma sim_close {A B} (k : R S A) (m' : M S B) fd s l0 l X F n φ :
  delta X F n l0 l → fd ∈ F →
  (∀ l', delta X (F ∖ {[fd]}) n l0 l' → sim k m' s l' φ) → sim (close_fd fd ;; k) m' s l φ.
Proof.
  intros Hd Hp Hk. destruct (delta_close _ _ _ _ _ _ Hd Hp) as [Hl Hd'].
  specialize (Hk _ Hd'). unfold sim, bind, close_fd, local in *.
  rewrite decide_True by done. exact Hk.
Qed.

Lemma sim_local {A B C} (f : ledger → option (A * ledger)) a l' (k : A → R S B) (m' : M S C) s l φ :
  f l = Some (a, l') → sim (k a) m' s l' φ → sim (bind (local f) k) m' s l φ.
Proof. intros E Hk. unfold sim, bind, local in *. by rewrite E. Qed.

Lemma sim_new_fd {A B} (k : nat → R S A) (m' : M S B) s l0 l X F n φ :
  delta X F n l0 l →
  (∀ fd l', fd ∉ F → delta X ({[fd]} ∪ F) n l0 l' → sim (k fd) m' s l' φ) →
  sim (bind new_fd k) m' s l φ.
Proof.
  intros Hd Hk. destruct (delta_take_fd _ _ _ _ _ Hd) as [Hd' Hn].
  specialize (Hk _ _ Hn Hd'). exact Hk.
Qed.

(** What a function promises its callers: results and newly owned blocks that
    satisfy [Q], and no descriptor left open. *)
Definition owns {A B} (m : R S A) (m' : M S B) (Q : A → B → gset nat → Prop) : Prop :=
  ∀ s l, lwf l → sim m m' s l (λ a b l', ∃ X, Q a b X ∧ delta X ∅ 0 l l').

(** The same for functions that mark headers: [Q] also says how many. *)
Definition owns_marks {A B} (m : R S A) (m' : M S B) (Q : A → B → gset nat → nat → Prop) : Prop :=
  ∀ s l, lwf l → sim m m' s l (λ a b l', ∃ X n, Q a b X n ∧ delta X ∅ n l l').

Lemma sim_call_marks {A B} (m : R S A) (m' : M S B) Q s l0 l X F n (φ : A → B → ledger → Prop) :
  owns_marks m m' Q → delta X F n l0 l →
  (∀ a b Y n' l', Q a b Y n' → Y ## X → delta (Y ∪ X) F (n' + n) l0 l' → φ a b l') →
  sim m m' s l φ.
Proof.
  intros Ho Hd Hφ. eapply sim_mono; [apply Ho, Hd|].
  intros a b l' (Y & n' & Hr & Hd'). destruct (delta_trans _ _ _ _ _ _ _ _ _ Hd Hd') as (Hd2 & HX & _).
  rewrite (left_id_L ∅ (∪)) in Hd2. eauto.
Qed.

Lemma sim_call {A B} (m : R S A) (m' : M S B) Q s l0 l X F n (φ : A → B → ledger → Prop) :
  owns m m' Q → delta X F n l0 l →
  (∀ a b Y l', Q a b Y → Y ## X → delta (Y ∪ X) F n l0 l' → φ a b l') →
  sim m m' s l φ.
Proof.
  intros Ho Hd Hφ. eapply sim_mono; [apply Ho, Hd|].
  intros a b l' (Y & Hr & Hd'). destruct (delta_trans _ _ _ _ _ _ _ _ _ Hd Hd') as (Hd2 & HX & _).
  rewrite (left_id_L ∅ (∪)) in Hd2. eauto.
Qed.

Lemma sim_free_opt {A B} (k : R S A) (m' : M S B) p s l0 l X F n φ :
  delta X F n l0 l → (∀ q, p = Some q → q ∈ X) →
  (∀ l', delta (X ∖ (from_option singleton ∅ p)) F n l0 l' → sim k m' s l' φ) →
  sim (free_opt p ;; k) m' s l φ.
Proof.
  intros Hd Hp Hk. destruct p as [p|]; simpl in *.
  - eapply sim_free; [done|auto|done].
  - rewrite (difference_empty_L X) in Hk. exact (Hk _ Hd).
Qed.
End rules.

Lemma sim_on_dev {A B} path (m : R dev A) (m' : D B) w l φ :
  (∀ d, sim m m' d l φ) → sim (on_dev_r path m) (on_dev path m') w l φ.
Proof.
  intros Hs. unfold sim, on_dev_r, on_dev in *.
  destruct (w_devs w !! path) as [d|]; [|done]. specialize (Hs d).
  destruct (m' d) as [[b d']|]; [|by rewrite Hs].
  destruct Hs as (a & l' & -> & Hφ). by exists a, l'.
Qed.

Definition gets_nothing {A} (a b : A) (X : gset nat) : Prop := a = b ∧ X = ∅.

Lemma owns_on_dev {A B} path (m : R dev A) (m' : D B) Q :
  owns m m' Q → owns (on_dev_r path m) (on_dev path m') Q.
Proof. intros Ho w l Hl. apply sim_on_dev. intros d. by apply Ho. Qed.

Lemma owns_marks_on_dev {A B} path (m : R dev A) (m' : D B) Q :
  owns_marks m m' Q → owns_marks (on_dev_r path m) (on_dev path m') Q.
Proof. intros Ho w l Hl. apply sim_on_dev. intros d. by apply Ho. Qed.

Lemma owns_up {S A} (m : M S A) : owns (up m) m gets_nothing.
Proof.
  intros s l Hl. apply sim_up. intros a. exists ∅. split; [done|by apply delta_refl].
Qed.

(** One step of a function in both models, with what the ledger gained so far
    in the context. *)
Ltac own_call spec :=
  match goal with
  | Hd : delta _ _ _ _ ?l |- sim _ _ _ ?l _ =>
      first [apply sim_bind | idtac];
      (eapply sim_call; [first [apply spec|apply owns_on_dev, spec]|exact Hd|]); clear Hd; cbv beta;
      intros ? ? ? ? [<- ?] ? ?; intros; try subst
  end.

Ltac own_step :=
  match goal with
  | |- sim (match ?x with _ => _ end) _ _ _ _ => destruct x eqn:?; simplify_eq/=
  | Hd : delta _ _ _ _ ?l |- sim (bind (free _) _) _ _ ?l _ =>
      eapply sim_free; [exact Hd|set_solver|]; clear Hd; intros ? Hd
  | Hd : delta _ _ _ _ ?l |- sim (bind (close_fd _) _) _ _ ?l _ =>
      eapply sim_close; [exact Hd|set_solver|]; clear Hd; intros ? Hd
  | Hd : delta _ _ _ _ ?l |- sim (bind new_fd _) _ _ ?l _ =>
      eapply sim_new_fd; [exact Hd|]; clear Hd; intros ? ? ? Hd
  | |- sim (bind (up _) _) (bind _ _) _ _ _ => apply sim_bind, sim_up; intros
  | |- sim (bind (up _) _) _ _ _ _ => apply sim_tail, sim_up; intros
  | |- sim (bind (lift _) _) (bind _ _) _ _ _ => apply sim_bind, sim_lift; intros
  | Hd : delta _ _ _ _ ?l |- sim (bind (with_address _) _) _ _ ?l _ =>
      apply sim_bind; eapply sim_alloc; [exact Hd|intros|clear Hd; intros]
  | |- sim (bind (ret _) _) (bind (ret _) _) _ _ _ => apply sim_bind, sim_ret; intros
  | |- sim (bind (ret _) _) _ _ _ _ => apply sim_ret_bind
  | |- sim (ret _) (ret _) _ _ _ => apply sim_ret
  end.

Ltac same_delta :=
  match goal with
  | Hd : delta ?X ?F ?n ?l0 ?l |- delta ?Y ?G ?m ?l0 ?l =>
      apply (delta_eq X Y F G n m l0 l Hd); [set_solver|set_solver|lia]
  end.

(** The function returns and owns the blocks of [X]. *)
Ltac own_done X := exists X; split; [|same_delta].

(** The function returns a pointer, or null. *)
Ltac own_pointer :=
  match goal with
  | |- context [Some (?p, _)] => by own_done ({[p]} : gset nat)
  | _ => by own_done (∅ : gset nat)
  end.

Ltac own := repeat (own_step; cbv beta iota zeta).

Section device.
Context `{Kernel} `{Zlib}.

Lemma read_header_own {A} gpt (error : A) k k' (Q : A → A → gset nat → Prop) :
  Q error error ∅ →
  (∀ bs off p h s l0 l, delta {[p]} ∅ 0 l0 l →
    sim (k bs off (p, h)) (k' bs off h) s l (λ a b l', ∃ X, Q a b X ∧ delta X ∅ 0 l0 l')) →
  owns (read_header_r gpt error k) (read_header gpt error k') Q.
Proof.
  intros He Hk s l Hl%delta_refl. unfold read_header_r, read_header. own.
  all: try (by own_done (∅ : gset nat)).
  apply Hk. same_delta.
Qed.

Lemma gpt_get_state_own gpt : owns (gpt_get_state_r gpt) (gpt_get_state gpt) gets_nothing.
Proof.
  apply read_header_own; [done|]. intros bs off p h s l0 l Hl. own. by own_done (∅ : gset nat).
Qed.

(** On success, and only then, one block stays allocated. *)
Definition leaks_on_success (a b : Z) (X : gset nat) : Prop :=
  a = b ∧ size X = (if (a =? 0)%Z then 1 else 0)%nat.

Lemma gpt_set_state_own gpt state :
  owns (gpt_set_state_r gpt state) (gpt_set_state gpt state) leaks_on_success.
Proof.
  apply read_header_own; [done|]. intros bs off p h s l0 l Hl. own.
  1,3: by own_done (∅ : gset nat).
  own_done ({[p]} : gset nat). split; [done|]. apply (size_singleton p).
Qed.

(** The blocks left behind are as many as the headers marked. *)
Definition leaks_marked (φ : Z → nat → Prop) (a b : Z) (X : gset nat) (n : nat) : Prop :=
  a = b ∧ size X = n ∧ φ a n.

Lemma gpt_set_state_counts gpt state :
  owns_marks (gpt_set_state_counted gpt state) (gpt_set_state gpt state)
    (leaks_marked (λ r n, n = if (r =? 0)%Z then 1 else 0)%nat).
Proof.
  intros s l Hl%delta_refl. unfold gpt_set_state_counted. apply sim_tail.
  eapply sim_call; [apply gpt_set_state_own|exact Hl|]. intros a b Y l' [<- HY] _ Hd s'.
  destruct (a =? 0) eqn:Ea.
  - eapply sim_local; [done|]. apply sim_ret. exists Y, 1%nat. apply delta_mark in Hd.
    split; [|same_delta]. unfold leaks_marked. by rewrite Ea.
  - apply sim_ret_bind, sim_ret. exists Y, 0%nat. split; [|same_delta].
    unfold leaks_marked. by rewrite Ea.
Qed.

Lemma gpt2_set_boot_chain_own is_ufs boot :
  owns (gpt2_set_boot_chain_r is_ufs boot) (gpt2_set_boot_chain is_ufs boot) gets_nothing.
Proof.
  intros s l Hl%delta_refl. unfold gpt2_set_boot_chain_r, gpt2_set_boot_chain, chain_exit, free_opt.
  own; by own_done (∅ : gset nat).
Qed.

(** The block a pointer result owns. *)
Definition block {A} (p : option (nat * A)) : gset nat :=
  match p with Some (p, _) => {[p]} | None => ∅ end.

Definition gets_block {A} (a : option (nat * A)) (b : option A) (X : gset nat) : Prop :=
  snd <$> a = b ∧ X = block a.

Lemma read_header_block_own g :
  owns (read_header_block_r g) (read_header_block g)
    (λ '(ok, h) b X, b = (if ok : bool then snd <$> h else None) ∧ X = block h).
Proof.
  intros s l Hl%delta_refl. unfold read_header_block_r, read_header_block. own.
  all: own_pointer.
Qed.

Lemma gpt_get_pentry_arr_own h :
  owns (gpt_get_pentry_arr_r h) (gpt_get_pentry_arr h) gets_block.
Proof.
  intros s l Hl%delta_refl. unfold gpt_get_pentry_arr_r, gpt_get_pentry_arr. own.
  all: own_pointer.
Qed.
End device.

(** ** The functions that open devices *)

Section world.
Context `{Env} `{Zlib}.

Lemma sim_open flags path w l0 l X F n (φ : option nat → bool → ledger → Prop) :
  delta X F n l0 l → φ None false l →
  (∀ fd l', fd ∉ F → delta X ({[fd]} ∪ F) n l0 l' → φ (Some fd) true l') →
  sim (open_r flags path) (open_dev flags path) w l φ.
Proof.
  intros Hd Hf0 Hf1. unfold open_r. apply sim_tail, sim_up. intros [] s'.
  - eapply sim_new_fd; [done|]. intros fd l' Hf Hd'. apply sim_ret. eauto.
  - by apply sim_ret.
Qed.

Lemma get_scsi_node_own path :
  owns (get_scsi_node_from_bootdevice_r path) (ret (get_scsi_node_from_bootdevice path))
    gets_nothing.
Proof.
  intros w l Hl%delta_refl.
  unfold get_scsi_node_from_bootdevice_r, get_scsi_node_from_bootdevice.
  own; by own_done (∅ : gset nat).
Qed.

Lemma switch_boot_lun_own chain :
  owns (switch_boot_lun_r chain) (switch_boot_lun chain) gets_nothing.
Proof.
  intros w l Hl%delta_refl.
  unfold switch_boot_lun_r, switch_boot_lun, set_xbl_boot_partition_r,
    gpt_utils_set_xbl_boot_partition. own.
  all: try by own_done (∅ : gset nat).
  all: eapply sim_pure, sim_call; [apply get_scsi_node_own|exact Hl|];
    intros o ? Y l' [-> ->] _ Hl' <-; own; by own_done (∅ : gset nat).
Qed.

(** How many headers a stage marks, given its result. *)
Definition stage_marks (stage : boot_update_stage) (r : Z) (n : nat) : Prop :=
  match stage with
  | UPDATE_MAIN => (n ≤ 1)%nat ∧ (r ≠ 0 → n = 0%nat)
  | UPDATE_BACKUP => (r = 0 → n = 2%nat) ∧ (r ≠ 0 → (n ≤ 1)%nat)
  | UPDATE_FINALIZE => n = (if (r =? 0)%Z then 1 else 0)%nat
  end.

Lemma size_nothing : size (∅ : gset nat) = 0%nat.
Proof. reflexivity. Qed.

(** The function returns and has leaked the blocks of [X], having marked [n]
    headers. *)
Ltac leak_done X n :=
  exists X, n; split; [|same_delta]; unfold leaks_marked in *; destruct_and?; simplify_eq;
  split; [done|]; split; [rewrite ?size_union by set_solver; done || lia|];
  repeat match goal with
  | H : context [Z.eqb ?a ?b] |- _ => destruct (Z.eqb_spec a b)
  end;
  unfold stage_marks in *; simplify_eq; rewrite ?size_nothing in *;
  split_and?; try done; intros; zcase; simplify_eq; lia.

Ltac own_call_marks spec :=
  match goal with
  | Hd : delta _ _ _ _ ?l |- sim _ _ _ ?l _ =>
      first [apply sim_bind | idtac];
      (eapply sim_call_marks; [first [apply spec|apply owns_marks_on_dev, spec]|exact Hd|]);
      clear Hd; cbv beta; intros ? ? ? ? ? (<- & <- & ?) ? ?; intros; try subst
  end.

Lemma run_stage_own stage path :
  owns_marks (run_stage_r stage path) (run_stage stage path) (leaks_marked (stage_marks stage)).
Proof.
  intros w l Hl%delta_refl. destruct stage; unfold run_stage_r, run_stage.
  - own_call switch_boot_lun_own. own; [leak_done (∅ : gset nat) 0%nat|].
    own_call @gpt2_set_boot_chain_own.
    own; [leak_done (∅ : gset nat) 0%nat|].
    own_call_marks @gpt_set_state_counts.
    leak_done Y (size Y).
  - own_call switch_boot_lun_own. own; [leak_done (∅ : gset nat) 0%nat|].
    own_call_marks @gpt_set_state_counts.
    own; [leak_done Y (size Y)|].
    own_call_marks @gpt_set_state_counts.
    leak_done (Y0 ∪ Y) (size Y0 + size Y)%nat.
  - own_call @gpt2_set_boot_chain_own.
    own; [leak_done (∅ : gset nat) 0%nat|].
    own_call_marks @gpt_set_state_counts.
    leak_done Y (size Y).
Qed.

Ltac own_open :=
  match goal with
  | Hd : delta _ _ _ _ ?l |- sim (bind (open_r _ _) _) _ _ ?l _ =>
      apply sim_bind; eapply sim_open; [exact Hd|intros|clear Hd; intros ? ? ? Hd ?]; cbn [negb]; cbv iota
  end.

Lemma prepare_partitions_own stage path :
  owns_marks (prepare_partitions_r stage path) (prepare_partitions stage path)
    (leaks_marked (λ r n, n ≤ if (r =? 0)%Z then 2 else 1)%nat).
Proof.
  intros w l Hl%delta_refl. unfold prepare_partitions_r, prepare_partitions.
  destruct path as [path|]; [|own; leak_done (∅ : gset nat) 0%nat].
  own_open; [own; leak_done (∅ : gset nat) 0%nat|].
  apply sim_tail. unfold prepare_open_r.
  own_call @gpt_get_state_own. own; intros; own; [leak_done (∅ : gset nat) 0%nat|].
  own_call @gpt_get_state_own. own; intros; own; try leak_done (∅ : gset nat) 0%nat.
  own_call_marks run_stage_own. own.
  exists Y, (size Y). split; [|same_delta]. split; [done|]. split; [done|].
  destruct stage; simpl in *; zcase; naive_solver lia.
Qed.

(** ** The handle *)

Lemma gpt_get_header_own dev g :
  owns (gpt_get_header_r dev g) (gpt_get_header dev g) gets_block.
Proof.
  intros w l Hl%delta_refl. unfold gpt_get_header_r, gpt_get_header.
  destruct (get_dev_path_from_partition_name dev "") as [path|]; [|own; own_pointer].
  own_open; [own; own_pointer|]. apply sim_tail.
  eapply sim_call; [apply owns_on_dev, read_header_block_own|exact Hl|].
  intros [ok h] b X l1 [-> ->] HX Hl1 w'. own; [destruct h as [[p h]|]; own_pointer|].
  destruct h as [[p h]|]; simpl; own; own_pointer.
Qed.

(** The addresses in the pointer members. *)
Definition ptrs (k : handle) : list nat :=
  omap id [h_hdr k; h_hdr_bak k; h_arr k; h_arr_bak k].

(** What loading a handle promises: the contents the model without addresses
    has, and distinct blocks in the members that point to something. *)
Definition loads (self : nat) (a : Z * handle) (b : Z * gpt_disk) (X : gset nat) : Prop :=
  (fst a, h_disk (snd a)) = b ∧ h_self (snd a) = self ∧
  NoDup (ptrs (snd a)) ∧ X = list_to_set (ptrs (snd a)).

Ltac loads_done X :=
  own_done (X : gset nat); unfold loads, ptrs; cbn;
  split_and!; [done|done|repeat (apply NoDup_cons_2; [set_solver|]); apply NoDup_nil_2|set_solver].

Lemma load_arrays_own self p q disk hdr hdr_bak w l0 l :
  q ≠ p → delta ({[q]} ∪ {[p]}) ∅ 0 l0 l →
  sim (load_arrays_r (Handle self (Some p) (Some q) None None disk) hdr hdr_bak)
      (load_arrays disk hdr hdr_bak) w l
    (λ a b l', ∃ X, loads self a b X ∧ delta X ∅ 0 l0 l').
Proof.
  intros Hpq Hl. unfold load_arrays_r, load_arrays.
  cbn [h_self h_hdr h_hdr_bak h_arr h_arr_bak h_disk].
  own_open; [own; loads_done ({[q]} ∪ {[p]} : gset nat)|].
  own_call @gpt_get_pentry_arr_own. destruct a as [[pa a]|]; cbn [fmap option_fmap option_map fst snd block] in *; own;
    [|loads_done ({[q]} ∪ {[p]} : gset nat)].
  own_call @gpt_get_pentry_arr_own. destruct a0 as [[pb b]|]; cbn [fmap option_fmap option_map fst snd block] in *; own;
    [|loads_done ({[pa]} ∪ {[q]} ∪ {[p]} : gset nat)].
  own_call @owns_up. own. loads_done ({[pb]} ∪ {[pa]} ∪ {[q]} ∪ {[p]} : gset nat).
Qed.

Lemma get_disk_info_own dev self disk :
  owns (gpt_disk_get_disk_info_r dev (Handle self None None None None disk))
    (gpt_disk_get_disk_info dev disk) (loads self).
Proof.
  intros w l Hl%delta_refl. unfold gpt_disk_get_disk_info_r, gpt_disk_get_disk_info.
  cbn [h_self h_hdr h_hdr_bak h_arr h_arr_bak h_disk].
  own_call gpt_get_header_own. destruct a as [[p h]|];
    cbn [fmap option_fmap option_map fst snd block] in *; own; [|loads_done (∅ : gset nat)].
  own_call gpt_get_header_own. destruct a1 as [[q hb]|];
    cbn [fmap option_fmap option_map fst snd block] in *; own;
    [|loads_done ({[q]} ∪ {[p]} : gset nat)|loads_done ({[p]} : gset nat)].
  eapply sim_mono; [apply load_arrays_own with (l0 := l); [set_solver|same_delta]|].
  intros x y l2 (X & Hx & Hd). by exists X.
Qed.

Lemma gpt_disk_free_own k self w l0 l :
  h_self k = self → NoDup (ptrs k) → self ∉ ptrs k →
  delta (list_to_set (ptrs k) ∪ {[self]}) ∅ 0 l0 l →
  sim (gpt_disk_free (Some k)) (ret tt) w l (λ _ _ l', delta ∅ ∅ 0 l0 l').
Proof.
  intros <- Hnd Hs Hl. destruct k as [self [p1|] [p2|] [p3|] [p4|] disk];
    unfold ptrs in *; cbn in *; rewrite ?NoDup_cons in Hnd; unfold gpt_disk_free, free_opt;
    cbn [h_self h_hdr h_hdr_bak h_arr h_arr_bak]; own; same_delta.
Qed.

Lemma gpt_disk_commit_own k :
  owns (gpt_disk_commit_r k) (gpt_disk_commit (h_disk k)) gets_nothing.
Proof.
  intros w l Hl%delta_refl. unfold gpt_disk_commit_r, gpt_disk_commit.
  destruct (negb _); [own; by own_done (∅ : gset nat)|].
  own_open; [own; by own_done (∅ : gset nat)|]. apply sim_tail. unfold commit_open_r.
  repeat (own_call @owns_up; own; intros; own; [by own_done (∅ : gset nat)|]).
  intros. own. by own_done (∅ : gset nat).
Qed.

(** ** A whole use of the interface *)

(** A client of the interface: allocate a handle, load a disk into it, edit the
    contents, recompute the CRCs, write back, free the handle. *)
Definition edit_disk_r (mem : nat → bool) (edit : gpt_disk → gpt_disk) (dev : string)
    : R world Z :=
  let* k := gpt_disk_alloc_r mem in
  match k with
  | None => ret (-1)
  | Some k =>
  let* (r, k) := gpt_disk_get_disk_info_r dev k in
  if negb (r =? 0) then gpt_disk_free (Some k) ;; ret r else
  let k := Handle (h_self k) (h_hdr k) (h_hdr_bak k) (h_arr k) (h_arr_bak k)
             (edit (h_disk k)) in
  let* (r, k) := gpt_disk_update_crc_r k in
  if negb (r =? 0) then gpt_disk_free (Some k) ;; ret r else
  let* r := gpt_disk_commit_r k in
  gpt_disk_free (Some k) ;; ret r
  end.

(** The same client in the model without addresses. *)
Definition edit_disk (edit : gpt_disk → gpt_disk) (dev : string) : W Z :=
  let* (r, disk) := gpt_disk_get_disk_info dev gpt_disk_alloc in
  if negb (r =? 0) then ret r else
  let* (r, disk) := lift (gpt_disk_update_crc (edit disk)) in
  if negb (r =? 0) then ret r else gpt_disk_commit disk.

Lemma sim_free_handle {A B} (k : handle) (m : R world A) (m' : W B) w l0 l self X φ :
  h_self k = self → NoDup (ptrs k) → X = list_to_set (ptrs k) → X ## {[self]} →
  delta (X ∪ {[self]}) ∅ 0 l0 l →
  (∀ l', delta ∅ ∅ 0 l0 l' → sim m m' w l' φ) → sim (gpt_disk_free (Some k) ;; m) m' w l φ.
Proof.
  intros Hs Hnd -> Hx Hd Hk. eapply sim_pure, sim_mono.
  { eapply gpt_disk_free_own; [exact Hs|done|set_solver|exact Hd]. }
  intros ? ? l' Hl' _. auto.
Qed.

Lemma edit_disk_own mem edit dev w l :
  lwf l →
  sim (edit_disk_r mem edit dev) (if mem (nxt l) then edit_disk edit dev else ret (-1)) w l
    (λ a b l', a = b ∧ delta ∅ ∅ 0 l l').
Proof.
  intros Hl%delta_refl. unfold edit_disk_r, edit_disk, gpt_disk_alloc_r.
  destruct (mem (nxt l)) eqn:Em.
  2:{ eapply sim_local; [by rewrite Em|]. own. done. }
  eapply sim_local; [by rewrite Em|]. cbv iota.
  destruct (delta_take_block _ _ _ _ _ Hl) as [Hd _]. rewrite (right_id_L ∅ (∪)) in Hd.
  apply sim_bind. eapply sim_call; [apply get_disk_info_own|exact Hd|]. clear Hd.
  intros [r k] [r' d] X l1 (E & Hs & Hnd & HX) Hdis Hd w'. cbn [fst snd] in E, Hs, Hnd, HX.
  injection E as -> <-. destruct (negb (r' =? 0)).
  { eapply sim_free_handle; [done..|]. intros l2 Hl2. own. done. }
  unfold gpt_disk_update_crc_r. cbn [h_disk h_self h_hdr h_hdr_bak h_arr h_arr_bak].
  apply sim_bind, sim_tail, sim_lift. intros [r1 d1] ?. apply sim_ret. intros w2.
  destruct (negb (r1 =? 0)).
  { eapply sim_free_handle; [done..|]. intros l2 Hl2. own. done. }
  apply sim_tail. own_call gpt_disk_commit_own.
  match goal with Hd : delta (∅ ∪ _) _ _ _ _ |- _ => rewrite (left_id_L ∅ (∪)) in Hd end.
  eapply sim_free_handle; [done..|]. intros l3 Hl3. own. done.
Qed.

(** C15. A client that allocates a handle, loads a disk, edits it, recomputes the
    CRCs, commits and calls [gpt_disk_free] does to the disks exactly what the
    model without addresses does, and ends with the memory and the descriptors
    it started with, whichever calls fail on the way: nothing leaks and nothing
    is freed or closed twice. *)
Theorem gpt_disk_lifecycle (mem : nat → bool) (edit : gpt_disk → gpt_disk) (dev : string)
    (w : world) (l : ledger) (Hl : lwf l) :
  match (if mem (nxt l) then edit_disk edit dev else ret (-1)) w with
  | None => edit_disk_r mem edit dev (w, l) = None
  | Some (r, w') => ∃ l', edit_disk_r mem edit dev (w, l) = Some (r, (w', l')) ∧
      live l' = live l ∧ opened l' = opened l
  end.
Proof.
  pose proof (edit_disk_own mem edit dev w l Hl) as Hs. unfold sim in Hs.
  destruct (_ w) as [[b w']|]; [|done]. destruct Hs as (a & l' & E & -> & Hd).
  exists l'. split; [done|]. destruct Hd as [_ _ E1 _ E2 _]. set_solver.
Qed.

(** C25. [prepare_partitions] with its resources counted does what the model
    without them does; it closes its descriptor and the directory stream on
    every path; and the blocks it does not give back are exactly as many as its
    calls of [gpt_set_state] that returned 0, one for each header it marked: at
    most two, at most one when it fails. *)
Theorem prepare_partitions_resources (stage : boot_update_stage) (path : option string)
    (w : world) (l : ledger) (Hl : lwf l) :
  match prepare_partitions stage path w with
  | None => prepare_partitions_r stage path (w, l) = None
  | Some (r, w') => ∃ l' X, prepare_partitions_r stage path (w, l) = Some (r, (w', l')) ∧
      opened l' = opened l ∧ live l' = X ∪ live l ∧ X ## live l ∧
      marked l' = (size X + marked l)%nat ∧ (size X ≤ if (r =? 0)%Z then 2 else 1)%nat
  end.
Proof.
  pose proof (prepare_partitions_own stage path w l Hl) as Hs. unfold sim in Hs.
  destruct (prepare_partitions stage path w) as [[b w']|]; [|done].
  destruct Hs as (a & l' & E & X & n & (-> & <- & HX) & Hd).
  exists l', X. split; [done|]. destruct Hd as [_ _ E1 D E2 _ Hm].
  split_and!; [set_solver|done..].
Qed.

End world.

(** Each successful [gpt_set_state] leaves the header block it allocated
    behind: the [return 0] skips the [free] the error path has.  A failing call
    leaves nothing. *)
Theorem gpt_set_state_leaks `{Kernel} `{Zlib} (gpt : gpt_instance) (state : gpt_state)
    (d : dev) (l : ledger) (r : Z) (d' : dev)
    (Hl : lwf l) (Hr : gpt_set_state gpt state d = Some (r, d')) :
  ∃ l' X, gpt_set_state_r gpt state (d, l) = Some (r, (d', l')) ∧
    live l' = X ∪ live l ∧ X ## live l ∧ size X = (if (r =? 0)%Z then 1 else 0)%nat.
Proof.
  pose proof (gpt_set_state_own gpt state d l Hl) as Hs. unfold sim in Hs. rewrite Hr in Hs.
  destruct Hs as (a & l' & E & X & [-> HX] & Hd). exists l', X. split; [done|].
  split; [apply Hd|]. split; [apply Hd|done].
Qed.

(** ** Concrete runs *)

Lemma no_resource_wf : lwf no_resource.
Proof. split; set_solver. Qed.

Definition result_size {A} (m : R world A) (w : world) : option (A * nat * nat) :=
  match m (w, no_resource) with
  | Some (a, (_, l)) => Some (a, size (live l), size (opened l))
  | None => None
  end.

Lemma gpt_disk_lifecycle_witness :
  ∃ w' l', @edit_disk_r (emmc quiet) _ (λ _, true) id "tz" (sample_world BLK_DEV_FILE, no_resource)
             = Some (0, (w', l')) ∧ live l' = ∅ ∧ opened l' = ∅.
Proof.
  pose proof (@gpt_disk_lifecycle (emmc quiet) _ (λ _, true) id "tz" (sample_world BLK_DEV_FILE)
    no_resource no_resource_wf) as Ht. cbv beta iota in Ht.
  assert (fst <$> @edit_disk (emmc quiet) _ id "tz" (sample_world BLK_DEV_FILE) = Some 0) as E
    by (vm_compute; reflexivity).
  destruct (@edit_disk (emmc quiet) _ id "tz" (sample_world BLK_DEV_FILE)) as [[r w']|];
    [|discriminate].
  injection E as ->. destruct Ht as (l' & Hl). exists w', l'. exact Hl.
Defined.

Lemma prepare_partitions_resources_witness :
  @result_size Z (@prepare_partitions_r (emmc quiet) _ UPDATE_MAIN (Some BLK_DEV_FILE))
    (sample_world BLK_DEV_FILE) = Some (0, 1%nat, 0%nat) ∧
  ∃ r w' l' X, @prepare_partitions_r (emmc quiet) _ UPDATE_MAIN (Some BLK_DEV_FILE)
                 (sample_world BLK_DEV_FILE, no_resource) = Some (r, (w', l')) ∧
    live l' = X ∪ ∅ ∧ marked l' = (size X + 0)%nat.
Proof.
  split; [vm_compute; reflexivity|].
  pose proof (@prepare_partitions_resources (emmc quiet) _ UPDATE_MAIN (Some BLK_DEV_FILE)
    (sample_world BLK_DEV_FILE) no_resource no_resource_wf) as Ht.
  assert (fst <$> @prepare_partitions (emmc quiet) _ UPDATE_MAIN (Some BLK_DEV_FILE)
            (sample_world BLK_DEV_FILE) = Some 0) as E by (vm_compute; reflexivity).
  destruct (@prepare_partitions (emmc quiet) _ UPDATE_MAIN (Some BLK_DEV_FILE)
    (sample_world BLK_DEV_FILE)) as [[r w']|]; [|discriminate].
  injection E as ->. destruct Ht as (l' & X & E & _ & HX & _ & Hs & _).
  exists 0, w', l', X. split; [exact E|]. split; [exact HX|exact Hs].
Defined.

Lemma gpt_set_state_leaks_witness :
  ∃ d' l' X, @gpt_set_state_r quiet _ PRIMARY_GPT GPT_BAD_SIGNATURE (sample_dev, no_resource)
    = Some (0, (d', l')) ∧ live l' = X ∪ ∅ ∧ size X = 1%nat.
Proof.
  assert (fst <$> @gpt_set_state quiet _ PRIMARY_GPT GPT_BAD_SIGNATURE sample_dev = Some 0) as E
    by (vm_compute; reflexivity).
  destruct (@gpt_set_state quiet _ PRIMARY_GPT GPT_BAD_SIGNATURE sample_dev) as [[r d']|] eqn:Er;
    [|discriminate].
  injection E as ->.
  destruct (@gpt_set_state_leaks quiet _ PRIMARY_GPT GPT_BAD_SIGNATURE sample_dev no_resource 0 d'
    no_resource_wf Er) as (l' & X & E & HX & _ & Hs).
  exists d', l', X. split; [exact E|]. split; [exact HX|exact Hs].
Defined.

End Own.
