(* ===== verification/UfsIoctl.v ===== *)
(** * UfsIoctl: selecting the boot LUN without the bsg framework
      (gpt-utils/recovery-ufs-bsg.cpp, the build without
      [_BSG_FRAMEWORK_KERNEL_HEADERS])

    [set_boot_lun] then fills a [struct ufs_ioctl_query_data], opens the scsi
    generic node its caller found and sends the structure with
    [UFS_IOCTL_QUERY].  With [_GENERIC_KERNEL_HEADERS] the body is a
    [return 0].  The constants come from the kernel's <scsi/ufs/...> headers:
    they are the class [UfsHeaders].  Memory and descriptors are the ledger of
    [GptOwn]; the trace of the calls is the state beside it. *)

From S2P Require Import Prelude GptBytes UfsBsg GptOwn.

Module UfsIoctl.
Import Own.

(** The kernel's constants. *)
Class UfsHeaders := {
  UPIU_QUERY_OPCODE_WRITE_ATTR : Z;
  ATTR_IDN_BOOT_LU_EN : Z;              (* QUERY_ATTR_IDN_BOOT_LU_EN of that header *)
}.

Definition UFS_ATTR_DATA_SIZE : nat := 32.

(** [struct ufs_ioctl_query_data] with the buffer behind it. *)
Record ufs_ioctl_query_data := QueryData {
  opcode : Z; idn : Z; buf_size : Z; buffer : list Z }.

#[global] Instance ufs_ioctl_query_data_eq_dec : EqDecision ufs_ioctl_query_data.
Proof. solve_decision. Defined.

(** What the environment decides: whether [malloc] succeeds, whether the node
    opens, what the ioctl returns. *)
Class Sg := {
  sg_mem : bool;
  sg_open : string → bool;
  sg_query : ufs_ioctl_query_data → Z;
}.

Inductive sg_event :=
  | SgOpen (path : string)
  | SgQuery (fd : nat) (data : ufs_ioctl_query_data)
  | SgClose (fd : nat).

Abbreviation T := (R (list sg_event)).

Definition log (e : sg_event) : T unit := λ '(tr, l), Some (tt, (tr ++ [e], l)).

Section code.
Context `{UfsHeaders} `{Sg}.

Definition malloc_data : T (option nat) :=
  local (λ l, if sg_mem then Some (Some (nxt l), take_block l) else Some (None, l)).

Definition open_sg (path : string) : T (option nat) :=
  if sg_open path then log (SgOpen path) ;; let* fd := new_fd in ret (Some fd) else ret None.

Definition close_sg (fd : nat) : T unit := log (SgClose fd) ;; close_fd fd.

(** The label [error]. *)
Definition query_error (fd data : option nat) : T Z :=
  (match fd with Some fd => close_sg fd | None => ret tt end) ;;
  free_opt data ;;
  ret (-1).

(** [set_boot_lun(sg_dev, boot_lun_id)] *)
Definition set_boot_lun_sg (sg_dev : string) (boot_lun_id : Z) : T Z :=
  let* p := malloc_data in
  match p with
  | None => query_error None None
  | Some p =>
  let zero := QueryData 0 0 0 (replicate UFS_ATTR_DATA_SIZE 0) in
  let data := QueryData UPIU_QUERY_OPCODE_WRITE_ATTR ATTR_IDN_BOOT_LU_EN
                (Z.of_nat UFS_ATTR_DATA_SIZE) (<[0%nat := u8 boot_lun_id]> (buffer zero)) in
  let* f := open_sg sg_dev in
  match f with
  | None => query_error None (Some p)
  | Some fd =>
  log (SgQuery fd data) ;;
  let rc := sg_query data in
  if negb (rc =? 0) then query_error (Some fd) (Some p) else
  close_sg fd ;;
  free p ;;
  ret 0
  end end.

(** The same function with [_GENERIC_KERNEL_HEADERS]. *)
Definition set_boot_lun_generic (sg_dev : string) (boot_lun_id : Z) : T Z := ret 0.

End code.

(** The structure that selects boot LUN [lun]. *)
Definition boot_lun_query `{UfsHeaders} (lun : Z) : ufs_ioctl_query_data :=
  QueryData UPIU_QUERY_OPCODE_WRITE_ATTR ATTR_IDN_BOOT_LU_EN 32 (lun :: replicate 31 0).

(** The calls a run makes and its result. *)
Definition sg_outcome `{UfsHeaders} `{Sg} (sg_dev : string) (lun : Z) (fd : nat)
    : Z * list sg_event :=
  if negb sg_mem then (-1, [])
  else if negb (sg_open sg_dev) then (-1, [])
  else (if sg_query (boot_lun_query lun) =? 0 then 0 else -1,
        [SgOpen sg_dev; SgQuery fd (boot_lun_query lun); SgClose fd]).

Section theorems.
Context `{UfsHeaders} `{Sg}.

(** [set_boot_lun] over the scsi generic node sends at most one query, which
    writes the boot LUN attribute with the LUN's number in the first of 32
    bytes, returns 0 exactly when the memory, the node and the driver agree,
    and on every path gives back the memory and the descriptor it took. *)
Theorem set_boot_lun_sg_spec (sg_dev : string) (lun : Z) (tr : list sg_event) (l : ledger)
    (Hlun : 0 ≤ lun < 256) (Hl : lwf l) :
  ∃ l', set_boot_lun_sg sg_dev lun (tr, l) =
      Some (fst (sg_outcome sg_dev lun (S (nxt l))),
            (tr ++ snd (sg_outcome sg_dev lun (S (nxt l))), l')) ∧
    live l' = live l ∧ opened l' = opened l.
Proof.
  assert (nxt l ∉ live l) as Hf by (intros Hx%Hl; lia).
  assert (S (nxt l) ∉ opened l) as Hg by (intros Hx%Hl; lia).
  unfold set_boot_lun_sg, malloc_data, open_sg, query_error, close_sg, sg_outcome, log, free_opt,
    free, close_fd, new_fd, local, bind, ret.
  rewrite (wrapu_small 8) by (simpl; lia).
  change (QueryData _ _ _ _) with (boot_lun_query lun).
  destruct sg_mem; cbn; [|exists l; by rewrite app_nil_r].
  destruct (sg_open sg_dev); cbn.
  2:{ rewrite decide_True by set_solver. eexists. rewrite app_nil_r. split; [done|]. set_solver. }
  destruct (sg_query (boot_lun_query lun) =? 0); cbn;
    rewrite !decide_True by set_solver; eexists; rewrite <- !app_assoc; (split; [done|]); set_solver.
Qed.

End theorems.

(** The values of the kernel's headers, and a node whose driver accepts. *)
Definition sample_headers : UfsHeaders :=
  {| UPIU_QUERY_OPCODE_WRITE_ATTR := 4; ATTR_IDN_BOOT_LU_EN := 0 |}.
Definition sample_sg : Sg :=
  {| sg_mem := true; sg_open := String.eqb "/dev/sg1"; sg_query := λ _, 0 |}.

Lemma set_boot_lun_sg_spec_witness :
  ∃ l', @set_boot_lun_sg sample_headers sample_sg "/dev/sg1" 2 ([], no_resource) =
    Some (0, ([SgOpen "/dev/sg1"; SgQuery 1 (QueryData 4 0 32 (2 :: replicate 31 0)); SgClose 1],
              l')) ∧ live l' = ∅ ∧ opened l' = ∅.
Proof.
  destruct (@set_boot_lun_sg_spec sample_headers sample_sg "/dev/sg1" 2 [] no_resource)
    as (l' & E & Hl); [lia|exact no_resource_wf|].
  exists l'. split; [exact E|exact Hl].
Defined.

End UfsIoctl.
