(* ===== verification/Lights.v ===== *)
(** * Lights: the LEDs and the backlight
      (liblight/lights.c and the service on top of it, lights/Lights.cpp)

    The globals of lights.c and the contents of the sysfs files are the state
    [leds]; the outcome of every [open] and [write], indexed by the number of
    the call, the files that exist, what [fscanf] reads, whether the module is found and
    whether there is memory for a device are the class [Sysfs].  Locks are not modelled: every entry point holds [g_lock] from its
    first access to a global to its last. *)

From S2P Require Import Prelude.
From coqutil Require Import Z.bitblast.

Module Lights.

(** ** hardware/lights.h *)

Definition LIGHT_FLASH_NONE : Z := 0.
Definition LIGHT_FLASH_TIMED : Z := 1.
Definition LIGHT_FLASH_HARDWARE : Z := 2.
Definition BRIGHTNESS_MODE_USER : Z := 0.
Definition BRIGHTNESS_MODE_LOW_PERSISTENCE : Z := 2.
Definition ENOSYS : Z := 38.
Definition EINVAL : Z := 22.
Definition ENOMEM : Z := 12.
Definition DEFAULT_LOW_PERSISTENCE_MODE_BRIGHTNESS : Z := 0x80.

Record light_state_t := LightState {
  color : Z;             (* unsigned int *)
  flashMode : Z;
  flashOnMS : Z;
  flashOffMS : Z;
  brightnessMode : Z;
}.
Definition light_state_zero : light_state_t := LightState 0 0 0 0 0.

Definition LCD_FILE : string := "/sys/class/leds/lcd-backlight/brightness".
Definition LCD_FILE2 : string := "/sys/class/backlight/panel0-backlight/brightness".
Definition BUTTON_FILE : string := "/sys/class/leds/button-backlight/brightness".
Definition PERSISTENCE_FILE : string := "/sys/class/graphics/fb0/msm_fb_persist_mode".

Inductive rgb_led := LED_RED | LED_GREEN | LED_BLUE.
#[global] Instance rgb_led_eq_dec : EqDecision rgb_led.
Proof. solve_decision. Defined.

Definition led_names (led : rgb_led) : string :=
  match led with LED_RED => "red" | LED_GREEN => "green" | LED_BLUE => "blue" end.

Definition led_file (led : rgb_led) (f : string) : string :=
  ("/sys/class/leds/" ++ led_names led ++ "/" ++ f)%string.

(** What a file holds: a decimal number with a newline, or a word. *)
Inductive content := CInt (z : Z) | CStr (s : string).
#[global] Instance content_eq_dec : EqDecision content.
Proof. solve_decision. Defined.

(** ** The environment and the state *)

Class Sysfs := {
  sf_access : string → bool;            (* [access(path, F_OK) == 0] *)
  sf_open : nat → string → Z;           (* 0, or errno *)
  sf_write : nat → string → Z;          (* 0, or errno *)
  sf_read : string → option (option Z); (* [fopen] fails; [fscanf] fails; a number *)
  sf_module : Z;                        (* what [hw_get_module] returns *)
  sf_malloc : string → bool;            (* is there memory for the device of that name? *)
}.

Record leds := Leds {
  g_notification : light_state_t;
  g_battery : light_state_t;
  g_last_backlight_mode : Z;
  g_attention : Z;
  g_has_persistence_node : bool;
  files : gmap string content;          (* what the files were last written *)
  l_step : nat;                         (* number of writes tried *)
}.

Definition leds_init : leds :=
  Leds light_state_zero light_state_zero BRIGHTNESS_MODE_USER 0 false ∅ 0.

Abbreviation L := (M leds).

Definition set_notification (x : light_state_t) : L unit := λ s,
  Some (tt, Leds x (g_battery s) (g_last_backlight_mode s) (g_attention s)
              (g_has_persistence_node s) (files s) (l_step s)).
Definition set_battery (x : light_state_t) : L unit := λ s,
  Some (tt, Leds (g_notification s) x (g_last_backlight_mode s) (g_attention s)
              (g_has_persistence_node s) (files s) (l_step s)).
Definition set_last_mode (m : Z) : L unit := λ s,
  Some (tt, Leds (g_notification s) (g_battery s) m (g_attention s)
              (g_has_persistence_node s) (files s) (l_step s)).
Definition set_attention (a : Z) : L unit := λ s,
  Some (tt, Leds (g_notification s) (g_battery s) (g_last_backlight_mode s) a
              (g_has_persistence_node s) (files s) (l_step s)).
Definition set_node (b : bool) : L unit := λ s,
  Some (tt, Leds (g_notification s) (g_battery s) (g_last_backlight_mode s) (g_attention s)
              b (files s) (l_step s)).
Definition put_file (p : string) (c : content) (s : leds) : leds :=
  Leds (g_notification s) (g_battery s) (g_last_backlight_mode s) (g_attention s)
    (g_has_persistence_node s) (<[p := c]> (files s)) (S (l_step s)).
Definition skip_step (s : leds) : leds :=
  Leds (g_notification s) (g_battery s) (g_last_backlight_mode s) (g_attention s)
    (g_has_persistence_node s) (files s) (S (l_step s)).
Definition gets {A} (f : leds → A) : L A := λ s, Some (f s, s).

(** ** lights.c *)

Section code.
Context `{Sysfs}.

(** [open], [write] and [close]: what [write_str] and [write_int] do. *)
Definition write_file (path : string) (c : content) : L Z := λ s,
  if negb (sf_open (l_step s) path =? 0) then Some (- sf_open (l_step s) path, skip_step s)
  else if negb (sf_write (l_step s) path =? 0) then Some (- sf_write (l_step s) path, skip_step s)
  else Some (0, put_file path c s).

Definition write_str (path str : string) : L Z := write_file path (CStr str).
Definition write_int (path : string) (value : Z) : L Z := write_file path (CInt value).

(** [fclose] of a null pointer is undefined. *)
Definition read_int (path : string) : L Z :=
  match sf_read path with
  | Some (Some val) => ret val
  | Some None => ret 0xFF
  | None => ub
  end.

Definition file_exists (file : string) : L bool := λ s,
  Some (sf_open (l_step s) file =? 0, skip_step s).

Definition is_lit (state : light_state_t) : Z := Z.land (color state) 0x00ffffff.

Definition rgb_to_brightness (state : light_state_t) : Z :=
  let color := Z.land (color state) 0x00ffffff in
  Z.shiftr (77 * Z.land (Z.shiftr color 16) 0x00ff + 150 * Z.land (Z.shiftr color 8) 0x00ff +
            29 * Z.land color 0x00ff) 8.

Definition set_light_backlight (state : light_state_t) : L Z :=
  let brightness := rgb_to_brightness state in
  let lpEnabled := brightnessMode state =? BRIGHTNESS_MODE_LOW_PERSISTENCE in
  let* last := gets g_last_backlight_mode in
  let* node := gets g_has_persistence_node in
  let persistence_mode :=
    (negb (last =? brightnessMode state) && lpEnabled) ||
    (negb lpEnabled && (last =? BRIGHTNESS_MODE_LOW_PERSISTENCE)) in
  let cannot_handle_persistence := negb node && persistence_mode in
  let* (err, brightness) :=
    if node : bool then
      let* (err, brightness) :=
        if persistence_mode then
          let* err := write_int PERSISTENCE_FILE (if lpEnabled then 1 else 0) in
          ret (err, if lpEnabled then DEFAULT_LOW_PERSISTENCE_MODE_BRIGHTNESS else brightness)
        else ret (0, brightness) in
      set_last_mode (brightnessMode state) ;;
      ret (err, brightness)
    else ret (0, brightness) in
  let* err :=
    if err =? 0 then
      if sf_access LCD_FILE then write_int LCD_FILE brightness
      else write_int LCD_FILE2 brightness
    else ret err in
  ret (if cannot_handle_persistence then - ENOSYS else err).

(** [brightness * max_brightness / 0xFF]; the product overflowing an int is
    undefined. *)
Definition scale_brightness (brightness max_brightness : Z) : option Z :=
  let p := brightness * max_brightness in
  if (- 2 ^ 31 <=? p) && (p <? 2 ^ 31) then Some (Z.quot p 0xFF) else None.

Definition set_rgb_led_brightness (led : rgb_led) (brightness : Z) : L Z :=
  let* max_brightness := read_int (led_file led "max_mix_brightness") in
  let* brightness := lift (scale_brightness brightness max_brightness) in
  let* rc := write_str (led_file led "trigger") "none" in
  if rc <? 0 then ret rc else
  write_int (led_file led "brightness") brightness.

Definition set_rgb_light_sync (led : rgb_led) (blink : Z) : L Z :=
  set_rgb_led_brightness led 0 ;;
  write_int (led_file led "sync_blink") blink.

(** The retry loop, [rc] being the result so far. *)
Fixpoint timer_retries (retries : nat) (led : rgb_led) (onMS offMS rc : Z) : L Z :=
  match retries with
  | O => ret rc
  | S retries' =>
      let* rc := write_int (led_file led "delay_off") offMS in
      if rc <? 0 then timer_retries retries' led onMS offMS rc else
      let* rc := write_int (led_file led "delay_on") onMS in
      if rc =? 0 then ret rc else timer_retries retries' led onMS offMS rc
  end.

Definition set_rgb_led_timer_trigger (led : rgb_led) (onMS offMS : Z) : L Z :=
  let* rc := write_str (led_file led "trigger") "timer" in
  if rc <? 0 then ret rc else
  let* rc := timer_retries 20 led onMS offMS rc in
  if rc <? 0 then ret rc else ret 0.

Definition set_rgb_led_hw_blink (led : rgb_led) (blink : Z) : L Z :=
  let* ok := file_exists (led_file led "breath") in
  if negb ok then ret (-1) else write_int (led_file led "breath") blink.

(** [if (!!c) rc |= f(led)]: bitwise or of the ints. *)
Definition or_if (c rc : Z) (m : L Z) : L Z :=
  if c =? 0 then ret rc else let* r := m in ret (Z.lor rc r).

(** The last case of the switch. *)
Definition flash_none (red green blue : Z) : L Z :=
  set_rgb_light_sync LED_RED 0 ;;
  set_rgb_light_sync LED_GREEN 0 ;;
  set_rgb_light_sync LED_BLUE 0 ;;
  let* rc := set_rgb_led_brightness LED_RED red in
  let* r := set_rgb_led_brightness LED_GREEN green in
  let rc := Z.lor rc r in
  let* r := set_rgb_led_brightness LED_BLUE blue in
  ret (Z.lor rc r).

Definition bit (c : Z) : Z := if c =? 0 then 0 else 1.

(** The case LIGHT_FLASH_TIMED, with [rc] from the case above it. *)
Definition flash_timed (red green blue onMS offMS rc : Z) : L Z :=
  set_rgb_light_sync LED_RED (bit red) ;;
  set_rgb_light_sync LED_GREEN (bit green) ;;
  set_rgb_light_sync LED_BLUE (bit blue) ;;
  let* rc := or_if red rc (set_rgb_led_timer_trigger LED_RED onMS offMS) in
  let* rc := or_if green rc (set_rgb_led_timer_trigger LED_GREEN onMS offMS) in
  let* rc := or_if blue rc (set_rgb_led_timer_trigger LED_BLUE onMS offMS) in
  if rc =? 0 then ret rc else flash_none red green blue.

Definition set_speaker_light_locked (state : light_state_t) : L Z :=
  let colorRGB := color state in
  let red := Z.land (Z.shiftr colorRGB 16) 0xFF in
  let green := Z.land (Z.shiftr colorRGB 8) 0xFF in
  let blue := Z.land colorRGB 0xFF in
  let onMS := flashOnMS state in
  let offMS := flashOffMS state in
  let blink := if negb (onMS =? 0) && negb (offMS =? 0) then 1 else 0 in
  if flashMode state =? LIGHT_FLASH_HARDWARE then
    let* rc := or_if red 0 (set_rgb_led_hw_blink LED_RED blink) in
    let* rc := or_if green rc (set_rgb_led_hw_blink LED_GREEN blink) in
    let* rc := or_if blue rc (set_rgb_led_hw_blink LED_BLUE blink) in
    if rc =? 0 then ret rc else flash_timed red green blue onMS offMS rc
  else if flashMode state =? LIGHT_FLASH_TIMED then
    flash_timed red green blue onMS offMS 0
  else flash_none red green blue.

Definition handle_speaker_battery_locked : L unit :=
  let* b := gets g_battery in
  if negb (is_lit b =? 0) then set_speaker_light_locked b ;; ret tt
  else let* n := gets g_notification in set_speaker_light_locked n ;; ret tt.

Definition set_light_battery (state : light_state_t) : L Z :=
  set_battery state ;; handle_speaker_battery_locked ;; ret 0.

Definition set_light_notifications (state : light_state_t) : L Z :=
  set_notification state ;; handle_speaker_battery_locked ;; ret 0.

Definition set_light_attention (state : light_state_t) : L Z :=
  (if flashMode state =? LIGHT_FLASH_HARDWARE then set_attention (flashOnMS state)
   else if flashMode state =? LIGHT_FLASH_NONE then set_attention 0
   else ret tt) ;;
  handle_speaker_battery_locked ;; ret 0.

Definition set_light_buttons (state : light_state_t) : L Z :=
  write_int BUTTON_FILE (Z.land (color state) 0xFF).

Definition set_light_dummy (state : light_state_t) : L Z := ret 0.

(** The [set_light] pointer of an open device. *)
Inductive set_light := SetBacklight | SetBattery | SetNotifications | SetButtons
                     | SetAttention | SetDummy.
#[global] Instance set_light_eq_dec : EqDecision set_light.
Proof. solve_decision. Defined.

Definition call_set_light (f : set_light) : light_state_t → L Z :=
  match f with
  | SetBacklight => set_light_backlight
  | SetBattery => set_light_battery
  | SetNotifications => set_light_notifications
  | SetButtons => set_light_buttons
  | SetAttention => set_light_attention
  | SetDummy => set_light_dummy
  end.

(** The choice of [set_light] in [open_lights]. *)
Definition choose_light (name : string) : L (Z + set_light) :=
  if String.eqb name "backlight" then
    set_node (sf_access PERSISTENCE_FILE) ;; ret (inr SetBacklight)
  else if String.eqb name "battery" then ret (inr SetBattery)
  else if String.eqb name "notifications" then ret (inr SetNotifications)
  else if String.eqb name "buttons" then
    if sf_access BUTTON_FILE then ret (inr SetButtons) else ret (inl (- EINVAL))
  else if String.eqb name "attention" then ret (inr SetAttention)
  else if String.eqb name "display_flash" || String.eqb name "exthdr" then ret (inr SetDummy)
  else ret (inl (- EINVAL)).

(** [open_lights]: the device, or the error. *)
Definition open_lights (name : string) : L (Z + set_light) :=
  let* c := choose_light name in
  ret (match c with
       | inr f => if sf_malloc name then inr f else inl (- ENOMEM)
       | inl e => inl e
       end).

(** [close_lights]: the devices that are allocated, by address; [None] when a device is
    freed that is not one of them. *)
Definition close_lights (dev : option nat) (devices : gset nat) : option (Z * gset nat) :=
  match dev with
  | None => Some (0, devices)
  | Some d => if decide (d ∈ devices) then Some (0, devices ∖ {[d]}) else None
  end.

(** ** Lights.cpp *)

(** [kLogicalLights], in the order of the map: the light type and its name. *)
Definition kLogicalLights : list (Z * string) :=
  [(0, "backlight"); (1, "keyboard"); (2, "buttons"); (3, "battery");
   (4, "notifications"); (5, "attention"); (6, "bluetooth"); (7, "wifi")]%string.

(** The members of the service. *)
Record service := Service {
  mLights : gmap Z set_light;
  mAvailableLights : list Z;            (* the ids of the HwLights *)
  maxLights : Z;
}.

(** The device, or [nullptr]. *)
Definition getLightDevice (name : string) : L (option set_light) :=
  if sf_module =? 0 then
    let* d := open_lights name in
    ret (match d with inr f => Some f | inl _ => None end)
  else ret None.

Fixpoint probe_lights (ls : list (Z * string)) (lights : gmap Z set_light) (available : list Z)
    (lightCount : Z) : L service :=
  match ls with
  | [] => ret (Service lights available lightCount)
  | (type, name) :: ls' =>
      let* d := getLightDevice name in
      match d with
      | Some f => probe_lights ls' (<[type := f]> lights) (available ++ [type]) (lightCount + 1)
      | None => probe_lights ls' lights available (lightCount + 1)
      end
  end.

(** The constructor [Lights::Lights]. *)
Definition lights_new : L service := probe_lights kLogicalLights ∅ [] 0.

Inductive status := StOk | StUnsupported | StServiceSpecific (err : Z).
#[global] Instance status_eq_dec : EqDecision status.
Proof. solve_decision. Defined.

(** [state] is the legacy form of the HwLightState; its colour is converted to
    unsigned int. *)
Definition setLightState (svc : service) (id : Z) (state : light_state_t) : L status :=
  if maxLights svc <=? id then ret StUnsupported else
  match mLights svc !! id with
  | None => ret StUnsupported
  | Some f =>
      let legacyState := LightState (u32 (color state)) (flashMode state) (flashOnMS state)
                           (flashOffMS state) (brightnessMode state) in
      let* r := call_set_light f legacyState in
      ret (if r =? - ENOSYS then StUnsupported
           else if r =? 0 then StOk else StServiceSpecific r)
  end.

Definition getLights (svc : service) (lights : list Z) : list Z := lights ++ mAvailableLights svc.

End code.

(** ** Colours *)

Definition chan (led : rgb_led) (c : Z) : Z :=
  match led with
  | LED_RED => Z.land (Z.shiftr c 16) 0xFF
  | LED_GREEN => Z.land (Z.shiftr c 8) 0xFF
  | LED_BLUE => Z.land c 0xFF
  end.

Lemma land_255 x : 0 ≤ Z.land x 255 ≤ 255.
Proof.
  change (Z.land x 255) with (Z.land x (Z.ones 8)). rewrite Z.land_ones by lia.
  pose proof (Z.mod_pos_bound x (2 ^ 8)). lia.
Qed.

Lemma chan_range led c : 0 ≤ chan led c ≤ 255.
Proof. destruct led; apply land_255. Qed.

Lemma masked_chan c :
  Z.land (Z.shiftr (Z.land c 0xffffff) 16) 0xff = chan LED_RED c ∧
  Z.land (Z.shiftr (Z.land c 0xffffff) 8) 0xff = chan LED_GREEN c ∧
  Z.land (Z.land c 0xffffff) 0xff = chan LED_BLUE c.
Proof.
  change 0xffffff with (Z.ones 24). change 255 with (Z.ones 8). cbn [chan].
  change 255 with (Z.ones 8). repeat split; Z.bitblast.
Qed.

Lemma is_lit_spec st : is_lit st = 0 ↔ ∀ led, chan led (color st) = 0.
Proof.
  unfold is_lit. destruct (masked_chan (color st)) as (Hr & Hg & Hb). split.
  - intros E. rewrite E in *. intros []; [rewrite <- Hr|rewrite <- Hg|rewrite <- Hb]; done.
  - intros Hc.
    assert (Z.land (color st) 0xffffff = Z.lor (Z.lor (Z.shiftl (chan LED_RED (color st)) 16)
      (Z.shiftl (chan LED_GREEN (color st)) 8)) (chan LED_BLUE (color st))) as ->.
    { cbn [chan]. change 0xffffff with (Z.ones 24). change 255 with (Z.ones 8). Z.bitblast. }
    by rewrite !Hc.
Qed.

(** The backlight level of a colour is between 0 and 255, grows with each
    channel, and is the channel's value itself for a grey. *)
Theorem rgb_to_brightness_spec (st : light_state_t) :
  0 ≤ rgb_to_brightness st ≤ 255 ∧
  (∀ st', (∀ led, chan led (color st) ≤ chan led (color st')) →
     rgb_to_brightness st ≤ rgb_to_brightness st') ∧
  (∀ v, (∀ led, chan led (color st) = v) → rgb_to_brightness st = v).
Proof.
  assert (∀ st, rgb_to_brightness st = (77 * chan LED_RED (color st) +
    150 * chan LED_GREEN (color st) + 29 * chan LED_BLUE (color st)) / 256) as E.
  { intros x. unfold rgb_to_brightness. destruct (masked_chan (color x)) as (-> & -> & ->).
    by rewrite Z.shiftr_div_pow2. }
  pose proof (chan_range LED_RED (color st)). pose proof (chan_range LED_GREEN (color st)).
  pose proof (chan_range LED_BLUE (color st)). split; [|split].
  - rewrite E. split; [apply Z.div_pos; lia|]. apply Z.div_le_upper_bound; lia.
  - intros st' Hle. rewrite !E. apply Z.div_le_mono; [lia|].
    pose proof (Hle LED_RED). pose proof (Hle LED_GREEN). pose proof (Hle LED_BLUE). lia.
  - intros v Hv. rewrite E, !Hv. replace (77 * v + 150 * v + 29 * v) with (v * 256) by lia.
    by apply Z.div_mul.
Qed.

(** ** The LEDs when the files can be written *)

(** The lookups of a chain of writes to different files. *)
Ltac lookups :=
  repeat first [ rewrite lookup_insert_eq
               | rewrite lookup_insert_ne by (vm_compute; discriminate) ].

Section writable.
Context `{Sysfs} (maxb : rgb_led → Z).

(** Every LED file but "breath" can be opened and written. *)
Definition leds_writable : Prop :=
  ∀ k led f, f ≠ "breath"%string →
    sf_open k (led_file led f) = 0 ∧ sf_write k (led_file led f) = 0.

(** The maximum brightness of each LED can be read. *)
Definition max_readable : Prop :=
  ∀ led, sf_read (led_file led "max_mix_brightness") = Some (Some (maxb led)) ∧
    0 ≤ maxb led < 2 ^ 23.

Hypothesis Hw : leds_writable.
Hypothesis Hmax : max_readable.

Definition scaled (led : rgb_led) (v : Z) : Z := v * maxb led / 255.

(** Two states that differ in the files only. *)
Definition same_globals (s s' : leds) : Prop :=
  g_notification s' = g_notification s ∧ g_battery s' = g_battery s ∧
  g_last_backlight_mode s' = g_last_backlight_mode s ∧ g_attention s' = g_attention s ∧
  g_has_persistence_node s' = g_has_persistence_node s.

#[local] Instance same_globals_pre : PreOrder same_globals.
Proof.
  split; [done|]. intros a b c (? & ? & ? & ? & ?) (? & ? & ? & ? & ?).
  unfold same_globals. split_and!; congruence.
Qed.

Lemma write_led led f c s :
  f ≠ "breath"%string → write_file (led_file led f) c s = Some (0, put_file (led_file led f) c s).
Proof. intros Hf. unfold write_file. by destruct (Hw (l_step s) led f Hf) as [-> ->]. Qed.

Lemma led_brightness_ok led v s :
  0 ≤ v ≤ 255 →
  set_rgb_led_brightness led v s =
    Some (0, put_file (led_file led "brightness") (CInt (scaled led v))
               (put_file (led_file led "trigger") (CStr "none") s)).
Proof.
  intros Hv. destruct (Hmax led) as [Hr Hm]. unfold set_rgb_led_brightness, read_int.
  rewrite Hr. cbn [bind ret]. unfold scale_brightness.
  assert (0 ≤ v * maxb led ≤ 255 * (2 ^ 23 - 1)) by nia.
  rewrite (proj2 (Z.leb_le _ _)), (proj2 (Z.ltb_lt _ _)) by lia. cbn [andb lift bind].
  unfold write_str, write_int. rewrite (bind_run _ _ _ _ _ (write_led led "trigger" _ s ltac:(done))).
  change (0 <? 0) with false. cbn iota. rewrite write_led by done. unfold scaled. by rewrite Z.quot_div_nonneg by lia.
Qed.

Lemma light_sync_ok led b s :
  set_rgb_light_sync led b s =
    Some (0, put_file (led_file led "sync_blink") (CInt b)
               (put_file (led_file led "brightness") (CInt 0)
                 (put_file (led_file led "trigger") (CStr "none") s))).
Proof.
  unfold set_rgb_light_sync. rewrite (bind_run _ _ _ _ _ (led_brightness_ok led 0 s ltac:(lia))).
  unfold write_int. rewrite write_led by done. unfold scaled. done.
Qed.

(** The LEDs are constantly on at the three levels. *)
Definition steady (r g b : Z) (s : leds) : Prop :=
  ∀ led, files s !! led_file led "trigger" = Some (CStr "none") ∧
    files s !! led_file led "sync_blink" = Some (CInt 0) ∧
    files s !! led_file led "brightness" =
      Some (CInt (scaled led (match led with LED_RED => r | LED_GREEN => g | LED_BLUE => b end))).

Lemma flash_none_ok r g b s :
  0 ≤ r ≤ 255 → 0 ≤ g ≤ 255 → 0 ≤ b ≤ 255 →
  ∃ s', flash_none r g b s = Some (0, s') ∧ same_globals s s' ∧ steady r g b s'.
Proof.
  intros Hr Hg Hb. unfold flash_none.
  do 3 rewrite (bind_run _ _ _ _ _ (light_sync_ok _ _ _)).
  rewrite (bind_run _ _ _ _ _ (led_brightness_ok LED_RED r _ Hr)).
  rewrite (bind_run _ _ _ _ _ (led_brightness_ok LED_GREEN g _ Hg)).
  rewrite (bind_run _ _ _ _ _ (led_brightness_ok LED_BLUE b _ Hb)).
  eexists. split; [reflexivity|]. split; [done|].
  intros []; cbn [files put_file]; split_and!; lookups; done.
Qed.

Definition shows (st : light_state_t) (s : leds) : Prop :=
  steady (chan LED_RED (color st)) (chan LED_GREEN (color st)) (chan LED_BLUE (color st)) s.

Definition plain (st : light_state_t) : Prop :=
  flashMode st ≠ LIGHT_FLASH_HARDWARE ∧ flashMode st ≠ LIGHT_FLASH_TIMED.

Lemma speaker_plain_ok st s :
  plain st →
  ∃ s', set_speaker_light_locked st s = Some (0, s') ∧ same_globals s s' ∧ shows st s'.
Proof.
  intros [H1 H2]. unfold set_speaker_light_locked.
  rewrite (proj2 (Z.eqb_neq _ _)), (proj2 (Z.eqb_neq _ _)) by done.
  apply flash_none_ok; apply land_255.
Qed.

(** ** Who gets the LED *)

(** The light the LED shows: the battery's when it is lit, the notification's
    otherwise. *)
Definition winner (battery notification : light_state_t) : light_state_t :=
  if decide (is_lit battery = 0) then notification else battery.

Lemma handle_ok s :
  plain (winner (g_battery s) (g_notification s)) →
  ∃ s', handle_speaker_battery_locked s = Some (tt, s') ∧ same_globals s s' ∧
    shows (winner (g_battery s) (g_notification s)) s'.
Proof.
  unfold winner, handle_speaker_battery_locked, bind, gets. intros Hp.
  destruct (decide (is_lit (g_battery s) = 0)) as [E|E].
  - rewrite E. destruct (speaker_plain_ok _ s Hp) as (s' & E' & Hs). cbn [Z.eqb negb].
    rewrite E'. eauto.
  - rewrite (proj2 (Z.eqb_neq _ _)) by done. destruct (speaker_plain_ok _ s Hp) as (s' & E' & Hs).
    cbn [negb]. rewrite E'. eauto.
Qed.

Inductive event := EvBattery (st : light_state_t) | EvNotification (st : light_state_t)
                 | EvAttention (st : light_state_t).

Definition run_event (e : event) : L Z :=
  match e with
  | EvBattery st => set_light_battery st
  | EvNotification st => set_light_notifications st
  | EvAttention st => set_light_attention st
  end.

Fixpoint run_events (es : list event) : L Z :=
  match es with
  | [] => ret 0
  | [e] => run_event e
  | e :: es' => run_event e ;; run_events es'
  end.

(** What the events do to the battery's and the notification's light. *)
Definition abs_event (bn : light_state_t * light_state_t) (e : event)
    : light_state_t * light_state_t :=
  match e with
  | EvBattery st => (st, bn.2)
  | EvNotification st => (bn.1, st)
  | EvAttention _ => bn
  end.

Definition event_plain (e : event) : Prop :=
  match e with EvBattery st | EvNotification st => plain st | EvAttention _ => True end.

Lemma run_event_ok e s :
  event_plain e → plain (g_battery s) → plain (g_notification s) →
  let bn := abs_event (g_battery s, g_notification s) e in
  ∃ s', run_event e s = Some (0, s') ∧ g_battery s' = bn.1 ∧ g_notification s' = bn.2 ∧
    shows (winner bn.1 bn.2) s'.
Proof.
  intros He Hb Hn bn.
  assert (∀ s1, g_battery s1 = bn.1 → g_notification s1 = bn.2 →
    ∃ s', (handle_speaker_battery_locked ;; ret 0) s1 = Some (0, s') ∧
      g_battery s' = bn.1 ∧ g_notification s' = bn.2 ∧ shows (winner bn.1 bn.2) s') as Hh.
  { intros s1 E1 E2. destruct (handle_ok s1) as (s' & E & (Hg2 & Hg1 & _) & Hs).
    - rewrite E1, E2. unfold winner, bn. destruct e; simpl; case_decide; done.
    - unfold bind. rewrite E. exists s'. rewrite E1, E2 in *. split; [done|].
      split; [congruence|]. split; [congruence|done]. }
  destruct e as [st|st|st]; cbn [run_event];
    unfold set_light_battery, set_light_notifications, set_light_attention.
  - unfold bind at 1, set_battery. by apply Hh.
  - unfold bind at 1, set_notification. by apply Hh.
  - unfold bind at 1, set_attention, ret at 1. repeat case_match; simplify_eq; by apply Hh.
Qed.

(** C23. The battery has priority on the LED.  After any sequence of battery,
    notification and attention updates of steady lights, the LED files hold the
    scaled channels of the battery's last light when it is lit, and of the last
    notification otherwise, with blinking off. *)
Theorem led_arbitration (es : list event) (s : leds) (Hes : es ≠ [])
    (Hplain : Forall event_plain es)
    (Hb : plain (g_battery s)) (Hn : plain (g_notification s)) :
  let bn := fold_left abs_event es (g_battery s, g_notification s) in
  ∃ s', run_events es s = Some (0, s') ∧ shows (winner bn.1 bn.2) s'.
Proof.
  cbn zeta. revert s Hes Hb Hn. induction Hplain as [|e es He Hes' IH]; intros s Hne Hb Hn; [done|].
  destruct (run_event_ok e s He Hb Hn) as (s1 & E1 & Eb & En & Hs).
  destruct es as [|e' es]; [by exists s1|].
  change (run_events (e :: e' :: es)) with (run_event e ;; run_events (e' :: es)).
  rewrite (bind_run _ _ _ _ _ E1). cbn [fold_left].
  destruct (IH s1) as (s' & E & Hs'); [done|..].
  - rewrite Eb. by destruct e.
  - rewrite En. by destruct e.
  - rewrite Eb, En in Hs'. exists s'. split; [done|]. cbn [fold_left] in Hs'.
    by rewrite <- surjective_pairing in Hs'.
Qed.

(** ** Blinking *)

Lemma lor_m1 x : Z.lor (-1) x = -1.
Proof. exact (Z.lor_m1_l x). Qed.

Lemma timer_retries_ok n led onMS offMS rc s :
  timer_retries (S n) led onMS offMS rc s =
    Some (0, put_file (led_file led "delay_on") (CInt onMS)
               (put_file (led_file led "delay_off") (CInt offMS) s)).
Proof.
  cbn [timer_retries]. unfold write_int.
  rewrite (bind_run _ _ _ _ _ (write_led led "delay_off" _ s ltac:(done))).
  change (0 <? 0) with false. cbn iota.
  by rewrite (bind_run _ _ _ _ _ (write_led led "delay_on" _ _ ltac:(done))).
Qed.

Lemma timer_trigger_ok led onMS offMS s :
  set_rgb_led_timer_trigger led onMS offMS s =
    Some (0, put_file (led_file led "delay_on") (CInt onMS)
               (put_file (led_file led "delay_off") (CInt offMS)
                 (put_file (led_file led "trigger") (CStr "timer") s))).
Proof.
  unfold set_rgb_led_timer_trigger, write_str.
  rewrite (bind_run _ _ _ _ _ (write_led led "trigger" _ s ltac:(done))).
  change (0 <? 0) with false. cbn iota.
  by rewrite (bind_run _ _ _ _ _ (timer_retries_ok 19 led onMS offMS 0 _)).
Qed.

(** A blinking light: with LIGHT_FLASH_TIMED every LED whose channel is not
    zero gets the timer trigger with the light's delays, the other LEDs are
    dark, and the call returns 0. *)
Theorem timed_blink (st : light_state_t) (s : leds)
    (Hmode : flashMode st = LIGHT_FLASH_TIMED) :
  ∃ s', set_speaker_light_locked st s = Some (0, s') ∧ same_globals s s' ∧
    ∀ led,
      if decide (chan led (color st) = 0) then
        files s' !! led_file led "trigger" = Some (CStr "none") ∧
        files s' !! led_file led "brightness" = Some (CInt 0)
      else
        files s' !! led_file led "trigger" = Some (CStr "timer") ∧
        files s' !! led_file led "delay_on" = Some (CInt (flashOnMS st)) ∧
        files s' !! led_file led "delay_off" = Some (CInt (flashOffMS st)) ∧
        files s' !! led_file led "sync_blink" = Some (CInt 1).
Proof.
  unfold set_speaker_light_locked. rewrite Hmode. cbn [Z.eqb LIGHT_FLASH_TIMED LIGHT_FLASH_HARDWARE].
  change (Pos.eqb 1 2) with false. change (Pos.eqb 1 1) with true. cbn iota.
  change (Z.land (Z.shiftr (color st) 16) 255) with (chan LED_RED (color st)).
  change (Z.land (Z.shiftr (color st) 8) 255) with (chan LED_GREEN (color st)).
  change (Z.land (color st) 255) with (chan LED_BLUE (color st)).
  unfold flash_timed. do 3 rewrite (bind_run _ _ _ _ _ (light_sync_ok _ _ _)).
  unfold or_if, bit, bind, ret.
  destruct (Z.eqb_spec (chan LED_RED (color st)) 0) as [Er|Er],
    (Z.eqb_spec (chan LED_GREEN (color st)) 0) as [Eg|Eg],
    (Z.eqb_spec (chan LED_BLUE (color st)) 0) as [Eb|Eb];
    rewrite ?timer_trigger_ok; change (Z.lor 0 0) with 0; cbn [Z.eqb];
    (eexists; split; [reflexivity|]; split; [done|]);
    intros []; cbn [files put_file]; rewrite ?Er, ?Eg, ?Eb;
    first [rewrite decide_True by done | rewrite decide_False by done];
    split_and!; lookups; done.
Qed.

(** When the "breath" files are missing, a light with LIGHT_FLASH_HARDWARE is
    not blinked by timer, contrary to the comment in [set_speaker_light_locked]:
    the error of the first attempt is kept in [rc], so the timed case always
    falls through to the constant one, although its own writes succeed. *)
Theorem hardware_blink_falls_to_constant (st : light_state_t) (s : leds)
    (Hmode : flashMode st = LIGHT_FLASH_HARDWARE) (Hlit : is_lit st ≠ 0)
    (Hbreath : ∀ k led, sf_open k (led_file led "breath") ≠ 0) :
  ∃ s', set_speaker_light_locked st s = Some (0, s') ∧ shows st s'.
Proof.
  assert (∀ led b s, set_rgb_led_hw_blink led b s = Some (-1, skip_step s)) as Hhw.
  { intros led b s0. unfold set_rgb_led_hw_blink, file_exists, bind.
    by rewrite (proj2 (Z.eqb_neq _ _)) by done. }
  assert (∀ rc r g b onMS offMS s, rc = -1 → 0 ≤ r ≤ 255 → 0 ≤ g ≤ 255 → 0 ≤ b ≤ 255 →
    ∃ s', flash_timed r g b onMS offMS rc s = Some (0, s') ∧ steady r g b s') as Ht.
  { intros rc r g b onMS offMS s0 -> Hr Hg Hb. unfold flash_timed.
    do 3 rewrite (bind_run _ _ _ _ _ (light_sync_ok _ _ _)).
    unfold or_if, bind, ret.
    destruct (r =? 0), (g =? 0), (b =? 0); rewrite ?timer_trigger_ok;
      rewrite ?lor_m1; cbn [Z.eqb];
      match goal with |- context [flash_none r g b ?s1] =>
        destruct (flash_none_ok r g b s1 Hr Hg Hb) as (s' & E & _ & Hs); eauto end. }
  unfold set_speaker_light_locked. rewrite Hmode. cbn [Z.eqb LIGHT_FLASH_HARDWARE].
  change (Pos.eqb 2 2) with true. cbn iota.
  change (Z.land (Z.shiftr (color st) 16) 255) with (chan LED_RED (color st)).
  change (Z.land (Z.shiftr (color st) 8) 255) with (chan LED_GREEN (color st)).
  change (Z.land (color st) 255) with (chan LED_BLUE (color st)).
  assert (∃ led, chan led (color st) ≠ 0) as [led Hled].
  { destruct (decide (chan LED_RED (color st) = 0)); [|eauto].
    destruct (decide (chan LED_GREEN (color st) = 0)); [|eauto].
    destruct (decide (chan LED_BLUE (color st) = 0)); [|eauto].
    destruct Hlit. apply is_lit_spec. by intros []. }
  unfold or_if, bind, ret.
  destruct (Z.eqb_spec (chan LED_RED (color st)) 0) as [Er|Er],
    (Z.eqb_spec (chan LED_GREEN (color st)) 0) as [Eg|Eg],
    (Z.eqb_spec (chan LED_BLUE (color st)) 0) as [Eb|Eb];
    rewrite ?Hhw, ?Z.lor_0_l, ?lor_m1; cbn [Z.eqb];
    try (apply Ht; [done|apply chan_range..]).
  by destruct led.
Qed.

End writable.

(** ** The retries of the timer trigger *)

Section faults.
Context `{Sysfs}.
Hypothesis Herrno : ∀ k p, 0 ≤ sf_open k p ∧ 0 ≤ sf_write k p.

Lemma write_file_run p c s :
  ∃ r s', write_file p c s = Some (r, s') ∧ l_step s' = S (l_step s) ∧
    (r = 0 ∧ files s' = <[p := c]> (files s) ∧
       sf_open (l_step s) p = 0 ∧ sf_write (l_step s) p = 0 ∨
     r < 0 ∧ files s' = files s ∧ (sf_open (l_step s) p ≠ 0 ∨ sf_write (l_step s) p ≠ 0)).
Proof.
  unfold write_file. destruct (Herrno (l_step s) p) as [Ho Hw].
  destruct (Z.eqb_spec (sf_open (l_step s) p) 0) as [Eo|Eo]; cbn [negb].
  - destruct (Z.eqb_spec (sf_write (l_step s) p) 0) as [Ew|Ew]; cbn [negb];
      eexists _, _; (split; [done|]; split; [done|]); [left; done|right]. split; [lia|]. auto.
  - eexists _, _. split; [done|]. split; [done|]. right. split; [lia|]. auto.
Qed.

Lemma timer_retries_run n led onMS offMS rc s :
  ∃ r s', timer_retries n led onMS offMS rc s = Some (r, s') ∧
    (l_step s' ≤ l_step s + 2 * n)%nat ∧
    (∀ p, p ≠ led_file led "delay_on" → p ≠ led_file led "delay_off" →
       files s' !! p = files s !! p) ∧
    (r = 0 ∧ files s' !! led_file led "delay_on" = Some (CInt onMS) ∧
       files s' !! led_file led "delay_off" = Some (CInt offMS) ∨
     r < 0 ∧ (l_step s + n ≤ l_step s')%nat ∨ n = 0%nat ∧ r = rc).
Proof.
  revert rc s. induction n as [|n IH]; intros rc s; cbn [timer_retries].
  { exists rc, s. split; [done|]. split; [lia|]. split; [done|]. auto. }
  unfold write_int.
  destruct (write_file_run (led_file led "delay_off") (CInt offMS) s) as (r1 & s1 & E1 & Hs1 & H1).
  rewrite (bind_run _ _ _ _ _ E1).
  destruct H1 as [(-> & F1 & _)|(Hneg & F1 & _)].
  2:{ rewrite (proj2 (Z.ltb_lt _ _)) by done.
      destruct (IH r1 s1) as (r & s' & E & Hst & Hf & Hr). exists r, s'. split; [done|].
      split; [lia|]. split; [intros; rewrite Hf, F1 by done; done|].
      destruct Hr as [?|[[? ?]|[-> ->]]]; [auto|right; left; split; [done|lia]|].
      right. left. cbn [timer_retries] in E. injection E as <-. split; [done|lia]. }
  change (0 <? 0) with false. cbn iota.
  destruct (write_file_run (led_file led "delay_on") (CInt onMS) s1) as (r2 & s2 & E2 & Hs2 & H2).
  rewrite (bind_run _ _ _ _ _ E2).
  destruct H2 as [(-> & F2 & _)|(Hneg & F2 & _)]; cbn [Z.eqb].
  - exists 0, s2. split; [done|]. split; [lia|]. split.
    + intros p Hp1 Hp2. by rewrite F2, F1, !lookup_insert_ne by done.
    + left. split; [done|]. rewrite F2, F1. split; [apply lookup_insert_eq|].
      rewrite lookup_insert_ne by (destruct led; vm_compute; discriminate). apply lookup_insert_eq.
  - rewrite (proj2 (Z.eqb_neq _ _)) by lia.
    destruct (IH r2 s2) as (r & s' & E & Hst & Hf & Hr). exists r, s'. split; [done|].
    split; [lia|]. split.
    + intros p Hp1 Hp2. by rewrite Hf, F2, F1, lookup_insert_ne by done.
    + destruct Hr as [?|[[? ?]|[-> ->]]]; [auto|right; left; split; [done|lia]|].
      right. left. cbn [timer_retries] in E. injection E as <-. split; [done|lia].
Qed.

(** Setting a timer trigger always ends, with at most 41 writes: either all
    three files hold what was asked and the result is 0, or the result is a
    negative error after the trigger was refused or twenty attempts failed. *)
Theorem timer_trigger_retries (led : rgb_led) (onMS offMS : Z) (s : leds) :
  ∃ r s', set_rgb_led_timer_trigger led onMS offMS s = Some (r, s') ∧
    (l_step s' ≤ l_step s + 41)%nat ∧
    (r = 0 ∧ files s' !! led_file led "trigger" = Some (CStr "timer") ∧
       files s' !! led_file led "delay_on" = Some (CInt onMS) ∧
       files s' !! led_file led "delay_off" = Some (CInt offMS) ∨
     r < 0 ∧ (files s' = files s ∨ (l_step s + 21 ≤ l_step s')%nat)).
Proof.
  unfold set_rgb_led_timer_trigger, write_str.
  destruct (write_file_run (led_file led "trigger") (CStr "timer") s) as (r1 & s1 & E1 & Hs1 & H1).
  rewrite (bind_run _ _ _ _ _ E1). destruct H1 as [(-> & F1 & _)|(Hneg & F1 & _)].
  2:{ rewrite (proj2 (Z.ltb_lt _ _)) by done. exists r1, s1. split; [done|]. split; [lia|]. auto. }
  change (0 <? 0) with false. cbn iota.
  destruct (timer_retries_run 20 led onMS offMS 0 s1) as (r & s' & E & Hst & Hf & Hr).
  rewrite (bind_run _ _ _ _ _ E). destruct Hr as [(-> & Hon & Hoff)|[[Hneg Hn]|[? _]]]; [| |lia].
  - change (0 <? 0) with false. exists 0, s'. split; [done|]. split; [lia|]. left.
    split; [done|]. split; [|done].
    rewrite Hf, F1 by (destruct led; vm_compute; discriminate). apply lookup_insert_eq.
  - rewrite (proj2 (Z.ltb_lt _ _)) by done. exists r, s'. split; [done|]. split; [lia|].
    right. split; [done|]. right. lia.
Qed.

End faults.

(** ** The backlight *)

Section backlight.
Context `{Sysfs}.

(** Whether an update toggles the low persistence mode. *)
Definition toggles (last : Z) (st : light_state_t) : bool :=
  negb (Bool.eqb (last =? BRIGHTNESS_MODE_LOW_PERSISTENCE)
                 (brightnessMode st =? BRIGHTNESS_MODE_LOW_PERSISTENCE)).

Definition lcd_file : string := if sf_access LCD_FILE then LCD_FILE else LCD_FILE2.

(** Setting the backlight, when the files can be written: the level goes to
    the LCD file that exists; entering or leaving low persistence also sets the
    persistence file when the panel has one, with the fixed level on entering;
    without one the level is still set but the call reports -ENOSYS.  The mode
    is remembered only on panels that have the file. *)
Theorem backlight_spec (st : light_state_t) (s : leds)
    (Hok : ∀ k p, sf_open k p = 0 ∧ sf_write k p = 0) :
  let t := toggles (g_last_backlight_mode s) st in
  let lp := brightnessMode st =? BRIGHTNESS_MODE_LOW_PERSISTENCE in
  let node := g_has_persistence_node s in
  ∃ s', set_light_backlight st s = Some (if negb node && t then - ENOSYS else 0, s') ∧
    files s' =
      <[lcd_file := CInt (if node && t && lp then 128 else rgb_to_brightness st)]>
        (if node && t then <[PERSISTENCE_FILE := CInt (if lp then 1 else 0)]> (files s)
         else files s) ∧
    g_last_backlight_mode s' = if node then brightnessMode st else g_last_backlight_mode s.
Proof.
  intros t lp node.
  assert (∀ p c s, write_file p c s = Some (0, put_file p c s)) as Hw.
  { intros p c s0. unfold write_file. by destruct (Hok (l_step s0) p) as [-> ->]. }
  unfold set_light_backlight, bind, gets, write_int, set_last_mode, ret.
  fold lp. fold node.
  assert ((negb (g_last_backlight_mode s =? brightnessMode st) && lp)
    || (negb lp && (g_last_backlight_mode s =? BRIGHTNESS_MODE_LOW_PERSISTENCE)) = t) as ->.
  { unfold t, toggles. fold lp. unfold lp.
    destruct (Z.eqb_spec (brightnessMode st) BRIGHTNESS_MODE_LOW_PERSISTENCE) as [->|Hne]; cbn [negb andb orb].
    - by destruct (g_last_backlight_mode s =? _).
    - by destruct (g_last_backlight_mode s =? BRIGHTNESS_MODE_LOW_PERSISTENCE); rewrite ?andb_false_r. }
  unfold lcd_file. destruct node, t, lp, (sf_access LCD_FILE); cbn [negb andb];
    rewrite ?Hw; cbn [Z.eqb]; rewrite ?Hw; eexists; split; reflexivity || (split; reflexivity).
Qed.

End backlight.

(** ** The service *)

Section svc.
Context `{Sysfs}.

(** The device of a name. *)
Definition device_for (name : string) : option set_light :=
  if negb (sf_module =? 0) || negb (sf_malloc name) then None
  else if String.eqb name "backlight" then Some SetBacklight
  else if String.eqb name "battery" then Some SetBattery
  else if String.eqb name "notifications" then Some SetNotifications
  else if String.eqb name "buttons" then if sf_access BUTTON_FILE then Some SetButtons else None
  else if String.eqb name "attention" then Some SetAttention
  else if String.eqb name "display_flash" || String.eqb name "exthdr" then Some SetDummy
  else None.

(** The name of a light type. *)
Fixpoint name_of (id : Z) (ls : list (Z * string)) : option string :=
  match ls with
  | [] => None
  | (type, name) :: ls' => if id =? type then Some name else name_of id ls'
  end.

(** The function behind an id. *)
Definition dispatch (id : Z) : option set_light := name_of id kLogicalLights ≫= device_for.

(** The ids of the lights that could be opened. *)
Definition opens (l : Z * string) : option Z := (λ _, l.1) <$> device_for l.2.
Definition offered : list Z := omap opens kLogicalLights.

(** Probing leaves the files alone and looks for the persistence node at most. *)
Definition probed (backlight : bool) (s s' : leds) : Prop :=
  files s' = files s ∧ g_has_persistence_node s' =
    (if backlight && (sf_module =? 0) then sf_access PERSISTENCE_FILE else g_has_persistence_node s).

Lemma getLightDevice_run name s :
  ∃ s', getLightDevice name s = Some (device_for name, s') ∧
    probed (String.eqb name "backlight") s s'.
Proof.
  unfold getLightDevice, device_for, probed. destruct (sf_module =? 0); cbn [negb orb];
    [|exists s; by rewrite andb_false_r].
  unfold open_lights, choose_light, bind, ret, set_node. rewrite andb_true_r.
  destruct (String.eqb name "display_flash" || String.eqb name "exthdr");
    repeat match goal with |- context [if String.eqb ?a ?b then _ else _] =>
      destruct (String.eqb a b) end;
    destruct (sf_malloc name), (sf_access BUTTON_FILE); eexists;
    (split; [reflexivity|by split]).
Qed.

Lemma probe_lights_run ls lights available n s :
  NoDup (fst <$> ls) →
  ∃ lights' s',
    probe_lights ls lights available n s = Some (Service lights'
      (available ++ omap opens ls)
      (n + Z.of_nat (length ls)), s') ∧
    probed (existsb (λ l, String.eqb l.2 "backlight") ls) s s' ∧
    ∀ id, lights' !! id = match name_of id ls ≫= device_for with
                          | Some f => Some f | None => lights !! id end.
Proof.
  revert lights available n s. induction ls as [|[type name] ls IH]; intros lights available n s Hn.
  { exists lights, s. cbn. rewrite app_nil_r, Z.add_0_r. by split_and!. }
  apply NoDup_cons in Hn as [Hni Hn]. destruct (getLightDevice_run name s) as (s1 & E1 & F1 & P1).
  cbn [probe_lights]. rewrite (bind_run _ _ _ _ _ E1). cbn [omap list_omap snd fst length existsb].
  unfold opens at 1. cbn [fst snd].
  set (lights1 := match device_for name with Some f => <[type := f]> lights | None => lights end).
  set (available1 := match device_for name with Some _ => available ++ [type] | None => available end).
  destruct (IH lights1 available1 (n + 1) s1 Hn) as (lights' & s' & E & (F & P) & Hl).
  assert (name_of type ls = None) as Ht.
  { clear -Hni. induction ls as [|[t m] ls IH]; [done|]. cbn in Hni. apply not_elem_of_cons in Hni as [].
    cbn. destruct (Z.eqb_spec type t); [done|auto]. }
  exists lights', s'. split_and!.
  - replace (n + Z.of_nat (S (length ls))) with (n + 1 + Z.of_nat (length ls)) by lia.
    subst lights1 available1. destruct (device_for name); rewrite E; [by rewrite <- (assoc_L (++))|done].
  - unfold probed. split; [congruence|]. rewrite P, P1. by destruct (String.eqb name "backlight"),
      (existsb _ ls), (sf_module =? 0).
  - intros id. rewrite Hl. cbn [name_of]. destruct (Z.eqb_spec id type) as [->|Hid].
    + rewrite Ht. cbn [mbind option_bind]. subst lights1.
      destruct (device_for name); [by rewrite lookup_insert_eq|done].
    + destruct (name_of id ls ≫= device_for); [done|]. subst lights1.
      destruct (device_for name); [by rewrite lookup_insert_ne|done].
Qed.

Lemma lights_new_run s :
  ∃ svc s', lights_new s = Some (svc, s') ∧ probed true s s' ∧ maxLights svc = 8 ∧
    mAvailableLights svc = offered ∧
    ∀ id, mLights svc !! id = dispatch id.
Proof.
  destruct (probe_lights_run kLogicalLights ∅ [] 0 s) as (m & s' & E & P & Hm).
  { apply (bool_decide_unpack _). by vm_compute. }
  eexists _, s'. do 4 (split; [done|]).
  intros id. cbn [mLights]. rewrite Hm, lookup_empty. unfold dispatch. by case_match.
Qed.

Lemma setLightState_missing svc id st s :
  mLights svc !! id = None → setLightState svc id st s = Some (StUnsupported, s).
Proof. intros E. unfold setLightState. rewrite E. by case_match. Qed.

Lemma setLightState_call svc id f st s r s2 :
  mLights svc !! id = Some f → id < maxLights svc →
  call_set_light f (LightState (u32 (color st)) (flashMode st) (flashOnMS st)
                      (flashOffMS st) (brightnessMode st)) s = Some (r, s2) →
  setLightState svc id st s =
    Some (if r =? - ENOSYS then StUnsupported else if r =? 0 then StOk
          else StServiceSpecific r, s2).
Proof.
  intros E Hid Hc. unfold setLightState. rewrite (proj2 (Z.leb_gt _ _)) by done.
  rewrite E. by rewrite (bind_run _ _ _ _ _ Hc).
Qed.

(** The service offers exactly the lights it could open, in the order of their
    types: none when the module is missing, and with the module and enough memory the
    backlight, battery, notifications and attention, and the buttons when their file
    exists.  Each of those ids reaches its own function, every other id is refused as
    unsupported without any effect, and the result of the function is reported as ok,
    unsupported for -ENOSYS, or the service-specific error. *)
Theorem service_dispatch (s : leds) :
  ∃ svc s', lights_new s = Some (svc, s') ∧ probed true s s' ∧
    getLights svc [] = offered ∧
    (sf_module ≠ 0 → getLights svc [] = []) ∧
    (sf_module = 0 → (∀ name, sf_malloc name = true) →
      getLights svc [] = if sf_access BUTTON_FILE then [0; 2; 3; 4; 5] else [0; 3; 4; 5]) ∧
    ∀ id st s,
      match dispatch id with
      | None => setLightState svc id st s = Some (StUnsupported, s)
      | Some f => ∀ r s2,
          call_set_light f (LightState (u32 (color st)) (flashMode st) (flashOnMS st)
                              (flashOffMS st) (brightnessMode st)) s = Some (r, s2) →
          setLightState svc id st s =
            Some (if r =? - ENOSYS then StUnsupported else if r =? 0 then StOk
                  else StServiceSpecific r, s2)
      end.
Proof.
  destruct (lights_new_run s) as (svc & s' & E & Hp & Hm & Ha & Hl).
  exists svc, s'. unfold getLights. cbn [app]. rewrite Ha. do 3 (split; [done|]). split_and!.
  - intros Hmod. apply Z.eqb_neq in Hmod. unfold offered, opens, device_for. by rewrite Hmod.
  - intros Hmod Hmem. apply Z.eqb_eq in Hmod.
    assert (∀ name, negb (sf_module =? 0) || negb (sf_malloc name) = false) as Hok
      by (intros; by rewrite Hmod, Hmem).
    unfold offered, opens, device_for, kLogicalLights. cbn [omap list_omap fst snd].
    rewrite !Hok. cbn. by destruct (sf_access BUTTON_FILE).
  - intros id st s0. destruct (dispatch id) as [f|] eqn:Ed; [|apply setLightState_missing; by rewrite Hl].
    intros r s2. apply setLightState_call; [by rewrite Hl|]. rewrite Hm.
    unfold dispatch, kLogicalLights in Ed. cbn [name_of] in Ed. repeat case_match; zbool; try lia; done.
Qed.

End svc.

(** ** A concrete board *)

(** Every file can be written, [breath] says whether the LEDs breathe. *)
Definition board (breath : bool) : Sysfs :=
  {| sf_access := λ _, true;
     sf_open := λ _ p, if negb breath && (String.eqb p (led_file LED_RED "breath") ||
                          String.eqb p (led_file LED_GREEN "breath") ||
                          String.eqb p (led_file LED_BLUE "breath")) then 2 else 0;
     sf_write := λ _ _, 0;
     sf_read := λ _, Some (Some 200);
     sf_module := 0;
     sf_malloc := λ _, true |}.

Lemma board_writable breath : @leds_writable (board breath).
Proof.
  intros k led f Hf. split; [|reflexivity]. cbn [sf_open board].
  assert (∀ led', String.eqb (led_file led f) (led_file led' "breath") = false) as Hne.
  { intros led'. apply String.eqb_neq. intros E. apply Hf. destruct led, led';
      cbn in E; simplify_eq; done. }
  by rewrite !Hne, andb_false_r.
Qed.

Lemma board_max breath : @max_readable (board breath) (λ _, 200).
Proof. intros led. split; [reflexivity|lia]. Qed.

Definition red_light : light_state_t := LightState 0xFFFF0000 LIGHT_FLASH_NONE 0 0 0.
Definition green_light : light_state_t := LightState 0xFF00FF00 LIGHT_FLASH_NONE 0 0 0.

Lemma led_arbitration_witness :
  ∃ s', @run_events (board true)
          [EvNotification green_light; EvBattery red_light; EvNotification green_light]
          leds_init = Some (0, s') ∧
    files s' !! led_file LED_RED "brightness" = Some (CInt 200).
Proof.
  destruct (@led_arbitration (board true) (λ _, 200) (board_writable _) (board_max _)
    [EvNotification green_light; EvBattery red_light; EvNotification green_light] leds_init)
    as (s' & E & Hs).
  - discriminate.
  - repeat constructor; discriminate.
  - split; discriminate.
  - split; discriminate.
  - exists s'. split; [exact E|]. destruct (Hs LED_RED) as (_ & _ & Hb).
    vm_compute in Hb |- *. exact Hb.
Defined.

Lemma timed_blink_witness :
  ∃ s', @set_speaker_light_locked (board true) (LightState 0xFF0000FF LIGHT_FLASH_TIMED 500 700 0)
          leds_init = Some (0, s') ∧
    files s' !! led_file LED_BLUE "delay_off" = Some (CInt 700).
Proof.
  destruct (@timed_blink (board true) (λ _, 200) (board_writable _) (board_max _)
    (LightState 0xFF0000FF LIGHT_FLASH_TIMED 500 700 0) leds_init) as (s' & E & _ & Hs).
  - reflexivity.
  - exists s'. split; [exact E|]. specialize (Hs LED_BLUE).
    rewrite decide_False in Hs by discriminate. apply Hs.
Defined.

Lemma hardware_blink_falls_to_constant_witness :
  ∃ s', @set_speaker_light_locked (board false)
          (LightState 0xFF0000FF LIGHT_FLASH_HARDWARE 500 700 0) leds_init = Some (0, s') ∧
    files s' !! led_file LED_BLUE "trigger" = Some (CStr "none").
Proof.
  destruct (@hardware_blink_falls_to_constant (board false) (λ _, 200) (board_writable _)
    (board_max _) (LightState 0xFF0000FF LIGHT_FLASH_HARDWARE 500 700 0) leds_init)
    as (s' & E & Hs).
  - reflexivity.
  - discriminate.
  - intros k []; vm_compute; discriminate.
  - exists s'. split; [exact E|]. apply (Hs LED_BLUE).
Defined.

Lemma timer_trigger_retries_witness :
  ∃ r s', @set_rgb_led_timer_trigger (board true) LED_RED 500 700 leds_init = Some (r, s') ∧
    (l_step s' ≤ 41)%nat.
Proof.
  destruct (@timer_trigger_retries (board true)) with (led := LED_RED) (onMS := 500)
    (offMS := 700) (s := leds_init) as (r & s' & E & Hst & _).
  - intros k p. split; vm_compute; discriminate.
  - exists r, s'. split; [exact E|exact Hst].
Defined.

Lemma backlight_spec_witness :
  ∃ s', @set_light_backlight (board true) (LightState 0xFF808080 0 0 0 2) leds_init
          = Some (- ENOSYS, s') ∧
    files s' !! LCD_FILE = Some (CInt 128).
Proof.
  destruct (@backlight_spec (board true) (LightState 0xFF808080 0 0 0 2) leds_init)
    as (s' & E & Hf & _).
  - intros k p. split; reflexivity.
  - exists s'. split; [exact E|]. rewrite Hf. vm_compute. reflexivity.
Defined.

End Lights.
