(* ===== verification/Interaction.v ===== *)
(** * Interaction: the interaction boost of the power HAL
      (aidl/power-libperfmgr/InteractionHandler.{h,cpp})

    Clients call [Acquire]; a worker thread runs [Routine], which waits for the
    display to become idle and then ends the boost.  Every critical section
    under [mLock] is one atomic function on the state [handler]; [step] is the
    interleaving of the clients' calls with the worker, whose program counter is
    part of the state.  The event descriptor is its counter.  What [poll] and
    [pread] report is chosen by the environment at every wait.

    Init and Exit are called by the owner of the handler, one after the other:
    [Init] does not run while an [Exit] is joining the worker. *)

From stdpp Require Import relations.
From S2P Require Import Prelude.

Module Interaction.

Definition MSINSEC : Z := 1000.
Definition NSINMS : Z := 1000000.

Inductive InteractionState :=
  | INTERACTION_STATE_UNINITIALIZED
  | INTERACTION_STATE_IDLE
  | INTERACTION_STATE_INTERACTION
  | INTERACTION_STATE_WAITING.
#[global] Instance InteractionState_eq_dec : EqDecision InteractionState.
Proof. solve_decision. Defined.

Record timespec := Timespec { tv_sec : Z; tv_nsec : Z }.

(** Where the worker thread is. *)
Inductive worker :=
  | NoThread        (* not created *)
  | AtWait          (* at [mCond.wait], or about to take the lock before it *)
  | AtPoll          (* in [WaitForIdle] *)
  | AtRelease       (* about to call [Release] *)
  | Returned.       (* [Routine] has returned *)
#[global] Instance worker_eq_dec : EqDecision worker.
Proof. solve_decision. Defined.

(** The calls of HintManager for the hint "INTERACTION". *)
Inductive hint_call := DoHint | DoHintFor (ms : Z) | EndHint.
#[global] Instance hint_call_eq_dec : EqDecision hint_call.
Proof. solve_decision. Defined.

Record handler := Handler {
  mState : InteractionState;
  mEvent : Z;                   (* the counter of mEventFd *)
  mDurationMs : Z;
  mLastTimespec : timespec;
  pc : worker;
  exiting : bool;               (* an [Exit] is waiting for the worker *)
  hints : list hint_call;       (* the hint calls made, in order *)
}.

(** The constructor. *)
Definition handler_new : handler :=
  Handler INTERACTION_STATE_UNINITIALIZED 0 0 (Timespec 0 0) NoThread false [].

(** The properties the file reads. *)
Class Props := {
  kDisplayIdleSupport : bool;
  kMinDurationMs : Z;           (* uint32 *)
  kMaxDurationMs : Z;
  kDurationOffsetMs : Z;
}.

Section code.
Context `{Props}.

Definition CalcTimespecDiffMs (start end_ : timespec) : Z :=
  let diff_in_ms := u64 (0 + (tv_sec end_ - tv_sec start) * MSINSEC) in
  u64 (diff_in_ms + Z.quot (tv_nsec end_ - tv_nsec start) NSINMS).

(** [open] of the two paths: the first descriptor, or -1. *)
Definition FbIdleOpen (open0 open1 : Z) : Z :=
  if 0 <=? open0 then open0 else if 0 <=? open1 then open1 else -1.

Definition Init (open0 open1 event : Z) (h : handler) : bool * handler :=
  if decide (mState h ≠ INTERACTION_STATE_UNINITIALIZED) then (true, h)
  else if FbIdleOpen open0 open1 <? 0 then (false, h)
  else if event <? 0 then (false, h)
  else (true, Handler INTERACTION_STATE_IDLE 0 (mDurationMs h) (mLastTimespec h) AtWait
                (exiting h) (hints h)).

Definition AbortWaitLocked (h : handler) : handler :=
  Handler (mState h) (mEvent h + 1) (mDurationMs h) (mLastTimespec h) (pc h) (exiting h) (hints h).

Definition set_mState (st : InteractionState) (h : handler) : handler :=
  Handler st (mEvent h) (mDurationMs h) (mLastTimespec h) (pc h) (exiting h) (hints h).

Definition hint (c : hint_call) (h : handler) : handler :=
  Handler (mState h) (mEvent h) (mDurationMs h) (mLastTimespec h) (pc h) (exiting h)
    (hints h ++ [c]).

(** [Exit] up to the join. *)
Definition Exit_begin (h : handler) : handler :=
  if decide (mState h = INTERACTION_STATE_UNINITIALIZED) then h
  else
    let h := AbortWaitLocked h in
    let h := set_mState INTERACTION_STATE_UNINITIALIZED h in
    Handler (mState h) (mEvent h) (mDurationMs h) (mLastTimespec h) (pc h) true (hints h).

(** [Exit] once the worker has returned: the descriptors are closed. *)
Definition Exit_end (h : handler) : handler :=
  Handler (mState h) 0 (mDurationMs h) (mLastTimespec h) NoThread false (hints h).

Definition PerfLock : handler → handler := hint DoHint.
Definition PerfRel : handler → handler := hint EndHint.

(** The duration of a boost; the comparisons are unsigned. *)
Definition final_duration (duration : Z) : Z :=
  let inputDuration := i32 (u32 (duration + kDurationOffsetMs)) in
  if kMaxDurationMs <? u32 inputDuration then i32 kMaxDurationMs
  else if kMinDurationMs <? u32 inputDuration then inputDuration
  else i32 kMinDurationMs.

Definition Acquire (cur_timespec : timespec) (duration : Z) (h : handler) : handler :=
  let finalDuration := final_duration duration in
  if negb kDisplayIdleSupport || bool_decide (mState h = INTERACTION_STATE_UNINITIALIZED)
  then hint (DoHintFor finalDuration) h
  else if bool_decide (mState h ≠ INTERACTION_STATE_IDLE) && (finalDuration <=? mDurationMs h) &&
          (CalcTimespecDiffMs (mLastTimespec h) cur_timespec <=?
             u64 (mDurationMs h - finalDuration))
  then h
  else
    let h := Handler (mState h) (mEvent h) finalDuration cur_timespec (pc h) (exiting h) (hints h) in
    let h := match mState h with
             | INTERACTION_STATE_WAITING => AbortWaitLocked h
             | INTERACTION_STATE_IDLE => PerfLock h
             | _ => h
             end in
    set_mState INTERACTION_STATE_INTERACTION h.

Definition Release (h : handler) : handler :=
  if decide (mState h = INTERACTION_STATE_WAITING) then
    set_mState INTERACTION_STATE_IDLE (PerfRel h)
  else
    (* the read of a non-blocking eventfd clears its counter, or fails on 0 *)
    Handler (mState h) 0 (mDurationMs h) (mLastTimespec h) (pc h) (exiting h) (hints h).

(** How [WaitForIdle] returns: what the first [poll] returned, what [pread]
    read, what the second [poll] returned and which descriptor it reported. *)
Inductive wait_result := WaitAborted | WaitPollError | WaitEof | WaitAlreadyIdle
                       | WaitIdleError | WaitTimeout | WaitIdleAborted | WaitIdleDetected
                       | WaitOther.

Definition WaitForIdle (poll1 pread : Z) (data : list Z) (poll2 : Z) (revents0 revents1 : bool)
    : option wait_result :=
  if 0 <? poll1 then Some WaitAborted
  else if poll1 <? 0 then Some WaitPollError
  else if pread =? 0 then Some WaitEof
  else
    idle ← strncmp_eq data (cstring "idle") 4;
    if idle : bool then Some WaitAlreadyIdle
    else if poll2 <? 0 then Some WaitIdleError
    else if poll2 =? 0 then Some WaitTimeout
    else if revents0 then Some WaitIdleAborted
    else if revents1 then Some WaitIdleDetected
    else Some WaitOther.

Definition set_pc (p : worker) (h : handler) : handler :=
  Handler (mState h) (mEvent h) (mDurationMs h) (mLastTimespec h) p (exiting h) (hints h).

(** One step of [Routine]; [None]: the worker waits on the condition, or there
    is no worker.  [AtPoll] stands for the whole of [WaitForIdle], which changes
    nothing. *)
Definition Routine_step (h : handler) : option handler :=
  match pc h with
  | NoThread | Returned => None
  | AtWait =>
      match mState h with
      | INTERACTION_STATE_IDLE => None
      | INTERACTION_STATE_UNINITIALIZED => Some (set_pc Returned h)
      | _ => Some (set_pc AtPoll (set_mState INTERACTION_STATE_WAITING h))
      end
  | AtPoll => Some (set_pc AtRelease h)
  | AtRelease => Some (set_pc AtWait (Release h))
  end.

(** The steps of a session: everything but [Exit]. *)
Inductive session_step : handler → handler → Prop :=
  | step_init h o0 o1 e : exiting h = false → session_step h (Init o0 o1 e h).2
  | step_acquire h now d : session_step h (Acquire now d h)
  | step_worker h h' : Routine_step h = Some h' → session_step h h'.

(** All interleavings. *)
Inductive step : handler → handler → Prop :=
  | step_session h h' : session_step h h' → step h h'
  | step_exit_begin h : exiting h = false → step h (Exit_begin h)
  | step_exit_end h : exiting h = true → pc h = Returned → step h (Exit_end h).

Definition reachable (h : handler) : Prop := rtc step handler_new h.
Definition session (h : handler) : Prop := rtc session_step handler_new h.

End code.

(** ** The state machine *)

Section invariant.
Context `{Props}.

(** Which combinations of the handler's state, the worker's place and the
    event counter occur. *)
Definition inv (h : handler) : Prop :=
  match mState h with
  | INTERACTION_STATE_UNINITIALIZED =>
      if exiting h then pc h ≠ NoThread ∧ (pc h ≠ AtPoll ∨ 0 < mEvent h)
      else pc h = NoThread
  | INTERACTION_STATE_IDLE => exiting h = false ∧ pc h = AtWait ∧ mEvent h = 0
  | INTERACTION_STATE_WAITING =>
      exiting h = false ∧ (pc h = AtPoll ∨ pc h = AtRelease) ∧ mEvent h = 0
  | INTERACTION_STATE_INTERACTION =>
      exiting h = false ∧
      (pc h = AtWait ∧ mEvent h = 0 ∨ (pc h = AtPoll ∨ pc h = AtRelease) ∧ mEvent h = 1)
  end.

Ltac crush_handler :=
  repeat match goal with
  | h : handler |- _ => destruct h as [[] ? ? ? [] [] ?]
  end; cbn in *; try naive_solver; try lia.

Lemma inv_init o0 o1 e h : exiting h = false → inv h → inv (Init o0 o1 e h).2.
Proof. intros He Hi. unfold Init. repeat case_match; try done. Qed.

Lemma inv_acquire now d h : inv h → inv (Acquire now d h).
Proof.
  intros Hi. unfold Acquire. destruct (_ || _) eqn:E1; [done|].
  apply orb_false_iff in E1 as [_ E1]. apply bool_decide_eq_false in E1.
  destruct (_ && _); [done|]. unfold inv in *.
  cbn [mState]. destruct (mState h) eqn:Em;
    cbn [mState set_mState AbortWaitLocked PerfLock hint pc exiting mEvent]; try done.
  - destruct Hi as (? & ? & ?). tauto.
  - destruct Hi as (? & ? & ->). split; [done|]. right. split; [done|lia].
Qed.

Lemma inv_worker h h' : Routine_step h = Some h' → inv h → inv h'.
Proof.
  unfold Routine_step, inv, Release. intros E Hi.
  destruct (pc h) eqn:Ep, (mState h) eqn:Em; try discriminate; injection E as <-;
    cbn [mState mEvent pc exiting set_pc set_mState PerfRel hint Release];
    rewrite ?Em; try rewrite decide_True by done; try rewrite decide_False by done;
    cbn [mState mEvent pc exiting set_pc set_mState PerfRel hint]; rewrite ?Em;
    repeat case_match; naive_solver.
Qed.

Lemma inv_session h h' : session_step h h' → inv h → inv h'.
Proof. intros []; eauto using inv_init, inv_acquire, inv_worker. Qed.

Lemma inv_exit_begin h : exiting h = false → inv h → inv (Exit_begin h).
Proof.
  intros He Hi. unfold Exit_begin. case_decide as Hm; [done|]. unfold inv in *.
  cbn [mState set_mState AbortWaitLocked exiting pc mEvent]. rewrite He in Hi.
  destruct (mState h); try done.
  - destruct Hi as (_ & -> & _). split; [done|by left].
  - destruct Hi as (_ & [[-> _]|[Hp ->]]); [split; [done|by left]|].
    split; [destruct Hp as [-> | ->]; done|right; lia].
  - destruct Hi as (_ & Hp & ->). split; [destruct Hp as [-> | ->]; done|right; lia].
Qed.

Lemma inv_step h h' : step h h' → inv h → inv h'.
Proof.
  intros [] Hi; eauto using inv_session, inv_exit_begin.
  unfold inv in *. cbn [mState Exit_end exiting pc].
  match goal with He : exiting ?x = true |- _ => rewrite He in Hi; destruct (mState x) end; naive_solver.
Qed.

Lemma reachable_inv h : reachable h → inv h.
Proof.
  apply (rtc_ind_r inv); [done|]. eauto using inv_step.
Qed.

(** C9. The interplay of clients and worker, over every interleaving: a wait
    starts with no abort pending, so it is not cut short by an old one; an
    [Acquire] or [Exit] during a wait always leaves an abort pending, so the
    worker notices it; the handler is idle only while the worker sleeps on the
    condition, and while it sleeps idle no abort is pending. *)
Theorem worker_never_misses_abort (h : handler) (Hr : reachable h) :
  (∀ h', Routine_step h = Some h' → pc h = AtWait → pc h' = AtPoll → mEvent h' = 0) ∧
  (pc h = AtPoll → mState h ≠ INTERACTION_STATE_WAITING → 0 < mEvent h) ∧
  (mState h = INTERACTION_STATE_IDLE → pc h = AtWait ∧ mEvent h = 0) ∧
  (pc h = NoThread → mState h = INTERACTION_STATE_UNINITIALIZED).
Proof.
  apply reachable_inv in Hr. unfold inv in Hr. split; [|split; [|split]].
  - intros h' E Hp Hp'. unfold Routine_step in E. rewrite Hp in *.
    destruct (mState h) eqn:Em; try discriminate; injection E as <-; cbn in Hp' |- *;
      try discriminate; naive_solver.
  - intros Hp Hm. rewrite Hp in Hr. destruct (mState h); try done; try naive_solver.
    + destruct (exiting h); [|done]. naive_solver.
    + destruct Hr as (_ & [[? _]|[_ ->]]); [done|lia].
  - intros Hm. rewrite Hm in Hr. tauto.
  - intros Hp. rewrite Hp in Hr. destruct (mState h); naive_solver.
Qed.

(** ** The boost *)

(** Whether the boost [PerfLock] starts is on after the hint calls; a timed hint
    ends by itself and is not counted. *)
Definition held (cs : list hint_call) : bool :=
  fold_left (λ b c, match c with DoHint => true | EndHint => false | DoHintFor _ => b end) cs false.

Definition active (st : InteractionState) : bool :=
  match st with INTERACTION_STATE_INTERACTION | INTERACTION_STATE_WAITING => true | _ => false end.

Lemma held_snoc cs c :
  held (cs ++ [c]) = match c with DoHint => true | EndHint => false | DoHintFor _ => held cs end.
Proof. unfold held. by rewrite fold_left_app. Qed.

Lemma held_session h h' :
  session_step h h' → held (hints h) = active (mState h) → held (hints h') = active (mState h').
Proof.
  intros [x o0 o1 e He|x now d|x y E] Hh.
  - unfold Init. case_decide as Hm; [done|]. rewrite Hm in Hh.
    repeat case_match; cbn [hints mState snd]; rewrite ?Hm; done.
  - unfold Acquire. destruct (_ || _) eqn:E1.
    { cbn [hint hints mState]. by rewrite held_snoc. }
    apply orb_false_iff in E1 as [_ E1]. apply bool_decide_eq_false in E1.
    destruct (_ && _); [done|]. cbn [mState].
    destruct (mState x) eqn:Em; cbn [hints set_mState AbortWaitLocked PerfLock hint mState active] in *;
      rewrite ?held_snoc; done.
  - unfold Routine_step in E. destruct (pc x), (mState x) eqn:Em; try discriminate; injection E as <-;
      cbn [hints mState set_pc set_mState] in *; rewrite ?Em; try done;
      unfold Release; rewrite Em; try rewrite decide_True by done; try rewrite decide_False by done;
      cbn [hints mState set_mState PerfRel hint]; rewrite ?held_snoc, ?Em; done.
Qed.

Lemma session_held h : session h → held (hints h) = active (mState h).
Proof.
  apply (rtc_ind_r (λ h, held (hints h) = active (mState h))); [done|].
  eauto using held_session.
Qed.

Lemma session_inv h : session h → inv h.
Proof.
  intros Hr. apply reachable_inv. eapply rtc_subrel; [|exact Hr]. intros x y Hxy. by constructor.
Qed.

(** The hint calls of a session whose handler is in state [st]: the timed hints of
    the calls that could not be tracked, then [n] boosts that were started and
    ended, then the one that is on. *)
Definition session_hints (timed : list Z) (n : nat) (st : InteractionState) : list hint_call :=
  map DoHintFor timed ++ concat (replicate n [DoHint; EndHint]) ++
  (if active st then [DoHint] else []).

(** Calls are tracked once the handler is initialised, when the display reports
    that it is idle. *)
Definition tracking (h : handler) : Prop :=
  kDisplayIdleSupport = true ∧ mState h ≠ INTERACTION_STATE_UNINITIALIZED.

Definition hints_ok (h : handler) : Prop :=
  ∃ timed n, hints h = session_hints timed n (mState h) ∧
    (¬ tracking h → n = 0%nat ∧ active (mState h) = false).

Lemma hints_ok_same h h' :
  mState h' = mState h → hints h' = hints h → hints_ok h → hints_ok h'.
Proof. unfold hints_ok, tracking. by intros -> ->. Qed.

(** The handler stays in a boost, or out of it. *)
Lemma hints_ok_moved h h' :
  mState h' ≠ INTERACTION_STATE_UNINITIALIZED → active (mState h') = active (mState h) →
  hints h' = hints h → hints_ok h → hints_ok h'.
Proof.
  intros Hu Ha Hh (timed & n & E & Ht). exists timed, n. unfold session_hints.
  rewrite Hh, Ha. split; [done|]. intros Hn. apply Ht. unfold tracking in *.
  intros [Hk _]. by apply Hn.
Qed.

Lemma hints_ok_timed h d :
  ¬ tracking h → hints_ok h → hints_ok (hint (DoHintFor d) h).
Proof.
  intros Hn (timed & n & E & Ht). destruct (Ht Hn) as [-> Ha].
  exists (timed ++ [d]), 0%nat. unfold session_hints in *.
  cbn [hint hints mState]. rewrite E, Ha, map_app. cbn. by rewrite !app_nil_r.
Qed.

Lemma hints_ok_session h h' : session_step h h' → hints_ok h → hints_ok h'.
Proof.
  intros [x o0 o1 e He|x now d|x y E] Hh.
  - unfold Init. case_decide as Hm; [done|]. repeat case_match; try done.
    by eapply hints_ok_moved; [..|exact Hh]; rewrite ?Hm.
  - unfold Acquire. destruct (_ || _) eqn:E1.
    { apply hints_ok_timed; [|done]. intros [Hk Hm]. rewrite Hk in E1.
      apply bool_decide_eq_true in E1. done. }
    apply orb_false_iff in E1 as [Ek E1]. apply bool_decide_eq_false in E1.
    apply negb_false_iff in Ek. destruct (_ && _); [done|]. cbn [mState].
    destruct (mState x) eqn:Em; [done| |by eapply hints_ok_moved; [..|exact Hh]; rewrite ?Em..].
    destruct Hh as (timed & n & Eh & _). rewrite Em in Eh. exists timed, n.
    split; [|intros []; by split]. cbn [hints set_mState PerfLock hint mState].
    rewrite Eh. unfold session_hints. cbn [active]. by rewrite app_nil_r, <- app_assoc.
  - unfold Routine_step in E. destruct (pc x), (mState x) eqn:Em; try discriminate; injection E as <-;
      try (by eapply hints_ok_same; [..|exact Hh]);
      try (by eapply hints_ok_moved; [..|exact Hh]; cbn; rewrite ?Em).
    all: unfold Release; rewrite Em; try rewrite decide_True by done; try rewrite decide_False by done;
      try (by eapply hints_ok_same; [..|exact Hh]; cbn; rewrite ?Em).
    destruct Hh as (timed & n & Eh & Ht). rewrite Em in Eh. exists timed, (S n). split.
    + cbn [hints set_pc set_mState PerfRel hint mState]. rewrite Eh. unfold session_hints. cbn [active].
      by rewrite replicate_S_end, concat_app, app_nil_r, <- !app_assoc.
    + intros Hn. destruct Ht as [_ Ha]; [|by rewrite Em in Ha].
      intros [Hk _]. apply Hn. by split.
Qed.

Lemma session_hints_ok h : session h → hints_ok h.
Proof.
  apply (rtc_ind_r hints_ok); [|eauto using hints_ok_session]. by exists [], 0%nat.
Qed.

(** C10. The boosts of a session (a run of clients, [Init] and worker without
    [Exit]), over every interleaving.  The hint calls are, in order: timed hints,
    issued while calls are not tracked (before [Init], or without display idle
    support); then boosts that were started and ended in turn, so none is
    forgotten and none ended twice; then the one that is on.  The boost that is
    started without a time is on exactly while the handler is in an interaction or
    waiting for idle, and a handler that does not track calls has none. *)
Theorem boost_held_iff_active (h : handler) (Hs : session h) :
  (∃ timed n, hints h = session_hints timed n (mState h) ∧
     (kDisplayIdleSupport = false ∨ mState h = INTERACTION_STATE_UNINITIALIZED →
      hints h = map DoHintFor timed)) ∧
  (held (hints h) = true ↔
   mState h = INTERACTION_STATE_INTERACTION ∨ mState h = INTERACTION_STATE_WAITING).
Proof.
  split.
  - destruct (session_hints_ok h Hs) as (timed & n & E & Ht). exists timed, n. split; [done|].
    intros Hn. destruct Ht as [-> Ha].
    { intros [Hk Hm]. destruct Hn as [Hn|Hn]; [congruence|done]. }
    rewrite E. unfold session_hints. rewrite Ha. cbn. by rewrite app_nil_r.
  - rewrite session_held by done. destruct (mState h); cbn; naive_solver.
Qed.

(** [n] steps of the worker, stopping when it sleeps. *)
Fixpoint worker_run (n : nat) (h : handler) : handler :=
  match n with
  | O => h
  | S n' => match Routine_step h with Some h' => worker_run n' h' | None => h end
  end.

(** C30. The boost ends: from every state of a session, once the clients are quiet
    and the waits return, the worker is back asleep after at most five steps,
    the handler is idle and the boost is off. *)
Theorem boost_ends (h : handler) (Hs : session h)
    (Hinit : mState h ≠ INTERACTION_STATE_UNINITIALIZED) :
  let h' := worker_run 5 h in
  mState h' = INTERACTION_STATE_IDLE ∧ pc h' = AtWait ∧ Routine_step h' = None ∧
  held (hints h') = false.
Proof.
  intros h'. assert (mState h' = INTERACTION_STATE_IDLE ∧ pc h' = AtWait ∧ Routine_step h' = None)
    as (H1 & H2 & H3).
  { pose proof (session_inv h Hs) as Hi. unfold inv in Hi. unfold h'.
    destruct h as [[] ev du ts [] ex hs]; cbn in Hi, Hinit; try done; naive_solver. }
  split_and!; try done.
  assert (session h') as Hs'.
  { clear H1 H2 H3 Hinit. unfold h'. clear h'. revert h Hs. generalize 5%nat. induction n as [|n IH];
      intros h Hs; cbn [worker_run]; [done|].
    destruct (Routine_step h) eqn:E; [|done]. apply IH. eapply rtc_r; [done|by constructor]. }
  by rewrite session_held, H1 by done.
Qed.

End invariant.

(** ** Durations and times *)

Section durations.
Context `{Props}.

(** The properties hold sensible values: at most about 24 days, in order. *)
Definition props_ok : Prop :=
  0 ≤ kMinDurationMs ≤ kMaxDurationMs ∧ kMaxDurationMs < 2 ^ 31 ∧ 0 ≤ kDurationOffsetMs < 2 ^ 31.

Lemma i32_id z : 0 ≤ z < 2 ^ 31 → i32 z = z.
Proof. intros. apply wraps_small; simpl; lia. Qed.

Lemma u32_i32 z : u32 (i32 (u32 z)) = u32 z.
Proof.
  unfold wrapu, wraps. change (2 ^ (32 - 1)) with (2 ^ 31).
  rewrite Zminus_mod_idemp_l. replace (z mod 2 ^ 32 + 2 ^ 31 - 2 ^ 31) with (z mod 2 ^ 32) by lia.
  apply Zmod_mod.
Qed.

(** The length of a boost is always between the minimum and the maximum; for
    a duration that is not negative it is the duration plus the offset, clamped;
    a duration below minus the offset gives the maximum, the sum being compared
    as unsigned. *)
Theorem final_duration_spec (d : Z) (Hp : props_ok) (Hd : - 2 ^ 31 ≤ d < 2 ^ 31) :
  kMinDurationMs ≤ final_duration d ≤ kMaxDurationMs ∧
  (0 ≤ d → final_duration d =
     Z.max kMinDurationMs (Z.min kMaxDurationMs (d + kDurationOffsetMs))) ∧
  (d + kDurationOffsetMs < 0 → final_duration d = kMaxDurationMs).
Proof.
  destruct Hp as (Hmin & Hmax & Hoff). unfold final_duration. rewrite u32_i32.
  rewrite (i32_id kMinDurationMs), (i32_id kMaxDurationMs) by lia.
  set (x := d + kDurationOffsetMs).
  assert (0 ≤ u32 x < 2 ^ 32) as Hx by (by apply wrapu_range).
  assert (u32 x ≤ kMaxDurationMs → i32 (u32 x) = u32 x) as Hi by (intros; apply i32_id; lia).
  split; [|split].
  - zcase; rewrite ?Hi by lia; lia.
  - intros Hd0. assert (u32 x = x) as E by (apply wrapu_small; unfold x; lia).
    rewrite E in *. zcase; rewrite ?Hi by lia; lia.
  - intros Hneg. assert (u32 x = x + 2 ^ 32) as E.
    { unfold wrapu. symmetry. apply (Z.mod_unique_pos x (2 ^ 32) (-1)); unfold x in *; lia. }
    rewrite E. rewrite (proj2 (Z.ltb_lt _ _)) by (unfold x in *; lia). done.
Qed.

(** The time in nanoseconds; a normalised timespec. *)
Definition ns (t : timespec) : Z := tv_sec t * 1000000000 + tv_nsec t.
Definition normal (t : timespec) : Prop := 0 ≤ tv_sec t < 2 ^ 53 ∧ 0 ≤ tv_nsec t < 1000000000.

Lemma diff_ms_value a b :
  normal a → normal b → ns a ≤ ns b →
  ∃ q, CalcTimespecDiffMs a b = q ∧ 0 ≤ q < 2 ^ 63 + 1000 ∧
    - NSINMS < q * NSINMS - (ns b - ns a) < NSINMS.
Proof.
  intros [Ha1 Ha2] [Hb1 Hb2] Hab. unfold CalcTimespecDiffMs, MSINSEC, NSINMS, ns in *.
  set (S := tv_sec b - tv_sec a). set (N := tv_nsec b - tv_nsec a).
  assert (0 ≤ S * 1000000000 + N) by (unfold S, N; lia).
  assert (0 ≤ S) by (unfold S, N in *; lia). assert (S < 2 ^ 53) by (unfold S; lia).
  assert (-1000000000 < N < 1000000000) by (unfold N; lia).
  assert (S = 0 → 0 ≤ Z.quot N 1000000) by (intros; apply Z.quot_pos; lia).
  pose proof (Z.quot_rem' N 1000000) as Hq.
  pose proof (Z.rem_bound_abs N 1000000 ltac:(lia)) as Hr.
  set (q := Z.quot N 1000000) in *. set (r := Z.rem N 1000000) in *.
  assert (-1000000 < r < 1000000) by lia. clearbody q r.
  assert (- 1000 ≤ q ≤ 1000) by lia. assert (0 ≤ S * 1000 + q) by lia.
  rewrite (wrapu_small 64 (0 + S * 1000)) by lia. rewrite wrapu_small by lia.
  exists (0 + S * 1000 + q). split; [done|]. split; [lia|].
  unfold S, N in *. lia.
Qed.

(** [CalcTimespecDiffMs] on a monotone clock does not wrap and is less than
    one millisecond off the time that passed. *)
Theorem timespec_diff_accurate (a b : timespec) (Ha : normal a) (Hb : normal b)
    (Hab : ns a ≤ ns b) :
  0 ≤ CalcTimespecDiffMs a b ∧
  - NSINMS < CalcTimespecDiffMs a b * NSINMS - (ns b - ns a) < NSINMS.
Proof. destruct (diff_ms_value a b Ha Hb Hab) as (q & -> & Hq & Hn). split; lia. Qed.

(** A request is dropped only when the boost in progress covers it: if
    [Acquire] leaves an active handler as it was, the boost that was requested
    would have ended less than a millisecond after the current one, at most. *)
Theorem dropped_request_covered (now : timespec) (d : Z) (h : handler)
    (Hsupport : kDisplayIdleSupport = true)
    (Hactive : active (mState h) = true)
    (Hsame : Acquire now d h = h)
    (Hne : mLastTimespec h ≠ now)
    (Hl : normal (mLastTimespec h)) (Hn : normal now) (Hmono : ns (mLastTimespec h) ≤ ns now)
    (Hdur : 0 ≤ mDurationMs h < 2 ^ 31) (Hfd : 0 ≤ final_duration d) :
  ns now + final_duration d * NSINMS < ns (mLastTimespec h) + (mDurationMs h + 1) * NSINMS.
Proof.
  destruct (diff_ms_value _ _ Hl Hn Hmono) as (q & Eq & Hq & Hqn).
  revert Hsame. unfold Acquire. rewrite Hsupport, Eq. cbn [negb orb].
  rewrite bool_decide_false by (destruct (mState h); done).
  rewrite bool_decide_true by (destruct (mState h); done). cbn [andb].
  destruct (Z.leb_spec (final_duration d) (mDurationMs h)) as [Hle|Hgt]; cbn [andb].
  - rewrite (wrapu_small 64) by lia.
    destruct (Z.leb_spec q (mDurationMs h - final_duration d)) as [Hq'|Hq'].
    + intros _. unfold NSINMS in *. nia.
    + intros E. destruct Hne. cbn [mState] in E. destruct (mState h); try done;
        apply (f_equal mLastTimespec) in E; symmetry; exact E.
  - intros E. destruct Hne. cbn [mState] in E. destruct (mState h); try done;
      apply (f_equal mLastTimespec) in E; symmetry; exact E.
Qed.

End durations.

(** ** Concrete runs *)

(** The defaults of the properties. *)
Definition default_props : Props :=
  {| kDisplayIdleSupport := true; kMinDurationMs := 1400; kMaxDurationMs := 5650;
     kDurationOffsetMs := 650 |}.

(** Init, then a request while idle, then the worker waits and another, longer
    request comes. *)
Definition run_1 : handler := (Init 3 (-1) 4 handler_new).2.
Definition run_2 : handler := @Acquire default_props (Timespec 10 0) 1000 run_1.
Definition run_3 : handler := worker_run 1 run_2.
Definition run_4 : handler := @Acquire default_props (Timespec 11 0) 4000 run_3.

Lemma run_4_session : @session default_props run_4.
Proof.
  eapply rtc_l; [apply (step_init handler_new 3 (-1) 4); reflexivity|].
  eapply rtc_l; [apply (step_acquire _ (Timespec 10 0) 1000)|].
  eapply rtc_l; [apply step_worker; vm_compute; reflexivity|].
  eapply rtc_l; [apply (step_acquire _ (Timespec 11 0) 4000)|]. vm_compute. apply rtc_refl.
Qed.

Lemma worker_never_misses_abort_witness : 0 < mEvent run_4.
Proof.
  destruct (@worker_never_misses_abort default_props run_4) as (_ & Ha & _).
  - eapply rtc_subrel; [|exact run_4_session]. intros x y Hxy. apply step_session, Hxy.
  - apply Ha; [vm_compute; reflexivity|vm_compute; discriminate].
Defined.

Lemma boost_held_iff_active_witness : held (hints run_4) = true.
Proof.
  apply (@boost_held_iff_active default_props run_4 run_4_session). left. vm_compute. reflexivity.
Defined.

Lemma boost_ends_witness : held (hints (worker_run 5 run_4)) = false.
Proof.
  apply (@boost_ends default_props run_4 run_4_session). vm_compute. discriminate.
Defined.

Lemma final_duration_spec_witness :
  @final_duration default_props 1000 = 1650 ∧ @final_duration default_props (-1000) = 5650.
Proof.
  assert (@props_ok default_props) as Hp by (vm_compute; done). split.
  - destruct (@final_duration_spec default_props 1000 Hp) as (_ & Hc & _); [lia|].
    rewrite Hc by lia. vm_compute. reflexivity.
  - destruct (@final_duration_spec default_props (-1000) Hp) as (_ & _ & Hn); [lia|].
    apply Hn. vm_compute. reflexivity.
Defined.

Lemma timespec_diff_accurate_witness :
  CalcTimespecDiffMs (Timespec 10 999999900) (Timespec 11 100) * NSINMS - 200 < NSINMS.
Proof.
  destruct (timespec_diff_accurate (Timespec 10 999999900) (Timespec 11 100)) as [_ H].
  - split; cbn; lia.
  - split; cbn; lia.
  - vm_compute. discriminate.
  - unfold ns in H. cbn [tv_sec tv_nsec] in H. lia.
Defined.

Lemma dropped_request_covered_witness :
  ns (Timespec 11 500000000) + 1400 * NSINMS < ns (Timespec 11 0) + 4651 * NSINMS.
Proof.
  apply (@dropped_request_covered default_props (Timespec 11 500000000) 0 run_4);
    try (vm_compute; reflexivity); try (vm_compute; discriminate);
    try (vm_compute; split; split; reflexivity || discriminate);
    try (vm_compute; split; reflexivity || discriminate).
Defined.

(** [Exit] during a boost leaves the boost on: the worker returns without
    ending the hint, the descriptors are closed, and nothing ends it later. *)
Theorem exit_leaves_boost_on :
  ∃ h, @reachable default_props h ∧ pc h = NoThread ∧ exiting h = false ∧
    mState h = INTERACTION_STATE_UNINITIALIZED ∧ held (hints h) = true ∧
    Routine_step h = None.
Proof.
  exists (Exit_end (worker_run 3 (Exit_begin run_4))). split; [|vm_compute; done].
  unfold reachable. etrans.
  { eapply rtc_subrel; [|exact run_4_session]. intros x y Hxy. apply step_session, Hxy. }
  eapply rtc_l; [apply step_exit_begin; vm_compute; reflexivity|].
  eapply rtc_l; [apply step_session, step_worker; vm_compute; reflexivity|].
  eapply rtc_l; [apply step_session, step_worker; vm_compute; reflexivity|].
  eapply rtc_l; [apply step_session, step_worker; vm_compute; reflexivity|].
  eapply rtc_l; [apply step_exit_end; vm_compute; reflexivity|]. vm_compute. apply rtc_refl.
Qed.

End Interaction.
