(* ===== verification/PowerPid.v ===== *)
(** * PowerPid: the controller of a hint session
      (aidl/power-libperfmgr/PowerHintSession.cpp, lines 51-120)

    [convertWorkDurationToBoostByPid] turns the reported work durations into a
    change of the boost.  The integer part runs on [int64_t]: an operation whose
    result does not fit is undefined and makes the result [None].  The gains are
    [double]s: the arithmetic is the Standard Library's executable IEEE 754
    binary64 model, and the conversion of a [double] outside the range of the
    integer type is undefined.

    The profile [AdpfConfig] belongs to libperfmgr; its fields are arguments.
    Reporting to the trace buffer and the warning about far-off durations are
    left out, except for the overflow the test of the warning can have. *)

From Stdlib Require Import SpecFloat.
From S2P Require Import Prelude.

Module Pid.

(** ** Checked integers *)

Definition int_fits (w z : Z) : bool := (- 2 ^ (w - 1) <=? z) && (z <? 2 ^ (w - 1)).

Definition checked (w z : Z) : option Z := if int_fits w z then Some z else None.
Abbreviation ck64 := (checked 64).
Abbreviation ck32 := (checked 32).

Lemma checked_Some w z : - 2 ^ (w - 1) ≤ z < 2 ^ (w - 1) → checked w z = Some z.
Proof. intros. unfold checked, int_fits. by zbool. Qed.

Lemma checked_inv w z r : checked w z = Some r → r = z ∧ - 2 ^ (w - 1) ≤ z < 2 ^ (w - 1).
Proof.
  unfold checked, int_fits. zcase; simpl; intros [= <-]; lia.
Qed.

(** ** Doubles *)

Definition double : Type := spec_float.
Definition of_int (z : Z) : double := binary_normalize 53 1024 z 0 false.
Definition dmul : double → double → double := SFmul 53 1024.
Definition ddiv : double → double → double := SFdiv 53 1024.
Definition dadd : double → double → double := SFadd 53 1024.

(** The integer a finite double truncates to. *)
Definition trunc (d : double) : option Z :=
  match d with
  | S754_zero _ => Some 0
  | S754_finite s m e =>
      let a := if 0 <=? e then Z.pos m * 2 ^ e else Z.pos m / 2 ^ (- e) in
      Some (if s then - a else a)
  | S754_infinity _ | S754_nan => None
  end.

(** [static_cast<int64_t>] *)
Definition to_int64 (d : double) : option Z := trunc d ≫= ck64.

(** ** The profile (libperfmgr's AdpfConfig) *)

Record AdpfConfig := Adpf {
  mPidOn : bool;
  mPidPo : double;
  mPidPu : double;
  mPidI : double;
  mPidDo : double;
  mPidDu : double;
  getPidIHighDivI : Z;
  getPidILowDivI : Z;
  mUclampMinOn : bool;
  mUclampMinInit : Z;       (* uint32_t *)
  mUclampMinHigh : Z;       (* uint32_t *)
  mUclampMinLow : Z;        (* uint32_t *)
  mSamplingWindowP : Z;     (* uint64_t *)
  mSamplingWindowI : Z;     (* uint64_t *)
  mSamplingWindowD : Z;     (* uint64_t *)
  mEarlyBoostOn : bool;
  mEarlyBoostTimeFactor : double;
  mTargetTimeFactor : double;
  mStaleTimeFactor : double;
  mReportingRateLimitNs : Z;  (* int64_t *)
}.

Record WorkDuration := Work { timeStampNanos : Z; durationNanos : Z }.

(** ** The controller *)

Definition ns_to_100us (ns : Z) : Z := Z.quot ns 100000.

(** The index the sampling window [w] starts at. *)
Definition window_start (w length : Z) : Z :=
  if (w =? 0) || (length <? w) then 0 else length - w.

Record pid_acc := Acc {
  err_sum : Z; derivative_sum : Z; integral_error : Z; previous_error : Z }.

Section code.
Context (adpfConfig : AdpfConfig).

(** The body of the loop for the duration at index [i]. *)
Definition pid_body (targetDurationNanos dt p_start i_start d_start i : Z) (w : WorkDuration)
    (a : pid_acc) : option pid_acc :=
  let actualDurationNanos := durationNanos w in
  _ ← ck64 (Z.abs actualDurationNanos);
  _ ← ck64 (targetDurationNanos * 20);
  diff ← ck64 (actualDurationNanos - targetDurationNanos);
  let error := ns_to_100us diff in
  d ← (if d_start <=? i then
         x ← ck64 (error - previous_error a); ck64 (derivative_sum a + x)
       else Some (derivative_sum a));
  p ← (if p_start <=? i then ck64 (err_sum a + error) else Some (err_sum a));
  ie ← (if i_start <=? i then
          x ← ck64 (error * dt);
          y ← ck64 (integral_error a + x);
          Some (Z.max (getPidILowDivI adpfConfig) (Z.min (getPidIHighDivI adpfConfig) y))
        else Some (integral_error a));
  Some (Acc p d ie error).

Fixpoint pid_loop (targetDurationNanos dt p_start i_start d_start i : Z) (ws : list WorkDuration)
    (a : pid_acc) : option pid_acc :=
  match ws with
  | [] => Some a
  | w :: ws' =>
      a' ← pid_body targetDurationNanos dt p_start i_start d_start i w a;
      pid_loop targetDurationNanos dt p_start i_start d_start (i + 1) ws' a'
  end.

(** The boost change, the integral error and the previous error. *)
Definition convertWorkDurationToBoostByPid (targetDurationNanos : Z)
    (actualDurations : list WorkDuration) (ie pe : Z) : option (Z * (Z * Z)) :=
  let len := Z.of_nat (length actualDurations) in
  let p_start := window_start (mSamplingWindowP adpfConfig) len in
  let i_start := window_start (mSamplingWindowI adpfConfig) len in
  let d_start := window_start (mSamplingWindowD adpfConfig) len in
  let dt := ns_to_100us targetDurationNanos in
  let start := Z.min (Z.min p_start i_start) d_start in
  a ← pid_loop targetDurationNanos dt p_start i_start d_start start
        (drop (Z.to_nat start) actualDurations) (Acc 0 0 ie pe);
  pOut ← to_int64 (ddiv (dmul (if 0 <? err_sum a then mPidPo adpfConfig else mPidPu adpfConfig)
                              (of_int (err_sum a)))
                        (of_int (len - p_start)));
  iOut ← to_int64 (dmul (mPidI adpfConfig) (of_int (integral_error a)));
  dOut ← to_int64 (ddiv (ddiv (dmul (if 0 <? derivative_sum a then mPidDo adpfConfig
                                     else mPidDu adpfConfig)
                                    (of_int (derivative_sum a)))
                              (of_int dt))
                        (of_int (len - d_start)));
  o ← ck64 (pOut + iOut);
  output ← ck64 (o + dOut);
  Some (output, (integral_error a, previous_error a)).

End code.

(** ** The reference controller

    The errors of a report are the distances of its durations from the target, in
    units of 100 microseconds.  The proportional term sums those of its window,
    the integral term accumulates those of its window with saturation, and the
    derivative term is the difference between the last error and the one before
    its window. *)

Definition work_error (target : Z) (w : WorkDuration) : Z :=
  ns_to_100us (durationNanos w - target).

Definition sum (l : list Z) : Z := foldr Z.add 0 l.

Definition saturate (lo hi z : Z) : Z := Z.max lo (Z.min hi z).

Definition integrate (cfg : AdpfConfig) (dt ie : Z) (errs : list Z) : Z :=
  foldl (λ x e, saturate (getPidILowDivI cfg) (getPidIHighDivI cfg) (x + e * dt)) ie errs.

(** The telescoped derivative of the errors [errs], which follow [prev], over
    the window that starts at the index [k]. *)
Definition derivative (prev : Z) (errs : list Z) (k : nat) : Z :=
  if decide (k < length errs)%nat then
    List.last errs prev - List.last (take k errs) prev
  else 0.

(** Durations of up to 2^45 ns (about ten hours), reports of up to 2^30
    durations and integral bounds of up to 2^60 keep every operation in range. *)
Definition work_sane (w : WorkDuration) : Prop := Z.abs (durationNanos w) ≤ 2 ^ 45.
Definition cfg_sane (cfg : AdpfConfig) : Prop :=
  (Z.abs (getPidILowDivI cfg) ≤ 2 ^ 60 ∧ Z.abs (getPidIHighDivI cfg) ≤ 2 ^ 60) ∧
  0 ≤ mSamplingWindowP cfg ∧ 0 ≤ mSamplingWindowI cfg ∧ 0 ≤ mSamplingWindowD cfg.

Lemma saturate_bounds lo hi z : lo ≤ hi → lo ≤ saturate lo hi z ≤ hi.
Proof. unfold saturate. lia. Qed.

Lemma ns_to_100us_bound z b : Z.abs z ≤ b → Z.abs (ns_to_100us z) ≤ b / 100000.
Proof.
  intros H. unfold ns_to_100us. rewrite <- Z.quot_abs by lia.
  rewrite (Z.quot_div_nonneg (Z.abs z) (Z.abs 100000)) by lia.
  change (Z.abs 100000) with 100000. apply Z.div_le_mono; lia.
Qed.

Lemma work_error_bound target w :
  0 ≤ target ≤ 2 ^ 45 → work_sane w → Z.abs (work_error target w) ≤ 2 ^ 30.
Proof.
  intros Ht Hw. unfold work_error, work_sane in *.
  etrans; [apply (ns_to_100us_bound _ (2 ^ 46)); lia|]. by vm_compute.
Qed.

Section loop.
Context (cfg : AdpfConfig) (target : Z).
Context (Hcfg : cfg_sane cfg) (Htarget : 0 ≤ target ≤ 2 ^ 45).
#[local] Notation dt := (ns_to_100us target).

Lemma integrate_bound ie errs :
  Z.abs ie ≤ 2 ^ 60 → Z.abs (integrate cfg dt ie errs) ≤ 2 ^ 60.
Proof.
  revert ie. induction errs as [|e errs IH]; intros ie Hie; [done|].
  cbn. apply IH. unfold saturate. destruct Hcfg as [[] _]. lia.
Qed.

(** What the loop keeps in range: the bounds grow with the durations seen. *)
Definition acc_sane (n : Z) (a : pid_acc) : Prop :=
  Z.abs (err_sum a) ≤ 2 ^ 30 * n ∧ Z.abs (derivative_sum a) ≤ 2 ^ 31 * n ∧
  Z.abs (integral_error a) ≤ 2 ^ 60 ∧ Z.abs (previous_error a) ≤ 2 ^ 30.

Lemma pid_body_run p i d k n w a :
  work_sane w → 0 ≤ n ≤ 2 ^ 30 → acc_sane n a →
  let e := work_error target w in
  let a' := Acc (if p <=? k then err_sum a + e else err_sum a)
                (if d <=? k then derivative_sum a + (e - previous_error a) else derivative_sum a)
                (if i <=? k then saturate (getPidILowDivI cfg) (getPidIHighDivI cfg)
                                          (integral_error a + e * dt)
                 else integral_error a) e in
  pid_body cfg target dt p i d k w a = Some a' ∧ acc_sane (n + 1) a'.
Proof.
  intros Hw Hn (H1 & H2 & H3 & H4) e a'.
  assert (Z.abs e ≤ 2 ^ 30) as He by (by apply work_error_bound).
  assert (0 ≤ dt ≤ 2 ^ 29) as Hdt.
  { pose proof (ns_to_100us_bound target (2 ^ 45) ltac:(lia)) as Hb.
    change (2 ^ 45 / 100000) with 351843720 in Hb.
    assert (0 ≤ dt) by (apply Z.quot_pos; lia). lia. }
  assert (Z.abs (e * dt) ≤ 2 ^ 59) as Hp by (rewrite Z.abs_mul; nia).
  unfold work_sane in Hw. split.
  - unfold pid_body, e, work_error in *.
    rewrite (checked_Some 64 (Z.abs _)), (checked_Some 64 (target * 20)),
      (checked_Some 64 (durationNanos w - target)) by lia.
    cbn [mbind option_bind]. unfold a'.
    destruct (d <=? k), (p <=? k), (i <=? k);
      repeat (rewrite checked_Some by lia; cbn [mbind option_bind]); reflexivity.
  - destruct Hcfg as [[] _]. unfold acc_sane, a'; cbn. repeat split;
      repeat match goal with |- context [if ?b then _ else _] => destruct b end;
      unfold saturate; lia.
Qed.

Lemma last_cons_default {A} (x y : A) l : List.last (x :: l) y = List.last l x.
Proof. revert x y. induction l as [|z l IH]; intros x y; [done|]. cbn in *. by rewrite IH. Qed.

Lemma derivative_cons prev e errs k :
  derivative prev (e :: errs) k =
  match k with
  | O => e - prev + derivative e errs 0
  | S k' => derivative e errs k'
  end.
Proof.
  unfold derivative. rewrite last_cons_default. destruct k as [|k]; cbn [take length].
  - rewrite decide_True by lia. destruct errs as [|e' errs].
    + rewrite decide_False by (cbn; lia). cbn. lia.
    + rewrite decide_True by (cbn; lia). cbn [List.last take]. lia.
  - rewrite last_cons_default. repeat case_decide; lia.
Qed.

(** The loop from index [k] on adds each window's term. *)
Lemma pid_loop_run p i d ws k a :
  Forall work_sane ws → 0 ≤ k → k + Z.of_nat (length ws) ≤ 2 ^ 30 → acc_sane k a →
  let errs := work_error target <$> ws in
  pid_loop cfg target dt p i d k ws a = Some
    (Acc (err_sum a + sum (drop (Z.to_nat (p - k)) errs))
         (derivative_sum a + derivative (previous_error a) errs (Z.to_nat (d - k)))
         (integrate cfg dt (integral_error a) (drop (Z.to_nat (i - k)) errs))
         (List.last errs (previous_error a))).
Proof.
  revert k a. induction ws as [|w ws IH]; intros k a Hws Hk Hl Ha errs.
  - unfold errs. cbn. rewrite !drop_nil. cbn. rewrite !Z.add_0_r. by destruct a.
  - apply Forall_cons in Hws as [Hw Hws]. cbn [length] in Hl.
    destruct (pid_body_run p i d k k w a Hw ltac:(lia) Ha) as [E Ha'].
    cbn [pid_loop]. rewrite E. cbn [mbind option_bind].
    rewrite IH by (done || lia). unfold errs. rewrite fmap_cons. set (e := work_error target w).
    rewrite last_cons_default, derivative_cons. cbn [err_sum derivative_sum integral_error previous_error].
    f_equal. f_equal.
    + destruct (Z.leb_spec p k).
      * replace (Z.to_nat (p - (k + 1))) with O by lia. replace (Z.to_nat (p - k)) with O by lia.
        rewrite !drop_0. unfold sum. cbn [foldr]. lia.
      * replace (Z.to_nat (p - k)) with (S (Z.to_nat (p - (k + 1)))) by lia. done.
    + destruct (Z.leb_spec d k).
      * replace (Z.to_nat (d - (k + 1))) with O by lia. replace (Z.to_nat (d - k)) with O by lia. lia.
      * replace (Z.to_nat (d - k)) with (S (Z.to_nat (d - (k + 1)))) by lia. done.
    + destruct (Z.leb_spec i k).
      * replace (Z.to_nat (i - (k + 1))) with O by lia. replace (Z.to_nat (i - k)) with O by lia. done.
      * replace (Z.to_nat (i - k)) with (S (Z.to_nat (i - (k + 1)))) by lia. done.
Qed.

End loop.

Lemma last_drop {A} (l : list A) k x y :
  (k < length l)%nat → List.last (drop k l) x = List.last l y.
Proof.
  revert k x y. induction l as [|z l IH]; intros [|k] x y Hk; cbn in Hk; try lia.
  - rewrite drop_0, !last_cons_default. done.
  - rewrite last_cons_default. cbn [drop]. apply IH. lia.
Qed.

Lemma div_zero_undefined x y : to_int64 (ddiv (ddiv x (of_int 0)) y) = None.
Proof. destruct x as [[]|[]| |[]], y as [[]|[]| |[]]; reflexivity. Qed.

Section theorems.
Context (cfg : AdpfConfig).

(** C28. The controller computes the reference terms.  For reports and profiles
    of sane size no integer operation overflows, and when the three products with
    the gains are representable, the output is the sum of: the gain for being
    over or under the target times the mean error of the proportional window; the
    integral gain times the saturated integral error; the derivative gain times
    the mean slope of the derivative window.  The integral error is kept between
    the profile's bounds, and the last error is kept for the next report.  When
    all windows start late in the batch, the error that precedes them is the one
    kept from the last report. *)
Theorem pid_reference (target : Z) (ws : list WorkDuration) (ie pe pOut iOut dOut : Z) :
  cfg_sane cfg → 0 ≤ target ≤ 2 ^ 45 → ws ≠ [] → Z.of_nat (length ws) ≤ 2 ^ 30 →
  Forall work_sane ws → Z.abs ie ≤ 2 ^ 60 → Z.abs pe ≤ 2 ^ 30 →
  let len := Z.of_nat (length ws) in
  let p0 := window_start (mSamplingWindowP cfg) len in
  let i0 := window_start (mSamplingWindowI cfg) len in
  let d0 := window_start (mSamplingWindowD cfg) len in
  let start := Z.min (Z.min p0 i0) d0 in
  let errs := work_error target <$> ws in
  let P := sum (drop (Z.to_nat p0) errs) in
  let I := integrate cfg (ns_to_100us target) ie (drop (Z.to_nat i0) errs) in
  let D := derivative pe (drop (Z.to_nat start) errs) (Z.to_nat (d0 - start)) in
  to_int64 (ddiv (dmul (if 0 <? P then mPidPo cfg else mPidPu cfg) (of_int P))
                 (of_int (len - p0))) = Some pOut →
  to_int64 (dmul (mPidI cfg) (of_int I)) = Some iOut →
  to_int64 (ddiv (ddiv (dmul (if 0 <? D then mPidDo cfg else mPidDu cfg) (of_int D))
                       (of_int (ns_to_100us target)))
                 (of_int (len - d0))) = Some dOut →
  Z.abs pOut ≤ 2 ^ 61 → Z.abs iOut ≤ 2 ^ 61 → Z.abs dOut ≤ 2 ^ 61 →
  convertWorkDurationToBoostByPid cfg target ws ie pe =
    Some (pOut + iOut + dOut, (I, List.last errs pe)) ∧
  (getPidILowDivI cfg ≤ getPidIHighDivI cfg → getPidILowDivI cfg ≤ I ≤ getPidIHighDivI cfg).
Proof.
  intros Hc Ht Hne Hl Hws Hie Hpe len p0 i0 d0 start errs.
  assert (0 ≤ start ≤ len - 1 ∧ start ≤ p0 ∧ start ≤ i0 ∧ 0 ≤ i0 < len) as (Hs & Hsp & Hsi & Hi).
  { assert (0 < len) by (destruct ws; [done|unfold len; cbn; lia]).
    destruct Hc as (_ & ? & ? & ?).
    unfold start, p0, i0, d0, window_start. zcase; cbn; lia. }
  assert (∀ x, start ≤ x → (Z.to_nat start + Z.to_nat (x - start))%nat = Z.to_nat x) as Hdrop by lia.
  assert (length errs = Z.to_nat len) as Hle by (unfold errs, len; rewrite length_fmap; lia).
  intros P I D HP HI HD HbP HbI HbD.
  split.
  - unfold convertWorkDurationToBoostByPid.
    fold len. fold p0 i0 d0. fold start.
    rewrite (pid_loop_run cfg target Hc Ht); cycle 1.
    { by apply Forall_drop. } { clear -Hs. lia. } { rewrite length_drop. clear -Hl Hs. unfold len in Hs. lia. }
    { clear -Hs Hie Hpe. revert Hs. generalize start. intros z Hz. unfold acc_sane; cbn. lia. }
    rewrite fmap_drop. fold errs. cbn [mbind option_bind err_sum derivative_sum integral_error previous_error].
    rewrite !drop_drop, !Z.add_0_l.
    rewrite !Hdrop by done. fold P I D. rewrite HP, HI, HD. cbn [mbind option_bind].
    rewrite !checked_Some by (clear -HbP HbI HbD; lia). cbn [mbind option_bind].
    rewrite checked_Some by (clear -HbP HbI HbD; lia). cbn [mbind option_bind].
    do 3 f_equal. apply last_drop. rewrite Hle. clear -Hs. lia.
  - intros Hlh. unfold I, integrate.
    destruct (drop (Z.to_nat i0) errs) as [|e l _] eqn:E using rev_ind.
    + apply (f_equal length) in E. rewrite length_drop, Hle in E. clear -E Hi. cbn in E. lia.
    + rewrite foldl_snoc. by apply saturate_bounds.
Qed.

(** A target below 100 microseconds is not handled: the derivative term
    divides by the target in units of 100 microseconds, which is 0, and the
    conversion of the result to an integer is undefined, whatever is reported. *)
Theorem pid_short_target (target : Z) (ws : list WorkDuration) (ie pe : Z) :
  0 ≤ target < 100000 → convertWorkDurationToBoostByPid cfg target ws ie pe = None.
Proof.
  intros Ht. unfold convertWorkDurationToBoostByPid.
  replace (ns_to_100us target) with 0 by (unfold ns_to_100us; by rewrite Z.quot_small by lia).
  destruct (pid_loop _ _ _ _ _ _ _ _ _) as [a|]; [|done]. cbn [mbind option_bind].
  destruct (to_int64 (ddiv (dmul _ _) _)) as [pOut|]; [|done]. cbn [mbind option_bind].
  destruct (to_int64 (dmul _ _)) as [iOut|]; [|done]. cbn [mbind option_bind].
  rewrite div_zero_undefined. done.
Qed.
End theorems.

(** ** A profile and reports *)

(** The double [m] / 2^[k]. *)
Definition dyadic (m k : Z) : double := binary_normalize 53 1024 m (- k) false.

(** Gains 2.0 and 1.0, 1/1024, 4.0 and 0.0; boosts from 2 to 480; windows of
    1, 0 (all) and 1; early boost at 0.75 of the target, stale after 20 targets. *)
Definition sample_cfg : AdpfConfig :=
  Adpf true (dyadic 2 0) (dyadic 1 0) (dyadic 1 10) (dyadic 4 0) (dyadic 0 0)
    524288 (-122880) true 200 480 2 1 0 1 true (dyadic 3 2) (dyadic 1 0) (dyadic 20 0) 16666666.

Definition sample_report : list WorkDuration :=
  [Work 20000000 10000000; Work 36000000 18500000].

Lemma pid_reference_witness :
  convertWorkDurationToBoostByPid sample_cfg 16000000 sample_report 100 5 = Some (47, (-5500, 25)) ∧
  -122880 ≤ -5500 ≤ 524288.
Proof.
  assert (cfg_sane sample_cfg) by (vm_compute; intuition congruence).
  assert (Forall work_sane sample_report) by (repeat constructor; by vm_compute).
  destruct (pid_reference sample_cfg 16000000 sample_report 100 5 50 (-5) 2) as [E B];
    [done|lia|done|by vm_compute|done|lia|lia|by vm_compute|by vm_compute|by vm_compute|lia|lia|lia|].
  rewrite E. split; [by vm_compute|lia].
Defined.

Lemma pid_short_target_witness :
  convertWorkDurationToBoostByPid sample_cfg 50000 sample_report 0 0 = None.
Proof. apply pid_short_target. lia. Defined.
End Pid.
