(* ===== verification/PowerSession.v ===== *)
(** * PowerSession: hint sessions and their manager
      (aidl/power-libperfmgr/PowerHintSession.{h,cpp},
       aidl/power-libperfmgr/PowerSessionManager.{h,cpp})

    A client opens a session for some of its threads and reports how long its
    work takes; the session asks for a minimum utilisation (uclamp.min) for the
    threads, and the manager gives every thread the largest request of the
    sessions that include it.  A timer drops the request of a session that has
    stopped reporting.

    [world] holds the allocated sessions ([heap], by an identifier that stands for
    the pointer), the manager's containers, the messages posted to the looper of
    PowerHintMonitor, the clamps set in the kernel and the clock.  Every method
    is one function on the world and runs at one instant of the clock; PowerRace.v
    splits the handlers and [close] at their locks.  A pointer to a
    session that is no longer allocated, or to a missing profile, makes the result
    [None], as does arithmetic out of range.  A container indexed at a missing
    key yields an empty set here; the source inserts one, and nothing but the
    dump looks at the keys.  The order in which an [unordered_set] is walked is that of [elements].

    The trace buffer and the log are left out; the dump is in PowerDump.v. *)

From stdpp Require Import relations fin_maps fin_sets.
From S2P Require Import Prelude PowerPid.

Module Session.
Import Pid.

Definition AID_APP_START : Z := 10000.
Definition kMaxUclampValue : Z := 1024.

(** ** State *)

(** A session: AppHintDesc, PowerHintSession and its two handlers. *)
Record session := Sess {
  tgid : Z;
  uid : Z;
  threadIds : list Z;
  duration : Z;
  current_min : Z;
  is_active : bool;
  update_count : Z;
  integral_error : Z;
  previous_error : Z;
  mSessionClosed : bool;
  mLastUpdatedTime : Z;
  mLastStartedTimeNs : Z;
  mLastDurationNs : Z;
  mWorkPeriodNs : Z;
  mStaleTime : Z;           (* StaleTimerHandler *)
  stale_monitoring : bool;
  stale_dead : bool;
  mBoostTime : Z;           (* EarlyBoostHandler *)
  early_monitoring : bool;
  early_dead : bool;
}.

(** The handlers a message can be for. *)
Inductive handler := HStale (id : nat) | HEarlyBoost (id : nat) | HManager | HWakeup.
#[global] Instance handler_eq_dec : EqDecision handler.
Proof. solve_decision. Defined.

Inductive hint_call := DoHint (name : string) | EndHint (name : string).
#[global] Instance hint_call_eq_dec : EqDecision hint_call.
Proof. solve_decision. Defined.

Record world := World {
  heap : gmap nat session;
  mSessions : gset nat;
  mTidRefCountMap : gmap Z Z;
  mTidSessionListMap : gmap Z (gset nat);
  mActive : bool;
  mDisplayRefreshRate : Z;
  adpf : option AdpfConfig;       (* HintManager's profile *)
  queue : list (Z * handler);     (* due time and handler of the posted messages *)
  hints : list hint_call;         (* the hint calls made, in order *)
  util_min : gmap Z Z;            (* uclamp.min of the threads *)
  now : Z;                        (* steady_clock, in ns *)
  calls : nat;                    (* calls answered by the platform *)
}.

(** What the platform answers: libprocessgroup's SetTaskProfiles and the system
    call sched_setattr by the number of the call, and libperfmgr's hints. *)
Class Platform := {
  SetTaskProfiles_ok : nat → Z → string → bool;
  sched_setattr_ok : nat → Z → bool;
  IsHintSupported : string → bool;
  SetAdpfProfile : string → AdpfConfig → AdpfConfig;
  kDisableBoostHintName : string;
}.

Abbreviation P := (M world).
Definition get : P world := λ w, Some (w, w).
Definition modify (f : world → world) : P unit := λ w, Some (tt, f w).

Definition set_heap (h : gmap nat session) (w : world) : world :=
  World h (mSessions w) (mTidRefCountMap w) (mTidSessionListMap w) (mActive w)
    (mDisplayRefreshRate w) (adpf w) (queue w) (hints w) (util_min w) (now w) (calls w).
Definition set_sessions (x : gset nat) (w : world) : world :=
  World (heap w) x (mTidRefCountMap w) (mTidSessionListMap w) (mActive w)
    (mDisplayRefreshRate w) (adpf w) (queue w) (hints w) (util_min w) (now w) (calls w).
Definition set_refs (x : gmap Z Z) (w : world) : world :=
  World (heap w) (mSessions w) x (mTidSessionListMap w) (mActive w)
    (mDisplayRefreshRate w) (adpf w) (queue w) (hints w) (util_min w) (now w) (calls w).
Definition set_lists (x : gmap Z (gset nat)) (w : world) : world :=
  World (heap w) (mSessions w) (mTidRefCountMap w) x (mActive w)
    (mDisplayRefreshRate w) (adpf w) (queue w) (hints w) (util_min w) (now w) (calls w).
Definition set_active (x : bool) (w : world) : world :=
  World (heap w) (mSessions w) (mTidRefCountMap w) (mTidSessionListMap w) x
    (mDisplayRefreshRate w) (adpf w) (queue w) (hints w) (util_min w) (now w) (calls w).
Definition set_rate (x : Z) (w : world) : world :=
  World (heap w) (mSessions w) (mTidRefCountMap w) (mTidSessionListMap w) (mActive w)
    x (adpf w) (queue w) (hints w) (util_min w) (now w) (calls w).
Definition set_adpf (x : option AdpfConfig) (w : world) : world :=
  World (heap w) (mSessions w) (mTidRefCountMap w) (mTidSessionListMap w) (mActive w)
    (mDisplayRefreshRate w) x (queue w) (hints w) (util_min w) (now w) (calls w).
Definition set_queue (x : list (Z * handler)) (w : world) : world :=
  World (heap w) (mSessions w) (mTidRefCountMap w) (mTidSessionListMap w) (mActive w)
    (mDisplayRefreshRate w) (adpf w) x (hints w) (util_min w) (now w) (calls w).
Definition add_hint (x : hint_call) (w : world) : world :=
  World (heap w) (mSessions w) (mTidRefCountMap w) (mTidSessionListMap w) (mActive w)
    (mDisplayRefreshRate w) (adpf w) (queue w) (hints w ++ [x]) (util_min w) (now w) (calls w).
Definition set_util (x : gmap Z Z) (w : world) : world :=
  World (heap w) (mSessions w) (mTidRefCountMap w) (mTidSessionListMap w) (mActive w)
    (mDisplayRefreshRate w) (adpf w) (queue w) (hints w) x (now w) (calls w).
Definition set_now (x : Z) (w : world) : world :=
  World (heap w) (mSessions w) (mTidRefCountMap w) (mTidSessionListMap w) (mActive w)
    (mDisplayRefreshRate w) (adpf w) (queue w) (hints w) (util_min w) x (calls w).
Definition count_call (w : world) : world :=
  World (heap w) (mSessions w) (mTidRefCountMap w) (mTidSessionListMap w) (mActive w)
    (mDisplayRefreshRate w) (adpf w) (queue w) (hints w) (util_min w) (now w) (S (calls w)).

(** Access through a session pointer. *)
Definition deref (id : nat) : P session := let* w := get in lift (heap w !! id).
Definition update (id : nat) (f : session → session) : P unit :=
  let* s := deref id in modify (λ w, set_heap (<[id := f s]> (heap w)) w).

(** [HintManager::GetInstance()->GetAdpfProfile()], dereferenced. *)
Definition profile : P AdpfConfig := let* w := get in lift (adpf w).

(** The looper. *)
Definition sendMessage (h : handler) : P unit :=
  modify (λ w, set_queue (queue w ++ [(now w, h)]) w).
Definition sendMessageDelayed (delay : Z) (h : handler) : P unit :=
  modify (λ w, set_queue (queue w ++ [(now w + delay, h)]) w).
Definition removeMessages (h : handler) : P unit :=
  modify (λ w, set_queue (filter (λ m, m.2 ≠ h) (queue w)) w).

Definition session_with_min (m : Z) (s : session) : session :=
  Sess (tgid s) (uid s) (threadIds s) (duration s) m (is_active s) (update_count s)
    (integral_error s) (previous_error s) (mSessionClosed s) (mLastUpdatedTime s)
    (mLastStartedTimeNs s) (mLastDurationNs s) (mWorkPeriodNs s) (mStaleTime s)
    (stale_monitoring s) (stale_dead s) (mBoostTime s) (early_monitoring s) (early_dead s).
Definition session_with_active (b : bool) (s : session) : session :=
  Sess (tgid s) (uid s) (threadIds s) (duration s) (current_min s) b (update_count s)
    (integral_error s) (previous_error s) (mSessionClosed s) (mLastUpdatedTime s)
    (mLastStartedTimeNs s) (mLastDurationNs s) (mWorkPeriodNs s) (mStaleTime s)
    (stale_monitoring s) (stale_dead s) (mBoostTime s) (early_monitoring s) (early_dead s).
Definition session_with_closed (b : bool) (s : session) : session :=
  Sess (tgid s) (uid s) (threadIds s) (duration s) (current_min s) (is_active s) (update_count s)
    (integral_error s) (previous_error s) b (mLastUpdatedTime s)
    (mLastStartedTimeNs s) (mLastDurationNs s) (mWorkPeriodNs s) (mStaleTime s)
    (stale_monitoring s) (stale_dead s) (mBoostTime s) (early_monitoring s) (early_dead s).
Definition session_with_duration (d : Z) (s : session) : session :=
  Sess (tgid s) (uid s) (threadIds s) d (current_min s) (is_active s) (update_count s)
    (integral_error s) (previous_error s) (mSessionClosed s) (mLastUpdatedTime s)
    (mLastStartedTimeNs s) (mLastDurationNs s) (mWorkPeriodNs s) (mStaleTime s)
    (stale_monitoring s) (stale_dead s) (mBoostTime s) (early_monitoring s) (early_dead s).
Definition session_with_pid (ie pe : Z) (s : session) : session :=
  Sess (tgid s) (uid s) (threadIds s) (duration s) (current_min s) (is_active s) (update_count s)
    ie pe (mSessionClosed s) (mLastUpdatedTime s)
    (mLastStartedTimeNs s) (mLastDurationNs s) (mWorkPeriodNs s) (mStaleTime s)
    (stale_monitoring s) (stale_dead s) (mBoostTime s) (early_monitoring s) (early_dead s).
Definition session_counted (s : session) : session :=
  Sess (tgid s) (uid s) (threadIds s) (duration s) (current_min s) (is_active s)
    (u64 (update_count s + 1))
    (integral_error s) (previous_error s) (mSessionClosed s) (mLastUpdatedTime s)
    (mLastStartedTimeNs s) (mLastDurationNs s) (mWorkPeriodNs s) (mStaleTime s)
    (stale_monitoring s) (stale_dead s) (mBoostTime s) (early_monitoring s) (early_dead s).
Definition session_updated_at (t : Z) (s : session) : session :=
  Sess (tgid s) (uid s) (threadIds s) (duration s) (current_min s) (is_active s) (update_count s)
    (integral_error s) (previous_error s) (mSessionClosed s) t
    (mLastStartedTimeNs s) (mLastDurationNs s) (mWorkPeriodNs s) (mStaleTime s)
    (stale_monitoring s) (stale_dead s) (mBoostTime s) (early_monitoring s) (early_dead s).
Definition session_with_period (started dur period : Z) (s : session) : session :=
  Sess (tgid s) (uid s) (threadIds s) (duration s) (current_min s) (is_active s) (update_count s)
    (integral_error s) (previous_error s) (mSessionClosed s) (mLastUpdatedTime s)
    started dur period (mStaleTime s)
    (stale_monitoring s) (stale_dead s) (mBoostTime s) (early_monitoring s) (early_dead s).
Definition session_with_stale (t : Z) (monitoring dead : bool) (s : session) : session :=
  Sess (tgid s) (uid s) (threadIds s) (duration s) (current_min s) (is_active s) (update_count s)
    (integral_error s) (previous_error s) (mSessionClosed s) (mLastUpdatedTime s)
    (mLastStartedTimeNs s) (mLastDurationNs s) (mWorkPeriodNs s) t
    monitoring dead (mBoostTime s) (early_monitoring s) (early_dead s).
Definition session_with_early (t : Z) (monitoring dead : bool) (s : session) : session :=
  Sess (tgid s) (uid s) (threadIds s) (duration s) (current_min s) (is_active s) (update_count s)
    (integral_error s) (previous_error s) (mSessionClosed s) (mLastUpdatedTime s)
    (mLastStartedTimeNs s) (mLastDurationNs s) (mWorkPeriodNs s) (mStaleTime s)
    (stale_monitoring s) (stale_dead s) t monitoring dead.

Fixpoint for_each {A} (l : list A) (f : A → P unit) : P unit :=
  match l with
  | [] => ret tt
  | x :: l' => f x ;; for_each l' f
  end.

Definition when (b : bool) (m : P unit) : P unit := if b then m else ret tt.

(** The binder status of a call. *)
Inductive status := OK | EX_ILLEGAL_STATE | EX_ILLEGAL_ARGUMENT.
#[global] Instance status_eq_dec : EqDecision status.
Proof. solve_decision. Defined.

Section code.
Context `{Platform}.

(** ** PowerSessionManager.cpp *)

Definition SetTaskProfiles (tid : Z) (name : string) : P bool :=
  let* w := get in
  modify count_call ;;
  ret (SetTaskProfiles_ok (calls w) tid name).

Definition sched_setattr (tid min : Z) : P Z :=
  let* cfg := profile in
  if negb (mUclampMinOn cfg) then ret 0
  else
    let* w := get in
    modify count_call ;;
    if sched_setattr_ok (calls w) tid then
      modify (λ w, set_util (<[tid := min]> (util_min w)) w) ;; ret 0
    else ret (-1).

Definition set_uclamp_min (tid min : Z) : P unit :=
  let min := Z.max 0 min in
  let min := Z.min min kMaxUclampValue in
  sched_setattr tid min ;; ret tt.

Definition updateHintMode (mode : string) (enabled : bool) : P unit :=
  when (enabled && String.prefix "REFRESH_" mode)
    (if String.eqb mode "REFRESH_120FPS" then modify (set_rate 120)
     else if String.eqb mode "REFRESH_90FPS" then modify (set_rate 90)
     else if String.eqb mode "REFRESH_60FPS" then modify (set_rate 60)
     else ret tt) ;;
  let* w := get in
  match adpf w with
  | Some cfg => modify (set_adpf (Some (SetAdpfProfile mode cfg)))
  | None => ret tt
  end.

Definition updateHintBoost (boost : string) (durationMs : Z) : P unit :=
  when (String.eqb boost "DISPLAY_UPDATE_IMMINENT") (sendMessage HWakeup).

(** One iteration of the loop of [addPowerSession]. *)
Definition add_tid (id : nat) (t : Z) : P unit :=
  modify (λ w, set_lists (<[t := {[id]} ∪ default ∅ (mTidSessionListMap w !! t)]>
                            (mTidSessionListMap w)) w) ;;
  let* w := get in
  match mTidRefCountMap w !! t with
  | None =>
      let* ok := SetTaskProfiles t "ResetUclampGrp" in
      when ok (modify (λ w, set_refs (<[t := 1]> (mTidRefCountMap w)) w))
  | Some n =>
      if n <=? 0 then ret tt
      else let* n' := lift (ck32 (n + 1)) in
           modify (λ w, set_refs (<[t := n']> (mTidRefCountMap w)) w)
  end.

Definition addPowerSession (id : nat) : P unit :=
  let* s := deref id in
  for_each (threadIds s) (add_tid id) ;;
  modify (λ w, set_sessions ({[id]} ∪ mSessions w) w).

(** One iteration of the loop of [removePowerSession]. *)
Definition remove_tid (id : nat) (t : Z) : P unit :=
  let* w := get in
  match mTidRefCountMap w !! t with
  | None => ret tt
  | Some n =>
      modify (λ w, set_lists (<[t := default ∅ (mTidSessionListMap w !! t) ∖ {[id]}]>
                                (mTidSessionListMap w)) w) ;;
      let* n' := lift (ck32 (n - 1)) in
      modify (λ w, set_refs (<[t := n']> (mTidRefCountMap w)) w) ;;
      if n' <=? 0 then
        SetTaskProfiles t "NoResetUclampGrp" ;;
        modify (λ w, set_refs (delete t (mTidRefCountMap w)) w)
      else ret tt
  end.

Definition removePowerSession (id : nat) : P unit :=
  let* s := deref id in
  for_each (threadIds s) (remove_tid id) ;;
  modify (λ w, set_sessions (mSessions w ∖ {[id]}) w).

(** PowerHintSession::getStaleTime and isTimeout. *)
Definition stale_ns (cfg : AdpfConfig) (dur : Z) : option Z :=
  to_int64 (dmul (of_int dur) (mStaleTimeFactor cfg)).

Definition stale_time (cfg : AdpfConfig) (s : session) : option Z :=
  d ← stale_ns cfg (duration s); ck64 (mLastUpdatedTime s + d).

Definition getStaleTime (id : nat) : P Z :=
  let* cfg := profile in
  let* s := deref id in
  lift (stale_time cfg s).

Definition isTimeout (id : nat) : P bool :=
  let* w := get in
  let* t := getStaleTime id in
  ret (t <=? now w).

(** The loop over the sessions of a thread: the largest request of the active
    sessions that are not stale. *)
Fixpoint tid_max (ids : list nat) (tidMax : Z) : P Z :=
  match ids with
  | [] => ret tidMax
  | id :: ids' =>
      let* s := deref id in
      if negb (is_active s) then tid_max ids' tidMax
      else
        let* timeout := isTimeout id in
        if timeout then tid_max ids' tidMax
        else tid_max ids' (Z.max tidMax (current_min s))
  end.

Definition set_tid_uclamp (val t : Z) : P unit :=
  let* w := get in
  let* tidMax := tid_max (elements (default ∅ (mTidSessionListMap w !! t))) 0 in
  set_uclamp_min t (Z.max val tidMax).

Definition setUclampMinLocked (id : nat) (val : Z) : P unit :=
  let* s := deref id in
  for_each (threadIds s) (set_tid_uclamp val).

Definition setUclampMin : nat → Z → P unit := setUclampMinLocked.

(** PowerHintSession::isAppSession *)
Definition isAppSession (s : session) : bool := AID_APP_START <=? uid s.

Fixpoint any_app_active (ids : list nat) : P bool :=
  match ids with
  | [] => ret false
  | id :: ids' =>
      let* s := deref id in
      if negb (is_active s) then any_app_active ids'
      else
        let* timeout := isTimeout id in
        if timeout then any_app_active ids'
        else if isAppSession s then ret true else any_app_active ids'
  end.

Definition isAnyAppSessionActive : P (option bool) :=
  let* w := get in
  let* active := any_app_active (elements (mSessions w)) in
  if Bool.eqb active (mActive w) then ret None
  else modify (set_active active) ;; ret (Some active).

Definition enableSystemTopAppBoost : P unit :=
  when (IsHintSupported kDisableBoostHintName) (modify (add_hint (EndHint kDisableBoostHintName))).

Definition disableSystemTopAppBoost : P unit :=
  when (IsHintSupported kDisableBoostHintName) (modify (add_hint (DoHint kDisableBoostHintName))).

(** PowerSessionManager::handleMessage *)
Definition manager_handleMessage : P unit :=
  let* active := isAnyAppSessionActive in
  match active with
  | None => ret tt
  | Some true => disableSystemTopAppBoost
  | Some false => enableSystemTopAppBoost
  end.

(** ** PowerHintSession.cpp *)

(** StaleTimerHandler *)
Definition stale_updateTimer_at (id : nat) (staleTime : Z) : P unit :=
  update id (λ s, session_with_stale staleTime (stale_monitoring s) (stale_dead s) s) ;;
  removeMessages (HStale id) ;;
  sendMessage (HStale id) ;;
  update id (λ s, session_with_stale (mStaleTime s) true (stale_dead s) s).

Definition stale_updateTimer (id : nat) : P unit :=
  let* cfg := profile in
  let* s := deref id in
  let* w := get in
  let* staleTime := lift (d ← stale_ns cfg (duration s); ck64 (now w + d)) in
  stale_updateTimer_at id staleTime.

Definition stale_setSessionDead (id : nat) : P unit :=
  update id (λ s, session_with_stale (mStaleTime s) (stale_monitoring s) true s) ;;
  removeMessages (HStale id).

(** EarlyBoostHandler *)
Definition early_updateTimer (id : nat) (boostTime : Z) : P unit :=
  update id (λ s, session_with_early boostTime (early_monitoring s) (early_dead s) s) ;;
  removeMessages (HEarlyBoost id) ;;
  sendMessage (HEarlyBoost id) ;;
  update id (λ s, session_with_early (mBoostTime s) true (early_dead s) s).

Definition early_setSessionDead (id : nat) : P unit :=
  update id (λ s, session_with_early (mBoostTime s) (early_monitoring s) true s) ;;
  removeMessages (HEarlyBoost id).

Definition updateUniveralBoostMode (id : nat) : P unit :=
  let* s := deref id in
  when (isAppSession s) (sendMessage HManager).

Definition setSessionUclampMin (id : nat) (min : Z) : P unit :=
  update id (session_with_min min) ;;
  when (negb (min =? 0)) (stale_updateTimer id) ;;
  setUclampMin id min.

Definition setStale (id : nat) : P unit :=
  setUclampMin id 0 ;;
  updateUniveralBoostMode id.

Definition stale_handleMessage (id : nat) : P unit :=
  let* s := deref id in
  if stale_dead s then ret tt
  else
    let* w := get in
    let* next := lift (ck64 (mStaleTime s - now w)) in
    if 0 <? next then
      removeMessages (HStale id) ;;
      sendMessageDelayed next (HStale id)
    else
      setStale id ;;
      update id (λ s, session_with_stale (mStaleTime s) false (stale_dead s) s).

Definition early_handleMessage (id : nat) : P unit :=
  let* s := deref id in
  if early_dead s then ret tt
  else
    let* w := get in
    let* next := lift (ck64 (mBoostTime s - now w)) in
    if 0 <? next then
      removeMessages (HEarlyBoost id) ;;
      sendMessageDelayed next (HEarlyBoost id)
    else
      let* cfg := profile in
      setUclampMin id (i32 (mUclampMinHigh cfg)) ;;
      update id (λ s, session_with_early (mBoostTime s) false (early_dead s) s).

Definition PowerHintSession (id : nat) (tgid uid : Z) (threadIds : list Z) (durationNanos : Z)
    : P unit :=
  let* w := get in
  let* started := lift (ck64 (now w - durationNanos)) in
  modify (λ w, set_heap (<[id := Sess tgid uid threadIds durationNanos 0 true 0 0 0 false
    (now w) started durationNanos durationNanos 0 false false 0 false false]> (heap w)) w) ;;
  addPowerSession id ;;
  let* cfg := profile in
  setSessionUclampMin id (i32 (mUclampMinInit cfg)).

Definition pause (id : nat) : P status :=
  let* s := deref id in
  if mSessionClosed s then ret EX_ILLEGAL_STATE
  else if negb (is_active s) then ret EX_ILLEGAL_STATE
  else
    update id (session_with_active false) ;;
    setStale id ;;
    updateUniveralBoostMode id ;;
    ret OK.

Definition resume (id : nat) : P status :=
  let* s := deref id in
  if mSessionClosed s then ret EX_ILLEGAL_STATE
  else if is_active s then ret EX_ILLEGAL_STATE
  else
    update id (session_with_active true) ;;
    setSessionUclampMin id (current_min s) ;;
    updateUniveralBoostMode id ;;
    ret OK.

Definition close (id : nat) : P status :=
  let* s := deref id in
  if mSessionClosed s then ret EX_ILLEGAL_STATE
  else
    update id (session_with_closed true) ;;
    removePowerSession id ;;
    setSessionUclampMin id 0 ;;
    update id (session_with_closed true) ;;
    update id (session_with_active false) ;;
    early_setSessionDead id ;;
    stale_setSessionDead id ;;
    updateUniveralBoostMode id ;;
    ret OK.

(** The destructor. *)
Definition destroy (id : nat) : P unit :=
  close id ;;
  modify (λ w, set_heap (delete id (heap w)) w).

Definition updateTargetWorkDuration (id : nat) (targetDurationNanos : Z) : P status :=
  let* s := deref id in
  if mSessionClosed s then ret EX_ILLEGAL_STATE
  else if targetDurationNanos <=? 0 then ret EX_ILLEGAL_ARGUMENT
  else
    let* cfg := profile in
    let* d := lift (to_int64 (dmul (of_int targetDurationNanos) (mTargetTimeFactor cfg))) in
    update id (session_with_duration d) ;;
    ret OK.

(** 0.9 and 0.1 as doubles. *)
Definition d0_9 : double := ddiv (of_int 9) (of_int 10).
Definition d0_1 : double := ddiv (of_int 1) (of_int 10).

(** The new mLastStartedTimeNs, mLastDurationNs and mWorkPeriodNs. *)
Definition work_period (s : session) (actualDurations : list WorkDuration)
    : option (option (Z * Z * Z)) :=
  let n := length actualDurations in
  match actualDurations !! (n - 1)%nat with
  | None => Some None
  | Some current =>
      started ← (if (2 <=? n)%nat then
          last ← actualDurations !! (n - 2)%nat;
          ck64 (timeStampNanos last - durationNanos last)
        else Some (mLastStartedTimeNs s));
      curr_start ← ck64 (timeStampNanos current - durationNanos current);
      period ← ck64 (curr_start - started);
      work ← (if 0 <? period then
          limit ← ck64 (duration s * 2);
          if period <? limit then
            to_int64 (dadd (dmul d0_9 (of_int (mWorkPeriodNs s))) (dmul d0_1 (of_int period)))
          else Some (mWorkPeriodNs s)
        else Some (mWorkPeriodNs s));
      Some (Some (curr_start, durationNanos current, work))
  end.

Definition updateWorkPeriod (id : nat) (actualDurations : list WorkDuration) : P unit :=
  let* s := deref id in
  let* r := lift (work_period s actualDurations) in
  match r with
  | None => ret tt
  | Some (started, dur, period) => update id (session_with_period started dur period)
  end.

Definition early_boost_time (cfg : AdpfConfig) (s : session) : option Z :=
  earlyBoostTimeoutNs ← to_int64 (dmul (of_int (duration s)) (mEarlyBoostTimeFactor cfg));
  d ← ck64 (mWorkPeriodNs s - mLastDurationNs s);
  nextStartTime ← ck64 (mLastUpdatedTime s + d);
  ck64 (nextStartTime + earlyBoostTimeoutNs).

Definition getEarlyBoostTime (id : nat) : P Z :=
  let* cfg := profile in
  let* s := deref id in
  lift (early_boost_time cfg s).

(** The request that follows the controller's output: at least mUclampMinLow
    and at most mUclampMinHigh. *)
Definition next_uclamp (cfg : AdpfConfig) (current_min output : Z) : option Z :=
  x ← ck32 (current_min + i32 output);
  Some (Z.max (i32 (mUclampMinLow cfg)) (Z.min (i32 (mUclampMinHigh cfg)) x)).

Definition reportActualWorkDuration (id : nat) (actualDurations : list WorkDuration) : P status :=
  let* s := deref id in
  if mSessionClosed s then ret EX_ILLEGAL_STATE
  else if duration s =? 0 then ret EX_ILLEGAL_STATE
  else if (length actualDurations =? 0)%nat then ret EX_ILLEGAL_ARGUMENT
  else if negb (is_active s) then ret EX_ILLEGAL_STATE
  else
    let* adpfConfig := profile in
    update id session_counted ;;
    let* isFirstFrame := isTimeout id in
    let* w := get in
    update id (session_updated_at (now w)) ;;
    when isFirstFrame (updateUniveralBoostMode id) ;;
    if negb (mPidOn adpfConfig) then
      setSessionUclampMin id (i32 (mUclampMinHigh adpfConfig)) ;;
      ret OK
    else
      let* s := deref id in
      let* (output, (ie, pe)) :=
        lift (convertWorkDurationToBoostByPid adpfConfig (duration s) actualDurations
                (integral_error s) (previous_error s)) in
      update id (session_with_pid ie pe) ;;
      let* next_min := lift (next_uclamp adpfConfig (current_min s) output) in
      setSessionUclampMin id next_min ;;
      let* staleTime := getStaleTime id in
      stale_updateTimer_at id staleTime ;;
      let* cfg := profile in
      when (mEarlyBoostOn cfg)
        (updateWorkPeriod id actualDurations ;;
         let* boostTime := getEarlyBoostTime id in
         early_updateTimer id boostTime) ;;
      ret OK.

Definition wakeup (id : nat) : P unit :=
  let* s := deref id in
  if mSessionClosed s || negb (is_active s) then ret tt
  else
    let* timeout := isTimeout id in
    if negb timeout then ret tt
    else
      let* cfg := profile in
      let min := Z.max (current_min s) (i32 (mUclampMinInit cfg)) in
      update id (session_with_min min) ;;
      setUclampMinLocked id min ;;
      stale_updateTimer id.

Definition wakeSessions : P unit :=
  let* w := get in
  for_each (elements (mSessions w)) wakeup.

Definition handleMessage (h : handler) : P unit :=
  match h with
  | HStale id => stale_handleMessage id
  | HEarlyBoost id => early_handleMessage id
  | HManager => manager_handleMessage
  | HWakeup => wakeSessions
  end.

(** ** Runs of the system *)

Inductive call :=
  | CPause | CResume | CClose
  | CUpdateTarget (target : Z)
  | CReport (durations : list WorkDuration).

Definition run_call (id : nat) (c : call) : P status :=
  match c with
  | CPause => pause id
  | CResume => resume id
  | CClose => close id
  | CUpdateTarget t => updateTargetWorkDuration id t
  | CReport l => reportActualWorkDuration id l
  end.

(** The looper takes a message that is due. *)
Definition deliver (k : nat) : P unit :=
  let* w := get in
  match queue w !! k with
  | Some (due, h) =>
      if due <=? now w then
        modify (set_queue (delete k (queue w))) ;; handleMessage h
      else ub
  | None => ub
  end.

Inductive step : world → world → Prop :=
  | step_create id tgid uid tids dur w w' :
      heap w !! id = None → PowerHintSession id tgid uid tids dur w = Some (tt, w') → step w w'
  | step_call id c st w w' : run_call id c w = Some (st, w') → step w w'
  | step_destroy id w w' : destroy id w = Some (tt, w') → step w w'
  | step_deliver k w w' : deliver k w = Some (tt, w') → step w w'
  | step_mode mode enabled w w' : updateHintMode mode enabled w = Some (tt, w') → step w w'
  | step_boost boost ms w w' : updateHintBoost boost ms w = Some (tt, w') → step w w'
  | step_time t w : now w ≤ t → step w (set_now t w).

(** The manager's constructor, with a profile loaded. *)
Definition start (cfg : option AdpfConfig) (t : Z) : world :=
  World ∅ ∅ ∅ ∅ false 60 cfg [] [] ∅ t 0.

Definition reachable (w : world) : Prop := ∃ cfg t, rtc step (start cfg t) w.

End code.

End Session.
