(* ===== verification/PowerManager.v ===== *)
(** * PowerManager: correctness of the hint sessions and their manager

    About the model of PowerSession.v: over every interleaving of clients, timers
    and destructors the manager's containers describe exactly the open sessions;
    every thread's clamp is the largest request of the sessions that count after
    a report, a pause, a close or a timeout; the top-app boost follows the
    applications' sessions.  [frame] and its automation show what the
    operations leave alone; [touch] follows the one session an operation is on. *)

From stdpp Require Import relations fin_maps fin_sets.
From S2P Require Import Prelude PowerPid PowerSession.

Module Manager.
Import Pid Session.

(** ** What an operation leaves alone

    [skel] is the part of the sessions the manager's containers depend on: the
    threads and whether the session is closed.  [frame w w'] holds when an
    operation leaves the skeleton and the containers alone and posts messages
    only for sessions that are open. *)

Definition core (s : session) : list Z * bool := (threadIds s, mSessionClosed s).
Definition skel (w : world) : gmap nat (list Z * bool) := core <$> heap w.
Definition is_open (w : world) (id : nat) : Prop := ∃ l, skel w !! id = Some (l, false).

(** The session a handler belongs to. *)
Definition owner (h : handler) : option nat :=
  match h with HStale id | HEarlyBoost id => Some id | HManager | HWakeup => None end.

Record frame (w w' : world) : Prop := Frame {
  frame_skel : skel w' = skel w;
  frame_sessions : mSessions w' = mSessions w;
  frame_refs : mTidRefCountMap w' = mTidRefCountMap w;
  frame_lists : mTidSessionListMap w' = mTidSessionListMap w;
  frame_queue : ∀ m id, m ∈ queue w' → owner m.2 = Some id → m ∈ queue w ∨ is_open w id;
}.

Lemma is_open_frame w w' id : frame w w' → is_open w' id ↔ is_open w id.
Proof. intros F. unfold is_open. by rewrite (frame_skel _ _ F). Qed.

#[global] Instance frame_pre : PreOrder frame.
Proof.
  split.
  - intros w. constructor; auto.
  - intros w1 w2 w3 F G. pose proof (is_open_frame w1 w2) as Ho.
    destruct F as [? ? ? ? F5], G as [? ? ? ? G5].
    constructor; try congruence. intros m id Hm Hid.
    destruct (G5 m id Hm Hid) as [?|Ho']; [auto|]. right. apply Ho; [by constructor|done].
Qed.

Definition keeps {A} (Q : world → Prop) (m : P A) : Prop :=
  ∀ w a w', Q w → m w = Some (a, w') → frame w w'.

(** A precondition that frames respect. *)
Class Stable (Q : world → Prop) : Prop := stable : ∀ w w', frame w w' → Q w → Q w'.
#[global] Instance stable_true : Stable (λ _, True).
Proof. done. Qed.
#[global] Instance stable_open id : Stable (λ w, is_open w id).
Proof. intros w w' F. by apply is_open_frame. Qed.

Create HintDb frame.

Lemma bind_inv {A B} (m : P A) (k : A → P B) w b w'' :
  bind m k w = Some (b, w'') → ∃ a w', m w = Some (a, w') ∧ k a w' = Some (b, w'').
Proof. unfold bind. destruct (m w) as [[a w']|]; [eauto|done]. Qed.

Section frames.
Context (Q : world → Prop) `{HQ : !Stable Q}.

Lemma keeps_bind {A B} (m : P A) (k : A → P B) :
  keeps Q m → (∀ a, keeps Q (k a)) → keeps Q (bind m k).
Proof.
  intros Hm Hk w b w'' Hw (a & w' & E & E')%bind_inv.
  pose proof (Hm w a w' Hw E) as F. etrans; [exact F|]. eapply Hk; [|exact E']. by eapply HQ.
Qed.

Lemma keeps_ret {A} (a : A) : keeps Q (ret a).
Proof. by intros w b w' _ [= _ <-]. Qed.
Lemma keeps_lift {A} (o : option A) : keeps Q (lift o).
Proof. intros w b w' _. unfold lift. destruct o; [|done]. by intros [= _ <-]. Qed.
Lemma keeps_ub {A} : keeps Q (@ub world A).
Proof. done. Qed.
Lemma keeps_get : keeps Q get.
Proof. by intros w b w' _ [= _ <-]. Qed.
Lemma keeps_modify f : (∀ w, Q w → frame w (f w)) → keeps Q (modify f).
Proof. intros Hf w b w' Hw [= _ <-]. auto. Qed.
Lemma keeps_when b m : keeps Q m → keeps Q (when b m).
Proof. destruct b; [done|]. intros _. apply keeps_ret. Qed.
Lemma keeps_for_each {A} (l : list A) f : (∀ x, keeps Q (f x)) → keeps Q (for_each l f).
Proof. intros Hf. induction l; [apply keeps_ret|]. apply keeps_bind; auto. Qed.
Lemma keeps_weaken {A} (m : P A) : keeps (λ _, True) m → keeps Q m.
Proof. intros Hm w a w' _. by apply Hm. Qed.

End frames.

#[export] Hint Resolve keeps_ret keeps_lift keeps_ub keeps_get keeps_when keeps_for_each : frame.

(** Split an operation into its calls and discharge those the hints know. *)
Ltac framed :=
  repeat first
    [ progress intros
    | solve [eauto with frame typeclass_instances]
    | apply keeps_bind; [typeclasses eauto| |]
    | apply keeps_when
    | apply keeps_for_each; [typeclasses eauto|]
    | match goal with
      | |- keeps _ (if ?b then _ else _) => destruct b
      | |- keeps _ (match ?o with Some _ => _ | None => _ end) => destruct o
      | |- keeps _ (let '(_, _) := ?p in _) => destruct p
      end ].

Lemma skel_update id f s w :
  heap w !! id = Some s → core (f s) = core s →
  core <$> <[id := f s]> (heap w) = skel w.
Proof.
  intros E Ec. unfold skel. rewrite fmap_insert, Ec, <- fmap_insert. by rewrite insert_id.
Qed.

Lemma keeps_update Q id f : (∀ s, core (f s) = core s) → keeps Q (update id f).
Proof.
  intros Hf w a w' _. unfold update, deref, bind, get, lift, modify.
  destruct (heap w !! id) as [s|] eqn:E; [|done]. intros [= _ <-].
  constructor; auto. by apply skel_update.
Qed.

Lemma keeps_deref Q id : keeps Q (deref id).
Proof.
  intros w a w' _. unfold deref, bind, get, lift. by destruct (heap w !! id); intros [= _ <-].
Qed.

Lemma keeps_profile Q : keeps Q profile.
Proof.
  intros w a w' _. unfold profile, bind, get, lift. by destruct (adpf w); intros [= _ <-].
Qed.

Lemma keeps_removeMessages Q h : keeps Q (removeMessages h).
Proof.
  apply keeps_modify. intros w _. constructor; auto. cbn.
  intros m id [_ Hm]%list_elem_of_filter _. auto.
Qed.

Lemma keeps_post Q t h :
  (∀ w id, Q w → owner h = Some id → is_open w id) →
  keeps Q (modify (λ w, set_queue (queue w ++ [(t w, h)]) w)).
Proof.
  intros Ho. apply keeps_modify. intros w Hw. constructor; auto. cbn.
  intros m id [Hm| ->%list_elem_of_singleton]%elem_of_app Hid; eauto.
Qed.

Lemma keeps_sendMessage Q h :
  (∀ w id, Q w → owner h = Some id → is_open w id) → keeps Q (sendMessage h).
Proof. apply (keeps_post Q now). Qed.
Lemma keeps_sendMessageDelayed Q d h :
  (∀ w id, Q w → owner h = Some id → is_open w id) → keeps Q (sendMessageDelayed d h).
Proof. apply (keeps_post Q (λ w, now w + d)). Qed.
#[export] Hint Resolve keeps_update keeps_deref keeps_profile keeps_removeMessages : frame.
#[export] Hint Extern 2 (keeps _ (sendMessage _)) =>
  apply keeps_sendMessage; intros ?? ? [= <-]; done : frame.
#[export] Hint Extern 2 (keeps _ (sendMessageDelayed _ _)) =>
  apply keeps_sendMessageDelayed; intros ?? ? [= <-]; done : frame.
#[export] Hint Extern 3 (keeps _ (modify _)) =>
  apply keeps_modify; intros; constructor; by auto : frame.

Section op_frames.
Context `{Platform}.
Context (Q : world → Prop) `{!Stable Q}.

Lemma keeps_SetTaskProfiles tid name : keeps Q (SetTaskProfiles tid name).
Proof. unfold SetTaskProfiles. framed. Qed.
Lemma keeps_set_uclamp_min tid min : keeps Q (set_uclamp_min tid min).
Proof. unfold set_uclamp_min, sched_setattr. framed. Qed.
Lemma keeps_getStaleTime id : keeps Q (getStaleTime id).
Proof. unfold getStaleTime. framed. Qed.
#[local] Hint Resolve keeps_SetTaskProfiles keeps_set_uclamp_min keeps_getStaleTime : frame.

Lemma keeps_isTimeout id : keeps Q (isTimeout id).
Proof. unfold isTimeout. framed. Qed.
#[local] Hint Resolve keeps_isTimeout : frame.

Lemma keeps_tid_max ids x : keeps Q (tid_max ids x).
Proof. revert x. induction ids; cbn [tid_max]; framed. Qed.
#[local] Hint Resolve keeps_tid_max : frame.

Lemma keeps_any_app_active ids : keeps Q (any_app_active ids).
Proof. induction ids; cbn [any_app_active]; framed. Qed.
#[local] Hint Resolve keeps_any_app_active : frame.

Lemma keeps_setUclampMin id val : keeps Q (setUclampMin id val).
Proof. unfold setUclampMin, setUclampMinLocked, set_tid_uclamp. framed. Qed.
#[local] Hint Resolve keeps_setUclampMin : frame.

Lemma keeps_updateUniveralBoostMode id : keeps Q (updateUniveralBoostMode id).
Proof. unfold updateUniveralBoostMode. framed. Qed.
#[local] Hint Resolve keeps_updateUniveralBoostMode : frame.

Lemma keeps_setStale id : keeps Q (setStale id).
Proof. unfold setStale. framed. Qed.

Lemma keeps_manager_handleMessage : keeps Q manager_handleMessage.
Proof.
  unfold manager_handleMessage, isAnyAppSessionActive, disableSystemTopAppBoost,
    enableSystemTopAppBoost. framed.
Qed.

Lemma keeps_updateWorkPeriod id l : keeps Q (updateWorkPeriod id l).
Proof. unfold updateWorkPeriod. framed. Qed.

Lemma keeps_getEarlyBoostTime id : keeps Q (getEarlyBoostTime id).
Proof. unfold getEarlyBoostTime. framed. Qed.

Lemma keeps_updateHintMode mode enabled : keeps Q (updateHintMode mode enabled).
Proof. unfold updateHintMode. framed. Qed.

Lemma keeps_updateHintBoost boost ms : keeps Q (updateHintBoost boost ms).
Proof. unfold updateHintBoost. framed. Qed.

Lemma keeps_updateTargetWorkDuration id t : keeps Q (updateTargetWorkDuration id t).
Proof. unfold updateTargetWorkDuration. framed. Qed.

Lemma keeps_pause id : keeps Q (pause id).
Proof. unfold pause, setStale. framed. Qed.
End op_frames.

#[export] Hint Resolve keeps_SetTaskProfiles keeps_set_uclamp_min keeps_getStaleTime keeps_isTimeout
  keeps_tid_max keeps_setUclampMin keeps_updateUniveralBoostMode keeps_setStale
  keeps_updateWorkPeriod keeps_getEarlyBoostTime : frame.

(** The operations that start a timer keep the frame when the session is open. *)
Section timer_frames.
Context `{Platform}.
Context (id : nat).
#[local] Notation Q := (λ w, is_open w id).

Lemma keeps_stale_updateTimer_at t : keeps Q (stale_updateTimer_at id t).
Proof. unfold stale_updateTimer_at. framed. Qed.
Lemma keeps_early_updateTimer t : keeps Q (early_updateTimer id t).
Proof. unfold early_updateTimer. framed. Qed.
#[local] Hint Resolve keeps_stale_updateTimer_at keeps_early_updateTimer : frame.
Lemma keeps_stale_updateTimer : keeps Q (stale_updateTimer id).
Proof. unfold stale_updateTimer. framed. Qed.
#[local] Hint Resolve keeps_stale_updateTimer : frame.
Lemma keeps_setSessionUclampMin m : keeps Q (setSessionUclampMin id m).
Proof. unfold setSessionUclampMin. framed. Qed.
#[local] Hint Resolve keeps_setSessionUclampMin : frame.
Lemma keeps_stale_handleMessage : keeps Q (stale_handleMessage id).
Proof. unfold stale_handleMessage. framed. Qed.
Lemma keeps_early_handleMessage : keeps Q (early_handleMessage id).
Proof. unfold early_handleMessage. framed. Qed.
End timer_frames.

#[export] Hint Resolve keeps_stale_updateTimer_at keeps_early_updateTimer keeps_stale_updateTimer
  keeps_setSessionUclampMin : frame.

(** The methods that test [mSessionClosed] first need no precondition. *)
Section guarded_frames.
Context `{Platform}.

Lemma deref_inv id w s w' : deref id w = Some (s, w') → w' = w ∧ heap w !! id = Some s.
Proof.
  unfold deref, bind, get, lift. destruct (heap w !! id); [|done]. by intros [= <- <-].
Qed.

Lemma keeps_guarded {A} id (k : session → P A) :
  (∀ s, keeps (λ w, is_open w id) (k s)) → (∀ s, mSessionClosed s = true → keeps (λ _, True) (k s)) →
  keeps (λ _, True) (let* s := deref id in k s).
Proof.
  intros Ho Hc w a w' _ (s & w1 & [-> E]%deref_inv & Ek)%bind_inv.
  destruct (mSessionClosed s) eqn:Es; [by eapply Hc; eauto|].
  eapply Ho; [|exact Ek]. exists (threadIds s). unfold skel. rewrite lookup_fmap, E. cbn.
  unfold core. by rewrite Es.
Qed.

Lemma keeps_resume id : keeps (λ _, True) (resume id).
Proof. apply keeps_guarded; [|intros s ->]; framed. Qed.
Lemma keeps_reportActualWorkDuration id l : keeps (λ _, True) (reportActualWorkDuration id l).
Proof. apply keeps_guarded; [|intros s ->]; framed. Qed.
Lemma keeps_wakeup id : keeps (λ _, True) (wakeup id).
Proof. apply keeps_guarded; [|intros s ->; cbn [orb]]; framed. Qed.
End guarded_frames.

(** ** The manager's containers *)

(** How often the thread [t] is listed in the open sessions. *)
Definition count (t : Z) (l : list Z) : nat := length (filter (λ u, t = u) l).
Definition open_refs (t : Z) (sk : gmap nat (list Z * bool)) : nat :=
  map_fold (λ (_ : nat) (c : list Z * bool) (n : nat), ((if c.2 then 0 else count t c.1) + n)%nat) 0%nat sk.

(** The reference counts [m] hold the counts [n]. *)
Definition enc (n : Z → nat) (m : gmap Z Z) : Prop :=
  ∀ t, m !! t = if (n t =? 0)%nat then None else Some (Z.of_nat (n t)).

(** The sessions listed for a thread. *)
Definition listed (w : world) (t : Z) : gset nat := default ∅ (mTidSessionListMap w !! t).

Record consistent (w : world) : Prop := Consistent {
  con_refs : enc (λ t, open_refs t (skel w)) (mTidRefCountMap w);
  con_lists : ∀ t id, id ∈ listed w t ↔ ∃ l, skel w !! id = Some (l, false) ∧ t ∈ l;
  con_sessions : ∀ id, id ∈ mSessions w ↔ is_open w id;
  con_queue : ∀ m id, m ∈ queue w → owner m.2 = Some id → is_open w id;
}.

Lemma consistent_frame w w' : frame w w' → consistent w → consistent w'.
Proof.
  intros F [C1 C2 C3 C4]. pose proof (is_open_frame w w') as Ho.
  destruct F as [F1 F2 F3 F4 F5]. constructor; unfold listed in *; rewrite ?F1, ?F2, ?F3, ?F4; auto.
  - intros id. rewrite C3, Ho; [done|by constructor].
  - intros m id Hm Hid. apply Ho; [by constructor|]. destruct (F5 m id Hm Hid); eauto.
Qed.

Lemma count_cons t u l : count t (u :: l) = ((if decide (t = u) then 1 else 0) + count t l)%nat.
Proof. unfold count. rewrite filter_cons. by destruct (decide (t = u)). Qed.

Lemma open_refs_insert t id (c : list Z * bool) sk :
  sk !! id = None → open_refs t (<[id := c]> sk) = ((if c.2 then 0 else count t c.1) + open_refs t sk)%nat.
Proof. intros E. unfold open_refs. rewrite map_fold_insert_L; [done|lia|done]. Qed.

Lemma open_refs_update t id (c c' : list Z * bool) sk :
  sk !! id = Some c →
  (open_refs t (<[id := c']> sk) + (if c.2 then 0 else count t c.1) =
   (if c'.2 then 0 else count t c'.1) + open_refs t sk)%nat.
Proof.
  intros E. rewrite <- (insert_id sk id c E) at 2. rewrite <- !(insert_delete_eq sk).
  rewrite !open_refs_insert by apply lookup_delete_eq. lia.
Qed.

Lemma open_refs_delete t id l sk :
  sk !! id = Some (l, true) → open_refs t (delete id sk) = open_refs t sk.
Proof.
  intros E. rewrite <- (insert_id sk id _ E) at 2. rewrite <- insert_delete_eq.
  rewrite open_refs_insert by apply lookup_delete_eq. done.
Qed.

(** Everything but the reference counts, the lists and the number of calls. *)
Record same_rest (w w' : world) : Prop := SameRest {
  rest_heap : heap w' = heap w;
  rest_sessions : mSessions w' = mSessions w;
  rest_queue : queue w' = queue w;
  rest_adpf : adpf w' = adpf w;
  rest_now : now w' = now w;
  rest_util : util_min w' = util_min w;
  rest_hints : hints w' = hints w;
  rest_active : mActive w' = mActive w;
}.
#[global] Instance same_rest_pre : PreOrder same_rest.
Proof. split; [by constructor|]. intros ??? [] []. constructor; congruence. Qed.

Section containers.
Context `{Platform}.
Context (Hprofiles : ∀ k t, SetTaskProfiles_ok k t "ResetUclampGrp" = true).

Lemma add_tid_run id t n w a w' :
  enc n (mTidRefCountMap w) → add_tid id t w = Some (a, w') →
  enc (λ u, (if decide (u = t) then 1 else 0) + n u)%nat (mTidRefCountMap w') ∧
  (∀ u, listed w' u = if decide (u = t) then {[id]} ∪ listed w u else listed w u) ∧
  same_rest w w'.
Proof.
  intros En. unfold add_tid. rewrite (bind_run _ _ w tt _ eq_refl), (bind_run _ _ _ _ _ eq_refl).
  cbn [mTidRefCountMap set_lists].
  assert (∀ (m : gmap Z (gset nat)) u, default (∅ : gset nat) (<[t := {[id]} ∪ listed w t]> m !! u) =
     if decide (u = t) then {[id]} ∪ listed w t else default ∅ (m !! u)) as Hl.
  { intros m u. case_decide; [subst; by rewrite lookup_insert_eq|by rewrite lookup_insert_ne]. }
  assert (∀ m k, (k = (if (n t =? 0)%nat then 1 else Z.of_nat (n t) + 1)) → enc n m →
     enc (λ u, (if decide (u = t) then 1 else 0) + n u)%nat (<[t := k]> m)) as He.
  { intros m k -> Em u. case_decide as Hd; [subst|by rewrite lookup_insert_ne by done].
    rewrite lookup_insert_eq. cbn. f_equal. destruct (Nat.eqb_spec (n t) 0); lia. }
  pose proof (En t) as Et. rewrite Et.
  destruct (n t =? 0)%nat eqn:E0.
  - unfold SetTaskProfiles, bind, get, modify, ret, when. cbn. rewrite Hprofiles. intros [= _ <-]. repeat split.
    + by apply He.
    + intros u. unfold listed at 1. cbn. rewrite Hl. case_decide; by subst.
  - apply Nat.eqb_neq in E0. zcase; [lia|].
    unfold bind, lift. destruct (ck32 _) as [n'|] eqn:Ec; [|done].
    apply checked_inv in Ec as [-> _]. intros [= _ <-]. repeat split.
    + by apply He.
    + intros u. unfold listed at 1. cbn. rewrite Hl. case_decide; by subst.
Qed.

Lemma add_tids_run id l n w a w' :
  enc n (mTidRefCountMap w) → for_each l (add_tid id) w = Some (a, w') →
  enc (λ u, count u l + n u)%nat (mTidRefCountMap w') ∧
  (∀ u x, x ∈ listed w' u ↔ x ∈ listed w u ∨ (u ∈ l ∧ x = id)) ∧
  same_rest w w'.
Proof.
  revert n w a. induction l as [|t l IH]; intros n w a En.
  - intros [= _ <-]. split; [done|]. split; [set_solver|done].
  - intros ([] & w1 & E1 & E2)%bind_inv.
    destruct (add_tid_run id t n w tt w1 En E1) as (En1 & Hl1 & R1).
    destruct (IH _ w1 a En1 E2) as (En2 & Hl2 & R2). split; [|split].
    + intros u. rewrite En2, count_cons. cbn. by rewrite Nat.add_assoc, (Nat.add_comm (count u l)).
    + intros u x. rewrite Hl2, Hl1. case_decide; set_solver.
    + by etrans.
Qed.

Lemma remove_tid_run id t n w a w' :
  enc (λ u, (if decide (u = t) then 1 else 0) + n u)%nat (mTidRefCountMap w) →
  remove_tid id t w = Some (a, w') →
  enc n (mTidRefCountMap w') ∧
  (∀ u, listed w' u = if decide (u = t) then listed w u ∖ {[id]} else listed w u) ∧
  same_rest w w'.
Proof.
  intros En. unfold remove_tid, bind at 1, get at 1.
  pose proof (En t) as Et. cbn beta in Et. rewrite decide_True in Et by done. cbn in Et. rewrite Et.
  assert (∀ (m : gmap Z (gset nat)) u, default (∅ : gset nat) (<[t := listed w t ∖ {[id]}]> m !! u) =
     if decide (u = t) then listed w t ∖ {[id]} else default ∅ (m !! u)) as Hl.
  { intros m u. case_decide; [subst; by rewrite lookup_insert_eq|by rewrite lookup_insert_ne]. }
  assert (∀ u, u ≠ t → mTidRefCountMap w !! u = if (n u =? 0)%nat then None else Some (Z.of_nat (n u))) as Hu.
  { intros u Hu. rewrite (En u). by rewrite decide_False. }
  unfold SetTaskProfiles, bind, get, modify, ret, lift.
  destruct (ck32 _) as [n'|] eqn:Ec; [|done]. apply checked_inv in Ec as [-> _].
  replace (Z.of_nat (S (n t)) - 1) with (Z.of_nat (n t)) by lia.
  destruct (Z.leb_spec (Z.of_nat (n t)) 0); intros [= _ <-]; repeat split.
  1, 3: intros u; cbn; destruct (decide (u = t)) as [->|Hne];
    [rewrite ?lookup_delete_eq, ?lookup_insert_eq; destruct (Nat.eqb_spec (n t) 0); (done || lia)
    |rewrite ?lookup_delete_ne, ?lookup_insert_ne by done; auto].
  all: intros u; unfold listed at 1; cbn; rewrite Hl; case_decide; by subst.
Qed.

Lemma remove_tids_run id l n w a w' :
  enc (λ u, count u l + n u)%nat (mTidRefCountMap w) →
  for_each l (remove_tid id) w = Some (a, w') →
  enc n (mTidRefCountMap w') ∧
  (∀ u x, x ∈ listed w' u ↔ x ∈ listed w u ∧ (u ∈ l → x ≠ id)) ∧
  same_rest w w'.
Proof.
  revert w a. induction l as [|t l IH]; intros w a En.
  - intros [= _ <-]. split; [done|]. split; [set_solver|done].
  - intros ([] & w1 & E1 & E2)%bind_inv.
    destruct (remove_tid_run id t (λ u, count u l + n u)%nat w tt w1) as (En1 & Hl1 & R1); [|done|].
    { intros u. by rewrite (En u), count_cons, Nat.add_assoc. }
    destruct (IH w1 a En1 E2) as (En2 & Hl2 & R2). split; [done|]. split; [|by etrans].
    intros u x. rewrite Hl2, Hl1. case_decide; set_solver.
Qed.

Lemma skel_insert w h id s :
  h = <[id := s]> (heap w) → core <$> h = <[id := core s]> (skel w).
Proof. intros ->. unfold skel. by rewrite fmap_insert. Qed.

(** Adding a fresh session. *)
Lemma add_consistent id s w w1 w2 :
  consistent w → heap w !! id = None → mSessionClosed s = false →
  w1 = set_heap (<[id := s]> (heap w)) w → addPowerSession id w1 = Some (tt, w2) →
  consistent w2 ∧ is_open w2 id.
Proof.
  intros [C1 C2 C3 C4] Hid Hs Hw1. unfold addPowerSession.
  intros (s' & w0 & [-> E]%deref_inv & ([] & w3 & E3 & [= <-])%bind_inv)%bind_inv.
  assert (s' = s) as -> by (subst w1; cbn in E; rewrite lookup_insert_eq in E; congruence).
  destruct (add_tids_run id (threadIds s) (λ t, open_refs t (skel w)) w1 tt w3) as (En & Hl & R);
    [by subst w1|done|].
  assert (skel w3 = <[id := (threadIds s, false)]> (skel w)) as Hsk.
  { unfold skel at 1. rewrite (rest_heap _ _ R), Hw1. cbn [heap set_heap].
    rewrite fmap_insert. unfold core at 1. by rewrite Hs. }
  assert (skel w !! id = None) as Hn by (unfold skel; by rewrite lookup_fmap, Hid).
  assert (∀ x, is_open (set_sessions ({[id]} ∪ mSessions w3) w3) x ↔ x = id ∨ is_open w x) as Ho.
  { intros x. unfold is_open. change (skel (set_sessions _ w3)) with (skel w3). rewrite Hsk.
    destruct (decide (x = id)) as [->|Hx]; [rewrite lookup_insert_eq; naive_solver|].
    rewrite lookup_insert_ne by done. naive_solver. }
  split; [|by apply Ho; left].
  constructor; change (skel (set_sessions _ w3)) with (skel w3); rewrite ?Hsk; cbn.
  - intros t. rewrite En. by rewrite open_refs_insert by done.
  - intros t x. change (listed (set_sessions _ w3) t) with (listed w3 t). rewrite Hl.
    change (listed w1 t) with (default ∅ (mTidSessionListMap w1 !! t)). rewrite Hw1. cbn.
    fold (listed w t). rewrite C2. destruct (decide (x = id)) as [->|Hx].
    + rewrite lookup_insert_eq, Hn. naive_solver.
    + rewrite lookup_insert_ne by done. naive_solver.
  - intros x. rewrite Ho, elem_of_union, elem_of_singleton, (rest_sessions _ _ R), Hw1. cbn. by rewrite C3.
  - intros m x. rewrite Ho, (rest_queue _ _ R), Hw1. cbn. eauto.
Qed.

(** Removing an open session: all but the messages that are still posted. *)
Lemma remove_semi id s w w1 w2 a :
  consistent w → heap w !! id = Some s → mSessionClosed s = false →
  w1 = set_heap (<[id := session_with_closed true s]> (heap w)) w →
  removePowerSession id w1 = Some (a, w2) →
  skel w2 = <[id := (threadIds s, true)]> (skel w) ∧
  enc (λ t, open_refs t (skel w2)) (mTidRefCountMap w2) ∧
  (∀ t x, x ∈ listed w2 t ↔ ∃ l, skel w2 !! x = Some (l, false) ∧ t ∈ l) ∧
  (∀ x, x ∈ mSessions w2 ↔ is_open w2 x) ∧
  (∀ m x, m ∈ queue w2 → owner m.2 = Some x → x = id ∨ is_open w2 x) ∧
  (∀ x, is_open w2 x → x ≠ id ∧ is_open w x).
Proof.
  intros [C1 C2 C3 C4] Hid Hs Hw1. unfold removePowerSession.
  intros (s' & w0 & [-> E]%deref_inv & ([] & w3 & E3 & [= <- <-])%bind_inv)%bind_inv.
  assert (s' = session_with_closed true s) as ->
    by (subst w1; cbn in E; rewrite lookup_insert_eq in E; congruence).
  assert (skel w !! id = Some (threadIds s, false)) as Hn
    by (unfold skel; rewrite lookup_fmap, Hid; unfold core; cbn; by rewrite Hs).
  pose proof (λ t, open_refs_update t id (threadIds s, false) (threadIds s, true) (skel w) Hn) as Hr.
  cbn [fst snd] in Hr.
  destruct (remove_tids_run id (threadIds s)
    (λ t, open_refs t (<[id := (threadIds s, true)]> (skel w))) w1 tt w3) as (En & Hl & R); [|done|].
  { subst w1. cbn. intros t. rewrite (C1 t). by replace (open_refs t (skel w)) with
      (count t (threadIds s) + open_refs t (<[id:=(threadIds s, true)]> (skel w)))%nat
      by (specialize (Hr t); lia). }
  assert (skel w3 = <[id := (threadIds s, true)]> (skel w)) as Hsk.
  { unfold skel at 1. rewrite (rest_heap _ _ R), Hw1. cbn [heap set_heap]. by rewrite fmap_insert. }
  change (skel (set_sessions _ w3)) with (skel w3). unfold is_open.
  change (skel (set_sessions _ w3)) with (skel w3). rewrite Hsk.
  assert (∀ x, (∃ l, <[id:=(threadIds s, true)]> (skel w) !! x = Some (l, false)) ↔
     x ≠ id ∧ is_open w x) as Ho.
  { intros x. unfold is_open. destruct (decide (x = id)) as [->|Hx].
    - rewrite lookup_insert_eq. naive_solver.
    - rewrite lookup_insert_ne by done. naive_solver. }
  split; [done|]. split; [done|]. split; [|split; [|split]].
  - intros t x. change (listed (set_sessions _ w3) t) with (listed w3 t). rewrite Hl.
    replace (listed w1 t) with (listed w t) by (by subst w1). rewrite C2.
    destruct (decide (x = id)) as [->|Hx].
    + rewrite lookup_insert_eq, Hn. naive_solver.
    + rewrite lookup_insert_ne by done. naive_solver.
  - intros x. rewrite Ho. cbn. rewrite (rest_sessions _ _ R), Hw1. cbn.
    rewrite elem_of_difference, elem_of_singleton, C3. tauto.
  - intros m x. cbn. rewrite (rest_queue _ _ R), Hw1. cbn. intros Hm Hx.
    destruct (decide (x = id)); [by left|right]. apply Ho. eauto.
  - intros x. apply Ho.
Qed.

(** The end of [close]: no message for the session remains. *)
Lemma dead_silent id w a w' :
  (early_setSessionDead id ;; stale_setSessionDead id ;; updateUniveralBoostMode id) w = Some (a, w') →
  ∀ m, m ∈ queue w' → owner m.2 ≠ Some id.
Proof.
  unfold early_setSessionDead, stale_setSessionDead, updateUniveralBoostMode.
  intros ([] & w1 & (? & ? & E1 & [= <-])%bind_inv & E2)%bind_inv.
  apply bind_inv in E2 as ([] & w2 & (? & w3 & E3 & [= <-])%bind_inv & E4).
  apply bind_inv in E4 as (s & ? & [-> _]%deref_inv & E5).
  assert (queue w3 = filter (λ m, m.2 ≠ HEarlyBoost id) (queue x0)) as Hq3.
  { unfold update in E3. apply bind_inv in E3 as (? & ? & [-> _]%deref_inv & [= _ <-]). done. }
  intros m Hm. assert (m ∈ filter (λ m, m.2 ≠ HStale id) (queue w3) ∨ m.2 = HManager) as Hor.
  { unfold when in E5. destruct (isAppSession s); injection E5 as _ <-; [|by left].
    cbn in Hm. apply elem_of_app in Hm as [?| ->%list_elem_of_singleton]; auto. }
  destruct m as [d h]. destruct Hor as [Hin| ->]; [|done].
  rewrite Hq3 in Hin. rewrite !list_elem_of_filter in Hin. destruct Hin as (? & ? & _).
  destruct h; naive_solver.
Qed.

(** The part of [close] after the session is removed. *)
Definition close_tail (id : nat) : P unit :=
  setSessionUclampMin id 0 ;;
  update id (session_with_closed true) ;;
  update id (session_with_active false) ;;
  (early_setSessionDead id ;; stale_setSessionDead id ;; updateUniveralBoostMode id).

Definition is_closed (w : world) (id : nat) : Prop := ∃ l, skel w !! id = Some (l, true).
#[local] Instance stable_closed id : Stable (λ w, is_closed w id).
Proof. intros w w' F (l & E). exists l. by rewrite (frame_skel _ _ F). Qed.

Lemma keeps_update_closed id :
  keeps (λ w, is_closed w id) (update id (session_with_closed true)).
Proof.
  intros w a w' (l & Hl). unfold update.
  intros (s & ? & [-> E]%deref_inv & [= _ <-])%bind_inv.
  constructor; auto. apply skel_update; [done|].
  unfold skel in Hl. rewrite lookup_fmap, E in Hl. injection Hl as _ Hc. unfold core; cbn. by rewrite Hc.
Qed.
#[local] Hint Resolve keeps_update_closed : frame.

Lemma keeps_close_tail id : keeps (λ w, is_closed w id) (close_tail id).
Proof.
  unfold close_tail, setSessionUclampMin, early_setSessionDead, stale_setSessionDead.
  cbn [when negb Z.eqb]. framed.
Qed.

Lemma bind_assoc {A B C} (m : P A) (k : A → P B) (j : B → P C) w :
  bind (bind m k) j w = bind m (λ a, bind (k a) j) w.
Proof. unfold bind. by destruct (m w) as [[]|]. Qed.

Lemma close_run id w st w' :
  close id w = Some (st, w') →
  (∃ s, heap w !! id = Some s ∧ mSessionClosed s = true ∧ st = EX_ILLEGAL_STATE ∧ w' = w) ∨
  ∃ s w2, heap w !! id = Some s ∧ mSessionClosed s = false ∧ st = OK ∧
    removePowerSession id (set_heap (<[id := session_with_closed true s]> (heap w)) w) = Some (tt, w2) ∧
    close_tail id w2 = Some (tt, w').
Proof.
  unfold close. intros (s & ? & [-> E]%deref_inv & E1)%bind_inv.
  destruct (mSessionClosed s) eqn:Hs; [left; injection E1 as <- <-; eauto|]. right.
  apply bind_inv in E1 as ([] & w1 & Eu & E1).
  unfold update in Eu. apply bind_inv in Eu as (s1 & ? & [-> E']%deref_inv & [= <-]).
  apply bind_inv in E1 as ([] & w2 & E2 & E3). assert (s1 = s) as -> by congruence.
  exists s, w2. do 2 (split; [done|]).
  assert ((close_tail id ;; ret OK) w2 = Some (st, w')) as ([] & w3 & Et & [= <- <-])%bind_inv;
    [|done].
  rewrite <- E3. unfold close_tail. rewrite !bind_assoc. unfold bind.
  repeat (case_match; try done). by simplify_eq.
Qed.

Lemma close_consistent id w st w' :
  consistent w → close id w = Some (st, w') → consistent w' ∧ is_closed w' id.
Proof.
  intros C [(s & E & Hs & _ & ->)|(s & w2 & E & Hs & _ & E2 & E3)]%close_run.
  { split; [done|]. exists (threadIds s). unfold skel. rewrite lookup_fmap, E. unfold core; cbn. by rewrite Hs. }
  destruct (remove_semi id s w _ w2 tt C E Hs eq_refl E2) as (Hsk & C1 & C2 & C3 & C4 & C5).
  assert (is_closed w2 id) as Hcl by (exists (threadIds s); rewrite Hsk; apply lookup_insert_eq).
  pose proof (keeps_close_tail id w2 tt w' Hcl E3) as F. split; [|by eapply stable_closed].
  pose proof (is_open_frame w2 w') as Ho. unfold close_tail in E3.
  apply bind_inv in E3 as ([] & ? & _ & E3). apply bind_inv in E3 as ([] & ? & _ & E3).
  apply bind_inv in E3 as ([] & ? & _ & E3). pose proof (dead_silent _ _ _ _ E3) as Hsil.
  destruct F as [F1 F2 F3 F4 F5]. constructor; unfold listed in *; rewrite ?F1, ?F2, ?F3, ?F4; auto.
  - intros y. rewrite C3, Ho; [done|by constructor].
  - intros m y Hm Hy. apply Ho; [by constructor|].
    destruct (F5 m y Hm Hy) as [Hm2|]; [|done].
    destruct (C4 m y Hm2 Hy) as [->|]; [|done]. by destruct (Hsil m Hm).
Qed.

Lemma destroy_consistent id w w' :
  consistent w → destroy id w = Some (tt, w') → consistent w'.
Proof.
  unfold destroy. intros C (st & w1 & E & [= <-])%bind_inv.
  destruct (close_consistent id w st w1 C E) as [[C1 C2 C3 C4] (l & Hl)].
  assert (skel (set_heap (delete id (heap w1)) w1) = delete id (skel w1)) as Hsk
    by (unfold skel; cbn; by rewrite fmap_delete).
  assert (∀ x l', delete id (skel w1) !! x = Some (l', false) ↔ skel w1 !! x = Some (l', false)) as Hd.
  { intros x l'. destruct (decide (x = id)) as [->|Hx].
    - rewrite lookup_delete_eq, Hl. naive_solver.
    - by rewrite lookup_delete_ne. }
  constructor; unfold is_open, listed in *; rewrite ?Hsk; cbn.
  - intros t. rewrite (C1 t). by rewrite (open_refs_delete t id l).
  - intros t x. rewrite C2. by setoid_rewrite Hd.
  - intros x. rewrite C3. by setoid_rewrite Hd.
  - intros m x Hm Hx. setoid_rewrite Hd. eauto.
Qed.

Lemma create_consistent id tg u l d w w' :
  consistent w → heap w !! id = None → PowerHintSession id tg u l d w = Some (tt, w') → consistent w'.
Proof.
  intros C Hid. unfold PowerHintSession.
  intros (? & ? & [= <- <-] & E)%bind_inv. apply bind_inv in E as (st & w0 & E0 & E).
  unfold lift in E0. destruct (ck64 _); [|done]. injection E0 as <- <-.
  apply bind_inv in E as ([] & w1 & [= <-] & E). apply bind_inv in E as ([] & w2 & E2 & E).
  eapply add_consistent in E2 as [C2 Ho]; [|exact C|exact Hid| |reflexivity]; [|reflexivity].
  apply bind_inv in E as (cfg & w3 & Ep & E).
  pose proof (keeps_profile (λ _, True) w2 cfg w3 I Ep) as F3.
  eapply consistent_frame; [|exact (consistent_frame _ _ F3 C2)].
  eapply (keeps_setSessionUclampMin id); [|exact E]. by eapply stable_open.
Qed.

Lemma keeps_handleMessage h id :
  owner h = Some id → keeps (λ w, is_open w id) (handleMessage h).
Proof.
  destruct h; intros [= <-]; [apply keeps_stale_handleMessage|apply keeps_early_handleMessage].
Qed.

Lemma keeps_handleMessage_manager h : owner h = None → keeps (λ _, True) (handleMessage h).
Proof.
  destruct h; try done; intros _; [apply keeps_manager_handleMessage; apply _|].
  unfold handleMessage, wakeSessions.
  apply keeps_bind; [apply _|apply keeps_get|intros w].
  apply keeps_for_each; [apply _|]. intros. apply keeps_wakeup.
Qed.

Lemma deliver_consistent k w w' : consistent w → deliver k w = Some (tt, w') → consistent w'.
Proof.
  intros C. unfold deliver. intros (? & ? & [= <- <-] & E)%bind_inv.
  destruct (queue w !! k) as [[due h]|] eqn:Ek; [|done]. destruct (due <=? now w); [|done].
  apply bind_inv in E as ([] & w1 & [= <-] & E).
  assert (frame w (set_queue (delete k (queue w)) w)) as F.
  { constructor; auto. cbn. intros m id Hm _. left. revert Hm. rewrite delete_take_drop.
    intros [Hm|Hm]%elem_of_app; eapply list_elem_of_lookup in Hm as (j & Hj).
    - apply lookup_take_Some in Hj as [Hj _]. by eapply list_elem_of_lookup_2.
    - rewrite lookup_drop in Hj. by eapply list_elem_of_lookup_2. }
  pose proof (consistent_frame _ _ F C) as C1.
  eapply consistent_frame; [|exact C1]. destruct (owner h) as [id|] eqn:Ho.
  - eapply (keeps_handleMessage h id Ho); [|exact E]. eapply stable_open; [exact F|].
    eapply (con_queue _ C); [by eapply list_elem_of_lookup_2|done].
  - by eapply (keeps_handleMessage_manager h Ho).
Qed.

Lemma step_consistent w w' : step w w' → consistent w → consistent w'.
Proof.
  intros Hs C. destruct Hs as [id tg u l d w w' Hid E|id c st w w' E|id w w' E|k w w' E
    |mode b w w' E|boost ms w w' E|t w Ht].
  - by eapply create_consistent.
  - destruct c; cbn in E; [| |by eapply close_consistent in E as [? _]| |];
      (eapply consistent_frame; [|exact C]).
    + by eapply (keeps_pause (λ _, True)).
    + by eapply keeps_resume.
    + by eapply (keeps_updateTargetWorkDuration (λ _, True)).
    + by eapply keeps_reportActualWorkDuration.
  - by eapply destroy_consistent.
  - by eapply deliver_consistent.
  - eapply consistent_frame; [|exact C]. by eapply (keeps_updateHintMode (λ _, True)).
  - eapply consistent_frame; [|exact C]. by eapply (keeps_updateHintBoost (λ _, True)).
  - eapply consistent_frame; [|exact C]. by constructor; auto.
Qed.

Lemma start_consistent cfg t : consistent (start cfg t).
Proof.
  constructor.
  - intros u. cbn. rewrite lookup_empty. unfold skel; cbn. rewrite fmap_empty. done.
  - intros u id. unfold listed, skel; cbn. rewrite lookup_empty, fmap_empty, lookup_empty. set_solver.
  - intros id. unfold is_open, skel; cbn. rewrite fmap_empty, lookup_empty. set_solver.
  - intros m id Hm. by apply not_elem_of_nil in Hm.
Qed.

Lemma reachable_consistent w : reachable w → consistent w.
Proof.
  intros (cfg & t & Hr). pose proof (start_consistent cfg t) as C.
  induction Hr; [done|]. eauto using step_consistent.
Qed.

(** C6. The manager's containers, over every run of clients, timers and
    destructors, each method and each message being one atomic step, as long as the
    task profile of every thread can be set ([failed_profile_dangles] is a run where
    it cannot): the reference
    count of a thread is the number of times open sessions list it, and a
    thread no open session lists has no entry; the sessions listed for a thread
    are exactly the open sessions that include it; the set of sessions holds
    exactly the open ones; and every timer message is for an open session.  So no
    closed or freed session is in the manager's containers or in the looper's
    queue. *)
Theorem manager_consistent w :
  reachable w →
  (∀ t, mTidRefCountMap w !! t =
    let n := open_refs t (skel w) in if (n =? 0)%nat then None else Some (Z.of_nat n)) ∧
  (∀ t id, id ∈ listed w t ↔
    ∃ s, heap w !! id = Some s ∧ mSessionClosed s = false ∧ t ∈ threadIds s) ∧
  (∀ id, id ∈ mSessions w ↔ ∃ s, heap w !! id = Some s ∧ mSessionClosed s = false) ∧
  (∀ due h id, (due, h) ∈ queue w → owner h = Some id →
    ∃ s, heap w !! id = Some s ∧ mSessionClosed s = false).
Proof.
  intros [C1 C2 C3 C4]%reachable_consistent.
  assert (∀ id l, skel w !! id = Some (l, false) ↔
    ∃ s, heap w !! id = Some s ∧ mSessionClosed s = false ∧ threadIds s = l) as Hsk.
  { intros id l. unfold skel, core. rewrite lookup_fmap.
    destruct (heap w !! id) as [s|]; cbn; split.
    - intros [= <- Hc]. eauto.
    - intros (? & [= <-] & -> & <-). done.
    - done.
    - by intros (? & ? & _). }
  unfold is_open in *. setoid_rewrite Hsk in C2. setoid_rewrite Hsk in C3. setoid_rewrite Hsk in C4.
  split; [done|]. split; [|split].
  - intros t id. rewrite C2. naive_solver.
  - intros id. rewrite C3. naive_solver.
  - intros due h id Hq Ho. destruct (C4 _ _ Hq Ho) as (? & s & ? & ? & _). eauto.
Qed.
End containers.

(** ** The clamps of the threads *)

(** A session counts while it is active and not stale. *)
Definition live (cfg : AdpfConfig) (t : Z) (s : session) : bool :=
  is_active s && match stale_time cfg s with Some st => t <? st | None => false end.

(** [r] is the largest request of the open sessions that include the thread [t]
    and count, at least 0. *)
Definition is_request (cfg : AdpfConfig) (w : world) (t r : Z) : Prop :=
  let counts id s := heap w !! id = Some s ∧ mSessionClosed s = false ∧ t ∈ threadIds s ∧
                     live cfg (now w) s = true in
  0 ≤ r ∧ (∀ id s, counts id s → current_min s ≤ r) ∧
  (r = 0 ∨ ∃ id s, counts id s ∧ current_min s = r).

(** The stale time of every session can be computed. *)
Definition timed (cfg : AdpfConfig) (w : world) : Prop :=
  ∀ id s, heap w !! id = Some s → is_Some (stale_time cfg s).

(** The value written for a request. *)
Definition uclamp (z : Z) : Z := Z.min (Z.max 0 z) kMaxUclampValue.

(** What the walk of [setUclampMinLocked] finds. *)
Definition req_of (cfg : AdpfConfig) (w : world) (id : nat) : Z :=
  match heap w !! id with
  | Some s => if live cfg (now w) s then current_min s else 0
  | None => 0
  end.
Definition thread_request (cfg : AdpfConfig) (w : world) (t : Z) : Z :=
  foldr (λ id, Z.max (req_of cfg w id)) 0 (elements (listed w t)).

(** Only the clamps, and the number of calls, have changed. *)
Record only_uclamp (w w' : world) : Prop := OnlyUclamp {
  ou_heap : heap w' = heap w;
  ou_sessions : mSessions w' = mSessions w;
  ou_refs : mTidRefCountMap w' = mTidRefCountMap w;
  ou_lists : mTidSessionListMap w' = mTidSessionListMap w;
  ou_adpf : adpf w' = adpf w;
  ou_now : now w' = now w;
  ou_queue : queue w' = queue w;
  ou_hints : hints w' = hints w;
  ou_active : mActive w' = mActive w;
}.
#[global] Instance only_uclamp_pre : PreOrder only_uclamp.
Proof. split; [by constructor|]. intros ??? [] []. constructor; congruence. Qed.

Lemma foldr_max_spec {A} (f : A → Z) l :
  0 ≤ foldr (λ x, Z.max (f x)) 0 l ∧ (∀ x, x ∈ l → f x ≤ foldr (λ x, Z.max (f x)) 0 l) ∧
  (foldr (λ x, Z.max (f x)) 0 l = 0 ∨ ∃ x, x ∈ l ∧ f x = foldr (λ x, Z.max (f x)) 0 l).
Proof.
  induction l as [|y l (IH1 & IH2 & IH3)]; cbn; [set_solver by lia|].
  split; [lia|]. split.
  - intros x [->|Hx]%elem_of_cons; [lia|]. specialize (IH2 x Hx). lia.
  - destruct (Z.max_spec (f y) (foldr (λ x, Z.max (f x)) 0 l)) as [[? ->]|[? ->]].
    + destruct IH3 as [->|(x & ? & <-)]; [by left|]. right. exists x. set_solver.
    + right. exists y. set_solver.
Qed.

Lemma thread_request_spec cfg w t :
  consistent w → is_request cfg w t (thread_request cfg w t).
Proof.
  intros C. destruct (foldr_max_spec (req_of cfg w) (elements (listed w t))) as (H1 & H2 & H3).
  fold (thread_request cfg w t) in H1, H2, H3.
  assert (∀ id s, heap w !! id = Some s → id ∈ elements (listed w t) ↔
    mSessionClosed s = false ∧ t ∈ threadIds s) as Hl.
  { intros id s E. rewrite elem_of_elements, (con_lists _ C).
    unfold skel, core. rewrite lookup_fmap, E. cbn. split.
    - intros (l & [= <- Hc] & ?). done.
    - intros (-> & ?). eauto. }
  split; [done|]. split.
  - intros id s (E & Hs & Ht & Hlv). specialize (H2 id). unfold req_of in H2. rewrite E, Hlv in H2.
    apply H2, (Hl id s E). done.
  - destruct H3 as [|(id & Hid & Hreq)]; [by left|].
    unfold req_of in Hreq. destruct (heap w !! id) as [s|] eqn:E; [|by left].
    destruct (live cfg (now w) s) eqn:Hlv; [|by left].
    right. exists id, s. destruct (proj1 (Hl id s E) Hid). done.
Qed.

Lemma thread_request_ext cfg w w' t :
  heap w' = heap w → now w' = now w → mTidSessionListMap w' = mTidSessionListMap w →
  thread_request cfg w' t = thread_request cfg w t.
Proof. intros Eh En El. unfold thread_request, listed, req_of. by rewrite Eh, En, El. Qed.

Section clamps.
Context `{Platform} (cfg : AdpfConfig).
Context (Hsched : ∀ k t, sched_setattr_ok k t = true) (Hon : mUclampMinOn cfg = true).

Lemma isTimeout_run id s t w :
  adpf w = Some cfg → heap w !! id = Some s → stale_time cfg s = Some t →
  isTimeout id w = Some (t <=? now w, w).
Proof.
  intros Ea Es Et. unfold isTimeout, getStaleTime, profile, deref, bind, get, lift, ret.
  by rewrite Ea, Es, Et.
Qed.

Lemma tid_max_run ids x w :
  adpf w = Some cfg → 0 ≤ x →
  (∀ id, id ∈ ids → ∃ s, heap w !! id = Some s ∧ is_Some (stale_time cfg s)) →
  tid_max ids x w = Some (Z.max x (foldr (λ id, Z.max (req_of cfg w id)) 0 ids), w).
Proof.
  intros Ea. revert x. induction ids as [|id ids IH]; intros x Hx Hids; cbn [tid_max foldr].
  - unfold ret. do 2 f_equal. lia.
  - destruct (Hids id) as (s & Es & [t Et]); [set_solver|].
    assert (∀ i, i ∈ ids → ∃ s, heap w !! i = Some s ∧ is_Some (stale_time cfg s)) as Hids'
      by set_solver.
    rewrite (bind_run (deref id) _ w s w)
      by (unfold deref, bind, get, lift; by rewrite Es).
    assert (req_of cfg w id = if is_active s && (now w <? t) then current_min s else 0) as Hq.
    { unfold req_of, live. by rewrite Es, Et. }
    rewrite Hq. destruct (is_active s); cbn [negb andb].
    + rewrite (bind_run _ _ _ _ _ (isTimeout_run id s t w Ea Es Et)).
      zcase; try lia; (rewrite IH; [|lia|done]); do 2 f_equal; lia.
    + rewrite IH by done. do 2 f_equal. lia.
Qed.

Lemma set_uclamp_min_run t m w :
  adpf w = Some cfg →
  ∃ w', set_uclamp_min t m w = Some (tt, w') ∧ only_uclamp w w' ∧
        util_min w' = <[t := uclamp m]> (util_min w).
Proof.
  intros Ea. unfold set_uclamp_min, sched_setattr, profile, bind, get, lift, modify, ret.
  rewrite Ea, Hon. cbn. rewrite Hsched. eexists. split; [done|]. split; [by constructor|done].
Qed.

Lemma set_tids_run val l w :
  adpf w = Some cfg →
  (∀ t id, id ∈ listed w t → ∃ s, heap w !! id = Some s ∧ is_Some (stale_time cfg s)) →
  ∃ w', for_each l (set_tid_uclamp val) w = Some (tt, w') ∧ only_uclamp w w' ∧
    ∀ t, util_min w' !! t = if decide (t ∈ l) then Some (uclamp (Z.max val (thread_request cfg w t)))
                            else util_min w !! t.
Proof.
  revert w. induction l as [|u l IH]; intros w Ea Hl.
  - exists w. split; [done|]. split; [done|]. intros t. by rewrite decide_False by set_solver.
  - destruct (set_uclamp_min_run u (Z.max val (thread_request cfg w u)) w Ea) as (w1 & E1 & O1 & U1).
    assert (set_tid_uclamp val u w = Some (tt, w1)) as E1'.
    { unfold set_tid_uclamp. rewrite (bind_run _ _ _ _ _ eq_refl).
      rewrite (bind_run _ _ w (thread_request cfg w u) w); [done|].
      rewrite tid_max_run; [|done|lia|].
      - fold (listed w u). fold (thread_request cfg w u). do 2 f_equal.
        destruct (foldr_max_spec (req_of cfg w) (elements (listed w u))) as (? & _).
        unfold thread_request. lia.
      - intros id Hid. apply (Hl u). by apply elem_of_elements. }
    destruct (IH w1) as (w2 & E2 & O2 & U2).
    { by rewrite (ou_adpf _ _ O1). }
    { unfold listed. rewrite (ou_heap _ _ O1), (ou_lists _ _ O1). exact Hl. }
    exists w2. split; [by cbn; rewrite (bind_run _ _ _ _ _ E1')|]. split; [by etrans|].
    intros t. rewrite U2, (thread_request_ext cfg w w1) by apply O1. rewrite U1.
    destruct (decide (t = u)) as [->|Hne].
    + rewrite lookup_insert_eq, (decide_True (P := u ∈ u :: l)) by set_solver. by case_decide.
    + rewrite lookup_insert_ne by done. repeat case_decide; set_solver.
Qed.

(** The sessions listed for a thread are allocated. *)
Definition listed_ok (w : world) : Prop :=
  ∀ t id, id ∈ listed w t → ∃ s, heap w !! id = Some s ∧ is_Some (stale_time cfg s).

Lemma consistent_listed w : consistent w → timed cfg w → listed_ok w.
Proof.
  intros C Ht t i (l & Hi & _)%(con_lists _ C). unfold skel in Hi. rewrite lookup_fmap in Hi.
  destruct (heap w !! i) as [si|] eqn:Ei; [|done]. eauto.
Qed.

Lemma deref_run id s w : heap w !! id = Some s → deref id w = Some (s, w).
Proof. intros E. unfold deref, bind, get, lift. by rewrite E. Qed.

Lemma update_run id f s w :
  heap w !! id = Some s → update id f w = Some (tt, set_heap (<[id := f s]> (heap w)) w).
Proof. intros E. unfold update. by rewrite (bind_run _ _ _ _ _ (deref_run id s w E)). Qed.

Lemma setUclampMin_run id s val w :
  listed_ok w → adpf w = Some cfg → heap w !! id = Some s →
  ∃ w', setUclampMin id val w = Some (tt, w') ∧ only_uclamp w w' ∧
    ∀ t, util_min w' !! t =
      if decide (t ∈ threadIds s) then Some (uclamp (Z.max val (thread_request cfg w t)))
      else util_min w !! t.
Proof.
  intros C Ea Es. unfold setUclampMin, setUclampMinLocked.
  rewrite (bind_run _ _ _ _ _ (deref_run id s w Es)). by apply set_tids_run.
Qed.

(** The manager gives a thread the largest request: [setUclampMin] on a session
    with value [val] writes, for each of its threads, the larger of [val] and the
    largest request of the open sessions that include the thread, are active and
    are not stale, cut to 0..1024; it touches no other thread and nothing else. *)
Theorem uclamp_aggregation id s val w :
  (∀ k t, SetTaskProfiles_ok k t "ResetUclampGrp" = true) →
  reachable w → adpf w = Some cfg → timed cfg w → heap w !! id = Some s →
  ∃ w', setUclampMin id val w = Some (tt, w') ∧ only_uclamp w w' ∧
    (∀ t, t ∈ threadIds s → ∃ r, is_request cfg w t r ∧
       util_min w' !! t = Some (Z.min (Z.max 0 (Z.max val r)) 1024)) ∧
    (∀ t, t ∉ threadIds s → util_min w' !! t = util_min w !! t).
Proof.
  intros Hp Hr Ea Ht Es. pose proof (reachable_consistent Hp w Hr) as C.
  destruct (setUclampMin_run id s val w (consistent_listed w C Ht) Ea Es) as (w' & E & O & U).
  exists w'. do 2 (split; [done|]). split.
  - intros t Hin. exists (thread_request cfg w t). split; [by apply thread_request_spec|].
    by rewrite U, decide_True.
  - intros t Hin. by rewrite U, decide_False.
Qed.

(** Worlds that give the threads the same requests and clamps. *)
Record same_clamps (w w' : world) : Prop := SameClamps {
  sc_heap : heap w' = heap w;
  sc_lists : mTidSessionListMap w' = mTidSessionListMap w;
  sc_now : now w' = now w;
  sc_adpf : adpf w' = adpf w;
  sc_util : util_min w' = util_min w;
}.
#[local] Instance same_clamps_pre : PreOrder same_clamps.
Proof. split; [by constructor|]. intros ??? [] []. constructor; congruence. Qed.

Lemma updateUniveralBoostMode_run id s w :
  heap w !! id = Some s →
  ∃ w', updateUniveralBoostMode id w = Some (tt, w') ∧ same_clamps w w' ∧
    ∀ m, m ∈ queue w → m ∈ queue w'.
Proof.
  intros Es. unfold updateUniveralBoostMode. rewrite (bind_run _ _ _ _ _ (deref_run id s w Es)).
  unfold when, sendMessage, modify, ret. destruct (isAppSession s); eexists; (split; [done|]).
  - split; [by constructor|]. cbn. set_solver.
  - split; [done|]. auto.
Qed.

(** The clamp of the thread [t] is the largest request for it. *)
Definition settled (w : world) (t : Z) : Prop :=
  ∃ r, is_request cfg w t r ∧ util_min w !! t = Some (Z.min r 1024).

Lemma settled_intro w t :
  consistent w → util_min w !! t = Some (uclamp (thread_request cfg w t)) → settled w t.
Proof.
  intros C E. pose proof (thread_request_spec cfg w t C) as Hr.
  exists (thread_request cfg w t). split; [done|]. rewrite E. f_equal.
  destruct Hr as [? _]. unfold uclamp, kMaxUclampValue. lia.
Qed.

Lemma setStale_run id s w :
  listed_ok w → adpf w = Some cfg → heap w !! id = Some s →
  ∃ w', setStale id w = Some (tt, w') ∧ heap w' = heap w ∧ now w' = now w ∧ adpf w' = adpf w ∧
    mTidSessionListMap w' = mTidSessionListMap w ∧
    (∀ t, t ∈ threadIds s → util_min w' !! t = Some (uclamp (thread_request cfg w' t))).
Proof.
  intros Hl Ea Es. destruct (setUclampMin_run id s 0 w Hl Ea Es) as (w1 & E1 & O1 & U1).
  destruct (updateUniveralBoostMode_run id s w1) as (w2 & E2 & S2 & _).
  { by rewrite (ou_heap _ _ O1). }
  exists w2. unfold setStale. rewrite (bind_run _ _ _ _ _ E1). split; [done|].
  destruct O1, S2. repeat (split; [congruence|]). intros t Hin.
  rewrite (thread_request_ext cfg w w2) by congruence.
  rewrite sc_util0, U1, decide_True by done. f_equal.
  destruct (foldr_max_spec (req_of cfg w) (elements (listed w t))) as [? _].
  unfold thread_request, uclamp. lia.
Qed.

(** ** Operations on one session leave the others alone *)

Record other (id : nat) (w w' : world) : Prop := Other {
  ot_heap : ∀ x, x ≠ id → heap w' !! x = heap w !! x;
  ot_self : ∀ s, heap w !! id = Some s → ∃ s', heap w' !! id = Some s' ∧ threadIds s' = threadIds s;
  ot_lists : mTidSessionListMap w' = mTidSessionListMap w;
  ot_now : now w' = now w;
  ot_adpf : adpf w' = adpf w;
  ot_util : util_min w' = util_min w;
}.
#[local] Instance other_pre id : PreOrder (other id).
Proof.
  split.
  - intros w. constructor; eauto.
  - intros w1 w2 w3 [A1 A2 ? ? ? ?] [B1 B2 ? ? ? ?]. constructor; try congruence.
    + intros x Hx. by rewrite B1, A1.
    + intros s Hs. destruct (A2 s Hs) as (s' & Hs' & <-). auto.
Qed.

(** [m] runs on an allocated session and changes only that session. *)
Definition local_op (id : nat) (m : P unit) : Prop :=
  ∀ w, is_Some (heap w !! id) → ∃ w', m w = Some (tt, w') ∧ other id w w'.

Lemma local_seq id m1 m2 : local_op id m1 → local_op id m2 → local_op id (m1 ;; m2).
Proof.
  intros H1 H2 w [s Hs]. destruct (H1 w) as (w1 & E1 & O1); [eauto|].
  destruct (ot_self _ _ _ O1 s Hs) as (s1 & Hs1 & _).
  destruct (H2 w1) as (w2 & E2 & O2); [eauto|]. exists w2.
  rewrite (bind_run _ _ _ _ _ E1). split; [done|by etrans].
Qed.

Lemma local_update id f : (∀ s, threadIds (f s) = threadIds s) → local_op id (update id f).
Proof.
  intros Hf w [s Hs]. eexists. split; [by apply update_run|]. constructor; auto; cbn.
  - intros x Hx. by rewrite lookup_insert_ne.
  - intros s' Hs'. rewrite lookup_insert_eq. assert (s' = s) as -> by congruence. eauto.
Qed.

Lemma local_removeMessages id h : local_op id (removeMessages h).
Proof. intros w _. eexists. split; [done|]. constructor; eauto. Qed.

Lemma local_updateUniveralBoostMode id : local_op id (updateUniveralBoostMode id).
Proof.
  intros w [s Hs]. destruct (updateUniveralBoostMode_run id s w Hs) as (w' & E & [S1 S2 S3 S4 S5] & _).
  exists w'. split; [done|]. constructor; rewrite ?S1; eauto.
Qed.

Lemma thread_request_other id w w' t :
  other id w w' → id ∉ listed w t → thread_request cfg w' t = thread_request cfg w t.
Proof.
  intros O Hid. unfold thread_request, listed. rewrite (ot_lists _ _ _ O). fold (listed w t).
  assert (∀ x, x ∈ elements (listed w t) → req_of cfg w' x = req_of cfg w x) as Hx.
  { intros x Hx%elem_of_elements. unfold req_of.
    rewrite (ot_heap _ _ _ O) by set_solver. by rewrite (ot_now _ _ _ O). }
  induction (elements (listed w t)) as [|x l IH]; [done|]. cbn.
  rewrite IH, Hx by set_solver. done.
Qed.

Lemma timed_insert id f s w :
  heap w !! id = Some s → stale_time cfg (f s) = stale_time cfg s → timed cfg w →
  timed cfg (set_heap (<[id := f s]> (heap w)) w).
Proof.
  intros Es Ef Ht x sx. cbn. destruct (decide (x = id)) as [->|Hx].
  - rewrite lookup_insert_eq. intros [= <-]. rewrite Ef. eauto.
  - rewrite lookup_insert_ne by done. apply Ht.
Qed.

Lemma listed_insert id f s w :
  heap w !! id = Some s → stale_time cfg (f s) = stale_time cfg s → listed_ok w →
  listed_ok (set_heap (<[id := f s]> (heap w)) w).
Proof.
  intros Es Ef Hl t x Hx. destruct (Hl t x Hx) as (sx & Ex & Hsx). cbn.
  destruct (decide (x = id)) as [->|Hne].
  - rewrite lookup_insert_eq. eexists. split; [done|]. rewrite Ef. congruence.
  - rewrite lookup_insert_ne by done. eauto.
Qed.

Lemma pause_settles id s w :
  consistent w → adpf w = Some cfg → timed cfg w → heap w !! id = Some s →
  mSessionClosed s = false → is_active s = true →
  ∃ w', pause id w = Some (OK, w') ∧ heap w' = <[id := session_with_active false s]> (heap w) ∧
    ∀ t, t ∈ threadIds s → settled w' t.
Proof.
  intros C Ea Ht Es Hc Ha. unfold pause.
  assert (∃ w', pause id w = Some (OK, w') ∧ heap w' = <[id := session_with_active false s]> (heap w) ∧
    ∀ t, t ∈ threadIds s → util_min w' !! t = Some (uclamp (thread_request cfg w' t)))
    as (w' & E & Hh & U).
  { unfold pause. rewrite (bind_run _ _ _ _ _ (deref_run id s w Es)), Hc, Ha. cbn [negb].
    rewrite (bind_run _ _ _ _ _ (update_run id _ s w Es)).
    set (w1 := set_heap _ w).
    assert (heap w1 !! id = Some (session_with_active false s)) as Es1 by apply lookup_insert_eq.
    destruct (setStale_run id (session_with_active false s) w1) as (w2 & E2 & Hh & Hn & Hap & Hls & U);
      [|done|done|].
    { apply listed_insert; [done|done|]. by apply consistent_listed. }
    rewrite (bind_run _ _ _ _ _ E2).
    destruct (updateUniveralBoostMode_run id (session_with_active false s) w2) as (w3 & E3 & [] & _);
      [by rewrite Hh|].
    exists w3. rewrite (bind_run _ _ _ _ _ E3). split; [done|]. split; [by rewrite sc_heap0, Hh|].
    intros t Hin. rewrite sc_util0, U by done. by rewrite (thread_request_ext cfg w2 w3). }
  exists w'. split; [done|]. split; [done|]. intros t Hin. apply settled_intro; [|by apply U].
  eapply consistent_frame; [|exact C]. by eapply (keeps_pause (λ _, True)).
Qed.

Lemma stale_settles id s w :
  consistent w → adpf w = Some cfg → timed cfg w → heap w !! id = Some s →
  stale_dead s = false → 0 ≤ mStaleTime s ≤ now w → now w < 2 ^ 63 →
  ∃ w', stale_handleMessage id w = Some (tt, w') ∧
    heap w' = <[id := session_with_stale (mStaleTime s) false false s]> (heap w) ∧
    ∀ t, t ∈ threadIds s → util_min w' !! t = Some (uclamp (thread_request cfg w' t)).
Proof.
  intros C Ea Ht Es Hd Hst Hnow. unfold stale_handleMessage.
  rewrite (bind_run _ _ _ _ _ (deref_run id s w Es)), Hd, (bind_run _ _ _ _ _ eq_refl).
  unfold lift. rewrite checked_Some by lia. rewrite (bind_run _ _ _ _ _ eq_refl). zbool.
  destruct (setStale_run id s w (consistent_listed w C Ht) Ea Es) as (w1 & E1 & Hh & Hn & Hap & Hls & U).
  rewrite (bind_run _ _ _ _ _ E1), (update_run id _ s w1) by (by rewrite Hh).
  eexists. split; [done|]. cbn. rewrite Hd, Hh. split; [done|]. intros t Hin. rewrite U by done.
  f_equal. f_equal. unfold thread_request. apply foldr_ext; [|done|done].
  intros x. unfold req_of. cbn. rewrite Hh. intros y.
  destruct (decide (x = id)) as [->|Hx]; [|by rewrite lookup_insert_ne].
  rewrite lookup_insert_eq, Es, Hn. done.
Qed.

(** The reference counts are positive ints. *)
Definition counts_fit (w : world) : Prop :=
  ∀ t n, mTidRefCountMap w !! t = Some n → 0 < n < 2 ^ 31.

Lemma remove_tid_total id t w :
  counts_fit w → ∃ w', remove_tid id t w = Some (tt, w') ∧ counts_fit w'.
Proof.
  intros Hf. unfold remove_tid. rewrite (bind_run _ _ _ _ _ eq_refl).
  destruct (mTidRefCountMap w !! t) as [n|] eqn:E; [|by exists w].
  pose proof (Hf t n E) as Hn. rewrite (bind_run _ _ _ _ _ eq_refl).
  unfold lift, bind at 1. rewrite checked_Some by lia. rewrite (bind_run _ _ _ _ _ eq_refl).
  destruct (Z.leb_spec (n - 1) 0); (eexists; split; [done|]); intros u m; cbn;
    (destruct (decide (u = t)) as [->|Hu];
     [rewrite ?lookup_delete_eq, ?lookup_insert_eq; intros [= <-]; lia
     |rewrite ?lookup_delete_ne, ?lookup_insert_ne by done; apply Hf]).
Qed.

Lemma remove_tids_total id l w :
  counts_fit w → ∃ w', for_each l (remove_tid id) w = Some (tt, w').
Proof.
  revert w. induction l as [|t l IH]; intros w Hf; [by eexists|].
  destruct (remove_tid_total id t w Hf) as (w1 & E1 & Hf1). cbn.
  rewrite (bind_run _ _ _ _ _ E1). auto.
Qed.

Lemma remove_total id s w :
  counts_fit w → heap w !! id = Some s → ∃ w', removePowerSession id w = Some (tt, w').
Proof.
  intros Hf Es. unfold removePowerSession. rewrite (bind_run _ _ _ _ _ (deref_run id s w Es)).
  destruct (remove_tids_total id (threadIds s) w Hf) as (w1 & E1).
  rewrite (bind_run _ _ _ _ _ E1). by eexists.
Qed.

Lemma remove_keeps_rest id w w' a :
  removePowerSession id w = Some (a, w') → heap w' = heap w ∧ adpf w' = adpf w.
Proof.
  unfold removePowerSession.
  intros (s & ? & [-> E]%deref_inv & ([] & w1 & E1 & [= _ <-])%bind_inv)%bind_inv. cbn.
  clear E. revert w E1. induction (threadIds s) as [|t l IH]; intros w; [by intros [= <-]|].
  cbn. intros ([] & w2 & E2 & E3)%bind_inv. apply IH in E3 as [-> ->].
  revert E2. unfold remove_tid, SetTaskProfiles, bind, get, modify, ret, lift.
  repeat case_match; intros; by simplify_eq.
Qed.

Lemma close_tail_run id s w :
  listed_ok w → adpf w = Some cfg → heap w !! id = Some s → (∀ t, id ∉ listed w t) →
  ∃ w', close_tail id w = Some (tt, w') ∧
    (∀ x, x ≠ id → heap w' !! x = heap w !! x) ∧
    (∀ t, t ∈ threadIds s → util_min w' !! t = Some (uclamp (thread_request cfg w' t))).
Proof.
  intros Hl Ea Es Hid. unfold close_tail, setSessionUclampMin.
  rewrite bind_assoc, (bind_run _ _ _ _ _ (update_run id _ s w Es)). cbn [when negb Z.eqb].
  set (w1 := set_heap _ w).
  assert (heap w1 !! id = Some (session_with_min 0 s)) as Es1 by apply lookup_insert_eq.
  destruct (setUclampMin_run id (session_with_min 0 s) 0 w1) as (w2 & E2 & O2 & U2); [|done|done|].
  { by apply listed_insert. }
  rewrite bind_assoc, (bind_run (ret tt) _ w1 tt w1 eq_refl), (bind_run _ _ _ _ _ E2).
  assert (local_op id (update id (session_with_closed true) ;; update id (session_with_active false) ;;
    (early_setSessionDead id ;; stale_setSessionDead id ;; updateUniveralBoostMode id))) as Hloc.
  { unfold early_setSessionDead, stale_setSessionDead.
    repeat apply local_seq; auto using local_update, local_removeMessages, local_updateUniveralBoostMode. }
  destruct (Hloc w2) as (w3 & E3 & O3); [rewrite (ou_heap _ _ O2), Es1; eauto|].
  exists w3. split; [done|]. split.
  - intros x Hx. rewrite (ot_heap _ _ _ O3), (ou_heap _ _ O2) by done. cbn. by rewrite lookup_insert_ne.
  - intros t Hin. assert (id ∉ listed w2 t) as Hid2.
    { unfold listed. rewrite (ou_lists _ _ O2). apply Hid. }
    rewrite (thread_request_other id w2 w3), (ot_util _ _ _ O3), U2, decide_True by done.
    rewrite (thread_request_ext cfg w1 w2) by apply O2. do 2 f_equal.
    destruct (foldr_max_spec (req_of cfg w1) (elements (listed w1 t))) as [? _]. unfold thread_request. lia.
Qed.

Lemma close_settles id s w :
  (∀ k t, SetTaskProfiles_ok k t "ResetUclampGrp" = true) →
  consistent w → adpf w = Some cfg → timed cfg w → counts_fit w → heap w !! id = Some s →
  mSessionClosed s = false →
  ∃ w', close id w = Some (OK, w') ∧ is_closed w' id ∧
    (∀ x, x ≠ id → heap w' !! x = heap w !! x) ∧ ∀ t, t ∈ threadIds s → settled w' t.
Proof.
  intros Hp C Ea Ht Hf Es Hc. set (w1 := set_heap (<[id := session_with_closed true s]> (heap w)) w).
  assert (heap w1 !! id = Some (session_with_closed true s)) as Es1 by apply lookup_insert_eq.
  destruct (remove_total id _ w1 Hf Es1) as (w2 & E2).
  destruct (remove_keeps_rest id w1 w2 tt E2) as [Hh2 Ha2].
  destruct (remove_semi Hp id s w w1 w2 tt C Es Hc eq_refl E2) as (_ & _ & C2 & _ & _ & C5).
  assert (∀ t, id ∉ listed w2 t) as Hid.
  { intros t (l & Hl & _)%C2. destruct (C5 id) as [? _]; [by exists l|done]. }
  destruct (close_tail_run id (session_with_closed true s) w2) as (w' & E' & Hother & U).
  { intros t x Hx. apply C2 in Hx as (l & Hx & _). unfold skel in Hx. rewrite lookup_fmap in Hx.
    destruct (heap w2 !! x) as [sx|] eqn:Ex; [|done]. exists sx. split; [done|].
    rewrite Hh2 in Ex. by eapply (timed_insert id (session_with_closed true) s w Es eq_refl Ht). }
  { by rewrite Ha2. } { by rewrite Hh2. } { done. }
  assert (close id w = Some (OK, w')) as E.
  { unfold close. rewrite (bind_run _ _ _ _ _ (deref_run id s w Es)), Hc.
    rewrite (bind_run _ _ _ _ _ (update_run id _ s w Es)), (bind_run _ _ _ _ _ E2).
    transitivity ((close_tail id ;; ret OK) w2); [|by rewrite (bind_run _ _ _ _ _ E')].
    unfold close_tail. rewrite !bind_assoc. unfold bind. repeat (case_match; simplify_eq; try done). }
  destruct (close_consistent Hp id w OK w' C E) as [C' Hcl].
  exists w'. split; [done|]. split; [done|]. split.
  - intros x Hx. rewrite Hother, Hh2 by done. cbn. by rewrite lookup_insert_ne.
  - intros t Hin. apply settled_intro; auto.
Qed.

(** C7. A session that stops asking releases its threads.  In every reachable
    world, with system calls that succeed: pausing an active session and closing
    an open one return OK, and the stale timer of a session that has timed out
    runs through; afterwards the session no longer counts and the clamp of each of
    its threads is exactly the largest request of the remaining sessions (at most
    1024), 0 when there is none. *)
Theorem session_release id s w :
  (∀ k t, SetTaskProfiles_ok k t "ResetUclampGrp" = true) →
  reachable w → adpf w = Some cfg → timed cfg w → counts_fit w → heap w !! id = Some s →
  mSessionClosed s = false →
  (is_active s = true →
   ∃ w' s', pause id w = Some (OK, w') ∧ heap w' !! id = Some s' ∧ live cfg (now w') s' = false ∧
     ∀ t, t ∈ threadIds s → settled w' t) ∧
  (∃ w' s', close id w = Some (OK, w') ∧ heap w' !! id = Some s' ∧ mSessionClosed s' = true ∧
     ∀ t, t ∈ threadIds s → settled w' t) ∧
  (stale_dead s = false → live cfg (now w) s = false → 0 ≤ mStaleTime s ≤ now w → now w < 2 ^ 63 →
   ∃ w' s', stale_handleMessage id w = Some (tt, w') ∧ heap w' !! id = Some s' ∧
     live cfg (now w) s' = false ∧ ∀ t, t ∈ threadIds s → settled w' t).
Proof.
  intros Hp Hr Ea Ht Hf Es Hc. pose proof (reachable_consistent Hp w Hr) as C. split; [|split].
  - intros Ha. destruct (pause_settles id s w C Ea Ht Es Hc Ha) as (w' & E & Hh & Hs).
    exists w', (session_with_active false s). split; [done|]. rewrite Hh, lookup_insert_eq. done.
  - destruct (close_settles id s w Hp C Ea Ht Hf Es Hc) as (w' & E & (l & Hl) & _ & Hs).
    unfold skel in Hl. rewrite lookup_fmap in Hl.
    destruct (heap w' !! id) as [s'|] eqn:Es'; [|done]. injection Hl as _ Hcl. eauto 6.
  - intros Hd Hlv Hst Hn.
    destruct (stale_settles id s w C Ea Ht Es Hd Hst Hn) as (w' & E & Hh & Hs).
    exists w', (session_with_stale (mStaleTime s) false false s). split; [done|].
    rewrite Hh, lookup_insert_eq. split; [done|]. split; [done|].
    intros t Hin. apply settled_intro; [|by apply Hs]. eapply consistent_frame; [|exact C].
    eapply (keeps_stale_handleMessage id); [|exact E]. exists (threadIds s).
    unfold skel, core. rewrite lookup_fmap, Es. cbn. by rewrite Hc.
Qed.

(** ** Reports *)

(** Only the session [id] changes, from [s] to [s'], and a pending check of its
    stale timer stays. *)
Record touch (id : nat) (s s' : session) (w w' : world) : Prop := Touch {
  to_pre : heap w !! id = Some s;
  to_heap : heap w' = <[id := s']> (heap w);
  to_lists : mTidSessionListMap w' = mTidSessionListMap w;
  to_now : now w' = now w;
  to_adpf : adpf w' = adpf w;
  to_util : util_min w' = util_min w;
  to_queue : (now w, HStale id) ∈ queue w → (now w, HStale id) ∈ queue w';
}.

Lemma touch_post id s s' w w' : touch id s s' w w' → heap w' !! id = Some s'.
Proof. intros []. rewrite to_heap0. apply lookup_insert_eq. Qed.

Lemma touch_trans id s1 s2 s3 w1 w2 w3 :
  touch id s1 s2 w1 w2 → touch id s2 s3 w2 w3 → touch id s1 s3 w1 w3.
Proof.
  intros [A1 A2 ? A4 ? ? A7] [B1 B2 ? ? ? ? B7]. constructor; try congruence.
  - by rewrite B2, A2, insert_insert_eq.
  - rewrite <- A4 in *. auto.
Qed.

Lemma touch_refl id s w : heap w !! id = Some s → touch id s s w w.
Proof. intros E. constructor; auto. by rewrite insert_id. Qed.

Lemma touch_update id f s w :
  heap w !! id = Some s → ∃ w', update id f w = Some (tt, w') ∧ touch id s (f s) w w'.
Proof. intros E. eexists. split; [by apply update_run|]. by constructor. Qed.

Lemma touch_seq id m1 m2 s s1 s2 w :
  (∃ w1, m1 w = Some (tt, w1) ∧ touch id s s1 w w1) →
  (∀ w1, heap w1 !! id = Some s1 → touch id s s1 w w1 →
     ∃ w2, m2 w1 = Some (tt, w2) ∧ touch id s1 s2 w1 w2) →
  ∃ w2, (m1 ;; m2) w = Some (tt, w2) ∧ touch id s s2 w w2.
Proof.
  intros (w1 & E1 & T1) H2. destruct (H2 w1 (touch_post _ _ _ _ _ T1) T1) as (w2 & E2 & T2).
  exists w2. rewrite (bind_run _ _ _ _ _ E1). split; [done|by eapply touch_trans].
Qed.

Lemma touch_early_updateTimer id b s w :
  heap w !! id = Some s →
  ∃ w', early_updateTimer id b w = Some (tt, w') ∧
        touch id s (session_with_early b true (early_dead s) s) w w'.
Proof.
  intros Es. unfold early_updateTimer.
  eapply touch_seq; [by apply touch_update|]. intros w1 E1 _.
  eapply (touch_seq _ _ _ _ _ _ w1).
  { eexists. split; [done|]. constructor; auto; cbn; [by rewrite insert_id|].
    intros Hq. apply list_elem_of_filter. done. }
  intros w2 E2 _. eapply (touch_seq _ _ _ _ _ _ w2).
  { eexists. split; [done|]. constructor; auto; cbn; [by rewrite insert_id|]. set_solver. }
  intros w3 E3 _.
  exact (touch_update id (λ s, session_with_early (mBoostTime s) true (early_dead s) s) _ w3 E3).
Qed.

Lemma touch_stale_updateTimer_at id t s w :
  heap w !! id = Some s →
  ∃ w', stale_updateTimer_at id t w = Some (tt, w') ∧
        touch id s (session_with_stale t true (stale_dead s) s) w w' ∧ (now w, HStale id) ∈ queue w'.
Proof.
  intros Es. unfold stale_updateTimer_at. rewrite (bind_run _ _ _ _ _ (update_run id _ s w Es)).
  rewrite (bind_run _ _ _ _ _ eq_refl), (bind_run _ _ _ _ _ eq_refl).
  erewrite update_run by (cbn; apply lookup_insert_eq).
  eexists. split; [done|]. split; [constructor; auto; cbn|cbn]; [by rewrite insert_insert_eq| |];
    set_solver.
Qed.

Definition period_apply (r : option (Z * Z * Z)) (s : session) : session :=
  match r with None => s | Some (a, b, c) => session_with_period a b c s end.

Lemma touch_updateWorkPeriod id l r s w :
  heap w !! id = Some s → work_period s l = Some r →
  ∃ w', updateWorkPeriod id l w = Some (tt, w') ∧ touch id s (period_apply r s) w w'.
Proof.
  intros Es Er. unfold updateWorkPeriod. rewrite (bind_run _ _ _ _ _ (deref_run id s w Es)).
  unfold lift. rewrite Er, (bind_run _ _ _ _ _ eq_refl). destruct r as [[[x y] z]|].
  - by apply touch_update.
  - exists w. split; [done|by apply touch_refl].
Qed.

Lemma listed_touch id s s' w w' :
  touch id s s' w w' → is_Some (stale_time cfg s') → listed_ok w → listed_ok w'.
Proof.
  intros T Hs' Hl t x Hx. unfold listed in Hx. rewrite (to_lists _ _ _ _ _ T) in Hx.
  destruct (Hl t x Hx) as (sx & Ex & Hsx). rewrite (to_heap _ _ _ _ _ T).
  destruct (decide (x = id)) as [->|Hne]; [|rewrite lookup_insert_ne by done; eauto].
  rewrite lookup_insert_eq. eauto.
Qed.

(** The clamps after a request [m] by a session that counts. *)
Lemma setSessionUclampMin_run id s m d w :
  listed_ok w → adpf w = Some cfg → heap w !! id = Some s →
  is_Some (stale_time cfg s) → stale_ns cfg (duration s) = Some d → - 2 ^ 63 ≤ now w + d < 2 ^ 63 →
  ∃ w1 w', touch id s (session_with_stale
      (if m =? 0 then mStaleTime s else now w + d) (negb (m =? 0) || stale_monitoring s) (stale_dead s)
      (session_with_min m s)) w w1 ∧
    setSessionUclampMin id m w = Some (tt, w') ∧ only_uclamp w1 w' ∧
    ∀ t, util_min w' !! t =
      if decide (t ∈ threadIds s) then Some (uclamp (Z.max m (thread_request cfg w1 t)))
      else util_min w !! t.
Proof.
  intros Hl Ea Es Hst Hd Hr.
  set (s1 := session_with_stale (if m =? 0 then mStaleTime s else now w + d)
    (negb (m =? 0) || stale_monitoring s) (stale_dead s) (session_with_min m s)).
  assert (∃ w1, (update id (session_with_min m) ;; when (negb (m =? 0)) (stale_updateTimer id)) w =
    Some (tt, w1) ∧ touch id s s1 w w1) as (w1 & E1 & T1).
  { eapply touch_seq; [by apply touch_update|]. intros w1 Es1 T1. unfold s1.
    destruct (m =? 0); cbn [when negb orb].
    - exists w1. split; [done|]. replace (session_with_stale _ _ _ _) with (session_with_min m s);
        [by apply touch_refl|by destruct s].
    - unfold stale_updateTimer, profile, get, lift, bind.
      rewrite (to_adpf _ _ _ _ _ T1), Ea, (deref_run _ _ _ Es1). cbn [duration session_with_min].
      rewrite Hd. cbn [mbind option_bind]. rewrite (to_now _ _ _ _ _ T1), checked_Some by lia.
      destruct (touch_stale_updateTimer_at id (now w + d) _ w1 Es1) as (w2 & E2 & T2 & _). eauto. }
  pose proof (touch_post _ _ _ _ _ T1) as Es1.
  destruct (setUclampMin_run id s1 m w1) as (w' & E' & O' & U').
  { by eapply listed_touch. }
  { by rewrite (to_adpf _ _ _ _ _ T1). } { done. }
  exists w1, w'. split; [done|]. unfold setSessionUclampMin.
  rewrite <- bind_assoc, (bind_run _ _ _ _ _ E1). split; [done|]. split; [done|].
  intros t. rewrite U', (to_util _ _ _ _ _ T1). done.
Qed.

Lemma touch_updateUniveralBoostMode id s w b :
  heap w !! id = Some s →
  ∃ w', when b (updateUniveralBoostMode id) w = Some (tt, w') ∧ touch id s s w w'.
Proof.
  intros Es. destruct b; cbn; [|exists w; split; [done|by apply touch_refl]].
  destruct (updateUniveralBoostMode_run id s w Es) as (w' & E & [] & Hq).
  exists w'. split; [done|]. constructor; auto. by rewrite insert_id by congruence.
Qed.

Lemma thread_request_touch id s s' w w' t :
  touch id s s' w w' → live cfg (now w) s' = live cfg (now w) s → current_min s' = current_min s →
  thread_request cfg w' t = thread_request cfg w t.
Proof.
  intros T Hlv Hm. unfold thread_request, listed. rewrite (to_lists _ _ _ _ _ T).
  apply foldr_ext; [|done|done]. intros x y. unfold req_of.
  rewrite (to_heap _ _ _ _ _ T), (to_now _ _ _ _ _ T). destruct (decide (x = id)) as [->|Hx].
  - by rewrite lookup_insert_eq, (to_pre _ _ _ _ _ T), Hlv, Hm.
  - by rewrite lookup_insert_ne.
Qed.

Lemma thread_request_ge id s w t :
  consistent w → heap w !! id = Some s → mSessionClosed s = false → t ∈ threadIds s →
  live cfg (now w) s = true → current_min s ≤ thread_request cfg w t.
Proof.
  intros C Es Hc Hin Hlv. destruct (thread_request_spec cfg w t C) as (_ & Hge & _). eapply Hge; eauto.
Qed.

(** What a report does before it sets the clamps. *)
Lemma report_begin id s l w st m output ie pe :
  adpf w = Some cfg → heap w !! id = Some s → mSessionClosed s = false → is_active s = true →
  duration s ≠ 0 → l ≠ [] → mPidOn cfg = true → stale_time cfg s = Some st →
  convertWorkDurationToBoostByPid cfg (duration s) l (integral_error s) (previous_error s) =
    Some (output, (ie, pe)) →
  next_uclamp cfg (current_min s) output = Some m →
  let s' := session_with_pid ie pe (session_updated_at (now w) (session_counted s)) in
  ∃ w', touch id s s' w w' ∧
  reportActualWorkDuration id l w =
    (setSessionUclampMin id m ;;
     let* staleTime := getStaleTime id in
     stale_updateTimer_at id staleTime ;;
     let* cfg := profile in
     when (mEarlyBoostOn cfg)
       (updateWorkPeriod id l ;;
        let* boostTime := getEarlyBoostTime id in early_updateTimer id boostTime) ;;
     ret OK) w'.
Proof.
  intros Ea Es Hc Ha Hd Hl Hpid Hst Hcv Hm s'. unfold reportActualWorkDuration.
  rewrite (bind_run _ _ _ _ _ (deref_run id s w Es)), Hc, Ha. zbool.
  destruct (Nat.eqb_spec (length l) 0) as [Hn|_]; [by apply nil_length_inv in Hn|]. cbn [negb].
  rewrite (bind_run profile _ w cfg w) by (unfold profile, bind, get, lift; by rewrite Ea).
  destruct (touch_update id session_counted s w Es) as (w1 & E1 & T1).
  rewrite (bind_run _ _ _ _ _ E1).
  rewrite (bind_run _ _ _ _ _ (isTimeout_run id (session_counted s) st w1
    ltac:(by rewrite (to_adpf _ _ _ _ _ T1)) (touch_post _ _ _ _ _ T1) Hst)).
  rewrite (bind_run get _ w1 w1 w1 eq_refl), (to_now _ _ _ _ _ T1).
  destruct (touch_update id (session_updated_at (now w)) _ w1 (touch_post _ _ _ _ _ T1)) as (w2 & E2 & T2).
  rewrite (bind_run _ _ _ _ _ E2). pose proof (touch_trans _ _ _ _ _ _ _ T1 T2) as T.
  destruct (touch_updateUniveralBoostMode id _ w2 (st <=? now w) (touch_post _ _ _ _ _ T2))
    as (w3 & E3 & T3).
  rewrite (bind_run _ _ _ _ _ E3), Hpid. cbn [negb]. pose proof (touch_trans _ _ _ _ _ _ _ T T3) as T'.
  rewrite (bind_run _ _ _ _ _ (deref_run id _ w3 (touch_post _ _ _ _ _ T3))).
  cbn [duration integral_error previous_error current_min session_updated_at session_counted].
  unfold lift at 1. rewrite Hcv, (bind_run _ _ w3 _ _ eq_refl).
  destruct (touch_update id (session_with_pid ie pe) _ w3 (touch_post _ _ _ _ _ T3)) as (w4 & E4 & T4).
  rewrite (bind_run _ _ _ _ _ E4). unfold lift at 1. rewrite Hm, (bind_run _ _ w4 _ _ eq_refl).
  exists w4. split; [by eapply touch_trans|done].
Qed.

(** The end of a report, after the clamps are set. *)
Lemma report_end id s l w st :
  adpf w = Some cfg → heap w !! id = Some s → stale_time cfg s = Some st →
  (mEarlyBoostOn cfg = true → ∃ r b, work_period s l = Some r ∧
     early_boost_time cfg (period_apply r s) = Some b) →
  ∃ w' s', (let* staleTime := getStaleTime id in
     stale_updateTimer_at id staleTime ;;
     let* cfg := profile in
     when (mEarlyBoostOn cfg)
       (updateWorkPeriod id l ;;
        let* boostTime := getEarlyBoostTime id in early_updateTimer id boostTime) ;;
     ret OK) w = Some (OK, w') ∧ touch id s s' w w' ∧
  (current_min s' = current_min s ∧ live cfg (now w) s' = live cfg (now w) s ∧
   integral_error s' = integral_error s ∧ previous_error s' = previous_error s ∧
   mStaleTime s' = st ∧ stale_monitoring s' = true) ∧
  (now w, HStale id) ∈ queue w'.
Proof.
  intros Ea Es Hst Hearly.
  rewrite (bind_run (getStaleTime id) _ w st w)
    by (unfold getStaleTime, profile, deref, bind, get, lift; by rewrite Ea, Es, Hst).
  destruct (touch_stale_updateTimer_at id st s w Es) as (w1 & E1 & T1 & Hq).
  set (s1 := session_with_stale st true (stale_dead s) s) in *.
  rewrite (bind_run _ _ _ _ _ E1). pose proof (touch_post _ _ _ _ _ T1) as Es1.
  assert (adpf w1 = Some cfg) as Ea1 by (by rewrite (to_adpf _ _ _ _ _ T1)).
  rewrite (bind_run profile _ w1 cfg w1) by (unfold profile, bind, get, lift; by rewrite Ea1).
  destruct (mEarlyBoostOn cfg); cbn [when]; [|exists w1, s1; done].
  destruct Hearly as (r & b & Hr & Hb); [done|].
  destruct (touch_updateWorkPeriod id l r s1 w1 Es1 Hr) as (w2 & E2 & T2).
  rewrite bind_assoc, (bind_run _ _ _ _ _ E2), bind_assoc.
  pose proof (touch_post _ _ _ _ _ T2) as Es2.
  rewrite (bind_run (getEarlyBoostTime id) _ w2 b w2).
  2: { unfold getEarlyBoostTime, profile, deref, bind, get, lift.
       rewrite (to_adpf _ _ _ _ _ T2), Ea1, Es2. replace (early_boost_time cfg (period_apply r s1))
         with (early_boost_time cfg (period_apply r s)) by (by destruct r as [[[]]|]). by rewrite Hb. }
  destruct (touch_early_updateTimer id b _ w2 Es2) as (w3 & E3 & T3).
  rewrite (bind_run _ _ _ _ _ E3). pose proof (touch_trans _ _ _ _ _ _ _ T2 T3) as T'.
  eexists w3, _. split; [done|]. split; [by eapply touch_trans|]. split.
  - by destruct r as [[[]]|].
  - rewrite <- (to_now _ _ _ _ _ T1). apply (to_queue _ _ _ _ _ T'). by rewrite (to_now _ _ _ _ _ T1).
Qed.

(** A report the controller can handle: an open, active session with a target, and
    arithmetic in range, with [output] the controller's result. *)
Record reportable (id : nat) (l : list WorkDuration) (w : world) (s : session)
    (d output ie pe : Z) : Prop := Reportable {
  rp_session : heap w !! id = Some s;
  rp_open : mSessionClosed s = false;
  rp_active : is_active s = true;
  rp_target : duration s ≠ 0;
  rp_report : l ≠ [];
  rp_pid : mPidOn cfg = true;
  rp_stale : stale_ns cfg (duration s) = Some d;
  rp_range : 0 < d ∧ - 2 ^ 63 ≤ now w ∧ now w + d < 2 ^ 63;
  rp_output : convertWorkDurationToBoostByPid cfg (duration s) l (integral_error s)
                (previous_error s) = Some (output, (ie, pe));
  rp_sum : - 2 ^ 31 ≤ output < 2 ^ 31 ∧ - 2 ^ 31 ≤ current_min s + output < 2 ^ 31;
  rp_bounds : 0 ≤ mUclampMinLow cfg ≤ mUclampMinHigh cfg ∧ mUclampMinHigh cfg < 2 ^ 31;
  rp_early : mEarlyBoostOn cfg = true → ∃ r b, work_period s l = Some r ∧
     early_boost_time cfg (period_apply r (session_updated_at (now w) s)) = Some b;
}.

Lemma next_uclamp_sum c o :
  0 ≤ mUclampMinLow cfg ≤ mUclampMinHigh cfg ∧ mUclampMinHigh cfg < 2 ^ 31 →
  - 2 ^ 31 ≤ o < 2 ^ 31 ∧ - 2 ^ 31 ≤ c + o < 2 ^ 31 →
  next_uclamp cfg c o = Some (Z.max (mUclampMinLow cfg) (Z.min (mUclampMinHigh cfg) (c + o))).
Proof.
  intros Hb [Ho Hc]. unfold next_uclamp. rewrite (wraps_small 32 o) by (simpl; lia).
  rewrite checked_Some by (simpl; lia). cbn [mbind option_bind].
  by rewrite !wraps_small by (simpl; lia).
Qed.

(** A report leaves the threads of the session and its being open alone. *)
Lemma report_core id l w w' s s' :
  reportActualWorkDuration id l w = Some (OK, w') → heap w !! id = Some s → heap w' !! id = Some s' →
  threadIds s' = threadIds s ∧ mSessionClosed s' = mSessionClosed s.
Proof.
  intros E Es Es'. pose proof (keeps_reportActualWorkDuration id l w OK w' I E) as F.
  pose proof (f_equal (.!! id) (frame_skel _ _ F)) as Hsk. unfold skel, core in Hsk.
  rewrite !lookup_fmap, Es, Es' in Hsk. by injection Hsk as -> ->.
Qed.

(** C8. A report of an open, active session with a target, with the controller on,
    task profiles that can be set and arithmetic in range, returns OK; the session's
    next request is the old one plus the controller's output, clamped to the
    profile's mUclampMinLow and mUclampMinHigh; the controller's errors are kept for the
    next report; every thread of the session gets the largest request of the
    sessions that count, this one included; and the stale timer is armed for one
    stale period from now, with its check posted to the looper. *)
Theorem report_spec id l w s d output ie pe :
  (∀ k t, SetTaskProfiles_ok k t "ResetUclampGrp" = true) →
  reachable w → adpf w = Some cfg → timed cfg w → reportable id l w s d output ie pe →
  ∃ w' s', reportActualWorkDuration id l w = Some (OK, w') ∧ heap w' !! id = Some s' ∧
    current_min s' = Z.max (mUclampMinLow cfg) (Z.min (mUclampMinHigh cfg) (current_min s + output)) ∧
    integral_error s' = ie ∧ previous_error s' = pe ∧ live cfg (now w') s' = true ∧
    (∀ t, t ∈ threadIds s → settled w' t) ∧
    mStaleTime s' = now w + d ∧ stale_monitoring s' = true ∧ (now w', HStale id) ∈ queue w'.
Proof.
  intros Hp Hr Ea Ht [Es Hc Ha Hd Hl Hpid Hns Hrng Hcv Hm Hb Hearly].
  pose proof (reachable_consistent Hp w Hr) as C. destruct (Ht id s Es) as [st Hst].
  apply (next_uclamp_sum _ _ Hb) in Hm.
  set (m := Z.max _ _) in Hm |- *.
  destruct (report_begin id s l w st m output ie pe) as (w1 & T1 & E1); try done.
  set (s1 := session_with_pid ie pe _) in T1.
  pose proof (touch_post _ _ _ _ _ T1) as Es1.
  assert (stale_time cfg s1 = Some (now w + d)) as Hst1.
  { unfold stale_time. cbn [duration mLastUpdatedTime s1 session_with_pid session_updated_at session_counted].
    rewrite Hns. cbn [mbind option_bind]. apply checked_Some. lia. }
  destruct (setSessionUclampMin_run id s1 m d w1) as (w2 & w3 & T2 & E3 & O3 & U3); try done.
  { eapply listed_touch; [done|eauto|by apply consistent_listed]. }
  { by rewrite (to_adpf _ _ _ _ _ T1). } { rewrite (to_now _ _ _ _ _ T1). lia. }
  set (s2 := session_with_stale _ _ _ _) in T2. pose proof (touch_post _ _ _ _ _ T2) as Es2.
  assert (now w2 = now w) as Hn2 by (by rewrite (to_now _ _ _ _ _ T2), (to_now _ _ _ _ _ T1)).
  assert (adpf w3 = Some cfg) as Ea3
    by (by rewrite (ou_adpf _ _ O3), (to_adpf _ _ _ _ _ T2), (to_adpf _ _ _ _ _ T1)).
  destruct (report_end id s2 l w3 (now w + d)) as (w4 & s4 & E4 & T4 & (M4 & L4 & I4 & P4 & S4 & B4) & Q4);
    [done|by rewrite (ou_heap _ _ O3)|exact Hst1| |].
  { intros He. destruct (Hearly He) as (r & b & Hr' & Hb'). exists r, b. split; [exact Hr'|].
    rewrite <- Hb'. by destruct r as [[[]]|]. }
  assert (now w3 = now w ∧ now w4 = now w) as [Hn3 Hn4]
    by (by rewrite (to_now _ _ _ _ _ T4), (ou_now _ _ O3)).
  assert (reportActualWorkDuration id l w = Some (OK, w4)) as E
    by (by rewrite E1, (bind_run _ _ _ _ _ E3)).
  assert (consistent w4) as C4.
  { eapply consistent_frame; [|exact C]. by eapply keeps_reportActualWorkDuration. }
  assert (live cfg (now w) s4 = true) as Hlv4.
  { rewrite <- Hn3, L4. unfold live. change (stale_time cfg s2) with (stale_time cfg s1).
    rewrite Hst1. cbn [is_active s2 s1 session_with_stale session_with_min session_with_pid
      session_updated_at session_counted]. rewrite Ha. cbn. zbool. done. }
  destruct (report_core id l w w4 s s4 E Es (touch_post _ _ _ _ _ T4)) as [Hth4 Hc4]. rewrite Hc in Hc4.
  exists w4, s4. rewrite Hn4. split; [done|]. split; [by eapply touch_post|].
  split; [by rewrite M4|]. split; [by rewrite I4|]. split; [by rewrite P4|].
  split; [done|]. split; [|by rewrite Hn3 in Q4].
  intros t Hin. apply settled_intro; [done|].
  assert (thread_request cfg w4 t = thread_request cfg w2 t) as Hreq.
  { rewrite (thread_request_touch id s2 s4 w3 w4) by done. apply thread_request_ext; apply O3. }
  pose proof (thread_request_ge id s4 w4 t C4 (touch_post _ _ _ _ _ T4) Hc4) as Hge.
  rewrite (to_util _ _ _ _ _ T4), U3, decide_True by done. rewrite Hreq in *. do 2 f_equal.
  rewrite Hth4, Hn4, M4 in Hge. cbn [current_min s2 session_with_stale session_with_min] in Hge.
  specialize (Hge Hin Hlv4). lia.
Qed.
End clamps.

(** ** The boost of the system's top app *)

Section top_app.
Context `{Platform} (cfg : AdpfConfig).

(** Some application has a session that counts. *)
Definition app_active (w : world) : Prop :=
  ∃ id s, heap w !! id = Some s ∧ mSessionClosed s = false ∧ isAppSession s = true ∧
          live cfg (now w) s = true.

Lemma any_app_active_run ids w :
  adpf w = Some cfg → (∀ id, id ∈ ids → ∃ s, heap w !! id = Some s ∧ is_Some (stale_time cfg s)) →
  ∃ b, any_app_active ids w = Some (b, w) ∧
    (b = true ↔ ∃ id s, id ∈ ids ∧ heap w !! id = Some s ∧ isAppSession s = true ∧
                        live cfg (now w) s = true).
Proof.
  intros Ea. induction ids as [|id ids IH]; intros Hids; cbn [any_app_active].
  - exists false. split; [done|]. split; [done|]. intros (? & ? & ?%not_elem_of_nil & _). done.
  - destruct (Hids id) as (s & Es & [t Et]); [set_solver|]. destruct IH as (b & Eb & Hb); [set_solver|].
    rewrite (bind_run _ _ _ _ _ (deref_run id s w Es)).
    assert (live cfg (now w) s = is_active s && (now w <? t)) as Hlv by (unfold live; by rewrite Et).
    assert (isAppSession s && live cfg (now w) s = false → ∃ b, any_app_active ids w = Some (b, w) ∧
      (b = true ↔ ∃ i s, i ∈ id :: ids ∧ heap w !! i = Some s ∧ isAppSession s = true ∧
                         live cfg (now w) s = true)) as Hskip.
    { intros Hf. exists b. split; [done|]. rewrite Hb. split; [set_solver|].
      intros (i & si & [->|Hi]%elem_of_cons & Ei & Hi1 & Hi2); [|eauto 6].
      assert (si = s) as -> by congruence. by rewrite Hi1, Hi2 in Hf. }
    destruct (is_active s); cbn [negb]; [|apply Hskip; rewrite Hlv; by destruct (isAppSession s)].
    rewrite (bind_run _ _ _ _ _ (isTimeout_run cfg id s t w Ea Es Et)).
    destruct (Z.leb_spec t (now w)).
    { apply Hskip. rewrite Hlv. cbn. zbool. by destruct (isAppSession s). }
    destruct (isAppSession s) eqn:Happ; [|by apply Hskip].
    exists true. split; [done|]. split; [|done]. intros _. exists id, s.
    repeat split; [set_solver|done|done|]. rewrite Hlv. cbn. by zbool.
Qed.

(** C29. The manager's message handler tracks the applications' sessions: it always
    runs through, records whether some application has an open session that is
    active and not stale, and tells the hint manager only of changes, when the
    hint is supported: the hint that disables the top-app boost is started when the
    first such session appears, and ended when the last one is gone. *)
Theorem top_app_boost w :
  (∀ k t, SetTaskProfiles_ok k t "ResetUclampGrp" = true) →
  reachable w → adpf w = Some cfg → timed cfg w →
  ∃ w', manager_handleMessage w = Some (tt, w') ∧
    (mActive w' = true ↔ app_active w) ∧ heap w' = heap w ∧ util_min w' = util_min w ∧
    hints w' = hints w ++
      (if Bool.eqb (mActive w) (mActive w') || negb (IsHintSupported kDisableBoostHintName) then []
       else if mActive w' then [DoHint kDisableBoostHintName] else [EndHint kDisableBoostHintName]).
Proof.
  intros Hp Hr Ea Ht. pose proof (reachable_consistent Hp w Hr) as C.
  destruct (any_app_active_run (elements (mSessions w)) w Ea) as (b & Eb & Hb).
  { intros id (l & Hid)%elem_of_elements%(con_sessions _ C). unfold skel in Hid.
    rewrite lookup_fmap in Hid. destruct (heap w !! id) eqn:E; [|done]. eauto. }
  assert (b = true ↔ app_active w) as Hb'.
  { rewrite Hb. unfold app_active.
    assert (∀ id s, heap w !! id = Some s → id ∈ elements (mSessions w) ↔ mSessionClosed s = false) as Hs.
    { intros id s E. rewrite elem_of_elements, (con_sessions _ C). unfold is_open, skel, core.
      rewrite lookup_fmap, E. cbn. split; [by intros (? & [= _ ?])|]. intros ->. eauto. }
    split; intros (id & s & H1); exists id, s; [|]; destruct H1 as (H1 & H2 & H3 & H4).
    - by rewrite (Hs id s H2) in H1.
    - by rewrite (Hs id s H1). }
  unfold manager_handleMessage, isAnyAppSessionActive, bind at 1 2 3, get at 1. rewrite Eb.
  destruct (Bool.eqb_spec b (mActive w)) as [->|Hne].
  - exists w. rewrite eqb_reflx, app_nil_r. done.
  - assert (Bool.eqb (mActive w) b = false) as Hneb by (by destruct b, (mActive w)).
    cbn. unfold disableSystemTopAppBoost, enableSystemTopAppBoost, when, modify, ret.
    destruct b, (IsHintSupported _); cbn; (eexists; split; [done|]); cbn; rewrite Hneb;
      cbn; rewrite ?app_nil_r; done.
Qed.
End top_app.

(** ** Runs *)

(** The world after an operation, and a step by it. *)
Definition after {A} (m : P A) (w : world) : world :=
  match m w with Some (_, w') => w' | None => w end.
Definition runs {A} (m : P A) (w : world) : bool :=
  match m w with Some _ => true | None => false end.

Lemma after_run (m : P unit) w : runs m w = true → m w = Some (tt, after m w).
Proof. unfold runs, after. by destruct (m w) as [[[] w']|]. Qed.
Lemma after_call (m : P status) w : runs m w = true → ∃ st, m w = Some (st, after m w).
Proof. unfold runs, after. destruct (m w) as [[st w']|]; [eauto|done]. Qed.

(** Scripts: what the environment and the clients do, one after the other. *)
Inductive act :=
  | ACreate (id : nat) (uid : Z) (tids : list Z) (target : Z)
  | ACall (id : nat) (c : call)
  | ADestroy (id : nat)
  | ADeliver (k : nat)
  | ATime (t : Z).

Section scripts.
Context `{Platform}.

Definition act_op (a : act) : P unit :=
  match a with
  | ACreate id uid tids target => PowerHintSession id 1 uid tids target
  | ACall id c => run_call id c ;; ret tt
  | ADestroy id => destroy id
  | ADeliver k => deliver k
  | ATime t => modify (set_now t)
  end.

Definition act_ok (a : act) (w : world) : bool :=
  runs (act_op a) w &&
  match a with
  | ACreate id _ _ _ => bool_decide (heap w !! id = None)
  | ATime t => now w <=? t
  | _ => true
  end.

Fixpoint script (l : list act) (w : world) : world :=
  match l with [] => w | a :: l' => script l' (after (act_op a) w) end.
Fixpoint script_ok (l : list act) (w : world) : bool :=
  match l with [] => true | a :: l' => act_ok a w && script_ok l' (after (act_op a) w) end.

Lemma act_step a w : act_ok a w = true → step w (after (act_op a) w).
Proof.
  unfold act_ok. intros [Hr Ha]%andb_prop. pose proof (after_run _ _ Hr) as E.
  destruct a as [id u tids d|id c|id|k|t]; cbn [act_op] in E.
  - eapply step_create; [|exact E]. by apply bool_decide_eq_true in Ha.
  - apply bind_inv in E as (st & w' & Ec & Er). eapply step_call. rewrite Ec. by injection Er as ->.
  - by eapply step_destroy.
  - by eapply step_deliver.
  - apply step_time. by apply Z.leb_le.
Qed.

Lemma script_reachable l cfg t :
  script_ok l (start cfg t) = true → reachable (script l (start cfg t)).
Proof.
  intros Hok. exists cfg, t. revert Hok. generalize (start cfg t). induction l as [|a l IH]; intros w Hok.
  - apply rtc_refl.
  - cbn in Hok. apply andb_prop in Hok as [Ha Hl]. eapply rtc_l; [by apply act_step|]. by apply IH.
Qed.
End scripts.

(** A platform where every call succeeds, and one where task profiles cannot be
    set. *)
Definition quiet : Platform := {|
  SetTaskProfiles_ok _ _ _ := true; sched_setattr_ok _ _ := true; IsHintSupported _ := true;
  SetAdpfProfile _ cfg := cfg; kDisableBoostHintName := "ADPF_DISABLE_TA_BOOST" |}.
Definition no_profiles : Platform := {|
  SetTaskProfiles_ok _ _ _ := false; sched_setattr_ok _ _ := true; IsHintSupported _ := true;
  SetAdpfProfile _ cfg := cfg; kDisableBoostHintName := "ADPF_DISABLE_TA_BOOST" |}.

(** Two applications share the thread 7; the first reports. *)
Definition sample_acts : list act :=
  [ACreate 1 10050 [7; 8] 16000000; ACreate 2 10051 [7; 9] 16000000;
   ACall 1 (CReport sample_report); ADeliver 0].
Definition sample_world : world := script (H := quiet) sample_acts (start (Some sample_cfg) 1000000).

Lemma sample_reachable : @reachable quiet sample_world.
Proof. apply script_reachable. by vm_compute. Qed.

Lemma sample_timed : timed sample_cfg sample_world.
Proof.
  apply (bool_decide_unpack (map_Forall (λ _ s, is_Some (stale_time sample_cfg s)) (heap sample_world))).
  by vm_compute.
Qed.
Lemma sample_counts : counts_fit sample_world.
Proof.
  apply (bool_decide_unpack (map_Forall (λ _ n, 0 < n < 2 ^ 31) (mTidRefCountMap sample_world))).
  by vm_compute.
Qed.
Lemma sample_adpf : adpf sample_world = Some sample_cfg.
Proof. by vm_compute. Qed.

Definition sample_session (id : nat) : session :=
  default (Sess 0 0 [] 0 0 false 0 0 0 false 0 0 0 0 0 false false 0 false false)
    (heap sample_world !! id).

Lemma sample_session_eq id : id = 1%nat ∨ id = 2%nat → heap sample_world !! id = Some (sample_session id).
Proof. intros [-> | ->]; by vm_compute. Qed.

Lemma manager_consistent_witness :
  mTidRefCountMap sample_world !! 7 = Some 2 ∧ 1%nat ∈ listed sample_world 7.
Proof.
  pose proof (@manager_consistent quiet (λ _ _, eq_refl) sample_world sample_reachable) as (H1 & H2 & _).
  split; [rewrite H1; by vm_compute|]. apply H2. exists (sample_session 1).
  split; [apply sample_session_eq; by left|]. split; [by vm_compute|].
  apply (bool_decide_unpack _). by vm_compute.
Defined.

Lemma uclamp_aggregation_witness :
  ∃ w', @setUclampMin quiet 2 100 sample_world = Some (tt, w') ∧
    util_min w' !! 8 = util_min sample_world !! 8 ∧ ∃ r, is_request sample_cfg sample_world 7 r.
Proof.
  destruct (@uclamp_aggregation quiet sample_cfg (λ _ _, eq_refl) eq_refl 2 (sample_session 2) 100
    sample_world (λ _ _, eq_refl) sample_reachable sample_adpf sample_timed
    (sample_session_eq 2 ltac:(by right))) as (w' & E & _ & Hin & Hout).
  exists w'. split; [done|]. split.
  - apply Hout. apply (bool_decide_unpack _). by vm_compute.
  - destruct (Hin 7) as (r & Hr & _); [apply (bool_decide_unpack _); by vm_compute|eauto].
Defined.

Lemma session_release_witness :
  ∃ w', @close quiet 1 sample_world = Some (OK, w') ∧ settled sample_cfg w' 7.
Proof.
  destruct (@session_release quiet sample_cfg (λ _ _, eq_refl) eq_refl 1 (sample_session 1) sample_world
    (λ _ _, eq_refl) sample_reachable sample_adpf sample_timed sample_counts
    (sample_session_eq 1 ltac:(by left)) ltac:(by vm_compute)) as (_ & (w' & s' & E & _ & _ & Hs) & _).
  exists w'. split; [done|]. apply Hs. apply (bool_decide_unpack _). by vm_compute.
Defined.

Lemma report_spec_witness :
  ∃ w' s', @reportActualWorkDuration quiet 2 sample_report sample_world = Some (OK, w') ∧
    heap w' !! 2%nat = Some s' ∧ current_min s' = 247 ∧ settled sample_cfg w' 9.
Proof.
  destruct (@report_spec quiet sample_cfg (λ _ _, eq_refl) eq_refl 2 sample_report sample_world
    (sample_session 2) 320000000 47 (-5600) 25 (λ _ _, eq_refl) sample_reachable sample_adpf
    sample_timed) as (w' & s' & E & Es & Hm & _ & _ & _ & Hs & _).
  - constructor; [apply sample_session_eq; by right|by vm_compute|by vm_compute|by vm_compute|done
      |done|by vm_compute|by vm_compute|by vm_compute|by vm_compute|by vm_compute|].
    intros _. exists (Some (17500000, 18500000, 15150000)), 9650000. split; by vm_compute.
  - exists w', s'. do 2 (split; [done|]). split; [rewrite Hm; vm_compute; reflexivity|]. apply Hs. apply (bool_decide_unpack _). by vm_compute.
Defined.

Lemma top_app_boost_witness :
  ∃ w', @manager_handleMessage quiet sample_world = Some (tt, w') ∧
    (mActive w' = true ↔ app_active sample_cfg sample_world).
Proof.
  destruct (@top_app_boost quiet sample_cfg sample_world (λ _ _, eq_refl) sample_reachable sample_adpf
    sample_timed) as (w' & E & Ha & _). eauto.
Defined.

(** C35. When the task profile of a thread cannot be set, the manager keeps a
    pointer to a freed session: [addPowerSession] lists the session for the thread
    but counts no reference, so [removePowerSession] skips the thread and the
    session stays listed after its destructor has run.  The next session for the
    thread dereferences it. *)
Theorem failed_profile_dangles :
  ∃ w, @reachable no_profiles w ∧ heap w !! 1%nat = None ∧ 1%nat ∈ listed w 7 ∧
    @PowerHintSession no_profiles 2 1 10050 [7] 16000000 w = None.
Proof.
  exists (script (H := no_profiles) [ACreate 1 10050 [7] 16000000; ADestroy 1]
    (start (Some sample_cfg) 1000000)). split; [|split; [|split]].
  - apply script_reachable. by vm_compute.
  - by vm_compute.
  - apply (bool_decide_unpack _). by vm_compute.
  - by vm_compute.
Qed.

(** The sample profile without early boosts. *)
Definition plain_cfg : AdpfConfig :=
  Adpf true (dyadic 2 0) (dyadic 1 0) (dyadic 1 10) (dyadic 4 0) (dyadic 0 0)
    524288 (-122880) true 200 480 2 1 0 1 false (dyadic 3 2) (dyadic 1 0) (dyadic 20 0) 16666666.

(** C34. Raising the target while a boost is on loses the stale timer.  The timer
    fires at the stale time of the old target, when the session is not stale
    by the new one; the handler stops monitoring without dropping the request, and
    nothing is posted for the session any more.  So a client that reports, raises
    its target and then falls silent keeps its threads boosted: ten seconds later the
    session is stale, no message is pending for it, and the clamp is still set. *)
Theorem raised_target_loses_timer :
  ∃ w s, @reachable quiet w ∧ adpf w = Some plain_cfg ∧ heap w !! 1%nat = Some s ∧
    mSessionClosed s = false ∧ live plain_cfg (now w) s = false ∧ stale_monitoring s = false ∧
    Forall (λ m, owner m.2 = None) (queue w) ∧ (∃ u, util_min w !! 7 = Some u ∧ 0 < u).
Proof.
  set (w := script (H := quiet)
    [ACreate 1 10050 [7] 16000000; ACall 1 (CReport sample_report);
     ADeliver 0; ACall 1 (CUpdateTarget 100000000); ATime 321000000; ADeliver 0;
     ATime 10321000000] (start (Some plain_cfg) 1000000)).
  destruct (heap w !! 1%nat) as [s|] eqn:Es; [|by vm_compute in Es].
  exists w, s. vm_compute in Es. injection Es as <-. split; [|split; [|split; [|split; [|split; [|split; [|split]]]]]].
  - apply script_reachable. by vm_compute.
  - by vm_compute.
  - by vm_compute.
  - by vm_compute.
  - by vm_compute.
  - by vm_compute.
  - apply (bool_decide_unpack _). by vm_compute.
  - eexists. split; [by vm_compute|]. by vm_compute.
Qed.
End Manager.
