(* ===== verification/Power.v ===== *)
(** * Power: the power HAL service and its extension
      (aidl/power-libperfmgr/Power.{h,cpp}, PowerExt.{h,cpp};
      configs/power/power-mode.cpp)

    The service owns an interaction handler (Interaction.v), uses the session
    manager (PowerSession.v) and turns modes and boosts into hints of libperfmgr.
    A binder call is one function on [hal]; the handler's worker, the looper and
    the hint sessions' clients run in between ([step]).  The two components'
    clock is one: the handler's [timespec] is the sessions' [now].

    The enums [Mode] and [Boost] and their [toString] are generated from the
    interface definition of Android; the values this code does not name are
    [OtherMode] and [OtherBoost] with the string they print as. *)

From stdpp Require Import relations.
From S2P Require Import Prelude Interaction PowerPid PowerSession PowerManager.

Module Power.
Import Pid Session.

(** ** Data *)

Inductive Mode :=
  | SUSTAINED_PERFORMANCE | LAUNCH | DOUBLE_TAP_TO_WAKE | FIXED_PERFORMANCE
  | EXPENSIVE_RENDERING | INTERACTIVE | DEVICE_IDLE | DISPLAY_INACTIVE
  | AUDIO_STREAMING_LOW_LATENCY | GAME_LOADING
  | OtherMode (name : string).
#[global] Instance Mode_eq_dec : EqDecision Mode.
Proof. solve_decision. Defined.

Inductive Boost :=
  | INTERACTION | DISPLAY_UPDATE_IMMINENT | ML_ACC | AUDIO_LAUNCH
  | OtherBoost (name : string).
#[global] Instance Boost_eq_dec : EqDecision Boost.
Proof. solve_decision. Defined.

Definition mode_toString (m : Mode) : string :=
  match m with
  | SUSTAINED_PERFORMANCE => "SUSTAINED_PERFORMANCE"
  | LAUNCH => "LAUNCH"
  | DOUBLE_TAP_TO_WAKE => "DOUBLE_TAP_TO_WAKE"
  | FIXED_PERFORMANCE => "FIXED_PERFORMANCE"
  | EXPENSIVE_RENDERING => "EXPENSIVE_RENDERING"
  | INTERACTIVE => "INTERACTIVE"
  | DEVICE_IDLE => "DEVICE_IDLE"
  | DISPLAY_INACTIVE => "DISPLAY_INACTIVE"
  | AUDIO_STREAMING_LOW_LATENCY => "AUDIO_STREAMING_LOW_LATENCY"
  | GAME_LOADING => "GAME_LOADING"
  | OtherMode s => s
  end.

Definition boost_toString (b : Boost) : string :=
  match b with
  | INTERACTION => "INTERACTION"
  | DISPLAY_UPDATE_IMMINENT => "DISPLAY_UPDATE_IMMINENT"
  | ML_ACC => "ML_ACC"
  | AUDIO_LAUNCH => "AUDIO_LAUNCH"
  | OtherBoost s => s
  end.

(** The calls of HintManager the service itself makes. *)
Inductive hal_hint := DoHint (name : string) | DoHintFor (name : string) (ms : Z) | EndHint (name : string).
#[global] Instance hal_hint_eq_dec : EqDecision hal_hint.
Proof. solve_decision. Defined.

Record hal := Hal {
  mInteractionHandler : Interaction.handler;
  mSustainedPerfModeOn : bool;
  sessions : world;               (* PowerSessionManager and the sessions *)
  hal_hints : list hal_hint;      (* the hint calls made, in order *)
}.

Abbreviation HP := (M hal).

Definition do_hint (h : hal_hint) : HP unit := λ p,
  Some (tt, Hal (mInteractionHandler p) (mSustainedPerfModeOn p) (sessions p) (hal_hints p ++ [h])).
Definition set_sustained (b : bool) : HP unit := λ p,
  Some (tt, Hal (mInteractionHandler p) b (sessions p) (hal_hints p)).
Definition set_handler (h : Interaction.handler) : HP unit := λ p,
  Some (tt, Hal h (mSustainedPerfModeOn p) (sessions p) (hal_hints p)).
Definition get_hal : HP hal := λ p, Some (p, p).

(** A call into the sessions' part. *)
Definition on_sessions {A} (m : P A) : HP A := λ p,
  match m (sessions p) with
  | Some (a, w) => Some (a, Hal (mInteractionHandler p) (mSustainedPerfModeOn p) w (hal_hints p))
  | None => None
  end.

Definition when_hal (b : bool) (m : HP unit) : HP unit := if b then m else ret tt.

Inductive hal_status := HalOk | HalUnsupported | HalIllegalArgument.
#[global] Instance hal_status_eq_dec : EqDecision hal_status.
Proof. solve_decision. Defined.

(** [CLOCK_MONOTONIC] as a timespec. *)
Definition timespec_of (ns : Z) : Interaction.timespec :=
  Interaction.Timespec (ns / 1000000000) (ns mod 1000000000).

Section code.
Context `{Platform} `{Interaction.Props}.

(** [GetAdpfProfile() && GetAdpfProfile()->mReportingRateLimitNs > 0] *)
Definition adpf_on (w : world) : bool :=
  match adpf w with Some cfg => 0 <? mReportingRateLimitNs cfg | None => false end.

(** ** Power.cpp *)

(** The constructor, given what opening the idle files and the event descriptor
    and reading the three properties return. *)
Definition Power_new (open0 open1 event : Z) (state audio rendering : string) : HP unit :=
  let* p := get_hal in
  set_handler (Interaction.Init open0 open1 event (mInteractionHandler p)).2 ;;
  when_hal (String.eqb state "SUSTAINED_PERFORMANCE")
    (do_hint (DoHint "SUSTAINED_PERFORMANCE") ;; set_sustained true) ;;
  when_hal (String.eqb audio "AUDIO_STREAMING_LOW_LATENCY") (do_hint (DoHint audio)) ;;
  when_hal (String.eqb rendering "EXPENSIVE_RENDERING") (do_hint (DoHint "EXPENSIVE_RENDERING")).

Definition setMode (type : Mode) (enabled : bool) : HP hal_status :=
  let* p := get_hal in
  when_hal (adpf_on (sessions p)) (on_sessions (updateHintMode (mode_toString type) enabled)) ;;
  let other :=
    if enabled then do_hint (DoHint (mode_toString type))
    else do_hint (EndHint (mode_toString type)) in
  match type with
  | SUSTAINED_PERFORMANCE =>
      when_hal enabled (do_hint (DoHint "SUSTAINED_PERFORMANCE")) ;;
      set_sustained true
  | LAUNCH => if mSustainedPerfModeOn p then ret tt else other
  | _ => other
  end ;;
  ret HalOk.

Definition isModeSupported (type : Mode) : bool := IsHintSupported (mode_toString type).

(** What a boost with a duration does. *)
Definition boost_hint (name : string) (durationMs : Z) : HP unit :=
  if 0 <? durationMs then do_hint (DoHintFor name durationMs)
  else if durationMs =? 0 then do_hint (DoHint name)
  else do_hint (EndHint name).

Definition setBoost (type : Boost) (durationMs : Z) : HP hal_status :=
  let* p := get_hal in
  when_hal (adpf_on (sessions p)) (on_sessions (updateHintBoost (boost_toString type) durationMs)) ;;
  match type with
  | INTERACTION =>
      if mSustainedPerfModeOn p then ret tt
      else set_handler (Interaction.Acquire (timespec_of (now (sessions p))) durationMs
                          (mInteractionHandler p))
  | _ =>
      if mSustainedPerfModeOn p then ret tt
      else boost_hint (boost_toString type) durationMs
  end ;;
  ret HalOk.

Definition isBoostSupported (type : Boost) : bool := IsHintSupported (boost_toString type).

(** [id] stands for the address of the new session. *)
Definition createHintSession (id : nat) (tgid uid : Z) (threadIds : list Z) (durationNanos : Z)
    : HP (hal_status * option nat) :=
  let* p := get_hal in
  if negb (adpf_on (sessions p)) then ret (HalUnsupported, None)
  else if (length threadIds =? 0)%nat then ret (HalIllegalArgument, None)
  else
    on_sessions (PowerHintSession id tgid uid threadIds durationNanos) ;;
    ret (HalOk, Some id).

Definition getHintSessionPreferredRate : HP (hal_status * Z) :=
  let* p := get_hal in
  let outNanoseconds :=
    match adpf (sessions p) with Some cfg => mReportingRateLimitNs cfg | None => 0 end in
  if outNanoseconds <=? 0 then ret (HalUnsupported, outNanoseconds)
  else ret (HalOk, outNanoseconds).

(** ** PowerExt.cpp *)

Definition ext_setMode (mode : string) (enabled : bool) : HP hal_status :=
  (if enabled then do_hint (DoHint mode) else do_hint (EndHint mode)) ;;
  let* p := get_hal in
  when_hal (adpf_on (sessions p)) (on_sessions (updateHintMode mode enabled)) ;;
  ret HalOk.

Definition ext_isModeSupported (mode : string) : bool := IsHintSupported mode.

Definition ext_setBoost (boost : string) (durationMs : Z) : HP hal_status :=
  let* p := get_hal in
  when_hal (adpf_on (sessions p)) (on_sessions (updateHintBoost boost durationMs)) ;;
  boost_hint boost durationMs ;;
  ret HalOk.

Definition ext_isBoostSupported (boost : string) : bool := IsHintSupported boost.

(** ** configs/power/power-mode.cpp *)

(** The value stored and returned, or [None] when the mode is not the device's own. *)
Definition isDeviceSpecificModeSupported (type : Mode) : option bool :=
  match type with DOUBLE_TAP_TO_WAKE => Some true | _ => None end.

(** Whether the mode is the device's own, and the files written, each with its text. *)
Definition setDeviceSpecificMode (type : Mode) (enabled : bool) : bool * list (string * string) :=
  match type with
  | DOUBLE_TAP_TO_WAKE =>
      (true, [("/sys/devices/virtual/sec/tsp/cmd", if enabled then "sod_enable,1" else "sod_enable,0");
              ("/sys/devices/dsi_panel_driver/pre_sod_mode", if enabled then "1" else "0")])
  | _ => (false, [])
  end.

(** ** Runs of the service *)

(** The binder calls of the service and its extension. *)
Inductive request :=
  | RMode (type : Mode) (enabled : bool)
  | RBoost (type : Boost) (ms : Z)
  | RExtMode (mode : string) (enabled : bool)
  | RExtBoost (boost : string) (ms : Z).

Definition serve (r : request) : HP hal_status :=
  match r with
  | RMode m b => setMode m b
  | RBoost b ms => setBoost b ms
  | RExtMode m b => ext_setMode m b
  | RExtBoost b ms => ext_setBoost b ms
  end.

Inductive step : hal → hal → Prop :=
  | step_serve r st p p' : serve r p = Some (st, p') → step p p'
  | step_create id tg u l d r p p' :
      heap (sessions p) !! id = None → createHintSession id tg u l d p = Some (r, p') → step p p'
  | step_worker h p :
      Interaction.Routine_step (mInteractionHandler p) = Some h →
      step p (Hal h (mSustainedPerfModeOn p) (sessions p) (hal_hints p))
  | step_sessions w p :
      Session.step (sessions p) w →
      step p (Hal (mInteractionHandler p) (mSustainedPerfModeOn p) w (hal_hints p)).

(** The service after its constructor. *)
Definition hal_zero (cfg : option AdpfConfig) (t : Z) : hal :=
  Hal Interaction.handler_new false (start cfg t) [].

Definition reachable (p : hal) : Prop :=
  ∃ cfg t o0 o1 e s a r p0,
    Power_new o0 o1 e s a r (hal_zero cfg t) = Some (tt, p0) ∧ rtc step p0 p.
End code.

(** ** The parts compose *)

Section composition.
Context `{Platform} `{Interaction.Props}.

Lemma updateHintMode_total mode b w :
  ∃ w', updateHintMode mode b w = Some (tt, w') ∧
    now w' = now w ∧ heap w' = heap w ∧ queue w' = queue w ∧ util_min w' = util_min w.
Proof.
  unfold updateHintMode, when, bind.
  destruct (b && _); [destruct (String.eqb _ _); [|destruct (String.eqb _ _);
    [|destruct (String.eqb _ _)]]|]; cbn -[SetAdpfProfile]; destruct (adpf w); by eexists.
Qed.

Lemma updateHintBoost_total boost ms w :
  ∃ w', updateHintBoost boost ms w = Some (tt, w') ∧
    now w' = now w ∧ heap w' = heap w ∧ util_min w' = util_min w ∧ adpf w' = adpf w.
Proof. unfold updateHintBoost, when. destruct (String.eqb _ _); by eexists. Qed.

(** *** The specification of a history of calls

    A request says at most one of two things: a hint for libperfmgr, or the
    duration of a touch for the interaction handler.  Launches and the service's
    own boosts give way to sustained performance mode: they are not heard once it
    has been mentioned, to turn it on or off. *)

Definition toggle (name : string) (on : bool) : hal_hint := if on then DoHint name else EndHint name.
Definition timed (name : string) (ms : Z) : hal_hint :=
  if decide (0 < ms) then DoHintFor name ms else toggle name (bool_decide (ms = 0)).

Definition hint_of (r : request) : option hal_hint :=
  match r with
  | RMode SUSTAINED_PERFORMANCE false | RBoost INTERACTION _ => None
  | RMode m b => Some (toggle (mode_toString m) b)
  | RBoost b ms => Some (timed (boost_toString b) ms)
  | RExtMode m b => Some (toggle m b)
  | RExtBoost b ms => Some (timed b ms)
  end.

Definition touch_of (r : request) : option Z :=
  match r with RBoost INTERACTION ms => Some ms | _ => None end.

Definition mentions_sustained (r : request) : bool :=
  match r with RMode SUSTAINED_PERFORMANCE _ => true | _ => false end.

Definition gives_way (r : request) : bool :=
  match r with RMode LAUNCH _ | RBoost _ _ => true | _ => false end.

(** The requests heard, [on] being the flag before the first. *)
Definition heard (on : bool) (rs : list request) : list request :=
  omap id (imap (λ i r, if gives_way r && (on || existsb mentions_sustained (take i rs))
                        then None else Some r) rs).

(** What a request tells the session manager, heard or not. *)
Definition tell (r : request) : P unit :=
  match r with
  | RMode m b => updateHintMode (mode_toString m) b
  | RBoost b ms => updateHintBoost (boost_toString b) ms
  | RExtMode m b => updateHintMode m b
  | RExtBoost b ms => updateHintBoost b ms
  end.
Definition tell_if_on (r : request) : P unit := λ w, when (adpf_on w) (tell r) w.
Fixpoint tell_all (rs : list request) : P unit :=
  match rs with
  | [] => ret tt
  | r :: rs => tell_if_on r ;; tell_all rs
  end.

(** The touches of a list of requests at time [t], in order. *)
Definition touches (t : Z) (rs : list request) (h : Interaction.handler) : Interaction.handler :=
  fold_left (λ h ms, Interaction.Acquire (timespec_of t) ms h) (omap touch_of rs) h.

Lemma heard_cons on r rs :
  heard on (r :: rs) = heard on [r] ++ heard (on || mentions_sustained r) rs.
Proof.
  assert (heard on [r] = if gives_way r && on then [] else [r]) as ->.
  { unfold heard. cbn. rewrite orb_false_r. by destruct (gives_way r && on). }
  unfold heard. rewrite imap_cons. cbn [take existsb omap list_omap]. rewrite orb_false_r.
  assert (∀ l, imap ((λ i r', if gives_way r' && (on || existsb mentions_sustained (take i (r :: rs)))
                         then None else Some r') ∘ S) l =
    imap (λ i r', if gives_way r' && (on || mentions_sustained r || existsb mentions_sustained (take i rs))
                  then None else Some r') l) as E.
  { intros l. apply imap_ext. intros i x _. cbn. by rewrite orb_assoc. }
  rewrite E. by destruct (gives_way r && on).
Qed.

(** What a call may do to the sessions: one call of the manager when ADPF is on. *)
Definition sessions_served (w w' : world) : Prop :=
  rtc Session.step w w' ∧ now w' = now w ∧ heap w' = heap w ∧ util_min w' = util_min w ∧
  (adpf_on w = false → w' = w).

Lemma tell_total r w :
  ∃ w', tell_if_on r w = Some (tt, w') ∧ sessions_served w w'.
Proof.
  assert (∃ w', tell r w = Some (tt, w') ∧ now w' = now w ∧ heap w' = heap w ∧
    util_min w' = util_min w ∧ Session.step w w') as (w' & E & H1 & H2 & H3 & H4).
  { destruct r as [m b|b ms|m b|b ms]; cbn [tell].
    1,3: edestruct updateHintMode_total as (w' & E & ? & ? & _ & ?); exists w';
      do 4 (split; [done|]); by eapply Session.step_mode.
    all: edestruct updateHintBoost_total as (w' & E & ? & ? & ? & _); exists w';
      do 4 (split; [done|]); by eapply Session.step_boost. }
  unfold tell_if_on, when. destruct (adpf_on w) eqn:Ha.
  - exists w'. split; [done|]. split; [by apply rtc_once|]. do 3 (split; [done|]). by rewrite Ha.
  - exists w. split; [done|]. by split_and!.
Qed.

Lemma on_sessions_tell r m p w :
  m = tell r → tell_if_on r (sessions p) = Some (tt, w) →
  when_hal (adpf_on (sessions p)) (on_sessions m) p =
    Some (tt, Hal (mInteractionHandler p) (mSustainedPerfModeOn p) w (hal_hints p)).
Proof.
  intros ->. unfold tell_if_on, when, when_hal, on_sessions. destruct (adpf_on _).
  - by intros ->.
  - intros [= <-]. by destruct p.
Qed.

Lemma boost_hint_run name ms p :
  boost_hint name ms p = do_hint (timed name ms) p.
Proof.
  unfold boost_hint, timed, toggle. destruct (Z.ltb_spec 0 ms).
  - by rewrite decide_True.
  - rewrite decide_False by lia. destruct (Z.eqb_spec ms 0); [by rewrite bool_decide_true|].
    by rewrite bool_decide_false.
Qed.

(** One call. *)
Lemma serve_run r p :
  let said := heard (mSustainedPerfModeOn p) [r] in
  ∃ w, serve r p = Some (HalOk, Hal (touches (now (sessions p)) said (mInteractionHandler p))
         (mSustainedPerfModeOn p || mentions_sustained r) w (hal_hints p ++ omap hint_of said)) ∧
    tell_if_on r (sessions p) = Some (tt, w) ∧ sessions_served (sessions p) w.
Proof.
  intros said. destruct (tell_total r (sessions p)) as (w & E & Hw). exists w. split; [|done].
  unfold said, heard, touches. clear said Hw. destruct r as [m b|b ms|m b|b ms]; cbn [serve].
  - unfold setMode. erewrite bind_run; [|done].
    erewrite bind_run; [|by eapply on_sessions_tell; [|exact E]].
    destruct m, b; destruct (mSustainedPerfModeOn p); cbn; by rewrite ?app_nil_r.
  - unfold setBoost. erewrite bind_run; [|done].
    erewrite bind_run; [|by eapply on_sessions_tell; [|exact E]].
    destruct b; destruct (mSustainedPerfModeOn p);
      unfold bind; rewrite ?boost_hint_run; cbn -[Interaction.Acquire timespec_of timed];
      by rewrite ?app_nil_r.
  - set (q := Hal (mInteractionHandler p) (mSustainedPerfModeOn p) (sessions p)
      (hal_hints p ++ [toggle m b])). unfold ext_setMode.
    rewrite (bind_run _ _ p tt q) by by destruct b. rewrite (bind_run _ _ q q q) by done.
    erewrite bind_run; [|eapply (on_sessions_tell (RExtMode m b)); [done|exact E]].
    cbn. by rewrite orb_false_r.
  - unfold ext_setBoost. erewrite bind_run; [|done].
    erewrite bind_run; [|by eapply (on_sessions_tell (RExtBoost b ms)); [|exact E]].
    unfold bind. rewrite boost_hint_run. cbn -[timed]. by rewrite orb_false_r.
Qed.

Fixpoint serve_all (rs : list request) : HP unit :=
  match rs with
  | [] => ret tt
  | r :: rs => serve r ;; serve_all rs
  end.

(** C17. The service implements its specification on any sequence of calls of the
    service and its extension, made at one moment of the clock.  Every call
    returns.  The sustained flag is set afterwards exactly when it was before or a
    call mentioned sustained performance mode, be it to turn it off.  libperfmgr is
    asked for exactly the hints of the requests that are heard, in order; the
    interaction handler gets exactly the touches of the requests that are heard, in
    order; a launch or a boost of the service is heard unless the flag was set or
    sustained mode mentioned before it, everything else always is.  The session
    manager is told of every request while ADPF is on, and no hint session and no
    thread's clamp is touched. *)
Theorem service_refines (rs : list request) (p : hal) :
  ∃ p', serve_all rs p = Some (tt, p') ∧
    mSustainedPerfModeOn p' = mSustainedPerfModeOn p || existsb mentions_sustained rs ∧
    hal_hints p' = hal_hints p ++ omap hint_of (heard (mSustainedPerfModeOn p) rs) ∧
    mInteractionHandler p' =
      touches (now (sessions p)) (heard (mSustainedPerfModeOn p) rs) (mInteractionHandler p) ∧
    tell_all rs (sessions p) = Some (tt, sessions p') ∧
    heap (sessions p') = heap (sessions p) ∧ util_min (sessions p') = util_min (sessions p).
Proof.
  revert p. induction rs as [|r rs IH]; intros p; cbn [serve_all tell_all].
  { exists p. by rewrite app_nil_r, orb_false_r. }
  destruct (serve_run r p) as (w & E & Et & _ & Hn & Hh & Hu & _).
  rewrite (bind_run _ _ _ _ _ E), (bind_run _ _ _ _ _ Et).
  match type of E with _ = Some (_, ?q) =>
    destruct (IH q) as (p' & E' & H1 & H2 & H3 & H4 & H5 & H6) end.
  exists p'. cbn [mSustainedPerfModeOn hal_hints sessions mInteractionHandler existsb] in *.
  rewrite (heard_cons _ r rs). unfold touches in *. rewrite !omap_app, fold_left_app, app_assoc, orb_assoc.
  rewrite Hn in H3. split_and!; congruence.
Qed.

Lemma touches_step b t r h :
  rtc Interaction.session_step h (touches t (heard b [r]) h).
Proof.
  unfold touches, heard. cbn. destruct (gives_way r && _); [apply rtc_refl|].
  cbn. destruct r as [|[]| |]; try apply rtc_refl. apply rtc_once, Interaction.step_acquire.
Qed.

(** Every step of the service is steps of its parts. *)
Lemma step_parts p p' :
  step p p' →
  rtc Session.step (sessions p) (sessions p') ∧
  rtc Interaction.session_step (mInteractionHandler p) (mInteractionHandler p').
Proof.
  intros [r st q q' E|id tg u l d r q q' Hid E|h q E|w q E].
  - destruct (serve_run r q) as (w & E' & _ & Hw & _). simplify_eq. split; [done|].
    apply touches_step.
  - unfold createHintSession, bind, get_hal in E. destruct (negb _).
    { injection E as _ <-. split; apply rtc_refl. }
    destruct (length l =? 0)%nat; [injection E as _ <-; split; apply rtc_refl|].
    unfold on_sessions in E. destruct (PowerHintSession _ _ _ _ _ _) as [[[] w]|] eqn:Ec; [|done].
    injection E as _ <-. split; [|apply rtc_refl]. apply rtc_once. by eapply Session.step_create.
  - split; [apply rtc_refl|]. apply rtc_once. by apply Interaction.step_worker.
  - split; [|apply rtc_refl]. by apply rtc_once.
Qed.

Lemma new_parts o0 o1 e s a r p p0 :
  Interaction.exiting (mInteractionHandler p) = false →
  Power_new o0 o1 e s a r p = Some (tt, p0) →
  sessions p0 = sessions p ∧
  Interaction.session_step (mInteractionHandler p) (mInteractionHandler p0).
Proof.
  intros He. unfold Power_new, bind, get_hal, set_handler, when_hal, ret, do_hint, set_sustained.
  destruct (String.eqb s _), (String.eqb a _), (String.eqb r _); intros [= <-];
    (split; [done|]; by apply Interaction.step_init).
Qed.

Lemma reachable_parts p :
  reachable p →
  Session.reachable (sessions p) ∧ Interaction.session (mInteractionHandler p).
Proof.
  intros (cfg & t & o0 & o1 & e & s & a & r & p0 & E & Hr).
  apply new_parts in E as [Es Eh]; [|done].
  assert (Session.reachable (sessions p0) ∧ Interaction.session (mInteractionHandler p0)) as Hp0.
  { split; [exists cfg, t; rewrite Es; apply rtc_refl|by apply rtc_once]. }
  clear Es Eh. induction Hr as [|x y z Hxy _ IH]; [done|]. apply IH.
  apply step_parts in Hxy as [Hs Hi]. destruct Hp0 as [(c' & t' & Hc) Hh]. split.
  - exists c', t'. by etrans.
  - unfold Interaction.session in *. by etrans.
Qed.

(** C18. The guarantees of the parts hold in the service, over every interleaving
    of binder calls, session methods and looper messages (each one atomic step)
    and the worker, as long as the handler is not exited, which the service never
    does.  The interaction handler keeps its invariant, its hint calls are those
    of a session (timed hints while calls are not tracked, then boosts started
    and ended in turn), and its untimed hint is on exactly while an interaction
    is.  When the task profile of every thread can be set, the manager's counts,
    lists and timers are those of the open sessions, and it lists exactly these. *)
Theorem service_invariant (p : hal) (Hr : reachable p) :
  Interaction.inv (mInteractionHandler p) ∧
  (∃ timed n, Interaction.hints (mInteractionHandler p) =
     Interaction.session_hints timed n (Interaction.mState (mInteractionHandler p))) ∧
  Interaction.held (Interaction.hints (mInteractionHandler p)) =
    Interaction.active (Interaction.mState (mInteractionHandler p)) ∧
  ((∀ k t, SetTaskProfiles_ok k t "ResetUclampGrp" = true) →
   Manager.consistent (sessions p) ∧
   (∀ id, id ∈ mSessions (sessions p) ↔ Manager.is_open (sessions p) id)).
Proof.
  destruct (reachable_parts p Hr) as [Hs Hi]. split_and!.
  - by apply Interaction.session_inv.
  - destruct (Interaction.session_hints_ok _ Hi) as (timed & n & E & _). eauto.
  - by apply Interaction.session_held.
  - intros Hprofiles. pose proof (Manager.reachable_consistent Hprofiles _ Hs) as C.
    split; [done|]. apply C.
Qed.

(** *** The sustained flag *)

Lemma worker_run_snoc n h h' h0 :
  h = Interaction.worker_run n h0 → Interaction.Routine_step h = Some h' →
  ∃ m, h' = Interaction.worker_run m h0.
Proof.
  revert h0. induction n as [|n IH]; intros h0; cbn [Interaction.worker_run].
  - intros -> E. exists 1%nat. cbn [Interaction.worker_run]. by rewrite E.
  - destruct (Interaction.Routine_step h0) as [h1|] eqn:E1.
    + intros E0 E. destruct (IH h1 E0 E) as (m & ->). exists (S m). cbn [Interaction.worker_run].
      by rewrite E1.
    + intros -> E. congruence.
Qed.

Lemma sustained_step p p' :
  mSustainedPerfModeOn p = true → step p p' →
  mSustainedPerfModeOn p' = true ∧
  (mInteractionHandler p' = mInteractionHandler p ∨
   Interaction.Routine_step (mInteractionHandler p) = Some (mInteractionHandler p')).
Proof.
  intros Hp Hst. revert Hp.
  destruct Hst as [r st q q' E|id tg u l d r q q' Hid E|h q E|w q E]; intros Hp; cbn; auto.
  - destruct (serve_run r q) as (w & E' & _). simplify_eq. rewrite Hp. cbn.
    destruct r as [[]|[]| |]; cbn; auto.
  - unfold createHintSession, bind, get_hal in E. destruct (negb _).
    { by injection E as _ <-; auto. }
    destruct (length l =? 0)%nat; [injection E as _ <-; by auto|].
    unfold on_sessions in E. destruct (PowerHintSession _ _ _ _ _ _) as [[[] w]|] eqn:Ec; [|done].
    injection E as _ <-. by auto.
Qed.

(** C39. Turning sustained performance mode off turns it on for good: the call ends
    no hint and sets the flag, and in every later state of the service the flag
    is set, no client has started another interaction boost (the handler has only
    made steps of its own worker), and launches and boosts are dropped. *)
Theorem sustained_off_is_permanent (p p1 p2 : hal) (st : hal_status)
    (Hoff : setMode SUSTAINED_PERFORMANCE false p = Some (st, p1)) (Hrun : rtc step p1 p2) :
  hal_hints p1 = hal_hints p ∧ mSustainedPerfModeOn p2 = true ∧
  (∃ n, mInteractionHandler p2 = Interaction.worker_run n (mInteractionHandler p)) ∧
  ∀ r, r = RMode LAUNCH true ∨ (∃ b ms, r = RBoost b ms) →
    ∃ p3, serve r p2 = Some (HalOk, p3) ∧ hal_hints p3 = hal_hints p2 ∧
      mInteractionHandler p3 = mInteractionHandler p2.
Proof.
  destruct (serve_run (RMode SUSTAINED_PERFORMANCE false) p) as (w & E & _).
  cbn in E, Hoff. rewrite Hoff in E. injection E as -> ->.
  assert (mSustainedPerfModeOn p2 = true ∧
    ∃ n, mInteractionHandler p2 = Interaction.worker_run n (mInteractionHandler p)) as [Hs Hn].
  { revert Hrun. apply (rtc_ind_r (λ q, mSustainedPerfModeOn q = true ∧
      ∃ n, mInteractionHandler q = Interaction.worker_run n (mInteractionHandler p))).
    - split; [apply orb_true_r|]. by exists 0%nat.
    - intros y z _ Hyz (Hy & n & Hn). destruct (sustained_step y z Hy Hyz) as (Hz & Hz').
      split; [done|]. destruct Hz' as [->|Hw]; [eauto|]. by eapply worker_run_snoc. }
  split; [by rewrite app_nil_r|]. split; [done|]. split; [done|]. intros r Hr.
  destruct (serve_run r p2) as (w2 & E2 & _). eexists. split; [exact E2|].
  rewrite Hs. cbn [hal_hints mInteractionHandler].
  destruct Hr as [->|(b & ms & ->)]; [|destruct b]; cbn; by rewrite ?app_nil_r.
Qed.

(** Errors of session creation change nothing, and the advertised rate is positive
    exactly when sessions are supported. *)
Theorem createHintSession_errors id tg u l d (p : hal) :
  (createHintSession id tg u l d p = Some ((HalUnsupported, None), p) ↔ adpf_on (sessions p) = false) ∧
  (createHintSession id tg u l d p = Some ((HalIllegalArgument, None), p) ↔
     adpf_on (sessions p) = true ∧ l = []) ∧
  (∃ rate, getHintSessionPreferredRate p =
     Some ((if adpf_on (sessions p) then HalOk else HalUnsupported, rate), p)).
Proof.
  unfold createHintSession, getHintSessionPreferredRate, bind, get_hal, ret.
  split; [|split].
  - destruct (adpf_on _); cbn; [|done]. split; [|done]. destruct l; [done|]. cbn.
    unfold on_sessions. by destruct (PowerHintSession _ _ _ _ _ _) as [[]|].
  - destruct (adpf_on _); cbn; [|naive_solver]. destruct l; [by cbn|]. cbn.
    unfold on_sessions. destruct (PowerHintSession _ _ _ _ _ _) as [[]|]; naive_solver.
  - unfold adpf_on. destruct (adpf _) as [cfg|]; [|by eexists].
    destruct (Z.leb_spec (mReportingRateLimitNs cfg) 0).
    + rewrite (proj2 (Z.ltb_ge _ _)) by lia. by eexists.
    + rewrite (proj2 (Z.ltb_lt _ _)) by lia. by eexists.
Qed.

End composition.

(** ** Concrete runs *)

(** The service after its start, with ADPF on. *)
Definition sample_hal : hal :=
  match Power_new 3 (-1) 4 "" "" "" (hal_zero (Some sample_cfg) 1000000) with
  | Some (_, p) => p
  | None => hal_zero None 0
  end.

Definition sample_off : hal :=
  match @setMode Manager.quiet SUSTAINED_PERFORMANCE false sample_hal with
  | Some (_, p) => p
  | None => sample_hal
  end.

Lemma service_invariant_witness :
  Interaction.held (Interaction.hints (mInteractionHandler sample_hal)) = false ∧
  Manager.consistent (sessions sample_hal).
Proof.
  destruct (@service_invariant Manager.quiet Interaction.default_props sample_hal)
    as (_ & _ & -> & Hc).
  - exists (Some sample_cfg), 1000000, 3, (-1), 4, "", "", "", sample_hal.
    split; [by vm_compute|apply rtc_refl].
  - split; [by vm_compute|]. apply Hc. reflexivity.
Defined.

Lemma sustained_off_is_permanent_witness :
  hal_hints sample_off = [] ∧ mSustainedPerfModeOn sample_off = true.
Proof.
  destruct (@sustained_off_is_permanent Manager.quiet Interaction.default_props
    sample_hal sample_off sample_off HalOk) as (H1 & H2 & _).
  - by vm_compute.
  - apply rtc_refl.
  - split; [rewrite H1; by vm_compute|exact H2].
Defined.
End Power.
