(* ===== verification/PowerRace.v ===== *)
(** * PowerRace: a session's lifetime against the looper
      (aidl/power-libperfmgr/PowerHintSession.cpp, PowerSessionManager.cpp)

    PowerSession.v runs every handler and every binder call as a whole.  Here the two
    threads that can meet on one session are split at their locks and at their
    accesses to shared data.  The looper handles messages that use the session: the
    manager's own ([wakeSessions], [isAnyAppSessionActive]), under the manager's lock
    and for the sessions it lists; EarlyBoostHandler's and StaleTimerHandler's, for
    a session that is not dead.  Meanwhile the client drops the session and a binder
    thread runs its destructor: [close], then the memory is freed.  A handler outlives
    its session, because the looper holds a reference to it.

    EarlyBoostHandler holds [mBoostLock] from its test to its last use, and
    [setSessionDead] takes the same lock; StaleTimerHandler::handleMessage takes no
    lock.  The parameter [guard] of the steps is [false] for the source; [true] is the
    program in which handleMessage holds [mStaleLock], the way EarlyBoostHandler does.

    A use of the session is one step: the manager's lock, which setting a request takes
    inside a handler, is held for that step only and released with it. *)

From stdpp Require Import relations.
From S2P Require Import Prelude.

Module PowerRace.

Inductive thread := Looper | Binder.
Inductive lock := mLock | mBoostLock | mStaleLock.
#[global] Instance lock_eq_dec : EqDecision lock.
Proof. solve_decision. Defined.

(** The messages whose handling uses the session. *)
Inductive job := Manager | EarlyBoost | StaleTimer.
#[global] Instance job_eq_dec : EqDecision job.
Proof. solve_decision. Defined.

(** Where the looper is: about to take the lock of the handler, to test whether the
    session is there, to use it, to release the lock. *)
Inductive looper_pc := LIdle | LLock (j : job) | LTest (j : job) | LUse (j : job) | LUnlock (j : job).

(** Where the destructor is.  [B..Lock] waits for a lock, [B..In] holds it. *)
Inductive binder_pc :=
  | BOpen                     (* the client holds the session *)
  | BRemoveLock | BRemoveIn   (* removePowerSession *)
  | BClampLock | BClampIn     (* setSessionUclampMin(0) *)
  | BEarlyLock | BEarlyIn     (* mEarlyBoostHandler->setSessionDead() *)
  | BStaleLock | BStaleIn     (* mStaleTimerHandler->setSessionDead() *)
  | BClosed                   (* close has returned *)
  | BFreed.

Record state := State {
  looper : looper_pc;
  binder : binder_pc;
  held : lock → option thread;
  listed : bool;              (* the session is in mSessions *)
  early_dead : bool;          (* mIsSessionDead of the two handlers *)
  stale_dead : bool;
  requested : bool;           (* the session's request is on its threads *)
  used_freed : option job;    (* a handler that used the freed session *)
}.

Definition init : state := State LIdle BOpen (λ _, None) true false false true None.

Definition set_lock (l : lock) (o : option thread) (h : lock → option thread) : lock → option thread :=
  λ l', if decide (l' = l) then o else h l'.

Definition at_looper (pc : looper_pc) (s : state) : state :=
  State pc (binder s) (held s) (listed s) (early_dead s) (stale_dead s) (requested s)
    (used_freed s).
Definition at_binder (pc : binder_pc) (s : state) : state :=
  State (looper s) pc (held s) (listed s) (early_dead s) (stale_dead s) (requested s)
    (used_freed s).
Definition hold (l : lock) (o : option thread) (s : state) : state :=
  State (looper s) (binder s) (set_lock l o (held s)) (listed s) (early_dead s) (stale_dead s)
    (requested s) (used_freed s).

Section threads.
Variable guard : bool.

(** The lock a handler holds from its test to its last use. *)
Definition lock_of (j : job) : option lock :=
  match j with
  | Manager => Some mLock
  | EarlyBoost => Some mBoostLock
  | StaleTimer => if guard then Some mStaleLock else None
  end.

(** The test that lets a handler use the session. *)
Definition sees (j : job) (s : state) : bool :=
  match j with
  | Manager => listed s
  | EarlyBoost => negb (early_dead s)
  | StaleTimer => negb (stale_dead s)
  end.

Definition freed (s : state) : bool := match binder s with BFreed => true | _ => false end.

(** What a handler does with the session when its time has come ([due]): waking up
    and the early boost put a request on the threads, the stale timer takes it off. *)
Definition request_after (j : job) (due : bool) (s : state) : bool :=
  if due then match j with StaleTimer => false | _ => true end else requested s.

Definition use (j : job) (due : bool) (s : state) : state :=
  State (LUnlock j) (binder s) (held s) (listed s) (early_dead s) (stale_dead s)
    (request_after j due s) (if freed s then Some j else used_freed s).

(** The critical sections of the destructor: lock, effect, the next point. *)
Definition section (pc : binder_pc) : option (lock * binder_pc) :=
  match pc with
  | BRemoveLock => Some (mLock, BRemoveIn)
  | BClampLock => Some (mLock, BClampIn)
  | BEarlyLock => Some (mBoostLock, BEarlyIn)
  | BStaleLock => Some (mStaleLock, BStaleIn)
  | _ => None
  end.

Definition leave (pc : binder_pc) (s : state) : option state :=
  match pc with
  | BRemoveIn => Some (hold mLock None (State (looper s) BClampLock (held s) false
      (early_dead s) (stale_dead s) (requested s) (used_freed s)))
  | BClampIn => Some (hold mLock None (State (looper s) BEarlyLock (held s) (listed s)
      (early_dead s) (stale_dead s) false (used_freed s)))
  | BEarlyIn => Some (hold mBoostLock None (State (looper s) BStaleLock (held s) (listed s)
      true (stale_dead s) (requested s) (used_freed s)))
  | BStaleIn => Some (hold mStaleLock None (State (looper s) BClosed (held s) (listed s)
      (early_dead s) true (requested s) (used_freed s)))
  | _ => None
  end.

Inductive step : state → state → Prop :=
  | l_message j s : looper s = LIdle → step s (at_looper (LLock j) s)
  | l_lock j l s :
      looper s = LLock j → lock_of j = Some l → held s l = None →
      step s (hold l (Some Looper) (at_looper (LTest j) s))
  | l_no_lock j s : looper s = LLock j → lock_of j = None → step s (at_looper (LTest j) s)
  | l_test j s : looper s = LTest j → step s (at_looper (if sees j s then LUse j else LUnlock j) s)
  | l_use j due s : looper s = LUse j → step s (use j due s)
  | l_unlock j l s :
      looper s = LUnlock j → lock_of j = Some l → step s (hold l None (at_looper LIdle s))
  | l_no_unlock j s : looper s = LUnlock j → lock_of j = None → step s (at_looper LIdle s)
  | b_close s : binder s = BOpen → step s (at_binder BRemoveLock s)
  | b_enter l pc s :
      section (binder s) = Some (l, pc) → held s l = None → step s (hold l (Some Binder) (at_binder pc s))
  | b_leave s s' : leave (binder s) s = Some s' → step s s'
  | b_free s : binder s = BClosed → step s (at_binder BFreed s).

(** ** The invariant *)

(** The lock the looper holds, and the one the destructor holds. *)
Definition looper_lock (pc : looper_pc) : option lock :=
  match pc with LTest j | LUse j | LUnlock j => lock_of j | _ => None end.
Definition binder_lock (pc : binder_pc) : option lock :=
  match pc with
  | BRemoveIn | BClampIn => Some mLock
  | BEarlyIn => Some mBoostLock
  | BStaleIn => Some mStaleLock
  | _ => None
  end.

(** How far the destructor is. *)
Definition rank (pc : binder_pc) : nat :=
  match pc with
  | BOpen | BRemoveLock | BRemoveIn => 0
  | BClampLock | BClampIn | BEarlyLock | BEarlyIn => 1
  | BStaleLock | BStaleIn => 2
  | BClosed | BFreed => 3
  end.

Record inv (s : state) : Prop := Inv {
  inv_held : ∀ l, held s l = if decide (looper_lock (looper s) = Some l) then Some Looper
                             else if decide (binder_lock (binder s) = Some l) then Some Binder else None;
  inv_excl : ∀ l, looper_lock (looper s) = Some l → binder_lock (binder s) ≠ Some l;
  inv_listed : listed s = (rank (binder s) <? 1)%nat;
  inv_early : early_dead s = (1 <? rank (binder s))%nat;
  inv_stale : stale_dead s = (2 <? rank (binder s))%nat;
  inv_use : ∀ j, looper s = LUse j → is_Some (lock_of j) → sees j s = true;
  inv_freed : used_freed s = None ∨ guard = false ∧ used_freed s = Some StaleTimer;
}.

Lemma race_inv_init : inv init.
Proof. constructor; try done; by left. Qed.

Lemma sees_alive j s : inv s → sees j s = true → freed s = false.
Proof.
  intros [_ _ Hl He Hs _ _]. unfold sees, freed. destruct j; rewrite ?Hl, ?He, ?Hs; by destruct (binder s).
Qed.

Lemma use_inv j due s : inv s → looper s = LUse j → inv (use j due s).
Proof.
  intros Hs Hj. pose proof Hs as [Hh Hx Hl He Hst Hu Hf]. rewrite Hj in Hh, Hx.
  constructor; cbn; try done.
  destruct (decide (is_Some (lock_of j))) as [Hlk|Hlk].
  - by rewrite (sees_alive j s Hs (Hu j Hj Hlk)).
  - destruct j; [by destruct Hlk; eexists..|]. unfold lock_of in Hlk.
    destruct guard eqn:Eg; [by destruct Hlk; eexists|]. destruct (freed s); [by right|done].
Qed.

(** A lock nobody holds. *)
Lemma free_lock l s : inv s → held s l = None →
  looper_lock (looper s) ≠ Some l ∧ binder_lock (binder s) ≠ Some l.
Proof. intros Hs. rewrite (inv_held s Hs). by repeat case_decide. Qed.

(** The looper moves on and takes no lock. *)
Lemma looper_inv pc s :
  inv s → looper_lock pc = looper_lock (looper s) →
  (∀ j, pc = LUse j → is_Some (lock_of j) → sees j s = true) → inv (at_looper pc s).
Proof.
  intros [Hh Hx Hl He Hst Hu Hf] Hpc Huse. constructor; cbn; by rewrite ?Hpc.
Qed.

Lemma lock_inv j l s :
  inv s → looper s = LLock j → lock_of j = Some l → held s l = None →
  inv (hold l (Some Looper) (at_looper (LTest j) s)).
Proof.
  intros Hs Hj Hlk Hfree. destruct (free_lock l s Hs Hfree) as [_ Hb].
  destruct Hs as [Hh Hx Hl He Hst Hu Hf]. constructor; cbn; try done; rewrite ?Hlk.
  - intros l'. unfold set_lock. destruct (decide (l' = l)) as [->|Hne]; [by rewrite decide_True|].
    rewrite Hh, Hj, (decide_False (P := Some l = Some l')) by congruence. done.
  - by intros l' [= <-].
Qed.

Lemma unlock_inv j l s :
  inv s → looper s = LUnlock j → lock_of j = Some l → inv (hold l None (at_looper LIdle s)).
Proof.
  intros [Hh Hx Hl He Hst Hu Hf] Hj Hlk. rewrite Hj in Hh, Hx. cbn in Hh, Hx.
  constructor; cbn; try done. intros l'. unfold set_lock.
  destruct (decide (l' = l)) as [->|Hne]; [by rewrite !decide_False by (done || by apply Hx)|].
  rewrite Hh, (decide_False (P := lock_of j = Some l')) by congruence. done.
Qed.

Lemma enter_inv l pc s :
  inv s → section (binder s) = Some (l, pc) → held s l = None →
  inv (hold l (Some Binder) (at_binder pc s)).
Proof.
  intros Hs Hsec Hfree. destruct (free_lock l s Hs Hfree) as [Hlo _].
  destruct Hs as [Hh Hx Hl He Hst Hu Hf].
  assert (binder_lock pc = Some l ∧ rank pc = rank (binder s) ∧ binder_lock (binder s) = None) as (Hp & Hr & Hb)
    by (destruct (binder s); by simplify_eq/=).
  constructor; cbn; rewrite ?Hp, ?Hr; try done.
  - intros l'. unfold set_lock. destruct (decide (l' = l)) as [->|Hne].
    + by rewrite decide_False, decide_True by done.
    + rewrite Hh, Hb, (decide_False (P := Some l = Some l')) by congruence. done.
  - intros l' Hl' [= <-]. done.
Qed.

(** The critical section ends: what it changed is not what a handler relies on that
    holds its lock. *)
Lemma leave_inv s s' : inv s → leave (binder s) s = Some s' → inv s'.
Proof.
  intros [Hh Hx Hl He Hst Hu Hf] Hlv.
  destruct (binder s) eqn:Eb; simplify_eq/=; constructor; cbn in *; try done; try (by rewrite ?Hl, ?He, ?Hst).
  all: try (intros l'; unfold set_lock; case_decide as Hd; [subst l'|rewrite Hh;
    rewrite (decide_False (P := Some _ = Some l')) by congruence; done];
    rewrite decide_False; [done|]; intros Hlo; by apply (Hx _ Hlo)).
  all: intros j Hj Hlk; specialize (Hu j Hj Hlk); destruct j; try done; cbn in *.
  all: destruct (looper s); simplify_eq/=; exfalso.
  all: first [by eapply Hx|destruct guard; [by eapply Hx|by destruct Hlk]].
Qed.

Lemma step_inv s s' : inv s → step s s' → inv s'.
Proof.
  intros Hs Hst. destruct Hst as [j s Hj|j l s Hj Hlk Hl|j s Hj Hlk|j s Hj|j due s Hj|j l s Hj Hlk|
    j s Hj Hlk|s Hb|l pc s Hsec Hl|s s' Hlv|s Hb].
  - apply looper_inv; [done|by rewrite Hj|done].
  - by apply lock_inv.
  - apply looper_inv; [done|by rewrite Hj|done].
  - apply looper_inv; [done|rewrite Hj; by destruct (sees j s)|].
    intros j'. destruct (sees j s) eqn:E; [by intros [= <-]|done].
  - by apply use_inv.
  - by eapply unlock_inv.
  - apply looper_inv; [done|by rewrite Hj|done].
  - destruct Hs as [Hh Hx Hl He Hst Hu Hf]. rewrite Hb in *. by constructor.
  - by apply enter_inv.
  - by eapply leave_inv.
  - destruct Hs as [Hh Hx Hl He Hst Hu Hf]. rewrite Hb in *. by constructor.
Qed.

Lemma race_inv s : rtc step init s → inv s.
Proof.
  intros Hr. assert (∀ x y, rtc step x y → inv x → inv y) as Hp.
  { induction 1; [done|]. eauto using step_inv. }
  by apply (Hp init); [|apply race_inv_init].
Qed.
End threads.

(** Once the session is freed and no handler is about to use it, its request stays. *)
Record gone (guard : bool) (s : state) : Prop := Gone {
  gone_inv : inv guard s;
  gone_freed : binder s = BFreed;
  gone_unused : ∀ j, looper s ≠ LUse j;
  gone_request : requested s = true;
}.

Lemma gone_step guard s s' : gone guard s → step guard s s' → gone guard s'.
Proof.
  intros [Hi Hb Hn Hq] Hst. pose proof (step_inv _ _ _ Hi Hst) as Hi'.
  assert (∀ j, sees j s = false) as Hdead.
  { intros j. destruct Hi as [_ _ Hl He Hs _ _]. rewrite Hb in *. destruct j; cbn; by rewrite ?Hl, ?He, ?Hs. }
  destruct Hst as [| | |j s Hj|j due s Hj| | |s Hb'|l pc s Hsec|s s' Hlv|s Hb']; try (by constructor).
  - constructor; try done. cbn. by rewrite Hdead.
  - by destruct (Hn j).
  - by rewrite Hb in Hb'.
  - by rewrite Hb in Hsec.
  - by rewrite Hb in Hlv.
Qed.

Lemma gone_steps guard s s' : gone guard s → rtc (step guard) s s' → requested s' = true.
Proof. intros Hs Hr. induction Hr; [apply Hs|]. eauto using gone_step. Qed.

(** *** Schedules *)

(** A step by name, for concrete schedules. *)
Inductive move := MMessage (j : job) | MLoop (due : bool) | MBinder.

Definition loop_move (guard due : bool) (s : state) : option state :=
  match looper s with
  | LIdle => None
  | LLock j =>
      match lock_of guard j with
      | Some l => match held s l with
                  | Some _ => None
                  | None => Some (hold l (Some Looper) (at_looper (LTest j) s))
                  end
      | None => Some (at_looper (LTest j) s)
      end
  | LTest j => Some (at_looper (if sees j s then LUse j else LUnlock j) s)
  | LUse j => Some (use j due s)
  | LUnlock j =>
      match lock_of guard j with
      | Some l => Some (hold l None (at_looper LIdle s))
      | None => Some (at_looper LIdle s)
      end
  end.

Definition binder_move (s : state) : option state :=
  match binder s with
  | BOpen => Some (at_binder BRemoveLock s)
  | BClosed => Some (at_binder BFreed s)
  | pc =>
      match section pc with
      | Some (l, pc') => match held s l with
                         | Some _ => None
                         | None => Some (hold l (Some Binder) (at_binder pc' s))
                         end
      | None => leave pc s
      end
  end.

Definition move_step (guard : bool) (m : move) (s : state) : option state :=
  match m with
  | MMessage j => match looper s with LIdle => Some (at_looper (LLock j) s) | _ => None end
  | MLoop due => loop_move guard due s
  | MBinder => binder_move s
  end.

Fixpoint moves (guard : bool) (ms : list move) (s : state) : option state :=
  match ms with
  | [] => Some s
  | m :: ms' => s' ← move_step guard m s; moves guard ms' s'
  end.

Lemma move_step_sound guard m s s' : move_step guard m s = Some s' → step guard s s'.
Proof.
  destruct m as [j|due|]; cbn.
  - destruct (looper s) eqn:E; try done. intros [= <-]. by constructor.
  - unfold loop_move. destruct (looper s) as [|j|j|j|j] eqn:E; try done.
    + destruct (lock_of guard j) eqn:El; [destruct (held s _) eqn:Eh; [done|]|]; intros [= <-].
      * by apply l_lock.
      * by apply l_no_lock.
    + intros [= <-]. by apply l_test.
    + intros [= <-]. by apply l_use.
    + destruct (lock_of guard j) eqn:El; intros [= <-]; [by eapply l_unlock|by eapply l_no_unlock].
  - unfold binder_move. intros Hm. destruct (binder s) eqn:E; cbn in Hm;
      try (destruct (held s _) eqn:Eh; [done|]); simplify_eq.
    all: first [by apply b_close|by apply b_free|by eapply b_enter; rewrite ?E|by apply b_leave; rewrite E].
Qed.

Lemma moves_sound guard ms s s' : moves guard ms s = Some s' → rtc (step guard) s s'.
Proof.
  revert s. induction ms as [|m ms IH]; intros s; cbn; [intros [= <-]; apply rtc_refl|].
  destruct (move_step guard m s) as [s1|] eqn:E; [|done]. cbn. intros Hm.
  eapply rtc_l; [by apply (move_step_sound guard m)|by apply IH].
Qed.

Definition close_all : list move := replicate 10 MBinder.

(** The stale timer's test before the session is closed, its use after. *)
Definition stale_schedule : list move :=
  [MMessage StaleTimer; MLoop true; MLoop true] ++ close_all ++ [MLoop true].

(** The early boost between the reset of the request and the end of the handler. *)
Definition boost_schedule : list move :=
  [MMessage EarlyBoost] ++ replicate 5 MBinder ++ replicate 4 (MLoop true) ++ replicate 5 MBinder.

(** C19. Only the stale timer can use a freed session.  In every interleaving of the
    looper's handlers with the destruction of a session, waking sessions, testing for
    active sessions and the early boost use the session only while it is alive, and
    so does the stale timer when it holds mStaleLock as EarlyBoostHandler holds its
    lock.  In the source it does not: there is a schedule in which it finds the
    session alive, the session is closed and freed, and the handler then uses it. *)
Theorem only_stale_timer_uses_freed :
  (∀ guard s, rtc (step guard) init s →
     used_freed s = None ∨ guard = false ∧ used_freed s = Some StaleTimer) ∧
  ∃ s, rtc (step false) init s ∧ used_freed s = Some StaleTimer.
Proof.
  split.
  - intros guard s Hr. by apply inv_freed, race_inv.
  - assert (used_freed <$> moves false stale_schedule init = Some (Some StaleTimer)) as Hs
      by (vm_compute; reflexivity).
    destruct (moves false stale_schedule init) as [s|] eqn:E; [|done]. injection Hs as Hs.
    exists s. split; [by apply moves_sound in E|done].
Qed.

(** C36. A boost can outlive its session.  [close] takes the session off the manager's
    list and resets its request before it stops the early-boost timer, although its
    comment says that removing it first avoids a race: there is a schedule, in the
    source and with the stale timer guarded alike, in which the timer puts the high
    request back in between, the session is freed, and nothing takes it off again. *)
Theorem early_boost_outlives_session (guard : bool) :
  ∃ s, rtc (step guard) init s ∧ binder s = BFreed ∧ looper s = LIdle ∧ requested s = true ∧
    ∀ s', rtc (step guard) s s' → requested s' = true.
Proof.
  assert ((λ s, (binder s, looper s, requested s)) <$> moves guard boost_schedule init =
    Some (BFreed, LIdle, true)) as Hs by (destruct guard; vm_compute; reflexivity).
  destruct (moves guard boost_schedule init) as [s|] eqn:E; [|done]. injection Hs as Hb Hl Hq.
  apply moves_sound in E. exists s. split_and!; try done. intros s'. apply gone_steps.
  constructor; [by apply race_inv|done|by rewrite Hl|done].
Qed.

End PowerRace.
