(* ===== verification/PerfClient.v ===== *)
(** * PerfClient: the stubs of the vendor's performance library
      (configs/power/libqti-perfd-client/client.c)

    The library other vendor code links against: a lock handle is handed back when
    the caller has one, and 233 otherwise.  [arg3] is the array the caller passes;
    its first element is read for the log.  The functions without a body are
    [no_op]. *)

From S2P Require Import Prelude.

Module PerfClient.

Definition no_op : option unit := Some tt.

Definition handle_or_default (handle : Z) : Z := if 0 <? handle then handle else 233.

(** [None]: the array is read beyond its end. *)
Definition perf_lock_acq (handle duration : Z) (arg3 : list Z) (arg4 : Z) : option Z :=
  match arg3 with
  | [] => None
  | _ :: _ => Some (handle_or_default handle)
  end.

Definition perf_lock_rel (handle : Z) : Z := handle_or_default handle.

(** A caller with at least one argument gets a handle that is valid, keeps it when it
    acquires the lock again, and is told the same handle when it releases it. *)
Lemma perf_lock_cycle handle d d' arg3 arg3' n n' :
  arg3 ≠ [] → arg3' ≠ [] →
  ∃ h, perf_lock_acq handle d arg3 n = Some h ∧ 0 < h ∧
    perf_lock_acq h d' arg3' n' = Some h ∧ perf_lock_rel h = h.
Proof.
  intros H1 H2. destruct arg3 as [|a l]; [done|]. destruct arg3' as [|b l']; [done|].
  exists (handle_or_default handle). assert (0 < handle_or_default handle) as Hp.
  { unfold handle_or_default. destruct (Z.ltb_spec 0 handle); lia. }
  assert (handle_or_default (handle_or_default handle) = handle_or_default handle) as Hi.
  { unfold handle_or_default at 1. by rewrite (proj2 (Z.ltb_lt _ _) Hp). }
  unfold perf_lock_acq, perf_lock_rel. split_and!; [done|done|by f_equal|done].
Qed.

End PerfClient.
