(* ===== verification/Float32.v ===== *)
(** * Float32: single precision floats

    The vibrator computes levels, scales and frequencies with [float].  The
    arithmetic is the Standard Library's executable IEEE 754 model at binary32,
    with the conversions of C++ to and from integers and to text.  A conversion
    whose result C++ leaves undefined or unspecified is [None].

    The second part bounds the result of a rounded operation: an exact value of at
    most an integer [K] below 2^24 is never rounded above [K]. *)

From Stdlib Require Import SpecFloat DecimalString DecimalZ DecimalPos.
From S2P Require Import Prelude.

Module F32.

Definition float : Type := spec_float.
Abbreviation prec := 24.
Abbreviation emax := 128.

Definition fmul : float → float → float := SFmul prec emax.
Definition fdiv : float → float → float := SFdiv prec emax.
Definition fadd : float → float → float := SFadd prec emax.
Definition fsub : float → float → float := SFsub prec emax.
Definition fsqrt : float → float := SFsqrt prec emax.

(** Comparisons; each is false when an operand is not a number. *)
Definition fltb : float → float → bool := SFltb.
Definition fleb : float → float → bool := SFleb.
Definition feqb : float → float → bool := SFeqb.

(** The float nearest to [m * 2 ^ e], and nearest to [n / d]. *)
Definition of_scaled (m e : Z) : float := binary_normalize prec emax m e false.
Definition of_Z (z : Z) : float := of_scaled z 0.
Definition ratio (n d : positive) : float :=
  let '(q, e, l) := SFdiv_core_binary prec emax (Zpos n) 0 (Zpos d) 0 in
  binary_round_aux prec emax false q e l.

Definition fzero : float := S754_zero false.
Definition fone : float := of_Z 1.

(** Doubles, and the two conversions. *)
Definition double : Type := spec_float.
Definition convert (p e : Z) (x : spec_float) : spec_float :=
  match x with
  | S754_finite s m ex => binary_normalize p e (cond_Zopp s (Zpos m)) ex s
  | _ => x
  end.
Definition widen : float → double := convert 53 1024.
Definition narrow : double → float := convert prec emax.

(** The integer part of a finite value, toward zero. *)
Definition ftrunc (x : spec_float) : option Z :=
  match x with
  | S754_zero _ => Some 0
  | S754_finite s m e =>
      let a := if 0 <=? e then Zpos m * 2 ^ e else Zpos m / 2 ^ (- e) in
      Some (if s then - a else a)
  | _ => None
  end.

(** The nearest integer, halves away from zero: [lround]. *)
Definition lround (x : spec_float) : option Z :=
  match x with
  | S754_zero _ => Some 0
  | S754_finite s m e =>
      let a := if 0 <=? e then Zpos m * 2 ^ e
               else (Zpos m + 2 ^ (- e - 1)) / 2 ^ (- e) in
      let z := if s then - a else a in
      if (- 2 ^ 63 <=? z) && (z <? 2 ^ 63) then Some z else None
  | _ => None
  end.

(** [round], [floor] and [ceil] to a float. *)
Definition to_integral (up : bool → Z → Z → Z) (x : float) : float :=
  match x with
  | S754_finite s m e =>
      if 0 <=? e then x
      else binary_normalize prec emax (cond_Zopp s (up s (Zpos m) (2 ^ (- e)))) 0 s
  | _ => x
  end.
Definition round : float → float := to_integral (λ _ m d, (m + d / 2) / d).
Definition floor : float → float :=
  to_integral (λ s m d, if s then (m + d - 1) / d else m / d).
Definition ceil : float → float :=
  to_integral (λ s m d, if s then m / d else (m + d - 1) / d).

(** The conversion to an unsigned type of [w] bits: undefined when the truncated
    value does not fit. *)
Definition to_unsigned (w : Z) (x : spec_float) : option Z :=
  z ← ftrunc x; if (0 <=? z) && (z <? 2 ^ w) then Some z else None.

(** ** Text *)

(** An integer in decimal, and [std::to_string]. *)
Definition dec (z : Z) : string := NilZero.string_of_int (Z.to_int z).

(** The largest [i] below [n] with [10 ^ -i > m / d], if [10 ^ 0 > m / d]; the
    decimal exponent of [m / d <= 1] is its opposite. *)
Fixpoint scale10 (n : nat) (m d : Z) : nat :=
  match n with
  | O => O
  | S n' => if d <=? m then O else S (scale10 n' (m * 10) d)
  end.

(** [m / d] to the nearest integer, ties to even. *)
Definition div_even (m d : Z) : Z :=
  let q := m / d in
  let r := m mod d in
  if 2 * r <? d then q
  else if d <? 2 * r then q + 1
  else if Z.even q then q else q + 1.

Fixpoint zeros (n : nat) : string := match n with O => EmptyString | S n' => String "0" (zeros n') end.

(** One significant digit [d] at the decimal exponent [- x], as [%.1g] prints it. *)
Definition print_digit (d : Z) (x : nat) : string :=
  match x with
  | O => dec d
  | S x' =>
      if (x <=? 4)%nat then ("0." ++ zeros x' ++ dec d)%string
      else (dec d ++ "e-" ++ (if (x <? 10)%nat then "0" else "") ++ dec (Z.of_nat x))%string
  end.

(** [std::setprecision(1) << x] for a float of at most 1 that is not below 0: one
    significant digit, the shorter of the two notations of [%g].  [None] for other
    values, which this code never prints. *)
Definition print1 (x : float) : option string :=
  match x with
  | S754_zero s => Some (if s then "-0" else "0")
  | S754_finite false m e =>
      if 0 <? e then None
      else
        let d := 2 ^ (- e) in
        if d <? Zpos m then None
        else
          let x := scale10 50 (Zpos m) d in
          let q := div_even (Zpos m * 10 ^ Z.of_nat x) d in
          if q =? 10 then Some (print_digit 1 (x - 1)) else Some (print_digit q x)
  | _ => None
  end.

(** ** Bounds of rounded results *)

(** A value that is a zero or positive and at most [K]. *)
Definition below (K : Z) (x : spec_float) : Prop :=
  match x with
  | S754_zero _ => True
  | S754_finite s m e => s = false ∧ e ≤ 0 ∧ Zpos m ≤ K * 2 ^ (- e)
  | _ => False
  end.

#[global] Instance below_dec K x : Decision (below K x).
Proof. destruct x; cbn; apply _. Defined.

Lemma digits2_bounds p :
  2 ^ (Zpos (digits2_pos p) - 1) ≤ Zpos p < 2 ^ Zpos (digits2_pos p).
Proof.
  induction p as [p IH|p IH|]; cbn [digits2_pos]; [| |done];
    rewrite Pos2Z.inj_succ, Z.pow_succ_r by lia; split; try lia;
    replace (Z.succ (Zpos (digits2_pos p)) - 1) with (Z.succ (Zpos (digits2_pos p) - 1)) by lia;
    rewrite Z.pow_succ_r by lia; lia.
Qed.

(** A positive below [2 ^ b] has at most [b] digits. *)
Lemma digits2_le p b : 0 ≤ b → Zpos p < 2 ^ b → Zpos (digits2_pos p) ≤ b.
Proof.
  intros Hb Hp. destruct (digits2_bounds p) as [Hl _].
  assert (Zpos (digits2_pos p) - 1 < b); [|lia]. apply (Z.pow_lt_mono_r_iff 2); lia.
Qed.

Definition inexact (r : shr_record) : Z := if shr_r r || shr_s r then 1 else 0.

Lemma shr_1_below r B :
  0 ≤ shr_m r → shr_m r + inexact r ≤ 2 * B →
  0 ≤ shr_m (shr_1 r) ∧ shr_m (shr_1 r) + inexact (shr_1 r) ≤ B.
Proof.
  destruct r as [[|[p|p|]|p] [] []]; unfold inexact; cbn [shr_m shr_r shr_s shr_1 orb]; lia.
Qed.

Lemma iter_shr_below n r B :
  0 ≤ shr_m r → shr_m r + inexact r ≤ B * 2 ^ Zpos n →
  let r' := SpecFloat.iter_pos shr_1 n r in 0 ≤ shr_m r' ∧ shr_m r' + inexact r' ≤ B.
Proof.
  revert r B. induction n as [n IH|n IH|]; intros r B H0 H; cbn [SpecFloat.iter_pos].
  - destruct (shr_1_below r (B * 2 ^ Zpos n * 2 ^ Zpos n)) as [H1 H2]; [done| |].
    { etrans; [exact H|]. replace (Zpos n~1) with (1 + (Zpos n + Zpos n)) by lia.
      rewrite !Z.pow_add_r by lia. lia. }
    destruct (IH _ _ H1 H2) as [H3 H4]. by apply IH.
  - destruct (IH r (B * 2 ^ Zpos n)) as [H1 H2]; [done| |by apply IH].
    etrans; [exact H|]. replace (Zpos n~0) with (Zpos n + Zpos n) by lia.
    rewrite Z.pow_add_r by lia. lia.
  - apply shr_1_below; [done|]. by rewrite Z.mul_comm in H.
Qed.

Lemma round_even_below m r : round_nearest_even (shr_m r) (loc_of_shr_record r) = m →
  shr_m r ≤ m ≤ shr_m r + inexact r.
Proof.
  destruct r as [m' [] []]; unfold inexact; cbn; intros <-; try destruct (Z.even m'); lia.
Qed.

(** A value that is a zero or positive and at most [K * 2 ^ E]. *)
Definition at_most (E K : Z) (x : spec_float) : Prop :=
  match x with
  | S754_zero _ => True
  | S754_finite s m e => s = false ∧ e ≤ E ∧ Zpos m ≤ K * 2 ^ (E - e)
  | _ => False
  end.

(** One normalising shift keeps an integer bound below [2 ^ 24], scaled. *)
Lemma shr_fexp_at_most E K m e l r e' :
  0 ≤ E → 0 ≤ m → e ≤ E → 0 ≤ K < 2 ^ 24 →
  m + inexact (shr_record_of_loc m l) ≤ K * 2 ^ (E - e) →
  shr_fexp prec emax m e l = (r, e') →
  0 ≤ shr_m r ∧ e' ≤ E ∧ shr_m r + inexact r ≤ K * 2 ^ (E - e').
Proof.
  intros HE Hm He HK H. assert (shr_m (shr_record_of_loc m l) = m) as Hr by by destruct l as [|[]].
  assert (0 ≤ inexact (shr_record_of_loc m l)) as Hi by (unfold inexact; case_match; lia).
  assert (Zdigits2 m ≤ 24 + (E - e)) as Hd.
  { destruct m as [|p|p]; cbn [Zdigits2]; [lia| |lia]. apply digits2_le; [lia|].
    rewrite Z.pow_add_r by lia. nia. }
  unfold shr_fexp, shr. destruct (fexp prec emax (Zdigits2 m + e) - e) as [|n|n] eqn:En.
  - intros [= <- <-]. rewrite Hr. lia.
  - assert (e + Zpos n ≤ E) as Hn by (rewrite <- En; unfold fexp, emin; lia).
    intros [= <- <-]. destruct (iter_shr_below n (shr_record_of_loc m l) (K * 2 ^ (E - (e + Zpos n))))
      as [H1 H2]; [lia| |done].
    rewrite Hr, <- Z.mul_assoc, <- Z.pow_add_r by lia.
    by replace (E - (e + Zpos n) + Zpos n) with (E - e) by lia.
  - intros [= <- <-]. rewrite Hr. lia.
Qed.

(** An exact value [m * 2 ^ e] (or one above it by less than a unit, when [l] says
    so) of at most [K * 2 ^ E] is not rounded above that. *)
Lemma binary_round_aux_at_most E K m e l :
  0 ≤ E ≤ 104 → 0 ≤ m → e ≤ E → 0 ≤ K < 2 ^ 24 →
  m + inexact (shr_record_of_loc m l) ≤ K * 2 ^ (E - e) →
  at_most E K (binary_round_aux prec emax false m e l).
Proof.
  intros HE Hm He HK H. unfold binary_round_aux.
  destruct (shr_fexp prec emax m e l) as [r1 e1] eqn:E1.
  destruct (shr_fexp_at_most E K m e l r1 e1 (proj1 HE) Hm He HK H E1) as (H1 & He1 & H2).
  destruct (shr_fexp prec emax _ e1 loc_Exact) as [r2 e2] eqn:E2.
  set (m1 := round_nearest_even (shr_m r1) (loc_of_shr_record r1)) in E2.
  pose proof (round_even_below m1 r1 eq_refl) as Hm1.
  destruct (shr_fexp_at_most E K m1 e1 loc_Exact r2 e2) as (H3 & He2 & H4);
    [lia|lia|done|done| |done|].
  { unfold inexact; cbn. lia. }
  assert (0 ≤ inexact r2) as Hi by (unfold inexact; case_match; lia).
  destruct (shr_m r2) as [|p|p] eqn:Er; [done| |lia].
  rewrite (proj2 (Z.leb_le e2 _)) by (cbn; lia). cbn. lia.
Qed.

Lemma binary_round_aux_below K m e l :
  0 ≤ m → e ≤ 0 → 0 ≤ K < 2 ^ 24 →
  m + inexact (shr_record_of_loc m l) ≤ K * 2 ^ (- e) →
  below K (binary_round_aux prec emax false m e l).
Proof. exact (binary_round_aux_at_most 0 K m e l ltac:(lia)). Qed.

Lemma iter_xO m d : Zpos (Pos.iter xO m d) = Zpos m * 2 ^ Zpos d.
Proof.
  induction d as [|d IH] using Pos.peano_ind; cbn [Pos.iter]; [lia|].
  rewrite Pos.iter_succ, Pos2Z.inj_xO, IH, Pos2Z.inj_succ, Z.pow_succ_r by lia. lia.
Qed.

(** Aligning to a smaller exponent keeps the value. *)
Lemma shl_align_value m e e' :
  let '(m', e'') := shl_align m e e' in
  e'' = Z.min e e' ∧ Zpos m' = Zpos m * 2 ^ (e - e'').
Proof.
  unfold shl_align. destruct (e' - e) as [|d|d] eqn:Ed.
  - split; [lia|]. rewrite Z.sub_diag. lia.
  - split; [lia|]. rewrite Z.sub_diag. lia.
  - split; [lia|]. rewrite iter_xO. by replace (e - e') with (Zpos d) by lia.
Qed.

Lemma normalize_at_most E K m e sz :
  0 ≤ E ≤ 104 → 0 ≤ m → e ≤ E → 0 ≤ K < 2 ^ 24 → m ≤ K * 2 ^ (E - e) →
  at_most E K (binary_normalize prec emax m e sz).
Proof.
  intros HE Hm He HK H. destruct m as [|p|p]; [done| |lia]. cbn [binary_normalize]. unfold binary_round.
  pose proof (shl_align_value p e (fexp prec emax (Zpos (digits2_pos p) + e))) as Ha.
  destruct (shl_align _ _ _) as [mz ez]. destruct Ha as [Hez Hmz].
  apply binary_round_aux_at_most; [lia|lia|lia|done|]. unfold inexact; cbn. rewrite Z.add_0_r, Hmz.
  replace (E - ez) with ((E - e) + (e - ez)) by lia. rewrite Z.pow_add_r by lia. nia.
Qed.

Lemma normalize_below K m e sz :
  0 ≤ m → e ≤ 0 → 0 ≤ K < 2 ^ 24 → m ≤ K * 2 ^ (- e) →
  below K (binary_normalize prec emax m e sz).
Proof. exact (normalize_at_most 0 K m e sz ltac:(lia)). Qed.

(** ** Comparisons with integers *)

Lemma canonical_digits m e :
  canonical_mantissa prec emax m e = true → Zpos m < 2 ^ 24 ∧ -149 ≤ e.
Proof.
  intros Hc%Z.eqb_eq. unfold fexp, emin in Hc. destruct (digits2_bounds m) as [_ Hd]. split; [|lia].
  eapply Z.lt_le_trans; [exact Hd|]. apply Z.pow_le_mono_r; lia.
Qed.

(** The floats that are neither below 0 nor above [K]. *)
Lemma not_outside_below K c mc ec x :
  c = S754_finite false mc ec → ec ≤ 0 → 2 ^ 23 ≤ Zpos mc → Zpos mc = K * 2 ^ (- ec) →
  valid_binary prec emax x = true → x ≠ S754_nan →
  fltb x fzero = false → fltb c x = false → below K x.
Proof.
  intros -> Hec Hmc HK Hv Hn H0 HK'. unfold fltb, SFltb in *.
  destruct x as [s|s| |s m e]; cbn [SFcompare] in *; try done.
  { by destruct s. }
  destruct s; [done|]. split; [done|].
  cbn in Hv. unfold bounded in Hv. apply andb_true_iff in Hv as [[Hm He]%canonical_digits _].
  destruct (Z.compare_spec ec e) as [->|Hlt|Hgt]; [| done|].
  - destruct (Pos.compare_cont Eq mc m) eqn:Ec; try done;
      change (Pos.compare mc m = Eq) in Ec || change (Pos.compare mc m = Gt) in Ec.
    + apply Pos.compare_eq in Ec as ->. lia.
    + apply Pos.compare_gt_iff in Ec. lia.
  - split; [lia|]. replace (- e) with ((ec - e - 1) + (1 + - ec)) by lia.
    rewrite Z.pow_add_r, (Z.pow_add_r 2 1) by lia.
    assert (1 ≤ 2 ^ (ec - e - 1)) by (apply (Z.pow_le_mono_r 2 0); lia). nia.
Qed.

Lemma below_lround K x z : 0 ≤ K → below K x → lround x = Some z → 0 ≤ z ≤ K.
Proof.
  intros HK. destruct x as [s|s| |s m e]; cbn [below lround]; [by intros _ [= <-]|done|done|].
  intros (-> & He & Hm). destruct (_ && _); [|done]. intros [= <-].
  destruct (Z.leb_spec 0 e).
  - assert (e = 0) as -> by lia. cbn in *. lia.
  - assert (2 ^ (- e) = 2 * 2 ^ (- e - 1)) as Hp by (rewrite <- Z.pow_succ_r by lia; f_equal; lia).
    assert (0 < 2 ^ (- e - 1)) by (apply Z.pow_pos_nonneg; lia).
    split; [apply Z.div_pos; lia|]. apply Z.lt_succ_r, Z.div_lt_upper_bound; nia.
Qed.

Lemma below_lround_total K x : 0 ≤ K < 2 ^ 24 → below K x → is_Some (lround x).
Proof.
  intros HK Hb. destruct x as [s|s| |s m e]; try done. cbn [below] in Hb. destruct Hb as (-> & He & Hm).
  cbn [lround]. set (a := if 0 <=? e then _ else _). assert (0 ≤ a ≤ K) as Ha.
  { unfold a. destruct (Z.leb_spec 0 e).
    - assert (e = 0) as -> by lia. cbn in *. lia.
    - assert (2 ^ (- e) = 2 * 2 ^ (- e - 1)) as Hp by (rewrite <- Z.pow_succ_r by lia; f_equal; lia).
      assert (0 < 2 ^ (- e - 1)) by (apply Z.pow_pos_nonneg; lia).
      split; [apply Z.div_pos; lia|]. apply Z.lt_succ_r, Z.div_lt_upper_bound; nia. }
  clearbody a. zbool. by eexists.
Qed.

Lemma below_trunc K x : 0 ≤ K → below K x → ∃ z, ftrunc x = Some z ∧ 0 ≤ z ≤ K.
Proof.
  intros HK. destruct x as [s|s| |s m e]; cbn [below ftrunc]; [by eexists|done|done|].
  intros (-> & He & Hm). eexists. split; [done|]. destruct (Z.leb_spec 0 e).
  - assert (e = 0) as -> by lia. cbn in *. lia.
  - assert (0 < 2 ^ (- e)) by (apply Z.pow_pos_nonneg; lia).
    split; [apply Z.div_pos; lia|]. apply Z.lt_succ_r, Z.div_lt_upper_bound; nia.
Qed.

Lemma below_of_Z d : 0 ≤ d < 2 ^ 24 → below d (of_Z d).
Proof. intros Hd. apply normalize_below; lia. Qed.

(** A factor of at most 1 does not raise the bound. *)
Lemma below_mul d x y : 0 ≤ d < 2 ^ 24 → below 1 x → below d y → below d (fmul x y).
Proof.
  intros Hd. unfold fmul. destruct x as [sx|sx| |sx mx ex], y as [sy|sy| |sy my ey]; try done.
  intros (-> & Hex & Hmx) (-> & Hey & Hmy). cbn [SFmul xorb].
  apply binary_round_aux_below; [lia|lia|done|]. unfold inexact; cbn [shr_record_of_loc shr_r shr_s orb].
  rewrite Pos2Z.inj_mul. replace (- (ex + ey)) with (- ex + - ey) by lia. rewrite Z.pow_add_r by lia.
  assert (0 < 2 ^ (- ex)) by (apply Z.pow_pos_nonneg; lia). nia.
Qed.

(** The floats of the unit interval, by the comparisons the code makes. *)
Lemma unit_interval x :
  valid_binary prec emax x = true → x ≠ S754_nan → fltb x fzero = false → fltb fone x = false →
  below 1 x.
Proof. intros. by apply (not_outside_below 1 fone 8388608 (-23)). Qed.

Lemma below_mono K K' x : K ≤ K' → below K x → below K' x.
Proof.
  intros HK. destruct x as [s|s| |s m e]; try done. intros (-> & He & Hm). split_and!; [done|done|].
  assert (0 < 2 ^ (- e)) by (apply Z.pow_pos_nonneg; lia). nia.
Qed.

(** Floats of the unit interval can be printed. *)
Lemma print1_total x : below 1 x → is_Some (print1 x).
Proof.
  destruct x as [s|s| |s m e]; try done. intros (-> & He & Hm). cbn -[scale10 div_even print_digit].
  rewrite (proj2 (Z.ltb_ge _ _)), (proj2 (Z.ltb_ge _ _)) by lia. case_match; by eexists.
Qed.

(** ** Division by one is exact *)

Lemma digits2_xO m : digits2_pos m~0 = Pos.succ (digits2_pos m).
Proof. done. Qed.

Lemma round_aux_double m e :
  Zpos (digits2_pos m) = 24 → -149 ≤ e ≤ 104 →
  binary_round_aux prec emax false (Zpos m~0) (e - 1) loc_Exact = S754_finite false m e.
Proof.
  intros Hd He. unfold binary_round_aux, shr_fexp.
  assert (fexp prec emax (Zdigits2 (Zpos m~0) + (e - 1)) - (e - 1) = 1) as ->.
  { cbn [Zdigits2]. rewrite digits2_xO. unfold fexp, emin. lia. }
  cbn [shr_record_of_loc shr SpecFloat.iter_pos shr_1 orb shr_m loc_of_shr_record round_nearest_even].
  assert (fexp prec emax (Zdigits2 (Zpos m) + (e - 1 + 1)) - (e - 1 + 1) = 0) as ->.
  { cbn [Zdigits2]. unfold fexp, emin. lia. }
  cbn [shr shr_m]. rewrite (proj2 (Z.leb_le _ _)) by lia. f_equal. lia.
Qed.

Lemma fdiv_one m e :
  Zpos (digits2_pos m) = 24 → -148 ≤ e ≤ 104 →
  fdiv (S754_finite false m e) fone = S754_finite false m e.
Proof.
  intros Hd He. change fone with (S754_finite false 8388608 (-23)). unfold fdiv. cbn [SFdiv].
  unfold SFdiv_core_binary. cbn [Zdigits2]. rewrite Hd. change (Zpos (digits2_pos 8388608)) with 24.
  assert (Z.min (fexp prec emax (24 + e - (24 + -23))) (e - -23) = e - 1) as ->
    by (unfold fexp, emin; lia).
  replace (e - -23 - (e - 1)) with 24 by lia. cbn [xorb].
  assert (Z.div_eucl (Z.shiftl (Zpos m) 24) 8388608 = (Zpos m~0, 0)) as ->.
  { rewrite Z.shiftl_mul_pow2 by lia. pose proof (Z.div_mod (Zpos m * 2 ^ 24) 8388608) as Hdm.
    assert (Zpos m * 2 ^ 24 = Zpos m~0 * 8388608) as E by lia.
    assert (Zpos m * 2 ^ 24 / 8388608 = Zpos m~0) as Hq by (rewrite E; by apply Z.div_mul).
    assert (Zpos m * 2 ^ 24 mod 8388608 = 0) as Hm by (rewrite E; by apply Z.mod_mul).
    unfold Z.div in Hq. unfold Z.modulo in Hm. destruct (Z.div_eucl _ _). congruence. }
  by apply round_aux_double; [|lia].
Qed.

(** A frequency between 1 and an integer [K], less one, is between 0 and [K - 1]. *)
Lemma index_below K c mc ec f :
  c = S754_finite false mc ec → ec ≤ 0 → 2 ^ 23 ≤ Zpos mc → Zpos mc = K * 2 ^ (- ec) →
  1 ≤ K < 2 ^ 24 → valid_binary prec emax f = true → f ≠ S754_nan →
  fltb f fone = false → fltb c f = false →
  below (K - 1) (fsub (fdiv f fone) fone) ∧ below K f.
Proof.
  intros Hc Hec Hmc HK HK1 Hv Hn H1 HK2.
  assert (fltb f fzero = false) as H0.
  { destruct f as [[]|[]| |[] m e]; done. }
  assert (below K f) as Hb by by apply (not_outside_below K c mc ec). split; [|done].
  destruct f as [s|s| |s m e]; try done. destruct Hb as (-> & He & Hm).
  cbn in Hv. apply andb_true_iff in Hv as [Hcan _]. pose proof Hcan as [Hm24 He149]%canonical_digits.
  assert (-23 ≤ e ∧ 2 ^ 23 ≤ Zpos m * 2 ^ (e + 23)) as [He23 Hm23].
  { revert H1. change fone with (S754_finite false 8388608 (-23)). unfold fltb, SFltb. cbn [SFcompare].
    destruct (Z.compare_spec e (-23)) as [->|Hlt|Hgt]; [|done|].
    - intros Hx. split; [lia|]. change (2 ^ (-23 + 23)) with 1. rewrite Z.mul_1_r.
      destruct (Pos.compare_cont Eq m 8388608) eqn:Ec; try done;
        [apply Pos.compare_eq in Ec; lia|apply Pos.compare_gt_iff in Ec; lia].
    - intros _. split; [lia|]. apply Z.eqb_eq in Hcan. unfold fexp, emin in Hcan.
      destruct (digits2_bounds m) as [Hl _]. assert (Zpos (digits2_pos m) = 24) as Hd by lia.
      rewrite Hd in Hl. cbn in Hl. assert (1 ≤ 2 ^ (e + 23)) by (apply (Z.pow_le_mono_r 2 0); lia). nia. }
  assert (Zpos (digits2_pos m) = 24) as Hd by (apply Z.eqb_eq in Hcan; unfold fexp, emin in Hcan; lia).
  rewrite fdiv_one by lia. change fone with (S754_finite false 8388608 (-23)). unfold fsub.
  cbn [SFsub cond_Zopp]. replace (Z.min e (-23)) with (-23) by lia.
  pose proof (shl_align_value m e (-23)) as Ha. destruct (shl_align m e (-23)) as [m' e'].
  destruct Ha as [-> Hm']. replace (Z.min e (-23)) with (-23) in Hm' by lia.
  replace (e - -23) with (e + 23) in Hm' by lia.
  change (fst (shl_align 8388608 (-23) (-23))) with 8388608%positive. cbn [fst].
  assert (Zpos m * 2 ^ (e + 23) ≤ K * 2 ^ 23).
  { assert (2 ^ 23 = 2 ^ (- e) * 2 ^ (e + 23)) as -> by (rewrite <- Z.pow_add_r by lia; f_equal; lia).
    assert (0 < 2 ^ (e + 23)) by (apply Z.pow_pos_nonneg; lia). nia. }
  apply normalize_below; rewrite ?Hm'; [lia|lia|lia|]. change (- -23) with 23. lia.
Qed.

(** ** The resonant frequency *)

(** A quotient that is not exact is below the next integer. *)
Lemma quotient_at_most m d q r B :
  0 < d → 0 ≤ m → m ≤ B * d → Z.div_eucl m d = (q, r) →
  0 ≤ q ∧ q + inexact (shr_record_of_loc q (new_location d r)) ≤ B.
Proof.
  intros Hd Hm HB E. pose proof (Z_div_mod m d ltac:(lia)) as Hdm. rewrite E in Hdm.
  destruct Hdm as [Hq Hr]. split; [nia|].
  assert (inexact (shr_record_of_loc q (new_location d r)) ≤ if r =? 0 then 0 else 1) as Hi.
  { unfold new_location, new_location_even, new_location_odd.
    destruct (Z.even d), (r =? 0); cbn; try done; unfold inexact; by case_match. }
  destruct (Z.eqb_spec r 0); nia.
Qed.

(** An unsigned 32-bit number in the Q14 format is at most [2 ^ 18]. *)
Lemma q14_below c : 0 ≤ c < 2 ^ 32 → below (2 ^ 18) (fdiv (of_Z c) (of_Z (2 ^ 14))).
Proof.
  intros Hc. assert (at_most 9 (2 ^ 23) (of_Z c)) as Hx by (apply normalize_at_most; lia).
  change (of_Z (2 ^ 14)) with (S754_finite false 8388608 (-9)).
  destruct (of_Z c) as [s|s| |s m e]; try done. destruct Hx as (-> & He & Hm).
  unfold fdiv. cbn [SFdiv xorb]. unfold SFdiv_core_binary. cbn [Zdigits2].
  change (Zpos (digits2_pos 8388608)) with 24.
  assert (Zpos (digits2_pos m) ≤ 33 - e) as Hd.
  { apply digits2_le; [lia|]. replace (33 - e) with (1 + (23 + (9 - e))) by lia.
    rewrite !Z.pow_add_r by lia. nia. }
  set (e' := Z.min _ _). assert (e' ≤ 0 ∧ e' ≤ e - -9) as [He' He2] by (unfold e', fexp, emin; lia).
  set (m' := match e - -9 - e' with Z0 => _ | Zpos _ => _ | Zneg _ => _ end).
  assert (m' = Zpos m * 2 ^ (e - -9 - e')) as Hm'.
  { unfold m'. destruct (e - -9 - e') eqn:Es; [lia| |lia]. by rewrite Z.shiftl_mul_pow2 by lia. }
  clearbody m'. destruct (Z.div_eucl m' 8388608) as [q r] eqn:Eq.
  destruct (quotient_at_most m' 8388608 q r (2 ^ 18 * 2 ^ (- e'))) as [H0 H1];
    [lia|rewrite Hm'; lia| |done|by apply binary_round_aux_below].
  rewrite Hm'. change 8388608 with (2 ^ 23).
  transitivity (2 ^ 23 * 2 ^ (9 - e) * 2 ^ (e - -9 - e')); [apply Z.mul_le_mono_nonneg_r; lia|].
  rewrite <- !Z.pow_add_r by lia. apply Z.pow_le_mono_r; lia.
Qed.

End F32.
