(* ===== verification/Text.v ===== *)
(** * Text: what the C++ streams and [StringPrintf] print

    The dump functions of the power and vibrator services build their text with
    [std::ostream] and [StringPrintf].  Decimal integers are [F32.dec]; this file
    adds the newline, hexadecimal numbers, booleans and separated lists. *)

From Stdlib Require Import HexadecimalString.
From S2P Require Import Prelude Float32.

Module Text.

Definition NL : string := String "010" EmptyString.

Definition dec : Z → string := F32.dec.

(** [%x] of a number that is not negative. *)
Definition hex (z : Z) : string :=
  HexadecimalString.NilZero.string_of_uint (N.to_hex_uint (Z.to_N z)).

Example hex_example : hex 0xbeef = "beef"%string.
Proof. reflexivity. Qed.

(** A [bool] written to a stream. *)
Definition put_bool (b : bool) : string := if b then "1" else "0".

(** Items with a separator between them. *)
Fixpoint separated (sep : string) (l : list string) : string :=
  match l with
  | [] => ""
  | x :: l' => (x ++ match l' with [] => "" | _ => sep ++ separated sep l' end)%string
  end.

Lemma string_app_assoc (a b c : string) : ((a ++ b) ++ c = a ++ b ++ c)%string.
Proof. induction a as [|x a IH]; [reflexivity|]. exact (f_equal (String x) IH). Qed.

Lemma string_app_nil (a : string) : (a ++ "" = a)%string.
Proof. induction a as [|x a IH]; [reflexivity|]. exact (f_equal (String x) IH). Qed.

End Text.
