(* ===== verification/PowerDump.v ===== *)
(** * PowerDump: the text the power HAL prints about itself
      (aidl/power-libperfmgr/PowerHintSession.cpp, PowerSessionManager.cpp and
      Power.cpp: [dump], [dumpToFd], [dumpToStream], [toString], [getIdString])

    [dumpToFd] walks the manager's sessions and dereferences every one of them,
    and it indexes [mTidSessionListMap] with an operator that inserts missing
    keys.  The functions here run on the world of PowerSession.v and return the
    text; the theorem shows that a dump of any reachable service reads only live
    sessions, changes nothing and prints for every thread how many open sessions
    include it. *)

From stdpp Require Import relations fin_maps fin_sets.
From S2P Require Import Prelude Interaction PowerPid PowerSession PowerManager Power Text.

Module PowerDump.
Import Pid Session Manager Text.

(** ** Printing *)

Definition boolToString (b : bool) : string := if b then "true" else "false".

(** The addresses of the sessions and of their descriptors. *)
Class Addresses := {
  session_addr : nat → Z;
  desc_addr : nat → Z;
}.

Section code.
Context `{Platform} `{Addresses}.

(** ** PowerHintSession.cpp *)

(** PowerHintSession::getIdString *)
Definition getIdString (id : nat) (s : session) : string :=
  (dec (tgid s) ++ "-" ++ dec (uid s) ++ "-" ++ hex (Z.land (session_addr id) 0xffff))%string.

(** PowerHintSession::dumpToStream *)
Definition dumpToStream (id : nat) : P string :=
  let* s := deref id in
  let* timeout := isTimeout id in
  ret ("ID.Min.Act.Timeout(" ++ getIdString id s ++
       ", " ++ dec (current_min s) ++
       ", " ++ put_bool (is_active s) ++
       ", " ++ put_bool timeout ++ ")")%string.

(** The loop of AppHintDesc::toString over the threads. *)
Fixpoint put_tids (first : bool) (tids : list Z) : string :=
  match tids with
  | [] => ""
  | tid :: tids' => ((if first then "" else ", ") ++ dec tid ++ put_tids false tids')%string
  end.

(** AppHintDesc::toString *)
Definition AppHintDesc_toString (id : nat) (s : session) : string :=
  ("session " ++ hex (Z.land (desc_addr id) 0xffff) ++ NL ++
   "  duration: " ++ dec (duration s) ++ " ns" ++ NL ++
   "  uclamp.min: " ++ dec (current_min s) ++ " " ++ NL ++
   "  uid: " ++ dec (uid s) ++ ", tgid: " ++ dec (tgid s) ++ NL ++
   "  threadIds: [" ++ put_tids true (threadIds s) ++ "]" ++ NL)%string.

(** ** PowerSessionManager.cpp *)

Definition getDisplayRefreshRate : P Z := let* w := get in ret (mDisplayRefreshRate w).

(** [mTidSessionListMap[t]]: a missing key is inserted. *)
Definition index_tid (t : Z) : P (gset nat) :=
  let* w := get in
  match mTidSessionListMap w !! t with
  | Some x => ret x
  | None => modify (set_lists (<[t := ∅]> (mTidSessionListMap w))) ;; ret ∅
  end.

(** The loop over the threads of a session: each with its number of sessions. *)
Fixpoint dump_tids (tids : list Z) : P string :=
  match tids with
  | [] => ret ""
  | t :: tids' =>
      let* x := index_tid t in
      let* rest := dump_tids tids' in
      ret (dec t ++ ":" ++ dec (Z.of_nat (size x)) ++
           (match tids' with [] => "" | _ => ", " end) ++ rest)%string
  end.

(** The loop over the sessions. *)
Fixpoint dump_sessions (ids : list nat) : P string :=
  match ids with
  | [] => ret ""
  | id :: ids' =>
      let* head := dumpToStream id in
      let* s := deref id in
      let* tids := dump_tids (threadIds s) in
      let* rest := dump_sessions ids' in
      ret (head ++ " Tid:Ref[" ++ tids ++ "]" ++ NL ++ rest)%string
  end.

(** PowerSessionManager::dumpToFd: the text it writes. *)
Definition dumpToFd : P string :=
  let* w := get in
  let* body := dump_sessions (elements (mSessions w)) in
  ret ("========== Begin PowerSessionManager ADPF list ==========" ++ NL ++ body ++
       "========== End PowerSessionManager ADPF list ==========" ++ NL)%string.

(** ** Power.cpp *)

(** Power::dump: the texts written to the descriptor, in order; [running] and
    [nodes] are what HintManager answers.  The status is always STATUS_OK. *)
Definition dump (running : bool) (nodes : string) : Power.HP (list string) :=
  let* p := Power.get_hal in
  let buf := ("HintManager Running: " ++ boolToString running ++ NL ++
              "SustainedPerformanceMode: " ++ boolToString (Power.mSustainedPerfModeOn p) ++ NL)%string in
  let* text := Power.on_sessions dumpToFd in
  ret [nodes; text; buf].

(** ** What a dump shows *)

(** The open sessions that include the thread. *)
Definition holders (w : world) (t : Z) : gset nat :=
  dom (filter (λ p : nat * session, mSessionClosed p.2 = false ∧ t ∈ threadIds p.2) (heap w)).

Definition tid_entry (w : world) (t : Z) : string :=
  (dec t ++ ":" ++ dec (Z.of_nat (size (holders w t))))%string.

(** The line of a session. *)
Definition session_line (cfg : AdpfConfig) (w : world) (id : nat) : string :=
  match heap w !! id with
  | None => ""
  | Some s =>
      ("ID.Min.Act.Timeout(" ++ getIdString id s ++ ", " ++ dec (current_min s) ++ ", " ++
       put_bool (is_active s) ++ ", " ++
       put_bool (match stale_time cfg s with Some t => (t <=? now w)%Z | None => false end) ++ ")" ++
       " Tid:Ref[" ++ separated ", " (map (tid_entry w) (threadIds s)) ++ "]" ++ NL)%string
  end.

End code.

Section theorems.
Context `{Platform} `{Addresses} (cfg : AdpfConfig).

Lemma listed_holders w t : consistent w → listed w t = holders w t.
Proof.
  intros C. apply set_eq. intros id. rewrite (con_lists _ C). unfold holders.
  rewrite elem_of_dom. unfold skel. rewrite lookup_fmap. split.
  - intros (l & E & Ht). destruct (heap w !! id) as [s|] eqn:Es; [|done]. cbn in E.
    injection E as <- Hc. exists s. by apply map_lookup_filter_Some.
  - intros [s [E [Hc Ht]]%map_lookup_filter_Some]. rewrite E. cbn in *. unfold core.
    rewrite Hc. eauto.
Qed.

(** The key of a thread of an open session is present. *)
Lemma index_tid_run w id s t :
  consistent w → heap w !! id = Some s → mSessionClosed s = false → t ∈ threadIds s →
  index_tid t w = Some (holders w t, w).
Proof.
  intros C Es Hc Ht. rewrite <- listed_holders by done. unfold index_tid, bind, get, listed.
  assert (id ∈ listed w t) as Hin.
  { apply (con_lists _ C). exists (threadIds s). unfold skel. rewrite lookup_fmap, Es. cbn.
    unfold core. by rewrite Hc. }
  unfold listed in Hin. destruct (mTidSessionListMap w !! t); [done|set_solver].
Qed.

Lemma dump_tids_run w id s tids :
  consistent w → heap w !! id = Some s → mSessionClosed s = false → tids ⊆ threadIds s →
  dump_tids tids w = Some (separated ", " (map (tid_entry w) tids), w).
Proof.
  intros C Es Hc. induction tids as [|t tids IH]; intros Hsub; cbn [dump_tids map separated]; [done|].
  rewrite (bind_run _ _ _ _ _ (index_tid_run w id s t C Es Hc ltac:(set_solver))).
  rewrite (bind_run _ _ _ _ _ (IH ltac:(set_solver))). unfold ret, tid_entry.
  do 2 f_equal. rewrite !string_app_assoc. destruct tids; cbn [map separated]; [|done].
  by rewrite !string_app_nil.
Qed.

Lemma dump_sessions_run w ids :
  consistent w → adpf w = Some cfg → timed cfg w → (∀ id, id ∈ ids → id ∈ mSessions w) →
  dump_sessions ids w = Some (separated "" (map (session_line cfg w) ids), w).
Proof.
  intros C Ha Ht. induction ids as [|id ids IH]; intros Hin; cbn [dump_sessions map separated]; [done|].
  assert (∃ s, heap w !! id = Some s ∧ mSessionClosed s = false) as (s & Es & Hc).
  { assert (id ∈ mSessions w) as [l Hl]%(con_sessions _ C) by set_solver.
    unfold skel in Hl. rewrite lookup_fmap in Hl. destruct (heap w !! id) as [s|]; [|done].
    cbn in Hl. injection Hl as _ Hc. eauto. }
  destruct (Ht _ _ Es) as [t Et].
  assert (dumpToStream id w = Some
    ("ID.Min.Act.Timeout(" ++ getIdString id s ++ ", " ++ dec (current_min s) ++ ", " ++
     put_bool (is_active s) ++ ", " ++ put_bool (t <=? now w)%Z ++ ")", w)%string) as E1.
  { unfold dumpToStream. rewrite (bind_run _ _ _ _ _ (deref_run id s w Es)).
    by rewrite (bind_run _ _ _ _ _ (isTimeout_run cfg id s t w Ha Es Et)). }
  rewrite (bind_run _ _ _ _ _ E1). rewrite (bind_run _ _ _ _ _ (deref_run id s w Es)).
  rewrite (bind_run _ _ _ _ _ (dump_tids_run w id s (threadIds s) C Es Hc ltac:(done))).
  rewrite (bind_run _ _ _ _ _ (IH ltac:(set_solver))).
  unfold ret, session_line at 2. rewrite Es, Et. do 2 f_equal. rewrite !string_app_assoc.
  destruct ids; cbn [map separated]; [|done]. by rewrite !string_app_nil.
Qed.

(** Dumping the service in any reachable state, when the stale times can be
    computed: it reads only sessions that are still allocated, changes nothing
    (although [mTidSessionListMap[t]] would insert a missing key), and writes one
    line for each open session with, for each of its threads, the number of open
    sessions that include the thread. *)
Theorem dump_read_only `{!Interaction.Props} (p : Power.hal) (running : bool) (nodes : string)
    (Hprofiles : ∀ k t, SetTaskProfiles_ok k t "ResetUclampGrp" = true)
    (Hr : Power.reachable p) (Ha : adpf (Power.sessions p) = Some cfg)
    (Ht : timed cfg (Power.sessions p)) :
  let w := Power.sessions p in
  dump running nodes p = Some
    ([nodes;
      "========== Begin PowerSessionManager ADPF list ==========" ++ NL ++
      separated "" (map (session_line cfg w) (elements (mSessions w))) ++
      "========== End PowerSessionManager ADPF list ==========" ++ NL;
      "HintManager Running: " ++ boolToString running ++ NL ++
      "SustainedPerformanceMode: " ++ boolToString (Power.mSustainedPerfModeOn p) ++ NL]%string, p) ∧
  ∀ id, id ∈ elements (mSessions w) ↔ is_open w id.
Proof.
  intros w. destruct (Power.reachable_parts p Hr) as [Hs _].
  pose proof (reachable_consistent Hprofiles _ Hs) as C. fold w in C. split.
  - unfold dump, bind, Power.get_hal, Power.on_sessions, dumpToFd, get. fold w.
    unfold bind. rewrite (dump_sessions_run w _ C Ha Ht) by (intros id; by rewrite elem_of_elements).
    unfold ret. by destruct p.
  - intros id. rewrite elem_of_elements. apply C.
Qed.

Lemma script_rtc l w : script_ok l w = true → rtc Session.step w (script l w).
Proof.
  revert w. induction l as [|a l IH]; intros w Hok; cbn in *; [apply rtc_refl|].
  apply andb_prop in Hok as [Ha Hl]. eapply rtc_l; [by apply act_step|by apply IH].
Qed.

Lemma sessions_rtc `{!Interaction.Props} w w' h b l :
  rtc Session.step w w' → rtc Power.step (Power.Hal h b w l) (Power.Hal h b w' l).
Proof.
  induction 1 as [w|w w1 w' Hs _ IH]; [apply rtc_refl|].
  eapply rtc_l; [|exact IH]. by apply (Power.step_sessions w1 (Power.Hal h b w l)).
Qed.

End theorems.

(** ** A concrete dump *)

(** The service with the two sessions of [sample_world]. *)
Definition sample_service : Power.hal :=
  Power.Hal (Power.mInteractionHandler Power.sample_hal) false sample_world [].

Definition sample_addresses : Addresses := {|
  session_addr id := 0x12340000 + 16 * Z.of_nat id; desc_addr id := 0x5670 + Z.of_nat id |}.

Lemma sample_service_reachable :
  @Power.reachable quiet Interaction.default_props sample_service.
Proof.
  exists (Some sample_cfg), 1000000, 3, (-1), 4, "", "", "", Power.sample_hal.
  split; [by vm_compute|].
  assert (Power.sample_hal = Power.Hal (Power.mInteractionHandler Power.sample_hal) false
    (start (Some sample_cfg) 1000000) []) as -> by (by vm_compute).
  apply sessions_rtc, script_rtc. by vm_compute.
Qed.

Lemma dump_read_only_witness :
  ∃ texts, @dump sample_addresses true "" sample_service = Some (texts, sample_service) ∧
    texts !! 1%nat = Some
      ("========== Begin PowerSessionManager ADPF list ==========" ++ NL ++
       "ID.Min.Act.Timeout(1-10051-20, 200, 1, 0) Tid:Ref[7:2, 9:1]" ++ NL ++
       "ID.Min.Act.Timeout(1-10050-10, 247, 1, 0) Tid:Ref[7:2, 8:1]" ++ NL ++
       "========== End PowerSessionManager ADPF list ==========" ++ NL)%string.
Proof.
  destruct (@dump_read_only quiet sample_addresses sample_cfg Interaction.default_props
    sample_service true "" (λ _ _, eq_refl) sample_service_reachable sample_adpf sample_timed)
    as [E _].
  eexists. split; [exact E|]. vm_compute. reflexivity.
Defined.

End PowerDump.
