(* ===== verification/VibratorHw.v ===== *)
(** * VibratorHw: the vibrator's hardware access
      (aidl/vibrator/utils.h, HardwareBase.{h,cpp}, Hardware.h)

    [HwApi] writes and reads the sysfs files of the haptics driver through file
    streams; [HwCal] holds the calibration read from the trim area and the
    settings read from system properties.

    A file is known by its name below the path prefix.  Of a stream the model keeps
    whether it is in a failed state: opening a missing file leaves it so, a failed
    stream does no I/O, and both [get] and [set] clear the state afterwards.  What
    the driver answers is a parameter, and so are libmiscta and the property
    functions of libbase.  A write the driver refuses leaves nothing behind.

    Text input follows [operator>>] of the standard library: leading white space,
    a sign, decimal digits; a minus sign negates modulo the width. *)

From Stdlib Require Import Ascii DecimalString DecimalZ DecimalPos DecimalFacts.
From stdpp Require Import gmap strings.
From S2P Require Import Prelude Float32.

Module VHw.
Import F32.

(** ** utils.h *)

Definition in_set (set : string) (c : ascii) : bool :=
  existsb (Ascii.eqb c) (list_ascii_of_string set).

Fixpoint find_first_not_of (set s : string) : option nat :=
  match s with
  | EmptyString => None
  | String c s' => if in_set set c then S <$> find_first_not_of set s' else Some O
  end.

Fixpoint find_last_not_of (set s : string) : option nat :=
  match s with
  | EmptyString => None
  | String c s' =>
      match find_last_not_of set s' with
      | Some i => Some (S i)
      | None => if in_set set c then None else Some O
      end
  end.

Definition trim (str whitespace : string) : string :=
  match find_first_not_of whitespace str, find_last_not_of whitespace str with
  | Some str_begin, Some str_end => substring str_begin (str_end - str_begin + 1) str
  | _, _ => EmptyString
  end.

Definition blanks : string := String " " (String "009" EmptyString).

(** *** Reading numbers *)

Definition isspace (c : ascii) : bool :=
  let n := N_of_ascii c in (n =? 32)%N || ((9 <=? n)%N && (n <=? 13)%N).

Definition digit (c : ascii) : option Z :=
  let n := Z.of_N (N_of_ascii c) in
  if (48 <=? n) && (n <=? 57) then Some (n - 48) else None.

Fixpoint skip_space (s : string) : string :=
  match s with
  | String c s' => if isspace c then skip_space s' else s
  | EmptyString => s
  end.

(** The digits at the front of [s], after digits of value [acc]. *)
Fixpoint digits_from (acc : Z) (s : string) : Z * string :=
  match s with
  | String c s' =>
      match digit c with
      | Some d => digits_from (acc * 10 + d) s'
      | None => (acc, s)
      end
  | EmptyString => (acc, s)
  end.

Definition number (s : string) : option Z * string :=
  match s with
  | String c _ =>
      match digit c with
      | Some _ => let '(z, r) := digits_from 0 s in (Some z, r)
      | None => (None, s)
      end
  | EmptyString => (None, s)
  end.

Definition sign (s : string) : bool * string :=
  match s with
  | String "-" s' => (true, s')
  | String "+" s' => (false, s')
  | _ => (false, s)
  end.

(** The outcome of [stream >> value]: the value assigned, if one was, whether
    the stream is still good apart from its end, and what is left to read. *)
Record scan := Scan { assigned : option Z; good : bool; rest : string }.
Definition eof (x : scan) : bool := String.eqb (rest x) EmptyString.

Definition scan_with (conv : bool → Z → Z * bool) (s : string) : scan :=
  match skip_space s with
  | EmptyString => Scan None false EmptyString
  | s1 =>
      let '(neg, s2) := sign s1 in
      match number s2 with
      | (None, r) => Scan (Some 0) false r
      | (Some v, r) => let '(z, ok) := conv neg v in Scan (Some z) ok r
      end
  end.

Definition scan_u32 : string → scan :=
  scan_with (λ neg v, if v <? 2 ^ 32 then (u32 (if neg then - v else v), true)
                      else (2 ^ 32 - 1, false)).

(** A [bool] is read as a number that has to be 0 or 1. *)
Definition scan_bool : string → scan :=
  scan_with (λ neg v, if v =? 0 then (0, true)
                      else if (v =? 1) && negb neg then (1, true) else (1, false)).

(** [unpack] of an array of [n] entries. *)
Fixpoint unpack (n : nat) (s : string) : option (list Z * string) :=
  match n with
  | O => Some ([], s)
  | S n' =>
      let x := scan_u32 s in
      match assigned x with
      | Some v => if good x then '(vs, r) ← unpack n' (rest x); Some (v :: vs, r) else None
      | None => None
      end
  end.

(** ** HwApiBase *)

Definition RECORDS_SIZE : nat := 32.

Record Record_ := Rec { mFunc : string; mValue : option string; mStream : string }.

Record hwapi := HwApiState {
  failed : gset string;                   (* the streams in a failed state *)
  accesses : nat;                         (* calls of the driver so far *)
  written : list (string * string);       (* the lines the driver took, in order *)
  mRecords : list (option Record_);
}.

Abbreviation HW := (M hwapi).

(** The driver and the kernel: which files exist; whether the [k]-th access, a write
    of a line to a file, is taken; what a file holds at the [k]-th access; whether
    a file can be polled, and what waiting for it returns. *)
Class Driver := {
  node_opens : string → bool;
  node_write : nat → string → string → bool;
  node_read : nat → string → string;
  epoll_ctl_ok : nat → string → bool;
  epoll_wait : nat → Z;
}.

Definition hw_get : HW hwapi := λ s, Some (s, s).

Section hwapi.
Context `{Driver}.

Definition record (func : string) (value : option string) (stream : string) : HW unit := λ s,
  Some (tt, HwApiState (failed s) (accesses s) (written s)
    (tail (mRecords s ++ [Some (Rec func value stream)]))).

Definition open (name : string) (s : hwapi) : hwapi :=
  if node_opens name then s
  else HwApiState ({[name]} ∪ failed s) (accesses s) (written s) (mRecords s).

Definition has (stream : string) : HW bool := λ s, Some (bool_decide (stream ∉ failed s), s).

(** An access ends with [stream->clear()]. *)
Definition accessed (stream : string) (lines : list (string * string)) : HW unit := λ s,
  Some (tt, HwApiState (failed s ∖ {[stream]}) (S (accesses s)) (written s ++ lines) (mRecords s)).

(** The state of a stream lets it do I/O. *)
Definition usable (stream : string) (s : hwapi) : bool :=
  bool_decide (stream ∉ failed s) && node_opens stream.

(** [get]; [old] is what [*value] held, [None] when it was not initialised. *)
Definition get (scanner : string → scan) (show : Z → string) (old : option Z) (stream : string)
    : HW (bool * option Z) :=
  let* s := hw_get in
  let '(ret_, value) :=
    if usable stream s then
      let x := scanner (node_read (accesses s) stream) in
      (good x, match assigned x with Some v => Some v | None => old end)
    else (false, old) in
  accessed stream [] ;;
  record "get" (show <$> value) stream ;;
  ret (ret_, value).

Definition set (value : string) (stream : string) : HW bool :=
  let* s := hw_get in
  let ret_ := usable stream s && node_write (accesses s) stream value in
  accessed stream (if ret_ then [(stream, value)] else []) ;;
  record "set" (Some value) stream ;;
  ret ret_.

Definition show_bool (z : Z) : string := if z =? 0 then "0" else "1".
Definition get_u32 : option Z → string → HW (bool * option Z) := get scan_u32 dec.
Definition get_bool : option Z → string → HW (bool * option Z) := get scan_bool show_bool.
Definition set_u32 (value : Z) : string → HW bool := set (dec value).
Definition set_bool (value : bool) : string → HW bool := set (if value then "1" else "0").

(** A call of the kernel that moves no data. *)
Definition tick : HW nat := λ s,
  Some (accesses s, HwApiState (failed s) (S (accesses s)) (written s) (mRecords s)).

(** The loop of [poll]; [None] when it is still waiting after [fuel] rounds. *)
Fixpoint poll_loop (fuel : nat) (value : bool) (stream : string) (actual : option Z)
    : HW (option bool) :=
  match fuel with
  | O => ret None
  | S fuel' =>
      let* r := get_bool actual stream in
      let '(ret_, actual) := r in
      if ret_ && negb (bool_decide (actual = Some (Z.b2z value))) then
        let* k := tick in
        if epoll_wait k <=? 0 then ret (Some false)
        else poll_loop fuel' value stream actual
      else
        record "poll" (Some (if value then "1" else "0")) stream ;;
        ret (Some ret_)
  end.

Definition poll (fuel : nat) (value : bool) (stream : string) (timeoutMs : Z) : HW (option bool) :=
  if timeoutMs <? -1 then ret (Some false)
  else
    let* k := tick in
    if epoll_ctl_ok k stream then poll_loop fuel value stream None else ret (Some false).

(** ** HwApi (Hardware.h) *)

Definition mF0 := "device/f0_stored".
Definition mF0Offset := "device/f0_offset".
Definition mRedc := "device/redc_stored".
Definition mQ := "device/q_stored".
Definition mActivate := "activate".
Definition mDuration := "duration".
Definition mState := "state".
Definition mEffectDuration := "device/cp_trigger_duration".
Definition mEffectIndex := "device/cp_trigger_index".
Definition mEffectQueue := "device/cp_trigger_queue".
Definition mEffectScale := "device/cp_dig_scale".
Definition mGlobalScale := "device/dig_scale".
Definition mAspEnable := "device/asp_enable".
Definition mGpioFallIndex := "device/gpio1_fall_index".
Definition mGpioFallScale := "device/gpio1_fall_dig_scale".
Definition mGpioRiseIndex := "device/gpio1_rise_index".
Definition mGpioRiseScale := "device/gpio1_rise_dig_scale".
Definition mVibeState := "device/vibe_state".
Definition mEffectCount := "device/num_waves".
Definition mClabEnable := "device/clab_enable".
Definition mAvailablePwleSegments := "device/available_pwle_segments".
Definition mPwle := "device/pwle".
Definition mPwleRampDown := "device/pwle_ramp_down".

(** The streams in the order the constructor opens them. *)
Definition hwapi_names : list string :=
  [mF0; mF0Offset; mRedc; mQ; mActivate; mDuration; mState; mEffectDuration; mEffectIndex;
   mEffectQueue; mEffectScale; mGlobalScale; mAspEnable; mGpioFallIndex; mGpioFallScale;
   mGpioRiseIndex; mGpioRiseScale; mVibeState; mEffectCount; mClabEnable;
   mAvailablePwleSegments; mPwle; mPwleRampDown].

Definition HwApi_new : hwapi :=
  fold_left (λ s name, open name s) hwapi_names
    (HwApiState ∅ 0 [] (replicate RECORDS_SIZE None)).

Definition setF0 (value : Z) : HW bool := set_u32 value mF0.
Definition setF0Offset (value : Z) : HW bool := set_u32 value mF0Offset.
Definition setRedc (value : Z) : HW bool := set_u32 value mRedc.
Definition setQ (value : Z) : HW bool := set_u32 value mQ.
Definition setActivate (value : bool) : HW bool := set_bool value mActivate.
Definition setDuration (value : Z) : HW bool := set_u32 value mDuration.
Definition getEffectCount (old : option Z) : HW (bool * option Z) := get_u32 old mEffectCount.
Definition getEffectDuration (old : option Z) : HW (bool * option Z) := get_u32 old mEffectDuration.
Definition setEffectIndex (value : Z) : HW bool := set_u32 value mEffectIndex.
Definition setEffectQueue (value : string) : HW bool := set value mEffectQueue.
Definition hasEffectScale : HW bool := has mEffectScale.
Definition setEffectScale (value : Z) : HW bool := set_u32 value mEffectScale.
Definition setGlobalScale (value : Z) : HW bool := set_u32 value mGlobalScale.
Definition setState (value : bool) : HW bool := set_bool value mState.
Definition hasAspEnable : HW bool := has mAspEnable.
Definition getAspEnable (old : option Z) : HW (bool * option Z) := get_bool old mAspEnable.
Definition setAspEnable (value : bool) : HW bool := set_bool value mAspEnable.
Definition setGpioFallIndex (value : Z) : HW bool := set_u32 value mGpioFallIndex.
Definition setGpioFallScale (value : Z) : HW bool := set_u32 value mGpioFallScale.
Definition setGpioRiseIndex (value : Z) : HW bool := set_u32 value mGpioRiseIndex.
Definition setGpioRiseScale (value : Z) : HW bool := set_u32 value mGpioRiseScale.
Definition pollVibeState (fuel : nat) (value : bool) : HW (option bool) :=
  poll fuel value mVibeState (-1).
Definition setClabEnable (value : bool) : HW bool := set_bool value mClabEnable.
Definition getAvailablePwleSegments (old : option Z) : HW (bool * option Z) :=
  get_u32 old mAvailablePwleSegments.
Definition hasPwle : HW bool := has mPwle.
Definition setPwle (value : string) : HW bool := set value mPwle.
Definition setPwleRampDown (value : Z) : HW bool := set_u32 value mPwleRampDown.
End hwapi.

(** ** Calibration (HardwareBase.cpp, Hardware.h) *)

(** libmiscta: whether it and its two symbols are found; the size of a unit and the
    bytes reading it stores, each with the error code. *)
Class Miscta := {
  ta_dlopen : bool;
  ta_dlsym : string → bool;
  miscta_get_unit_size : Z → Z * Z;
  miscta_read_unit : Z → Z → Z * list Z;
}.

(** libbase's property functions. *)
Class Properties := {
  GetProperty : string → string;
  ParseFloat : string → option float;
  GetIntProperty : string → Z → Z;
  GetBoolProperty : string → bool → bool;
}.

Section cal.
Context `{Miscta} `{Properties}.

(** One unit into the buffer [a1] at byte [off]: the error, if any, and the buffer;
    [None] when the unit is stored past the end of the buffer. *)
Definition ta_unit (unit_ : Z) (off : nat) (a1 : list Z) : option (Z * list Z) :=
  let '(ret1, ta_sz) := miscta_get_unit_size unit_ in
  if negb (ret1 =? 0) then Some (ret1, a1)
  else
    let '(ret2, data) := miscta_read_unit unit_ ta_sz in
    a2 ← wr a1 off data;
    Some (ret2, a2).

(** The units in turn, up to the first error. *)
Fixpoint ta_units (us : list (Z * nat)) (a1 : list Z) : option (Z * list Z) :=
  match us with
  | [] => Some (0, a1)
  | (unit_, off) :: us' =>
      '(r, a2) ← ta_unit unit_ off a1;
      if r =? 0 then ta_units us' a2 else Some (r, a2)
  end.

Definition cirrusMiscTaRead (a1 : list Z) : option (Z * list Z) :=
  ta_units [(4730, 0%nat); (4731, 8%nat); (4732, 16%nat); (4733, 20%nat)] a1.

(** The four bytes at [off], little endian, as an [int32_t]. *)
Definition int32_at (off : nat) (l : list Z) : Z :=
  i32 (fold_right (λ b v, u8 b + 256 * v) 0 (slice l off 4)).

(** The constructor; [stack] is what the buffer holds before the units are read. *)
Definition HwCalBase_new (stack : list Z) : option (gmap string string) :=
  if ta_dlopen && ta_dlsym "miscta_get_unit_size" && ta_dlsym "miscta_read_unit" then
    '(r, dat) ← cirrusMiscTaRead stack;
    if r =? 0 then
      let f0_measured := dec (int32_at 20 dat) in
      let redc_measured := dec (int32_at 16 dat) in
      Some (<[trim "redc_measured" blanks := trim redc_measured blanks]>
             (<[trim "f0_measured" blanks := trim f0_measured blanks]> ∅))
    else Some ∅
  else Some ∅.

(** [getPersist] of a number and of an array: the value when the text is there, is
    read without an error and is read to its end. *)
Definition getPersist (mCalData : gmap string string) (key : string) : option Z :=
  s ← mCalData !! key;
  let x := scan_u32 s in
  if good x && eof x then assigned x else None.

Definition getPersist_array (mCalData : gmap string string) (key : string) (n : nat)
    : option (list Z) :=
  s ← mCalData !! key;
  '(vs, r) ← unpack n s;
  if String.eqb r EmptyString then Some vs else None.

(** [getProperty] of a float; [mPropertyPrefix] is never assigned. *)
Definition mPropertyPrefix : string := EmptyString.
Definition getProperty_float (key : string) (def : float) : float :=
  let value := GetProperty (mPropertyPrefix ++ key)%string in
  if String.eqb value EmptyString then def
  else match ParseFloat value with Some result => result | None => def end.

Definition getProperty_int (key : string) (def : Z) : Z :=
  GetIntProperty (mPropertyPrefix ++ key)%string def.
Definition getProperty_bool (key : string) (def : bool) : bool :=
  GetBoolProperty (mPropertyPrefix ++ key)%string def.

(** *** HwCal *)

Definition Q_FLOAT_TO_FIXED : Z := 2 ^ 16.
Definition Q_INDEX_TO_FIXED : Z := 98304.   (* 1.5 * 2^16 *)
Definition Q_INDEX_OFFSET : Z := 2 * Q_FLOAT_TO_FIXED.
Definition VERSION_DEFAULT : Z := 1.
Definition DEFAULT_FREQUENCY_SHIFT : Z := 0.
Definition DEFAULT_DEVICE_MASS : float := ratio 21 100.
Definition DEFAULT_LOC_COEFF : float := ratio 1 2.
Definition Q_DEFAULT : Z := 1015808.        (* 15.5 * 2^16 *)
Definition V_LEVELS_DEFAULT : list Z := [60; 70; 80; 90; 100; 100].
Definition V_TICK_DEFAULT : list Z := [10; 70].
Definition V_CTICK_DEFAULT : list Z := [10; 70].
Definition V_LONG_DEFAULT : list Z := [10; 70].

Definition getVersion (cal : gmap string string) : Z :=
  match getPersist cal "version" with Some v => v | None => VERSION_DEFAULT end.
Definition getLongFrequencyShift : Z :=
  getProperty_int "long.frequency.shift" DEFAULT_FREQUENCY_SHIFT.
Definition getDeviceMass : float := getProperty_float "device.mass" DEFAULT_DEVICE_MASS.
Definition getLocCoeff : float := getProperty_float "loc.coeff" DEFAULT_LOC_COEFF.
Definition getF0 (cal : gmap string string) : option Z := getPersist cal "f0_measured".
Definition getRedc (cal : gmap string string) : option Z := getPersist cal "redc_measured".
Definition getQ (cal : gmap string string) : Z :=
  match getPersist cal "q_measured" with
  | Some v => v
  | None =>
      match getPersist cal "q_index" with
      | Some v => u32 (u32 (v * Q_INDEX_TO_FIXED) + Q_INDEX_OFFSET)
      | None => Q_DEFAULT
      end
  end.
Definition array_or (cal : gmap string string) (key : string) (n : nat) (def : list Z) : list Z :=
  match getPersist_array cal key n with Some v => v | None => def end.
Definition getVolLevels (cal : gmap string string) : list Z :=
  array_or cal "v_levels" 6 V_LEVELS_DEFAULT.
Definition getTickVolLevels (cal : gmap string string) : list Z :=
  array_or cal "v_tick" 2 V_TICK_DEFAULT.
Definition getClickVolLevels (cal : gmap string string) : list Z :=
  array_or cal "v_click" 2 V_CTICK_DEFAULT.
Definition getLongVolLevels (cal : gmap string string) : list Z :=
  array_or cal "v_long" 2 V_LONG_DEFAULT.
Definition isChirpEnabled : bool := getProperty_bool "chirp.enabled" false.
End cal.

(** ** Numbers survive printing and reading *)

Fixpoint uval (u : Decimal.uint) (acc : Z) : Z :=
  match u with
  | Decimal.Nil => acc
  | Decimal.D0 u => uval u (acc * 10 + 0)
  | Decimal.D1 u => uval u (acc * 10 + 1)
  | Decimal.D2 u => uval u (acc * 10 + 2)
  | Decimal.D3 u => uval u (acc * 10 + 3)
  | Decimal.D4 u => uval u (acc * 10 + 4)
  | Decimal.D5 u => uval u (acc * 10 + 5)
  | Decimal.D6 u => uval u (acc * 10 + 6)
  | Decimal.D7 u => uval u (acc * 10 + 7)
  | Decimal.D8 u => uval u (acc * 10 + 8)
  | Decimal.D9 u => uval u (acc * 10 + 9)
  end.

Lemma digits_from_uint u acc :
  digits_from acc (NilEmpty.string_of_uint u) = (uval u acc, EmptyString).
Proof. revert acc. induction u; intros acc; [done|..]; cbn -[Z.mul Z.add]; apply IHu. Qed.

Lemma uval_acc u p : uval u (Zpos p) = Zpos (Pos.of_uint_acc u p).
Proof.
  revert p. induction u; intros p; cbn [uval Pos.of_uint_acc]; [done|..];
    rewrite <- IHu; f_equal; lia.
Qed.

Lemma uval_of_uint u : uval u 0 = Z.of_uint u.
Proof.
  induction u as [|u IH|u IH|u IH|u IH|u IH|u IH|u IH|u IH|u IH|u IH];
    cbn -[Pos.of_uint_acc]; [done|exact IH|..]; apply (uval_acc u _).
Qed.

Lemma number_uint u :
  number (NilZero.string_of_uint u) = (Some (Z.of_uint u), EmptyString).
Proof.
  destruct u; [done|..]; cbn [NilZero.string_of_uint number NilEmpty.string_of_uint digit];
    cbn [N_of_ascii] || idtac;
    match goal with |- context [digits_from 0 (String ?c (NilEmpty.string_of_uint ?v))] =>
      change (digits_from 0 (String c (NilEmpty.string_of_uint v)))
        with (digits_from (0 * 10 + (Z.of_N (N_of_ascii c) - 48)) (NilEmpty.string_of_uint v)) end;
    rewrite digits_from_uint, <- uval_of_uint; reflexivity.
Qed.

(** The first character of a printed number is a digit or a minus sign. *)
Lemma dec_shape z :
  ∃ u, dec z = NilZero.string_of_uint u ∧ z = Z.of_uint u ∨
       dec z = String "-" (NilZero.string_of_uint u) ∧ z = - Z.of_uint u.
Proof.
  unfold dec. pose proof (DecimalZ.of_to z) as Hz. destruct (Z.to_int z) as [u|u]; exists u; [left|right];
    (split; [done|]); by rewrite <- Hz.
Qed.

Lemma scan_with_uint conv u :
  scan_with conv (NilZero.string_of_uint u) =
  let '(z, ok) := conv false (Z.of_uint u) in Scan (Some z) ok EmptyString.
Proof.
  unfold scan_with. assert (skip_space (NilZero.string_of_uint u) = NilZero.string_of_uint u) as ->
    by by destruct u.
  assert (sign (NilZero.string_of_uint u) = (false, NilZero.string_of_uint u)) as Hs
    by by destruct u.
  destruct (NilZero.string_of_uint u) as [|c s] eqn:E; [by destruct u|].
  by rewrite Hs, <- E, number_uint.
Qed.

Lemma scan_with_neg conv u :
  scan_with conv (String "-" (NilZero.string_of_uint u)) =
  let '(z, ok) := conv true (Z.of_uint u) in Scan (Some z) ok EmptyString.
Proof.
  set (x := NilZero.string_of_uint u). unfold scan_with.
  change (skip_space (String "-" x)) with (String "-" x). cbv iota.
  change (sign (String "-" x)) with (true, x). unfold x. cbv iota beta. by rewrite number_uint.
Qed.

Lemma of_uint_nonneg u : 0 ≤ Z.of_uint u.
Proof. unfold Z.of_uint. lia. Qed.

Lemma scan_dec z : - 2 ^ 31 ≤ z < 2 ^ 32 → scan_u32 (dec z) = Scan (Some (u32 z)) true EmptyString.
Proof.
  intros Hz. destruct (dec_shape z) as (u & [[-> ->]|[-> ->]]); unfold scan_u32.
  - by rewrite scan_with_uint, (proj2 (Z.ltb_lt _ _)) by lia.
  - rewrite scan_with_neg, (proj2 (Z.ltb_lt _ _)); [done|].
    pose proof (of_uint_nonneg u). lia.
Qed.

(** ** Trimming *)

Fixpoint no_char (p : ascii → bool) (s : string) : bool :=
  match s with String c s' => negb (p c) && no_char p s' | EmptyString => true end.

Lemma substring_whole s : substring 0 (String.length s) s = s.
Proof. induction s as [|c s IH]; [done|]. cbn. by rewrite IH. Qed.

Lemma find_last_none ws s :
  no_char (in_set ws) s = true → s ≠ EmptyString →
  find_last_not_of ws s = Some (String.length s - 1)%nat.
Proof.
  induction s as [|c s IH]; [done|]. cbn [no_char]. intros [Hc Hs]%andb_true_iff _.
  apply negb_true_iff in Hc. cbn [find_last_not_of String.length]. destruct s as [|c' s'].
  - cbn. by rewrite Hc.
  - rewrite IH by done. f_equal. cbn [String.length]. lia.
Qed.

Lemma trim_none ws s : no_char (in_set ws) s = true → trim s ws = s.
Proof.
  intros Hs. destruct (decide (s = EmptyString)) as [->|Hne]; [done|]. unfold trim.
  rewrite find_last_none by done.
  assert (find_first_not_of ws s = Some O) as ->.
  { destruct s as [|c s]; [done|]. cbn in Hs |- *. apply andb_true_iff in Hs as [Hc _].
    apply negb_true_iff in Hc. by rewrite Hc. }
  assert (0 < String.length s)%nat by (destruct s; [done|cbn; lia]).
  replace (String.length s - 1 - 0 + 1)%nat with (String.length s) by lia. apply substring_whole.
Qed.

Lemma no_char_uint u : no_char (in_set blanks) (NilEmpty.string_of_uint u) = true.
Proof. induction u; [done|..]; exact IHu. Qed.

Lemma trim_dec z : trim (dec z) blanks = dec z.
Proof.
  apply trim_none. destruct (dec_shape z) as (u & [[-> _]|[-> _]]); cbn [no_char];
    [|change (negb (in_set blanks "-")) with true; rewrite andb_true_l];
    (destruct u; [done|..]; unfold NilZero.string_of_uint; apply no_char_uint).
Qed.

(** ** The calibration *)

Section calibration.
Context `{Miscta} `{Properties}.

Lemma int32_at_range off l : - 2 ^ 31 ≤ int32_at off l < 2 ^ 32.
Proof. unfold int32_at. pose proof (wraps_range 32 (fold_right (λ b v, u8 b + 256 * v) 0 (slice l off 4))). lia. Qed.

(** The trim area's unit [u] is read as [data]. *)
Definition unit_holds (u : Z) (data : list Z) : Prop :=
  ∃ sz, miscta_get_unit_size u = (0, sz) ∧ miscta_read_unit u sz = (0, data).

(** The unsigned number a list of bytes stores, little endian. *)
Definition le_value (data : list Z) : Z := fold_right (λ b v, b + 256 * v) 0 data.

Definition are_bytes (data : list Z) : Prop := Forall (λ b, 0 ≤ b < 256) data.

Lemma ta_units_cons u off us a data :
  unit_holds u data → (off + length data ≤ length a)%nat →
  ta_units ((u, off) :: us) a = ta_units us (splice a off data).
Proof.
  intros (sz & E1 & E2) Hl. cbn [ta_units]. unfold ta_unit. rewrite E1. cbn [Z.eqb negb].
  by rewrite E2, wr_Some.
Qed.

(** Four bytes are read as the number they store, printed with a sign or not. *)
Lemma u32_int32_at off l data :
  slice l off 4 = data → are_bytes data → length data = 4%nat → u32 (int32_at off l) = le_value data.
Proof.
  intros E Hb Hl. unfold int32_at. rewrite E. clear E off l.
  destruct data as [|b0 [|b1 [|b2 [|b3 [|]]]]]; try done. unfold are_bytes in Hb.
  rewrite !Forall_cons in Hb. destruct Hb as (Hb0 & Hb1 & Hb2 & Hb3 & _).
  cbn [fold_right le_value]. rewrite !(wrapu_small 8) by (simpl; lia).
  assert (∀ x, u32 (i32 x) = u32 x) as Hu.
  { intros x. unfold wrapu, wraps. rewrite Zminus_mod_idemp_l. f_equal. lia. }
  rewrite Hu. apply wrapu_small. lia.
Qed.

(** C26. The calibration that reaches the driver is the one in the trim area: when
    the library is there, the four units are read, units 4730 and 4731 with at
    most eight bytes and units 4732 and 4733 with four, then the resonant frequency
    is the number unit 4733 stores and the resistance the number unit 4732 stores,
    little endian and unsigned; what the buffer held before does not matter.  The
    other values are never in the map, so the version, the Q factor and the
    voltage levels are their defaults. *)
Theorem calibration_roundtrip (stack u0 u1 redc f0 : list Z)
    (Hlib : ta_dlopen = true ∧ ta_dlsym "miscta_get_unit_size" = true ∧
            ta_dlsym "miscta_read_unit" = true)
    (Hstack : length stack = 24%nat)
    (H4730 : unit_holds 4730 u0 ∧ (length u0 ≤ 8)%nat)
    (H4731 : unit_holds 4731 u1 ∧ (length u1 ≤ 8)%nat)
    (H4732 : unit_holds 4732 redc ∧ length redc = 4%nat ∧ are_bytes redc)
    (H4733 : unit_holds 4733 f0 ∧ length f0 = 4%nat ∧ are_bytes f0) :
  ∃ cal, HwCalBase_new stack = Some cal ∧
    getF0 cal = Some (le_value f0) ∧ getRedc cal = Some (le_value redc) ∧
    getQ cal = Q_DEFAULT ∧ getVersion cal = VERSION_DEFAULT ∧ getVolLevels cal = V_LEVELS_DEFAULT.
Proof.
  destruct Hlib as (L1 & L2 & L3), H4730 as [U0 N0], H4731 as [U1 N1], H4732 as (U2 & N2 & B2),
    H4733 as (U3 & N3 & B3).
  unfold HwCalBase_new, cirrusMiscTaRead. rewrite L1, L2, L3. cbn [andb].
  rewrite (ta_units_cons _ _ _ _ _ U0) by lia. set (a0 := splice stack 0 u0).
  assert (length a0 = 24%nat) as A0 by (unfold a0; by rewrite length_splice by lia).
  rewrite (ta_units_cons _ _ _ _ _ U1) by lia. set (a1 := splice a0 8 u1).
  assert (length a1 = 24%nat) as A1 by (unfold a1; by rewrite length_splice by lia).
  rewrite (ta_units_cons _ _ _ _ _ U2) by lia. set (a2 := splice a1 16 redc).
  assert (length a2 = 24%nat) as A2 by (unfold a2; by rewrite length_splice by lia).
  rewrite (ta_units_cons _ _ _ _ _ U3) by lia. cbn [ta_units mbind option_bind Z.eqb].
  set (dat := splice a2 20 f0).
  assert (u32 (int32_at 20 dat) = le_value f0) as E1.
  { apply u32_int32_at; [|done..]. unfold dat. rewrite <- N3. apply slice_splice_same. lia. }
  assert (u32 (int32_at 16 dat) = le_value redc) as E2.
  { apply u32_int32_at; [|done..]. unfold dat. rewrite slice_splice_disj by lia.
    unfold a2. rewrite <- N2. apply slice_splice_same. lia. }
  eexists. split; [reflexivity|]. rewrite !trim_dec.
  change (trim "f0_measured" blanks) with "f0_measured".
  change (trim "redc_measured" blanks) with "redc_measured".
  unfold getF0, getRedc, getQ, getVersion, getVolLevels, array_or, getPersist_array, getPersist.
  split_and!.
  - rewrite lookup_insert_ne, lookup_insert_eq by done. cbn [mbind option_bind].
    by rewrite scan_dec, E1 by apply int32_at_range.
  - rewrite lookup_insert_eq. cbn [mbind option_bind].
    by rewrite scan_dec, E2 by apply int32_at_range.
  - by rewrite !(lookup_insert_ne _ _ "q_measured"), !(lookup_insert_ne _ _ "q_index") by done.
  - by rewrite !lookup_insert_ne by done.
  - by rewrite !lookup_insert_ne by done.
Qed.

(** The sizes of the units are not compared with the buffer: when the last unit
    holds more than the four bytes left for it, reading the calibration writes
    past the end of the buffer. *)
Theorem calibration_overflow (stack a1 : list Z) (sz : Z) (data : list Z)
    (Hlib : ta_dlopen = true ∧ ta_dlsym "miscta_get_unit_size" = true ∧
            ta_dlsym "miscta_read_unit" = true)
    (Hstack : length stack = 24%nat)
    (Hfirst : ta_units [(4730, 0%nat); (4731, 8%nat); (4732, 16%nat)] stack = Some (0, a1))
    (Hsize : miscta_get_unit_size 4733 = (0, sz)) (Hdata : miscta_read_unit 4733 sz = (0, data))
    (Hlong : (4 < length data)%nat) :
  HwCalBase_new stack = None.
Proof.
  assert (∀ us a b, ta_units us a = Some (0, b) → length b = length a) as Hlen.
  { intros us. induction us as [|[un off] us IH]; intros a b; cbn [ta_units]; [by intros [= <-]|].
    unfold ta_unit. destruct (miscta_get_unit_size un) as [r1 s1]. destruct (negb _) eqn:E1; cbn.
    { destruct (Z.eqb_spec r1 0); [by subst|]. by intros [= ? ?]. }
    destruct (miscta_read_unit un s1) as [r2 d2]. destruct (wr a off d2) as [a2|] eqn:Ew; [|done]. cbn.
    apply wr_inv in Ew as (Hl & ->). destruct (Z.eqb_spec r2 0); [|by intros [= ? ?]].
    intros Hu%IH. by rewrite Hu, length_splice. }
  assert (∀ us vs a b, ta_units us a = Some (0, b) → ta_units (us ++ vs) a = ta_units vs b) as Happ.
  { intros us vs. induction us as [|[un off] us IH]; intros a b; cbn [ta_units app]; [by intros [= <-]|].
    destruct (ta_unit un off a) as [[r a2]|]; [|done]. cbn. destruct (r =? 0) eqn:Er; [apply IH|].
    intros [= -> _]. done. }
  destruct Hlib as (H1 & H2 & H3). unfold HwCalBase_new, cirrusMiscTaRead. rewrite H1, H2, H3. cbn [andb].
  pose proof (Happ _ [(4733, 20%nat)] stack a1 Hfirst) as E.
  cbn [app] in E. rewrite E. cbn [ta_units]. unfold ta_unit. rewrite Hsize. cbn. rewrite Hdata. cbn.
  destruct (wr a1 20 data) as [a2|] eqn:Ew; [|done].
  apply wr_inv in Ew as (Hl & _). apply Hlen in Hfirst. lia.
Qed.
End calibration.

(** ** Waiting for a state *)

Section waiting.
Context `{Driver}.




End waiting.

End VHw.
