(* ===== verification/Vibrator.v ===== *)
(** * Vibrator: the vibrator service (aidl/vibrator/Vibrator.{h,cpp})

    The members of the class are the record [vib], the binder calls are functions
    on it; undefined behaviour is [None].  [HwApi] and [HwCal] are VibratorHw.v's.

    Members that are read without having been initialised hold what the memory of
    the object held: the constructor takes that as an argument.  An uninitialised pointer
    that is not null is [PcmWild], and closing it is undefined.

    The completion job of a vibration runs beside the calls.  It is kept in
    [mAsyncHandle] with its callback and the call it is about to make: it polls,
    deactivates and calls back, one call at a time, between two calls of the
    interface ([progress]), where a call waits for it, or beside the job that
    replaces it ([race]).  A poll that has not ended has no effect yet.

    [log10], [pow], the ALSA calls and the contents of /proc/asound/pcm are
    parameters, and so are the flags [CAP_...] of the interface, kept as a list.
    The dump is in VibratorDump.v. *)

From Stdlib Require Import SpecFloat Ascii.
From stdpp Require Import gmap strings.
From S2P Require Import Prelude PowerPid Float32 VibratorHw.

Module Vibrator.
Import F32.

(** ** Data *)

Inductive status := Ok | EX_ILLEGAL_ARGUMENT | EX_ILLEGAL_STATE | EX_UNSUPPORTED_OPERATION.
#[global] Instance status_eq_dec : EqDecision status.
Proof. solve_decision. Defined.

Inductive Effect :=
  | CLICK | DOUBLE_CLICK | TICK | THUD | POP | HEAVY_CLICK | TEXTURE_TICK | OtherEffect (n : Z).
#[global] Instance Effect_eq_dec : EqDecision Effect.
Proof. solve_decision. Defined.

Inductive EffectStrength := LIGHT | MEDIUM | STRONG | OtherStrength (n : Z).
#[global] Instance EffectStrength_eq_dec : EqDecision EffectStrength.
Proof. solve_decision. Defined.

Inductive CompositePrimitive :=
  | P_NOOP | P_CLICK | P_THUD | P_SPIN | P_QUICK_RISE | P_SLOW_RISE | P_QUICK_FALL
  | P_LIGHT_TICK | P_LOW_TICK | P_Other (n : Z).
#[global] Instance CompositePrimitive_eq_dec : EqDecision CompositePrimitive.
Proof. solve_decision. Defined.

Record CompositeEffect := Composite { delayMs : Z; primitive : CompositePrimitive; scale : float }.

Inductive PrimitivePwle :=
  | ActivePwle (startAmplitude startFrequency endAmplitude endFrequency : float) (duration : Z)
  | BrakingPwle (braking : Z) (duration : Z).

Inductive cap :=
  | CAP_ON_CALLBACK | CAP_PERFORM_CALLBACK | CAP_AMPLITUDE_CONTROL | CAP_EXTERNAL_CONTROL
  | CAP_COMPOSE_EFFECTS | CAP_ALWAYS_ON_CONTROL | CAP_GET_RESONANT_FREQUENCY
  | CAP_GET_Q_FACTOR | CAP_FREQUENCY_CONTROL | CAP_COMPOSE_PWLE_EFFECTS.
#[global] Instance cap_eq_dec : EqDecision cap.
Proof. solve_decision. Defined.

Inductive AlwaysOnId := GPIO_RISE | GPIO_FALL.

(** [static_cast<AlwaysOnId>(id)]; [None]: a value the enumeration does not name. *)
Definition AlwaysOnId_cast (id : Z) : option AlwaysOnId :=
  if u32 id =? 0 then Some GPIO_RISE
  else if u32 id =? 1 then Some GPIO_FALL else None.

(** *** Constants *)

Definition BASE_CONTINUOUS_EFFECT_OFFSET : Z := 32768.
Definition WAVEFORM_EFFECT_0_20_LEVEL : nat := 0.
Definition WAVEFORM_EFFECT_1_00_LEVEL : nat := 4.
Definition WAVEFORM_EFFECT_LEVEL_MINIMUM : Z := 4.
Definition WAVEFORM_DOUBLE_CLICK_SILENCE_MS : Z := 100.
Definition WAVEFORM_LONG_VIBRATION_EFFECT_INDEX : Z := 0.
Definition WAVEFORM_CLICK_INDEX : Z := 2.
Definition WAVEFORM_THUD_INDEX : Z := 4.
Definition WAVEFORM_SPIN_INDEX : Z := 5.
Definition WAVEFORM_QUICK_RISE_INDEX : Z := 6.
Definition WAVEFORM_SLOW_RISE_INDEX : Z := 7.
Definition WAVEFORM_QUICK_FALL_INDEX : Z := 8.
Definition WAVEFORM_LIGHT_TICK_INDEX : Z := 9.
Definition WAVEFORM_LOW_TICK_INDEX : Z := 10.
Definition WAVEFORM_CUSTOM_TICK_INDEX_1 : Z := 11.
Definition WAVEFORM_CUSTOM_TICK_INDEX_2 : Z := 12.
Definition WAVEFORM_CUSTOM_TICK_INDEX_3 : Z := 13.
Definition WAVEFORM_UNSAVED_TRIGGER_QUEUE_INDEX : Z := 65529.
Definition WAVEFORM_TRIGGER_QUEUE_INDEX : Z := 65534.
Definition VOLTAGE_GLOBAL_SCALE_LEVEL : nat := 5.
Definition VOLTAGE_SCALE_MAX : Z := 100.
Definition MAX_COLD_START_LATENCY_MS : Z := 6.
Definition MAX_PAUSE_TIMING_ERROR_MS : Z := 1.
Definition UINT32_MAX : Z := 2 ^ 32 - 1.
Definition MAX_TIME_MS : Z := UINT32_MAX.
Definition AMP_ATTENUATE_STEP_SIZE : float := ratio 1 8.
Definition EFFECT_FREQUENCY_KHZ : float := of_Z 48.
Definition COMPOSE_DELAY_MAX_MS : Z := 10000.
Definition COMPOSE_SIZE_MAX : Z := 127.
Definition COMPOSE_PWLE_SIZE_LIMIT : Z := 82.
Definition CS40L2X_PWLE_LENGTH_MAX : Z := 4094.
Definition Q14_BIT_SHIFT : Z := 14.
Definition Q16_BIT_SHIFT : Z := 16.
Definition Q17_BIT_SHIFT : Z := 17.
Definition COMPOSE_PWLE_PRIMITIVE_DURATION_MAX_MS : Z := 999.
Definition PWLE_LEVEL_MIN : float := fzero.
Definition PWLE_LEVEL_MAX : float := fone.
Definition CS40L2X_PWLE_LEVEL_MAX : float := ratio 99 100.
Definition PWLE_FREQUENCY_RESOLUTION_HZ : float := fone.
Definition PWLE_FREQUENCY_MIN_HZ : float := fone.
Definition RESONANT_FREQUENCY_DEFAULT : float := of_Z 145.
Definition PWLE_FREQUENCY_MAX_HZ : float := of_Z 999.
Definition PWLE_BW_MAP_SIZE : nat := 999.
Definition RAMP_DOWN_CONSTANT : float := ratio 131072 125.   (* 1048.576f *)
Definition RAMP_DOWN_TIME_MS : float := fzero.

(** *** State *)

Inductive pcm := PcmNull | PcmOpen | PcmWild.
#[global] Instance pcm_eq_dec : EqDecision pcm.
Proof. solve_decision. Defined.

(** The members the constructor computes for good. *)
Record levels := Levels {
  mF0Offset : Z;
  mTickEffectVol : list Z;
  mClickEffectVol : list Z;
  mLongEffectVol : list Z;
  mEffectDurations : list Z;
  mResonantFrequency : float;
  mRedc : Z;
}.

(** The haptic PCM device; [open_pcms] counts the devices opened and not closed. *)
Record alsa := Alsa {
  mHapticPcm : pcm;
  mCard : Z;
  mDevice : Z;
  mHasHapticAlsaDevice : bool;
  configHapticAlsaDeviceDone : bool;
  open_pcms : Z;
}.

(** A running [waitForComplete]: which of its three calls is next, and the callback. *)
Inductive job_pc := Polling | Deactivating | Calling.
Record job := Job { next_call : job_pc; notify : option nat }.
#[global] Instance job_pc_eq_dec : EqDecision job_pc.
Proof. solve_decision. Defined.
#[global] Instance job_eq_dec : EqDecision job.
Proof. solve_decision. Defined.

Record vib := Vib {
  hw : VHw.hwapi;
  cal : gmap string string;
  lv : levels;
  sound : alsa;
  mAsyncHandle : option job;            (* the job, [None] once it has returned *)
  completed : list nat;                 (* the callbacks called, in order *)
  mCompositionSizeMax : Z;
  mIsUnderExternalControl : bool;
  mActiveId : Z;
  mIsChirpEnabled : bool;
  mBandwidthAmplitudeMap : list float;
  mGenerateBandwidthAmplitudeMapDone : bool;
  pwleMaxLevelLimitMap : list float;
  events : nat;                         (* calls into ALSA and waits so far *)
}.

Abbreviation V := (M vib).
Definition get : V vib := λ v, Some (v, v).

Definition set_hw (h : VHw.hwapi) (v : vib) : vib :=
  Vib h (cal v) (lv v) (sound v) (mAsyncHandle v) (completed v) (mCompositionSizeMax v)
    (mIsUnderExternalControl v) (mActiveId v) (mIsChirpEnabled v) (mBandwidthAmplitudeMap v)
    (mGenerateBandwidthAmplitudeMapDone v) (pwleMaxLevelLimitMap v) (events v).
Definition set_lv (l : levels) (v : vib) : vib :=
  Vib (hw v) (cal v) l (sound v) (mAsyncHandle v) (completed v) (mCompositionSizeMax v)
    (mIsUnderExternalControl v) (mActiveId v) (mIsChirpEnabled v) (mBandwidthAmplitudeMap v)
    (mGenerateBandwidthAmplitudeMapDone v) (pwleMaxLevelLimitMap v) (events v).
Definition set_sound (s : alsa) (v : vib) : vib :=
  Vib (hw v) (cal v) (lv v) s (mAsyncHandle v) (completed v) (mCompositionSizeMax v)
    (mIsUnderExternalControl v) (mActiveId v) (mIsChirpEnabled v) (mBandwidthAmplitudeMap v)
    (mGenerateBandwidthAmplitudeMapDone v) (pwleMaxLevelLimitMap v) (events v).
Definition set_job (j : option job) (done : list nat) (v : vib) : vib :=
  Vib (hw v) (cal v) (lv v) (sound v) j done (mCompositionSizeMax v)
    (mIsUnderExternalControl v) (mActiveId v) (mIsChirpEnabled v) (mBandwidthAmplitudeMap v)
    (mGenerateBandwidthAmplitudeMapDone v) (pwleMaxLevelLimitMap v) (events v).
Definition set_size (n : Z) (v : vib) : vib :=
  Vib (hw v) (cal v) (lv v) (sound v) (mAsyncHandle v) (completed v) n
    (mIsUnderExternalControl v) (mActiveId v) (mIsChirpEnabled v) (mBandwidthAmplitudeMap v)
    (mGenerateBandwidthAmplitudeMapDone v) (pwleMaxLevelLimitMap v) (events v).
Definition set_external (b : bool) (v : vib) : vib :=
  Vib (hw v) (cal v) (lv v) (sound v) (mAsyncHandle v) (completed v) (mCompositionSizeMax v)
    b (mActiveId v) (mIsChirpEnabled v) (mBandwidthAmplitudeMap v)
    (mGenerateBandwidthAmplitudeMapDone v) (pwleMaxLevelLimitMap v) (events v).
Definition set_active_id (n : Z) (v : vib) : vib :=
  Vib (hw v) (cal v) (lv v) (sound v) (mAsyncHandle v) (completed v) (mCompositionSizeMax v)
    (mIsUnderExternalControl v) n (mIsChirpEnabled v) (mBandwidthAmplitudeMap v)
    (mGenerateBandwidthAmplitudeMapDone v) (pwleMaxLevelLimitMap v) (events v).
Definition set_chirp (b : bool) (v : vib) : vib :=
  Vib (hw v) (cal v) (lv v) (sound v) (mAsyncHandle v) (completed v) (mCompositionSizeMax v)
    (mIsUnderExternalControl v) (mActiveId v) b (mBandwidthAmplitudeMap v)
    (mGenerateBandwidthAmplitudeMapDone v) (pwleMaxLevelLimitMap v) (events v).
Definition set_bandwidth (m : list float) (done : bool) (v : vib) : vib :=
  Vib (hw v) (cal v) (lv v) (sound v) (mAsyncHandle v) (completed v) (mCompositionSizeMax v)
    (mIsUnderExternalControl v) (mActiveId v) (mIsChirpEnabled v) m done
    (pwleMaxLevelLimitMap v) (events v).
Definition set_limits (m : list float) (v : vib) : vib :=
  Vib (hw v) (cal v) (lv v) (sound v) (mAsyncHandle v) (completed v) (mCompositionSizeMax v)
    (mIsUnderExternalControl v) (mActiveId v) (mIsChirpEnabled v) (mBandwidthAmplitudeMap v)
    (mGenerateBandwidthAmplitudeMapDone v) m (events v).

Definition modify (f : vib → vib) : V unit := λ v, Some (tt, f v).
Definition when (b : bool) (m : V unit) : V unit := if b then m else ret tt.

(** The index of the next call into ALSA or wait. *)
Definition event : V nat := λ v,
  Some (events v,
    Vib (hw v) (cal v) (lv v) (sound v) (mAsyncHandle v) (completed v) (mCompositionSizeMax v)
      (mIsUnderExternalControl v) (mActiveId v) (mIsChirpEnabled v) (mBandwidthAmplitudeMap v)
      (mGenerateBandwidthAmplitudeMapDone v) (pwleMaxLevelLimitMap v) (S (events v))).

(** A call of [mHwApi]. *)
Definition api {A} (m : VHw.HW A) : V A := λ v,
  match m (hw v) with
  | Some (a, h) => Some (a, set_hw h v)
  | None => None
  end.
Definition api_ (m : VHw.HW bool) : V unit := api m ;; ret tt.

(** The mathematical library. *)
Class Libm := {
  log10f : float → float;
  pow : double → double → double;
}.

(** ALSA, the lines of /proc/asound/pcm when it can be read, and the scheduling of
    the jobs: how many calls a pending job makes while it is waited for and how many
    rounds of the polling loop it may take, and, where two jobs run at once, which
    of them makes each call ([true]: the new one). *)
Class Platform := {
  pcm_is_ready : nat → bool;
  pcm_prepare : nat → Z;
  pcm_start : nat → Z;
  proc_snd_pcm : nat → option (list string);
  job_calls : nat → nat;
  job_rounds : nat → nat;
  job_schedule : nat → list bool;
}.

(** The build: the points of the recommended maximum levels and the default. *)
Class Actuator := {
  discretePwleMaxLevels : list (float * float);
  pwleDefaultLevel : float;
}.

Definition LUXSHARE_ICT_081545 : Actuator := {|
  discretePwleMaxLevels :=
    [(of_Z 120, ratio 2 5); (of_Z 130, ratio 31 100); (of_Z 140, ratio 7 50);
     (of_Z 145, ratio 9 100); (of_Z 150, ratio 3 20); (of_Z 160, ratio 7 20);
     (of_Z 170, ratio 2 5)];
  pwleDefaultLevel := ratio 2 5 |}.
Definition LUXSHARE_ICT_LT_XLRA1906D : Actuator := {|
  discretePwleMaxLevels :=
    [(of_Z 145, ratio 19 50); (of_Z 150, ratio 7 20); (of_Z 160, ratio 7 20);
     (of_Z 170, ratio 3 20); (of_Z 180, ratio 7 20); (of_Z 190, ratio 7 20);
     (of_Z 200, ratio 19 50)];
  pwleDefaultLevel := ratio 19 50 |}.
Definition default_actuator : Actuator := {|
  discretePwleMaxLevels := []; pwleDefaultLevel := fone |}.

(** An index given as a float, and the assignment of a vector's element at it. *)
Definition float_index (x : float) : option nat := Z.to_nat <$> to_unsigned 64 x.
Definition assign_at (m : list float) (x y : float) : option (list float) :=
  i ← float_index x;
  if (i <? length m)%nat then Some (<[i := y]> m) else None.

(** The loop over [xp] of [createPwleMaxLevelLimitMap]; [None] also when [fuel] is
    used up. *)
Fixpoint fill_segment (fuel : nat) (x0 y0 x1 y1 xp idx : float) (m : list float)
    : option (list float) :=
  match fuel with
  | O => None
  | S fuel' =>
      if fltb xp (fadd x1 PWLE_FREQUENCY_RESOLUTION_HZ) then
        let yp := fadd y0 (fmul (fdiv (fsub y1 y0) (fsub x1 x0)) (fsub xp x0)) in
        m' ← assign_at m idx yp;
        fill_segment fuel' x0 y0 x1 y1 (fadd xp PWLE_FREQUENCY_RESOLUTION_HZ) (fadd idx fone) m'
      else Some m
  end.

Definition map_index (x : float) : float :=
  fdiv (fsub x PWLE_FREQUENCY_MIN_HZ) PWLE_FREQUENCY_RESOLUTION_HZ.

(** The loop over the pairs of neighbouring points. *)
Fixpoint fill_segments (pts : list (float * float)) (m : list float) : option (list float) :=
  match pts with
  | (x0, y0) :: ((x1, y1) :: _) as rest =>
      m' ← fill_segment 1000 x0 y0 x1 y1 x0 (map_index x0) m;
      fill_segments rest m'
  | _ => Some m
  end.

Definition limit_map (pts : list (float * float)) (m : list float) : option (list float) :=
  match pts with
  | [] => Some m
  | [(x, y)] => assign_at m (map_index x) y
  | _ => fill_segments pts m
  end.

Section code.
Context `{VHw.Driver} `{VHw.Properties} `{Libm} `{Platform} `{Actuator}.

(** ** Helpers *)

Definition amplitudeToScale (amplitude maximum : float) : option Z :=
  to_unsigned 8 (round (fdiv (fmul (of_Z (-20)) (log10f (fdiv amplitude maximum)))
    AMP_ATTENUATE_STEP_SIZE)).

Definition level_at (l : list Z) (i : nat) : V Z := lift (l !! i).

(** *** The haptic PCM device *)

(** [sscanf(token, "%d-%d", card, device)]: an item that does not match leaves the
    rest alone, and a number that does not fit is undefined. *)
Definition scan_int (s : string) : option (Z * string) :=
  let '(neg, s1) := VHw.sign (VHw.skip_space s) in
  match VHw.number s1 with
  | (Some v, r) => Some (if neg then - v else v, r)
  | (None, _) => None
  end.

Definition scan_card (token : string) (card device : Z) : option (Z * Z) :=
  match scan_int token with
  | None => Some (card, device)
  | Some (c, r) =>
      c' ← Pid.ck32 c;
      match r with
      | String "-" r' =>
          match scan_int r' with
          | None => Some (c', device)
          | Some (d, _) => d' ← Pid.ck32 d; Some (c', d')
          end
      | _ => Some (c', device)
      end
  end.

(** [std::getline(ss, token, ':')] *)
Fixpoint until_colon (s : string) : string :=
  match s with
  | String ":" _ => EmptyString
  | String c s' => String c (until_colon s')
  | EmptyString => EmptyString
  end.

Definition HAPTIC_PCM_DEVICE_SYMBOL : string := "haptic nohost playback".

Definition findHapticAlsaDevice : V bool :=
  let* k := event in
  match proc_snd_pcm k with
  | None => ret false
  | Some lines =>
      match filter (λ l, is_Some (String.index 0 HAPTIC_PCM_DEVICE_SYMBOL l)) lines with
      | [] => ret false
      | line :: _ =>
          let* v := get in
          let* cd := lift (scan_card (until_colon line) (mCard (sound v)) (mDevice (sound v))) in
          modify (set_sound (Alsa (mHapticPcm (sound v)) cd.1 cd.2 (mHasHapticAlsaDevice (sound v))
            (configHapticAlsaDeviceDone (sound v)) (open_pcms (sound v)))) ;;
          ret true
      end
  end.

Definition hasHapticAlsaDevice : V bool :=
  let* v := get in
  when (negb (configHapticAlsaDeviceDone (sound v)))
    (let* found := findHapticAlsaDevice in
     when found (modify (λ v, set_sound (Alsa (mHapticPcm (sound v)) (mCard (sound v))
       (mDevice (sound v)) true true (open_pcms (sound v))) v))) ;;
  let* v := get in
  ret (mHasHapticAlsaDevice (sound v)).

Definition set_pcm (p : pcm) (opened : Z) : V unit :=
  modify (λ v, set_sound (Alsa p (mCard (sound v)) (mDevice (sound v))
    (mHasHapticAlsaDevice (sound v)) (configHapticAlsaDeviceDone (sound v))
    (open_pcms (sound v) + opened)) v).

(** The [fail] label: close the device just opened. *)
Definition pcm_fail : V bool := set_pcm PcmNull (-1) ;; ret false.

Definition enableHapticPcmAmp (enable : bool) : V bool :=
  if enable then
    let* k := event in
    set_pcm PcmOpen 1 ;;
    if negb (pcm_is_ready k) then pcm_fail
    else if pcm_prepare k <? 0 then pcm_fail
    else if pcm_start k <? 0 then pcm_fail
    else ret true
  else
    let* v := get in
    match mHapticPcm (sound v) with
    | PcmNull => ret true
    | PcmOpen => set_pcm PcmNull (-1) ;; ret true
    | PcmWild => ub
    end.

(** *** Capabilities *)

Definition getCapabilities : V (list cap) :=
  let base := [CAP_ON_CALLBACK; CAP_PERFORM_CALLBACK; CAP_COMPOSE_EFFECTS; CAP_ALWAYS_ON_CONTROL;
               CAP_GET_RESONANT_FREQUENCY; CAP_GET_Q_FACTOR] in
  let* scale := api VHw.hasEffectScale in
  let* asp := api VHw.hasAspEnable in
  let* external := (if asp then ret true else hasHapticAlsaDevice) in
  let* pwle := api VHw.hasPwle in
  let* v := get in
  ret (base ++ (if scale then [CAP_AMPLITUDE_CONTROL] else [])
            ++ (if external then [CAP_EXTERNAL_CONTROL] else [])
            ++ (if pwle && mIsChirpEnabled v
                then [CAP_FREQUENCY_CONTROL; CAP_COMPOSE_PWLE_EFFECTS] else [])).

Definition has_cap (c : cap) : V bool :=
  let* capabilities := getCapabilities in
  ret (bool_decide (c ∈ capabilities)).

Definition getPwleCompositionSizeMax : V (status * option Z) :=
  let* ok := has_cap CAP_COMPOSE_PWLE_EFFECTS in
  if ok then
    let* r := api (VHw.getAvailablePwleSegments None) in
    match r with
    | (false, _) => ret (EX_ILLEGAL_STATE, None)
    | (true, segments) =>
        let* segments := lift segments in
        let maxSize := if COMPOSE_PWLE_SIZE_LIMIT <? segments then COMPOSE_PWLE_SIZE_LIMIT
                       else segments in
        modify (set_size maxSize) ;;
        ret (Ok, Some maxSize)
    end
  else ret (EX_UNSUPPORTED_OPERATION, None).

Definition createPwleMaxLevelLimitMap : V unit :=
  let* ok := has_cap CAP_FREQUENCY_CONTROL in
  when ok
    (let* v := get in
     let* m := lift (limit_map discretePwleMaxLevels (pwleMaxLevelLimitMap v)) in
     modify (set_limits m)).

Definition supported (c : cap) {A} (a : A) : V (status * option A) :=
  let* ok := has_cap c in
  ret (if ok then (Ok, Some a) else (EX_UNSUPPORTED_OPERATION, None)).

Definition getFrequencyResolution : V (status * option float) :=
  supported CAP_FREQUENCY_CONTROL PWLE_FREQUENCY_RESOLUTION_HZ.
Definition getFrequencyMinimum : V (status * option float) :=
  supported CAP_FREQUENCY_CONTROL PWLE_FREQUENCY_MIN_HZ.
Definition getPwlePrimitiveDurationMax : V (status * option Z) :=
  supported CAP_COMPOSE_PWLE_EFFECTS COMPOSE_PWLE_PRIMITIVE_DURATION_MAX_MS.
(** [Braking::NONE] and [Braking::CLAB] *)
Definition getSupportedBraking : V (status * option (list Z)) :=
  supported CAP_COMPOSE_PWLE_EFFECTS [0; 1].

Definition getResonantFrequency : V float :=
  let* v := get in ret (mResonantFrequency (lv v)).
Definition getQFactor : V float :=
  let* v := get in ret (fdiv (of_Z (VHw.getQ (cal v))) (of_Z (2 ^ Q16_BIT_SHIFT))).

(** ** Bandwidth *)

Definition of_Z64 (z : Z) : double := binary_normalize 53 1024 z 0 false.
Definition dmul : double → double → double := SFmul 53 1024.
Definition ddiv : double → double → double := SFdiv 53 1024.
Definition dsub : double → double → double := SFsub 53 1024.
Definition M_PI : double := S754_finite false 7074237752028440 (-51).

Definition redcToFloat (redcMeasured : Z) : float :=
  narrow (ddiv (dmul (of_Z64 redcMeasured) (ddiv (of_Z64 5857) (of_Z64 1000)))
    (of_Z64 (2 ^ Q17_BIT_SHIFT))).

(** One round of the first loop: the acceleration at [frequencyHz] for the level
    [vLevel]. *)
Definition amplitude_sys (l : levels) (deviceMass locCoeff rSys wnSys frequencyHz vLevel : float)
    : float :=
  let two := of_Z64 2 in
  let frequencyRadians := narrow (dmul (widen (fmul frequencyHz (of_Z 2))) M_PI) in
  let vol1 := match mLongEffectVol l !! 1%nat with Some v => v | None => 0 end in
  let vSys := narrow (dmul (dmul (ddiv (of_Z64 vol1) (of_Z64 100)) (widen (ratio 123 10)))
    (widen vLevel)) in
  let var1 := narrow (pow (dsub (pow (widen wnSys) two) (pow (widen frequencyRadians) two)) two) in
  let var2 := narrow (pow (widen (fdiv (fmul wnSys frequencyRadians) (of_Z 10))) two) in
  let psysAbs := fsqrt (fadd var1 var2) in
  let k := fdiv (fdiv (fmul (fmul vSys (ratio 11 10)) locCoeff) rSys) deviceMass in
  narrow (ddiv (ddiv (dmul (widen k) (pow (widen frequencyRadians) two)) (widen psysAbs))
    (widen (ratio 981 100))).

Fixpoint amplitudes (f : float → float → float) (frequencyHz : float) (limits : list float)
    : list float :=
  match limits with
  | [] => []
  | vLevel :: rest =>
      f frequencyHz vLevel :: amplitudes f (fadd frequencyHz PWLE_FREQUENCY_RESOLUTION_HZ) rest
  end.

Definition max_amplitude (m : list float) : float :=
  fold_left (λ maxAsys a, if fltb maxAsys a then a else maxAsys) m fzero.

Definition generateBandwidthAmplitudeMap : V (list float) :=
  let* v := get in
  let deviceMass := VHw.getDeviceMass in
  let locCoeff := VHw.getLocCoeff in
  if feqb deviceMass fzero || feqb locCoeff fzero || (mRedc (lv v) =? 0) then ret []
  else
    let rSys := redcToFloat (mRedc (lv v)) in
    let wnSys := narrow (dmul (widen (fmul (mResonantFrequency (lv v)) (of_Z 2))) M_PI) in
    let m := amplitudes (amplitude_sys (lv v) deviceMass locCoeff rSys wnSys)
      PWLE_FREQUENCY_MIN_HZ (take PWLE_BW_MAP_SIZE (pwleMaxLevelLimitMap v)) in
    let maxAsys := max_amplitude m in
    if fltb fzero maxAsys then
      modify (λ v, set_bandwidth (mBandwidthAmplitudeMap v) true v) ;;
      ret ((λ a, fdiv (floor (fmul (fdiv a maxAsys) (of_Z 100))) (of_Z 100)) <$> m)
    else ret [].

Definition getBandwidthAmplitudeMap : V (status * list float) :=
  let* ok := has_cap CAP_FREQUENCY_CONTROL in
  if ok then
    let* v := get in
    when (negb (mGenerateBandwidthAmplitudeMapDone v))
      (let* m := generateBandwidthAmplitudeMap in
       modify (λ v, set_bandwidth m (mGenerateBandwidthAmplitudeMapDone v) v)) ;;
    let* v := get in
    ret (match mBandwidthAmplitudeMap v with [] => EX_ILLEGAL_STATE | _ => Ok end,
         mBandwidthAmplitudeMap v)
  else ret (EX_UNSUPPORTED_OPERATION, []).

(** ** Amplitudes *)

Definition status_of (ok : bool) : status := if ok then Ok else EX_ILLEGAL_STATE.

Definition setEffectAmplitude (amplitude maximum : float) : V status :=
  let* scale := lift (amplitudeToScale amplitude maximum) in
  let* ok := api (VHw.setEffectScale scale) in
  ret (status_of ok).

Definition setGlobalAmplitude (set : bool) : V status :=
  let* v := get in
  let* amplitude := (if set then level_at (mLongEffectVol (lv v)) 1 else ret VOLTAGE_SCALE_MAX) in
  let* scale := lift (amplitudeToScale (of_Z (u8 amplitude)) (of_Z VOLTAGE_SCALE_MAX)) in
  let* ok := api (VHw.setGlobalScale scale) in
  ret (status_of ok).

(** The lambda [calc], and [intensityToVolLevel]. *)
Definition calc (intst : float) (v : list Z) : option Z :=
  v0 ← v !! 0%nat;
  v1 ← v !! 1%nat;
  r ← lround (fmul intst (of_Z (u32 (v1 - v0))));
  Some (u32 (r + v0)).

Definition intensityToVolLevel (l : levels) (intensity : float) (effectIndex : Z) : option Z :=
  if effectIndex =? WAVEFORM_LIGHT_TICK_INDEX then calc intensity (mTickEffectVol l)
  else if (effectIndex =? WAVEFORM_QUICK_RISE_INDEX) || (effectIndex =? WAVEFORM_QUICK_FALL_INDEX)
  then calc intensity (mLongEffectVol l)
  else calc intensity (mClickEffectVol l).

(** ** External control *)

(** The two parts of the switch: the PCM device if there is one, then the ASP file. *)
Definition switch_external (enabled : bool) : V bool :=
  let* v := get in
  let* ok := (if mHasHapticAlsaDevice (sound v) then enableHapticPcmAmp enabled else ret true) in
  if ok then
    let* asp := api VHw.hasAspEnable in
    if asp then api (VHw.setAspEnable enabled) else ret true
  else ret false.

Definition setExternalControl (enabled : bool) : V status :=
  setGlobalAmplitude enabled ;;
  let* v := get in
  let finish_ : V status :=
    let* ok := switch_external enabled in
    if ok then modify (set_external enabled) ;; ret Ok else ret EX_ILLEGAL_STATE in
  if eqb (mIsUnderExternalControl v) enabled then
    if enabled then
      let* ok := switch_external (negb enabled) in
      if ok then finish_ else ret EX_ILLEGAL_STATE
    else ret Ok
  else finish_.

(** ** The completion job *)

(** The next call of [waitForComplete]: it polls until the vibration is over (with
    at most [rounds] rounds; if that is not enough it is still waiting), turns the
    device off, and calls the callback.  [None] once it has returned. *)
Definition waitForComplete (rounds : nat) (j : job) : V (option job) := λ v,
  match next_call j with
  | Polling =>
      match api (VHw.pollVibeState rounds false) v with
      | Some (Some _, v') => Some (Some (Job Deactivating (notify j)), v')
      | _ => Some (Some j, v)
      end
  | Deactivating =>
      (api_ (VHw.setActivate false) ;; ret (Some (Job Calling (notify j)))) v
  | Calling =>
      Some (None, set_job (mAsyncHandle v)
        (completed v ++ match notify j with Some c => [c] | None => [] end) v)
  end.

(** A job makes up to [calls] calls. *)
Fixpoint advance (calls rounds : nat) (j : job) : V (option job) :=
  match calls with
  | O => ret (Some j)
  | S calls' =>
      let* r := waitForComplete rounds j in
      match r with
      | None => ret None
      | Some j' => advance calls' rounds j'
      end
  end.

(** The pending job makes up to [calls] calls; is it ready?  This is what a
    [wait_for] sees. *)
Definition progress (calls rounds : nat) : V bool :=
  let* v := get in
  match mAsyncHandle v with
  | None => ret true
  | Some j =>
      let* r := advance calls rounds j in
      modify (λ v, set_job r (completed v) v) ;;
      ret (match r with None => true | Some _ => false end)
  end.

(** A call of a job, if it has not returned. *)
Definition call_if_running (rounds : nat) (j : option job) : V (option job) :=
  match j with Some j => waitForComplete rounds j | None => ret None end.

(** The new job and the one it replaces run at once, until the old one has returned;
    the result is what is left of the new one.  [None] when the schedule ends before:
    the assignment still waits. *)
Fixpoint race (schedule : list bool) (rounds : nat) (old : job) (new : option job)
    : V (option job) :=
  match schedule with
  | [] => ub
  | true :: schedule' =>
      let* new' := call_if_running rounds new in
      race schedule' rounds old new'
  | false :: schedule' =>
      let* r := waitForComplete rounds old in
      match r with
      | None => ret new
      | Some old' => race schedule' rounds old' new
      end
  end.

(** [mAsyncHandle = std::async(...)]: the new job is launched, then the assignment
    waits for the job it replaces, if that one has not returned. *)
Definition start_job (callback : option nat) : V unit :=
  let* k := event in
  let* v := get in
  let new := Some (Job Polling callback) in
  match mAsyncHandle v with
  | None => modify (λ v, set_job new (completed v) v)
  | Some old =>
      let* new' := race (job_schedule k) (job_rounds k) old new in
      modify (λ v, set_job new' (completed v) v)
  end.

(** ** Vibrating *)

Definition off : V status :=
  setGlobalAmplitude false ;;
  api_ (VHw.setF0Offset 0) ;;
  let* ok := api (VHw.setActivate false) in
  if ok then modify (set_active_id (-1)) ;; ret Ok else ret EX_ILLEGAL_STATE.

(** The private [on]. *)
Definition on_index (timeoutMs effectIndex : Z) (callback : option nat) : V status :=
  let* v := get in
  when (mIsUnderExternalControl v) (setExternalControl false ;; ret tt) ;;
  let* k := event in
  let* ready := progress (job_calls k) (job_rounds k) in
  if ready then
    api_ (VHw.setEffectIndex effectIndex) ;;
    api_ (VHw.setDuration timeoutMs) ;;
    api_ (VHw.setActivate true) ;;
    modify (set_active_id (i8 effectIndex)) ;;
    start_job callback ;;
    ret Ok
  else ret EX_ILLEGAL_STATE.

(** The public [on]: the comparison is unsigned, the addition signed. *)
Definition on (timeoutMs : Z) (callback : option nat) : V status :=
  let* t := lift (if MAX_COLD_START_LATENCY_MS <=? u32 (UINT32_MAX - u32 timeoutMs)
                  then Pid.ck32 (timeoutMs + MAX_COLD_START_LATENCY_MS) else Some timeoutMs) in
  setGlobalAmplitude true ;;
  let* v := get in
  api_ (VHw.setF0Offset (mF0Offset (lv v))) ;;
  on_index (u32 t) WAVEFORM_LONG_VIBRATION_EFFECT_INDEX callback.

Definition setAmplitude (amplitude : float) : V status :=
  if fleb amplitude fzero || fltb fone amplitude then ret EX_ILLEGAL_ARGUMENT
  else
    let* v := get in
    if mIsUnderExternalControl v then ret EX_UNSUPPORTED_OPERATION
    else setEffectAmplitude amplitude fone.

(** *** Effects *)

Definition simple_intensity (strength : EffectStrength) : option float :=
  match strength with
  | LIGHT => Some (ratio 1 2)
  | MEDIUM => Some (ratio 7 10)
  | STRONG => Some fone
  | OtherStrength _ => None
  end.

Definition simple_index (effect : Effect) : option Z :=
  match effect with
  | TEXTURE_TICK | TICK => Some WAVEFORM_LOW_TICK_INDEX
  | CLICK => Some WAVEFORM_CLICK_INDEX
  | THUD => Some WAVEFORM_CUSTOM_TICK_INDEX_1
  | POP => Some WAVEFORM_CUSTOM_TICK_INDEX_2
  | HEAVY_CLICK => Some WAVEFORM_CUSTOM_TICK_INDEX_3
  | DOUBLE_CLICK | OtherEffect _ => None
  end.

(** The effect's index, time and level, [inl] of the status otherwise. *)
Definition getSimpleDetails (l : levels) (effect : Effect) (strength : EffectStrength)
    : option (status + Z * Z * Z) :=
  match simple_intensity strength, simple_index effect with
  | Some intensity, Some effectIndex =>
      volLevel ← intensityToVolLevel l intensity effectIndex;
      d ← mEffectDurations l !! Z.to_nat effectIndex;
      Some (inr (effectIndex, u32 (d + MAX_COLD_START_LATENCY_MS), volLevel))
  | _, _ => Some (inl EX_UNSUPPORTED_OPERATION)
  end.

Definition getCompoundDetails (l : levels) (effect : Effect) (strength : EffectStrength)
    : option (status + Z * string) :=
  match effect with
  | DOUBLE_CLICK =>
      r1 ← getSimpleDetails l CLICK strength;
      match r1 with
      | inl st => Some (inl st)
      | inr (i1, t1, v1) =>
          r2 ← getSimpleDetails l HEAVY_CLICK strength;
          match r2 with
          | inl st => Some (inl st)
          | inr (i2, t2, v2) =>
              Some (inr
                (u32 (u32 (u32 (0 + t1) + (WAVEFORM_DOUBLE_CLICK_SILENCE_MS +
                   MAX_PAUSE_TIMING_ERROR_MS)) + t2),
                 (dec i1 ++ "." ++ dec v1 ++ "," ++ dec WAVEFORM_DOUBLE_CLICK_SILENCE_MS ++ "," ++
                  dec i2 ++ "." ++ dec v2)%string))
          end
      end
  | _ => Some (inl EX_UNSUPPORTED_OPERATION)
  end.

Definition setEffectQueue (effectQueue : string) : V status :=
  let* ok := api (VHw.setEffectQueue effectQueue) in ret (status_of ok).

(** The private [performEffect]. *)
Definition performEffect_index (effectIndex volLevel : Z) (effectQueue : string)
    (callback : option nat) : V status :=
  if negb (String.eqb effectQueue EmptyString) then
    let* st := setEffectQueue effectQueue in
    if decide (st = Ok) then
      setEffectAmplitude (of_Z VOLTAGE_SCALE_MAX) (of_Z VOLTAGE_SCALE_MAX) ;;
      on_index MAX_TIME_MS WAVEFORM_TRIGGER_QUEUE_INDEX callback
    else ret st
  else
    setEffectAmplitude (of_Z volLevel) (of_Z VOLTAGE_SCALE_MAX) ;;
    on_index MAX_TIME_MS effectIndex callback.

(** [perform] and [performEffect]: the status and the time returned. *)
Definition performEffect (effect : Effect) (strength : EffectStrength) (callback : option nat)
    : V (status * Z) :=
  let* v := get in
  match effect with
  | TEXTURE_TICK | TICK | CLICK | HEAVY_CLICK | THUD | POP =>
      let* r := lift (getSimpleDetails (lv v) effect strength) in
      match r with
      | inl st => ret (st, 0)
      | inr (effectIndex, timeMs, volLevel) =>
          let* st := performEffect_index effectIndex volLevel EmptyString callback in
          ret (st, i32 timeMs)
      end
  | DOUBLE_CLICK =>
      let* r := lift (getCompoundDetails (lv v) effect strength) in
      match r with
      | inl st => ret (st, 0)
      | inr (timeMs, effectQueue) =>
          let* st := performEffect_index 0 0 effectQueue callback in
          ret (st, i32 timeMs)
      end
  | OtherEffect _ => ret (EX_UNSUPPORTED_OPERATION, 0)
  end.
Definition perform := performEffect.

Definition getSupportedEffects : list Effect :=
  [TEXTURE_TICK; TICK; CLICK; HEAVY_CLICK; DOUBLE_CLICK; POP; THUD].
Definition getSupportedAlwaysOnEffects : list Effect := [TEXTURE_TICK; TICK; CLICK; HEAVY_CLICK].

Definition alwaysOnEnable (id : Z) (effect : Effect) (strength : EffectStrength) : V status :=
  let* v := get in
  let* r := lift (getSimpleDetails (lv v) effect strength) in
  match r with
  | inl st => ret st
  | inr (effectIndex, _, volLevel) =>
      let* scale := lift (amplitudeToScale (of_Z volLevel) (of_Z VOLTAGE_SCALE_MAX)) in
      match AlwaysOnId_cast id with
      | Some GPIO_RISE =>
          api_ (VHw.setGpioRiseIndex effectIndex) ;; api_ (VHw.setGpioRiseScale scale) ;; ret Ok
      | Some GPIO_FALL =>
          api_ (VHw.setGpioFallIndex effectIndex) ;; api_ (VHw.setGpioFallScale scale) ;; ret Ok
      | None => ret EX_UNSUPPORTED_OPERATION
      end
  end.

Definition alwaysOnDisable (id : Z) : V status :=
  match AlwaysOnId_cast id with
  | Some GPIO_RISE => api_ (VHw.setGpioRiseIndex 0) ;; ret Ok
  | Some GPIO_FALL => api_ (VHw.setGpioFallIndex 0) ;; ret Ok
  | None => ret EX_UNSUPPORTED_OPERATION
  end.

(** *** Compositions *)

Definition getCompositionDelayMax : Z := COMPOSE_DELAY_MAX_MS.
Definition getCompositionSizeMax : Z := COMPOSE_SIZE_MAX.
Definition getSupportedPrimitives : list CompositePrimitive :=
  [P_NOOP; P_CLICK; P_THUD; P_SPIN; P_QUICK_RISE; P_SLOW_RISE; P_QUICK_FALL; P_LIGHT_TICK;
   P_LOW_TICK].

Definition getPrimitiveDetails (p : CompositePrimitive) : status + Z :=
  match p with
  | P_NOOP => inl EX_ILLEGAL_ARGUMENT
  | P_CLICK => inr WAVEFORM_CLICK_INDEX
  | P_THUD => inr WAVEFORM_THUD_INDEX
  | P_SPIN => inr WAVEFORM_SPIN_INDEX
  | P_QUICK_RISE => inr WAVEFORM_QUICK_RISE_INDEX
  | P_SLOW_RISE => inr WAVEFORM_SLOW_RISE_INDEX
  | P_QUICK_FALL => inr WAVEFORM_QUICK_FALL_INDEX
  | P_LIGHT_TICK => inr WAVEFORM_LIGHT_TICK_INDEX
  | P_LOW_TICK => inr WAVEFORM_LOW_TICK_INDEX
  | P_Other _ => inl EX_UNSUPPORTED_OPERATION
  end.

Definition getPrimitiveDuration (p : CompositePrimitive) : V (status * Z) :=
  if decide (p = P_NOOP) then ret (Ok, 0)
  else
    match getPrimitiveDetails p with
    | inl st => ret (st, 0)
    | inr effectIndex =>
        let* v := get in
        let* d := lift (mEffectDurations (lv v) !! Z.to_nat effectIndex) in
        ret (Ok, i32 d)
    end.

(** What one element adds to the queue, and the loop over the elements. *)
Definition compose_element (l : levels) (e : CompositeEffect) : option (status + string) :=
  if fltb (scale e) fzero || fltb fone (scale e) then Some (inl EX_ILLEGAL_ARGUMENT)
  else if negb (delayMs e =? 0) && (COMPOSE_DELAY_MAX_MS <? delayMs e)
  then Some (inl EX_ILLEGAL_ARGUMENT)
  else
    let delay := if delayMs e =? 0 then EmptyString else (dec (delayMs e) ++ ",")%string in
    if decide (primitive e = P_NOOP) then Some (inr delay)
    else
      match getPrimitiveDetails (primitive e) with
      | inl st => Some (inl st)
      | inr effectIndex =>
          vol ← intensityToVolLevel l (scale e) effectIndex;
          Some (inr (delay ++ dec effectIndex ++ "." ++ dec vol ++ ",")%string)
      end.

Fixpoint compose_loop (l : levels) (es : list CompositeEffect) (effectBuilder : string)
    : option (status + string) :=
  match es with
  | [] => Some (inr effectBuilder)
  | e :: es' =>
      r ← compose_element l e;
      match r with
      | inl st => Some (inl st)
      | inr x => compose_loop l es' (effectBuilder ++ x)%string
      end
  end.

Definition compose (composite : list CompositeEffect) (callback : option nat) : V status :=
  if COMPOSE_SIZE_MAX <? Z.of_nat (length composite) then ret EX_ILLEGAL_ARGUMENT
  else
    let* v := get in
    let* r := lift (compose_loop (lv v) composite EmptyString) in
    match r with
    | inl st => ret st
    | inr effectBuilder =>
        if String.eqb effectBuilder EmptyString then ret EX_ILLEGAL_ARGUMENT
        else performEffect_index 0 0 (effectBuilder ++ "0")%string callback
    end.

(** *** Piecewise-linear envelopes *)

Definition setPwle (pwleQueue : string) : V status :=
  let* ok := api (VHw.setPwle pwleQueue) in ret (status_of ok).

Definition incrementIndex (index : Z) : Z := index + 1.

Definition constructActiveDefaults (segmentIdx : Z) : string :=
  let i := dec segmentIdx in
  (",C" ++ i ++ ":1" ++ ",B" ++ i ++ ":0" ++ ",AR" ++ i ++ ":0" ++ ",V" ++ i ++ ":0")%string.

Definition constructActiveSegment (segmentIdx duration : Z) (amplitude frequency : float)
    : option string :=
  let i := dec segmentIdx in
  a ← print1 amplitude;
  f ← lround frequency;
  Some (",T" ++ i ++ ":" ++ dec duration ++ ",L" ++ i ++ ":" ++ a ++ ",F" ++ i ++ ":" ++ dec f
        ++ constructActiveDefaults segmentIdx)%string.

Definition constructBrakingSegment (segmentIdx duration brakingType : Z) (frequency : float)
    : option string :=
  let i := dec segmentIdx in
  f ← lround frequency;
  Some (",T" ++ i ++ ":" ++ dec duration ++ ",L" ++ i ++ ":0" ++ ",F" ++ i ++ ":" ++ dec f
        ++ ",C" ++ i ++ ":0" ++ ",B" ++ i ++ ":" ++ dec brakingType
        ++ ",AR" ++ i ++ ":0" ++ ",V" ++ i ++ ":0")%string.

(** The variables of the loop of [composePwle]. *)
Record pwle_state := Pwle {
  pwleBuilder : string;
  prevEndAmplitude : float;
  prevEndFrequency : float;
  segmentIdx : Z;
  totalDuration : Z;
}.

(** Clip to [CS40L2X_PWLE_LEVEL_MAX] and to the limit at the frequency. *)
Definition clip_max (amplitude : float) : float :=
  if fltb CS40L2X_PWLE_LEVEL_MAX amplitude then CS40L2X_PWLE_LEVEL_MAX else amplitude.

Definition max_level_limit (m : list float) (frequency : float) : option float :=
  i ← float_index (fsub (fdiv frequency PWLE_FREQUENCY_RESOLUTION_HZ) fone);
  m !! i.

Definition clip_limit (m : list float) (amplitude frequency : float) : option float :=
  limit ← max_level_limit m frequency;
  Some (if fltb limit amplitude then limit else amplitude).

Definition level_ok (a : float) : bool := negb (fltb a PWLE_LEVEL_MIN || fltb PWLE_LEVEL_MAX a).
Definition frequency_ok (f : float) : bool :=
  negb (fltb f PWLE_FREQUENCY_MIN_HZ || fltb PWLE_FREQUENCY_MAX_HZ f).

Definition pwle_active (m : list float) (sa sf ea ef : float) (duration : Z) (p : pwle_state)
    : option (status + pwle_state) :=
  if (duration <? 0) || (COMPOSE_PWLE_PRIMITIVE_DURATION_MAX_MS <? duration)
  then Some (inl EX_ILLEGAL_ARGUMENT)
  else if negb (level_ok sa && level_ok ea) then Some (inl EX_ILLEGAL_ARGUMENT)
  else if negb (frequency_ok sf && frequency_ok ef) then Some (inl EX_ILLEGAL_ARGUMENT)
  else
    startAmplitude ← clip_limit m (clip_max sa) sf;
    endAmplitude ← clip_limit m (clip_max ea) ef;
    '(b, i) ← (if feqb startAmplitude (prevEndAmplitude p) && feqb sf (prevEndFrequency p)
               then Some (EmptyString, segmentIdx p)
               else
                 x ← constructActiveSegment (segmentIdx p) 0 startAmplitude sf;
                 Some (x, incrementIndex (segmentIdx p)));
    x ← constructActiveSegment i duration endAmplitude ef;
    Some (inr (Pwle (pwleBuilder p ++ b ++ x)%string endAmplitude ef (incrementIndex i)
                (u32 (totalDuration p + duration)))).

Definition pwle_braking (braking duration : Z) (p : pwle_state) : option (status + pwle_state) :=
  if 1 <? braking then Some (inl EX_ILLEGAL_ARGUMENT)
  else if COMPOSE_PWLE_PRIMITIVE_DURATION_MAX_MS <? duration then Some (inl EX_ILLEGAL_ARGUMENT)
  else
    x ← constructBrakingSegment (segmentIdx p) duration braking (prevEndFrequency p);
    Some (inr (Pwle (pwleBuilder p ++ x)%string fzero (prevEndFrequency p)
                (incrementIndex (segmentIdx p)) (u32 (totalDuration p + duration)))).

Fixpoint pwle_loop (m : list float) (es : list PrimitivePwle) (p : pwle_state)
    : option (status + pwle_state) :=
  match es with
  | [] => Some (inr p)
  | e :: es' =>
      r ← match e with
          | ActivePwle sa sf ea ef d => pwle_active m sa sf ea ef d p
          | BrakingPwle b d => pwle_braking b d p
          end;
      match r with
      | inl st => Some (inl st)
      | inr p' => pwle_loop m es' p'
      end
  end.

Definition pwle_start (v : vib) : pwle_state :=
  Pwle "S:0,WF:4,RP:0,WT:0" fzero (mResonantFrequency (lv v)) 0 0.

Definition composePwle (composite : list PrimitivePwle) (callback : option nat) : V status :=
  let* v := get in
  if negb (mIsChirpEnabled v) then ret EX_UNSUPPORTED_OPERATION
  else if (length composite =? 0)%nat || (u64 (mCompositionSizeMax v) <? Z.of_nat (length composite))
  then ret EX_ILLEGAL_ARGUMENT
  else
    let* r := lift (pwle_loop (pwleMaxLevelLimitMap v) composite (pwle_start v)) in
    match r with
    | inl st => ret st
    | inr p =>
        if CS40L2X_PWLE_LENGTH_MAX <? Z.of_nat (String.length (pwleBuilder p))
        then ret EX_ILLEGAL_STATE
        else
          let* st := setPwle (pwleBuilder p) in
          if decide (st = Ok) then
            setEffectAmplitude (of_Z VOLTAGE_SCALE_MAX) (of_Z VOLTAGE_SCALE_MAX) ;;
            api_ (VHw.setEffectIndex WAVEFORM_UNSAVED_TRIGGER_QUEUE_INDEX) ;;
            api_ (VHw.setDuration (u32 (totalDuration p + MAX_COLD_START_LATENCY_MS))) ;;
            api_ (VHw.setActivate true) ;;
            start_job callback ;;
            ret Ok
          else ret st
    end.

Definition setPwleRampDown : V unit :=
  if negb (feqb RAMP_DOWN_TIME_MS fzero) then
    let seconds := fdiv RAMP_DOWN_TIME_MS (of_Z 1000) in
    let* ramp_down_coefficient := lift (to_unsigned 32 (fdiv RAMP_DOWN_CONSTANT seconds)) in
    api_ (VHw.setPwleRampDown ramp_down_coefficient)
  else api_ (VHw.setPwleRampDown 0).

(** [RAMP_DOWN_TIME_MS] is 0, which turns the feature off. *)
Lemma setPwleRampDown_off : setPwleRampDown = api_ (VHw.setPwleRampDown 0).
Proof. reflexivity. Qed.

(** ** The constructor *)

Definition f0_offset (longFreqencyShift : Z) : option Z :=
  z ← (if 0 <? longFreqencyShift then Some (longFreqencyShift * 2 ^ 14)
       else if longFreqencyShift <? 0 then
         _ ← Pid.ck32 (- longFreqencyShift); Some (2 ^ 24 - Z.abs longFreqencyShift * 2 ^ 14)
       else Some 0);
  if (0 <=? z) && (z <? 2 ^ 32) then Some z else None.

(** The levels of tick, click and long effects. *)
Definition click_minimum (v0 v4 : Z) : option Z :=
  r ← lround (fsub (of_Z v0) (fdiv (of_Z (u32 (v4 - v0))) (of_Z 4)));
  Some (u32 (Z.max r WAVEFORM_EFFECT_LEVEL_MINIMUM)).

Definition effect_levels (c : gmap string string) : option (list Z * list Z * list Z) :=
  if VHw.getVersion c =? 1 then
    let volLevels := VHw.getVolLevels c in
    v0 ← volLevels !! WAVEFORM_EFFECT_0_20_LEVEL;
    v4 ← volLevels !! WAVEFORM_EFFECT_1_00_LEVEL;
    v5 ← volLevels !! VOLTAGE_GLOBAL_SCALE_LEVEL;
    m ← click_minimum v0 v4;
    Some ([m; v4], [m; v4], [0; v5])
  else Some (VHw.getTickVolLevels c, VHw.getClickVolLevels c, VHw.getLongVolLevels c).

(** The loop over the effects, from index [i]; an unread duration stays 0. *)
Fixpoint effect_durations (n : nat) (i : Z) : V (list Z) :=
  match n with
  | O => ret []
  | S n' =>
      api_ (VHw.setEffectIndex i) ;;
      let* r := api (VHw.getEffectDuration None) in
      let* d := (match r with
                 | (true, Some d) => lift (to_unsigned 32 (ceil (fdiv (of_Z d) EFFECT_FREQUENCY_KHZ)))
                 | (true, None) => ub
                 | (false, _) => ret 0
                 end) in
      let* ds := effect_durations n' (i + 1) in
      ret (d :: ds)
  end.

Definition read_levels (c : gmap string string) : V levels :=
  let* f0 := (match VHw.getF0 c with
              | Some caldata =>
                  api_ (VHw.setF0 caldata) ;;
                  ret (fdiv (of_Z caldata) (of_Z (2 ^ Q14_BIT_SHIFT)))
              | None => ret RESONANT_FREQUENCY_DEFAULT
              end) in
  let* redc := (match VHw.getRedc c with
                | Some caldata => api_ (VHw.setRedc caldata) ;; ret caldata
                | None => ret 0
                end) in
  api_ (VHw.setQ (VHw.getQ c)) ;;
  let* offset := lift (f0_offset VHw.getLongFrequencyShift) in
  let* vols := lift (effect_levels c) in
  let* count := api (VHw.getEffectCount None) in
  let* count := lift count.2 in
  let* durations := effect_durations (Z.to_nat count) 0 in
  ret (Levels offset vols.1.1 vols.1.2 vols.2 durations f0 redc).

(** [raw] and [chirp] are what the memory of the object holds for the members that
    the constructor's calls read before anything is assigned to them, or that it
    never assigns; the other members are assigned before they are read, and start
    as zeros here. *)
Definition Vibrator_new (c : gmap string string) (raw : alsa) (chirp : bool) : option vib :=
  let v0 := Vib VHw.HwApi_new c (Levels 0 [0; 0] [0; 0] [0; 0] [] fzero 0)
    (Alsa (mHapticPcm raw) (mCard raw) (mDevice raw) (mHasHapticAlsaDevice raw) false 0)
    None [] 0 false (-1) chirp [] false (replicate PWLE_BW_MAP_SIZE pwleDefaultLevel) 0 in
  snd <$> (
    api_ (VHw.setState true) ;;
    let* l := read_levels c in
    modify (set_lv l) ;;
    api_ (VHw.setClabEnable true) ;;
    let* size := getPwleCompositionSizeMax in
    (if decide (size.1 = Ok) then ret tt else modify (set_size COMPOSE_PWLE_SIZE_LIMIT)) ;;
    createPwleMaxLevelLimitMap ;;
    modify (λ v, set_bandwidth (mBandwidthAmplitudeMap v) false v) ;;
    let* m := generateBandwidthAmplitudeMap in
    modify (λ v, set_bandwidth m (mGenerateBandwidthAmplitudeMapDone v) v) ;;
    modify (set_external false) ;;
    setPwleRampDown ;;
    modify (set_chirp VHw.isChirpEnabled)) v0.

(** ** Runs *)

Inductive request :=
  | ROff | ROn (timeoutMs : Z) (callback : option nat)
  | RPerform (e : Effect) (s : EffectStrength) (callback : option nat)
  | RSetAmplitude (a : float) | RSetExternalControl (b : bool)
  | RCompose (c : list CompositeEffect) (callback : option nat)
  | RComposePwle (c : list PrimitivePwle) (callback : option nat)
  | RAlwaysOnEnable (id : Z) (e : Effect) (s : EffectStrength) | RAlwaysOnDisable (id : Z)
  | RGetCapabilities | RGetPwleCompositionSizeMax | RGetBandwidthAmplitudeMap
  | RJob (calls rounds : nat).       (* the pending job runs for a while *)

Definition done_ {A} (m : V A) : V unit := m ;; ret tt.

Definition run (r : request) : V unit :=
  match r with
  | ROff => done_ off
  | ROn t cb => done_ (on t cb)
  | RPerform e s cb => done_ (perform e s cb)
  | RSetAmplitude a => done_ (setAmplitude a)
  | RSetExternalControl b => done_ (setExternalControl b)
  | RCompose c cb => done_ (compose c cb)
  | RComposePwle c cb => done_ (composePwle c cb)
  | RAlwaysOnEnable id e s => done_ (alwaysOnEnable id e s)
  | RAlwaysOnDisable id => done_ (alwaysOnDisable id)
  | RGetCapabilities => done_ getCapabilities
  | RGetPwleCompositionSizeMax => done_ getPwleCompositionSizeMax
  | RGetBandwidthAmplitudeMap => done_ getBandwidthAmplitudeMap
  | RJob n rounds => done_ (progress n rounds)
  end.

Fixpoint run_all (rs : list request) : V unit :=
  match rs with
  | [] => ret tt
  | r :: rs' => run r ;; run_all rs'
  end.

(** The states some sequence of requests leads to from the constructor. *)
Definition reachable (v : vib) : Prop :=
  ∃ c raw chirp v0 rs, Vibrator_new c raw chirp = Some v0 ∧ run_all rs v0 = Some (tt, v).
End code.
End Vibrator.
