(* ===== verification/VibratorProps.v ===== *)
(** * VibratorProps: properties of the vibrator service

    The well-formedness of the service's state over all runs, what each call
    sends to the driver, and the defects the model shows. *)

From Stdlib Require Import SpecFloat.
From stdpp Require Import gmap strings.
From S2P Require Import Prelude PowerPid Float32 Text VibratorHw Vibrator.

Module VibratorProps.
Import F32 Vibrator.

(** ** Well-formed states *)

Definition u32_list (n : nat) (l : list Z) : Prop :=
  length l = n ∧ Forall (λ z, 0 ≤ z < 2 ^ 32) l.

(** The ring of records has its size, and every record is of one of the files
    the constructor opened. *)
Definition records_ok (rs : list (option VHw.Record_)) : Prop :=
  length rs = VHw.RECORDS_SIZE ∧ Forall (λ r, VHw.mStream r ∈ VHw.hwapi_names) (omap id rs).

Record wf (v : vib) : Prop := Wf {
  wf_records : records_ok (VHw.mRecords (hw v));
  wf_limits : length (pwleMaxLevelLimitMap v) = PWLE_BW_MAP_SIZE;
  wf_size : 0 ≤ mCompositionSizeMax v ≤ COMPOSE_PWLE_SIZE_LIMIT;
  wf_active : - 2 ^ 7 ≤ mActiveId v < 2 ^ 7;
  wf_map : mBandwidthAmplitudeMap v = [] ∨ length (mBandwidthAmplitudeMap v) = PWLE_BW_MAP_SIZE;
  wf_done : mGenerateBandwidthAmplitudeMapDone v = true →
    length (mBandwidthAmplitudeMap v) = PWLE_BW_MAP_SIZE;
  wf_tick : u32_list 2 (mTickEffectVol (lv v));
  wf_click : u32_list 2 (mClickEffectVol (lv v));
  wf_long : u32_list 2 (mLongEffectVol (lv v));
  wf_f0 : 0 ≤ mF0Offset (lv v) < 2 ^ 32;
  wf_frequency : below (2 ^ 18) (mResonantFrequency (lv v));
}.

(** [m] keeps states well formed and its result satisfies [Q]. *)
Definition ok {A} (m : V A) (Q : A → Prop) : Prop :=
  ∀ v a v', wf v → m v = Some (a, v') → wf v' ∧ Q a.

Abbreviation keeps m := (ok m (λ _, True)).

(** A driver call keeps the ring of records well formed. *)
Definition hw_ok {A} (m : VHw.HW A) (Q : A → Prop) : Prop :=
  ∀ s a s', m s = Some (a, s') →
    records_ok (VHw.mRecords s) → records_ok (VHw.mRecords s') ∧ Q a.

Create HintDb vib.

Section rules.
Lemma ok_ret {A} (a : A) (Q : A → Prop) : Q a → ok (ret a) Q.
Proof. by intros HQ v b v' Hv [= <- <-]. Qed.
Lemma ok_bind {A B} (m : V A) (k : A → V B) Q R :
  ok m Q → (∀ a, Q a → ok (k a) R) → ok (bind m k) R.
Proof.
  intros Hm Hk v b v'' Hv. unfold bind. destruct (m v) as [[a v']|] eqn:E; [|done].
  destruct (Hm v a v' Hv E) as [Hv' Ha]. by apply Hk.
Qed.
Lemma ok_lift {A} (o : option A) (Q : A → Prop) : (∀ a, o = Some a → Q a) → ok (lift o) Q.
Proof. intros HQ v a v' Hv. unfold lift. destruct o; [|done]. intros [= <- <-]. auto. Qed.
Lemma ok_ub {A} (Q : A → Prop) : ok ub Q.
Proof. by intros v a v' Hv. Qed.
Lemma ok_get : ok get wf.
Proof. by intros v a v' Hv [= <- <-]. Qed.
Lemma ok_event (Q : nat → Prop) : (∀ k, Q k) → ok event Q.
Proof. intros HQ v a v' [] [= <- <-]. split; [by constructor|done]. Qed.
Lemma ok_modify f : (∀ v, wf v → wf (f v)) → keeps (modify f).
Proof. intros Hf v a v' Hv [= _ <-]. auto. Qed.
Lemma ok_when b m : keeps m → keeps (when b m).
Proof. destruct b; [done|]. intros _. by apply ok_ret. Qed.
Lemma ok_weaken {A} (m : V A) Q : ok m Q → keeps m.
Proof. intros Hm v a v' Hv E. by destruct (Hm v a v' Hv E). Qed.
Lemma ok_api {A} (m : VHw.HW A) Q : hw_ok m Q → ok (api m) Q.
Proof.
  intros Hm v a v' Hv. unfold api. destruct (m (hw v)) as [[b h]|] eqn:E; [|done]. intros [= <- <-].
  destruct Hv as [Hr]. destruct (Hm _ _ _ E Hr). split; [by constructor|done].
Qed.
Lemma ok_api_ m Q : hw_ok m Q → keeps (api_ m).
Proof. intros Hm. eapply ok_bind; [by apply ok_api|]. intros. by apply ok_ret. Qed.
Lemma ok_any {A} (m : V A) (Q : A → Prop) : keeps m → (∀ a, Q a) → ok m Q.
Proof. intros Hm HQ v a v' Hv E. destruct (Hm v a v' Hv E). auto. Qed.
End rules.

(** ** The driver's records and values *)

(** A file the constructor opens. *)
Ltac file_name := apply (bool_decide_unpack _); vm_compute; exact I.

Section records.
Context `{VHw.Driver}.

Lemma record_ok f x n s s' :
  n ∈ VHw.hwapi_names → VHw.record f x n s = Some (tt, s') →
  records_ok (VHw.mRecords s) → records_ok (VHw.mRecords s').
Proof.
  intros Hn [= <-] [Hl Hf]. cbn [VHw.mRecords]. destruct (VHw.mRecords s) as [|r rs]; [done|].
  cbn [app tl]. split.
  - rewrite length_app. cbn in *. lia.
  - rewrite omap_app, Forall_app. split; [|by apply Forall_singleton].
    destruct r; [by apply Forall_cons in Hf as [_ ?]|done].
Qed.

Lemma scan_u32_range s z : VHw.assigned (VHw.scan_u32 s) = Some z → 0 ≤ z < 2 ^ 32.
Proof.
  unfold VHw.scan_u32, VHw.scan_with. destruct (VHw.skip_space s); [done|].
  destruct (VHw.sign _) as [neg s2]. destruct (VHw.number s2) as [[v|] r]; [|by intros [= <-]].
  destruct (v <? 2 ^ 32); intros [= <-]; [|lia]. apply (wrapu_range 32); lia.
Qed.

(** What [get] of a number may return. *)
Definition u32_read (r : bool * option Z) : Prop :=
  ∀ z, r.2 = Some z → 0 ≤ z < 2 ^ 32.

Lemma hw_get_u32 n : n ∈ VHw.hwapi_names → hw_ok (VHw.get_u32 None n) u32_read.
Proof.
  intros Hn s [b o] s'. unfold VHw.get_u32, VHw.get, bind. cbn [VHw.hw_get].
  destruct (VHw.usable n s) eqn:Hu; intros E; cbn -[VHw.record VHw.scan_u32] in E.
  - destruct (VHw.record _ _ _ _) as [[[] s2]|] eqn:Er; [|done]. injection E as <- <- <-.
    intros Hl. split; [by apply (record_ok _ _ _ _ _ Hn Er)|]. intros z. cbn.
    destruct (VHw.assigned _) as [z'|] eqn:Ea; [|done]. intros [= <-]. by eapply scan_u32_range.
  - destruct (VHw.record _ _ _ _) as [[[] s2]|] eqn:Er; [|done]. injection E as <- <- <-.
    intros Hl. split; [by apply (record_ok _ _ _ _ _ Hn Er)|]. by intros z.
Qed.

Lemma hw_set x n : n ∈ VHw.hwapi_names → hw_ok (VHw.set x n) (λ _, True).
Proof.
  intros Hn s b s'. unfold VHw.set, bind. cbn -[VHw.record].
  destruct (VHw.record _ _ _ _) as [[[] s2]|] eqn:Er; [|done]. intros [= <- <-] Hl.
  split; [|done]. by apply (record_ok _ _ _ _ _ Hn Er).
Qed.

Lemma hw_has n : hw_ok (VHw.has n) (λ _, True).
Proof. by intros s b s' [= <- <-]. Qed.

Lemma hw_get_bool old n : n ∈ VHw.hwapi_names → hw_ok (VHw.get_bool old n) (λ _, True).
Proof.
  intros Hn s b s'. unfold VHw.get_bool, VHw.get, bind. cbn -[VHw.record].
  destruct (if VHw.usable n s then _ else _) as [r o]. cbn -[VHw.record].
  destruct (VHw.record _ _ _ _) as [[[] s2]|] eqn:Er; [|done]. intros [= <- <-] Hl.
  split; [|done]. by apply (record_ok _ _ _ _ _ Hn Er).
Qed.

Lemma hw_poll_loop fuel b n o :
  n ∈ VHw.hwapi_names → hw_ok (VHw.poll_loop fuel b n o) (λ _, True).
Proof.
  intros Hn. revert o. induction fuel as [|fuel IH]; intros o s a s' E Hl; cbn [VHw.poll_loop] in E.
  { by injection E as <- <-. }
  unfold bind at 1 in E. destruct (VHw.get_bool o n s) as [[[r o'] s1]|] eqn:E1; [|done].
  destruct (hw_get_bool _ _ Hn _ _ _ E1 Hl) as [Hl1 _].
  destruct (r && _).
  - unfold bind, VHw.tick in E. destruct (_ <=? 0); [by injection E as <- <-|].
    by apply (IH _ _ _ _ E).
  - unfold bind in E. destruct (VHw.record _ _ _ _) as [[[] s2]|] eqn:Er; [|done].
    injection E as <- <-. split; [|done]. by apply (record_ok _ _ _ _ _ Hn Er).
Qed.

Lemma vibe_state_name : VHw.mVibeState ∈ VHw.hwapi_names.
Proof. file_name. Qed.

Lemma hw_pollVibeState n b : hw_ok (VHw.pollVibeState n b) (λ _, True).
Proof.
  intros s a s'. unfold VHw.pollVibeState, VHw.poll. cbn [Z.ltb Z.compare Pos.compare]. unfold bind, VHw.tick.
  cbn. destruct (VHw.epoll_ctl_ok _ _).
  - intros E Hl. by apply (hw_poll_loop _ _ _ _ vibe_state_name _ _ _ E).
  - by intros [= <- <-].
Qed.
End records.

#[export] Hint Resolve hw_set hw_has hw_get_u32 hw_pollVibeState : vib.
#[export] Hint Extern 1 (_ ∈ VHw.hwapi_names) => file_name : vib.

(** ** Every operation keeps states well formed *)

(** Split an operation into its calls; the hints know those done before. *)
Ltac vib_step :=
  first
    [ progress intros
    | solve [auto with vib nocore]
    | apply ok_ret; solve [done | lia]
    | apply ok_ub
    | solve [apply ok_api; eauto with vib nocore]
    | apply ok_when
    | eapply ok_bind; [solve [apply ok_get]|]
    | eapply ok_bind; [solve [apply ok_api; eauto with vib nocore]|]
    | eapply ok_bind; [solve [eauto with vib nocore]|]
    | apply (ok_bind _ _ (λ _, True))
    | apply ok_lift
    | eapply ok_api_; solve [eauto with vib nocore]
    | eapply ok_any; [solve [eauto with vib nocore]|done]
    | match goal with
      | |- ok (if ?b then _ else _) _ => destruct b eqn:?
      | |- ok (match ?x with _ => _ end) _ => destruct x eqn:?
      | |- ok (let '(_, _) := ?x in _) _ => destruct x eqn:?
      end ].
Ltac vib_ok := repeat vib_step; try done.

Lemma wf_set_sound s v : wf v → wf (set_sound s v).
Proof. intros []. by constructor. Qed.
Lemma wf_set_job j c v : wf v → wf (set_job j c v).
Proof. intros []. by constructor. Qed.
Lemma wf_set_external b v : wf v → wf (set_external b v).
Proof. intros []. by constructor. Qed.
Lemma wf_set_active z v : wf v → wf (set_active_id (i8 z) v).
Proof. intros []. constructor; try done. apply (wraps_range 8); lia. Qed.
Lemma wf_set_inactive v : wf v → wf (set_active_id (-1) v).
Proof. intros []. by constructor. Qed.
Lemma wf_set_size n v : 0 ≤ n ≤ COMPOSE_PWLE_SIZE_LIMIT → wf v → wf (set_size n v).
Proof. intros ? []. by constructor. Qed.
Lemma wf_set_chirp b v : wf v → wf (set_chirp b v).
Proof. intros []. by constructor. Qed.
Lemma wf_set_limits m v : length m = PWLE_BW_MAP_SIZE → wf v → wf (set_limits m v).
Proof. intros ? []. by constructor. Qed.

#[export] Hint Resolve wf_set_sound wf_set_job wf_set_external wf_set_active wf_set_inactive
  wf_set_size wf_set_chirp wf_set_limits ok_modify ok_event I : vib.

Section operations.
Context `{VHw.Driver} `{VHw.Properties} `{Libm} `{Platform} `{Actuator}.

Lemma keeps_findHapticAlsaDevice : keeps findHapticAlsaDevice.
Proof. unfold findHapticAlsaDevice. vib_ok. Qed.
Hint Resolve keeps_findHapticAlsaDevice : vib.

Lemma keeps_hasHapticAlsaDevice : keeps hasHapticAlsaDevice.
Proof. unfold hasHapticAlsaDevice. vib_ok. Qed.
Hint Resolve keeps_hasHapticAlsaDevice : vib.

Lemma keeps_set_pcm p n : keeps (set_pcm p n).
Proof. unfold set_pcm. vib_ok. Qed.
Hint Resolve keeps_set_pcm : vib.

Lemma keeps_enableHapticPcmAmp b : keeps (enableHapticPcmAmp b).
Proof. unfold enableHapticPcmAmp, pcm_fail. vib_ok. Qed.
Hint Resolve keeps_enableHapticPcmAmp : vib.

Lemma keeps_getCapabilities : keeps getCapabilities.
Proof. unfold getCapabilities, VHw.hasEffectScale, VHw.hasAspEnable, VHw.hasPwle. vib_ok. Qed.
Hint Resolve keeps_getCapabilities : vib.

Lemma keeps_has_cap c : keeps (has_cap c).
Proof. unfold has_cap. vib_ok. Qed.
Hint Resolve keeps_has_cap : vib.

Lemma keeps_getPwleCompositionSizeMax :
  ok getPwleCompositionSizeMax (λ r, r.1 = Ok → is_Some r.2).
Proof.
  unfold getPwleCompositionSizeMax, VHw.getAvailablePwleSegments.
  eapply ok_bind; [apply keeps_has_cap|]. intros [] _; [|by apply ok_ret].
  eapply ok_bind; [apply ok_api, hw_get_u32; file_name|]. intros [[] o] Ho; [|by apply ok_ret].
  eapply ok_bind; [apply (ok_lift _ (λ z, 0 ≤ z < 2 ^ 32)); intros z ->; by apply Ho|].
  intros z Hz. apply (ok_bind _ _ (λ _, True)).
  - apply ok_modify. intros v. apply wf_set_size. unfold COMPOSE_PWLE_SIZE_LIMIT in *. zcase; lia.
  - intros _ _. apply ok_ret. by eexists.
Qed.
Hint Resolve keeps_getPwleCompositionSizeMax : vib.

Lemma assign_at_length m x y m' : assign_at m x y = Some m' → length m' = length m.
Proof.
  unfold assign_at. destruct (float_index x) as [i|]; [|done]. cbn. case_match; [|done].
  intros [= <-]. apply length_insert.
Qed.

Lemma fill_segment_length fuel x0 y0 x1 y1 xp i m m' :
  fill_segment fuel x0 y0 x1 y1 xp i m = Some m' → length m' = length m.
Proof.
  revert xp i m. induction fuel as [|fuel IH]; intros xp i m; [done|]. cbn [fill_segment].
  case_match; [|by intros [= <-]]. destruct (assign_at _ _ _) as [m1|] eqn:E; [|done]. cbn.
  intros ->%IH. by eapply assign_at_length.
Qed.

Lemma limit_map_length pts m m' : limit_map pts m = Some m' → length m' = length m.
Proof.
  assert (∀ pts m, fill_segments pts m = Some m' → length m' = length m) as Hf.
  { clear pts m. induction pts as [|[x0 y0] [|[x1 y1] pts] IH]; intros m;
      [by intros [= <-]|by intros [= <-]|]. cbn [fill_segments].
    destruct (fill_segment _ _ _ _ _ _ _ m) as [m1|] eqn:E; [|done]. cbn [mbind option_bind].
    intros ->%IH. by eapply fill_segment_length. }
  destruct pts as [|[x y] [|p pts]]; [by intros [= <-]|apply assign_at_length|apply Hf].
Qed.

Lemma keeps_createPwleMaxLevelLimitMap : keeps createPwleMaxLevelLimitMap.
Proof.
  unfold createPwleMaxLevelLimitMap. eapply ok_bind; [apply keeps_has_cap|]. intros. apply ok_when.
  eapply ok_bind; [apply ok_get|]. intros v Hv.
  eapply ok_bind; [apply (ok_lift _ (λ m, length m = PWLE_BW_MAP_SIZE))|].
  - intros m ->%limit_map_length. apply Hv.
  - intros m Hm. apply ok_modify. intros. by apply wf_set_limits.
Qed.
Hint Resolve keeps_createPwleMaxLevelLimitMap : vib.

Lemma keeps_setEffectAmplitude a b : keeps (setEffectAmplitude a b).
Proof. unfold setEffectAmplitude, VHw.setEffectScale, VHw.set_u32. vib_ok. Qed.
Lemma keeps_setGlobalAmplitude b : keeps (setGlobalAmplitude b).
Proof. unfold setGlobalAmplitude, level_at, VHw.setGlobalScale, VHw.set_u32. vib_ok. Qed.
Hint Resolve keeps_setEffectAmplitude keeps_setGlobalAmplitude : vib.

Lemma keeps_switch_external b : keeps (switch_external b).
Proof. unfold switch_external, VHw.hasAspEnable, VHw.setAspEnable, VHw.set_bool. vib_ok. Qed.
Hint Resolve keeps_switch_external : vib.

Lemma keeps_setExternalControl b : keeps (setExternalControl b).
Proof. unfold setExternalControl. vib_ok. Qed.
Hint Resolve keeps_setExternalControl : vib.

Lemma keeps_waitForComplete n j : keeps (waitForComplete n j).
Proof.
  intros v r v' Hv. unfold waitForComplete. destruct (next_call j).
  - destruct (api _ v) as [[[b|] v1]|] eqn:E; intros [= <- <-]; [|done..].
    assert (keeps (api (VHw.pollVibeState n false))) as Hp by vib_ok. by apply (Hp v (Some b) v1).
  - match goal with |- ?m v = _ → _ => assert (keeps m) as Hm end.
    { unfold VHw.setActivate, VHw.set_bool. vib_ok. }
    by apply Hm.
  - intros [= <- <-]. split; [by apply wf_set_job|done].
Qed.
Hint Resolve keeps_waitForComplete : vib.

Lemma keeps_advance k n j : keeps (advance k n j).
Proof. revert j. induction k as [|k IH]; intros j; cbn [advance]; vib_ok; apply IH. Qed.
Hint Resolve keeps_advance : vib.

Lemma keeps_progress k n : keeps (progress k n).
Proof. unfold progress. vib_ok. Qed.
Hint Resolve keeps_progress : vib.

Lemma keeps_race sch n old new : keeps (race sch n old new).
Proof.
  revert old new. induction sch as [|[] sch IH]; intros old new; cbn [race];
    unfold call_if_running; vib_ok; apply IH.
Qed.
Hint Resolve keeps_race : vib.

Lemma keeps_start_job cb : keeps (start_job cb).
Proof. unfold start_job. vib_ok. Qed.
Hint Resolve keeps_start_job : vib.

Lemma keeps_on_index t i cb : keeps (on_index t i cb).
Proof.
  unfold on_index, VHw.setEffectIndex, VHw.setDuration, VHw.setActivate, VHw.set_bool, VHw.set_u32.
  vib_ok.
Qed.
Hint Resolve keeps_on_index : vib.

Lemma keeps_performEffect_index i l q cb : keeps (performEffect_index i l q cb).
Proof. unfold performEffect_index, setEffectQueue, VHw.setEffectQueue. vib_ok. Qed.
Hint Resolve keeps_performEffect_index : vib.

Lemma amplitudes_length g f l : length (amplitudes g f l) = length l.
Proof. revert f. induction l as [|x l IH]; intros f; cbn; [done|]. by rewrite IH. Qed.

(** The map is empty and nothing changes, or it is complete and the flag is set. *)
Lemma generate_run v :
  wf v →
  generateBandwidthAmplitudeMap v = Some ([], v) ∨
  ∃ m, length m = PWLE_BW_MAP_SIZE ∧
    generateBandwidthAmplitudeMap v = Some (m, set_bandwidth (mBandwidthAmplitudeMap v) true v).
Proof.
  intros Hv. unfold generateBandwidthAmplitudeMap. rewrite (bind_run _ _ v v v) by done.
  destruct (_ || _); [by left|]. set (m := amplitudes _ _ _).
  assert (length m = PWLE_BW_MAP_SIZE) as Hm.
  { unfold m. rewrite amplitudes_length, length_take, (wf_limits v Hv). done. }
  clearbody m. destruct (fltb fzero _); [right|by left].
  eexists. split; [|reflexivity]. by rewrite length_fmap.
Qed.

(** Storing the generated map keeps the state well formed. *)
Lemma keeps_store_map v m v1 :
  wf v → mGenerateBandwidthAmplitudeMapDone v = false →
  generateBandwidthAmplitudeMap v = Some (m, v1) →
  wf (set_bandwidth m (mGenerateBandwidthAmplitudeMapDone v1) v1).
Proof.
  intros Hv Hd E. destruct (generate_run v Hv) as [E'|(m' & Hm & E')]; rewrite E in E';
    injection E' as -> ->; destruct Hv; constructor; try done; cbn; [by left|by rewrite Hd|by right].
Qed.

Lemma keeps_getBandwidthAmplitudeMap : keeps getBandwidthAmplitudeMap.
Proof.
  unfold getBandwidthAmplitudeMap. eapply ok_bind; [apply keeps_has_cap|].
  intros [] _; [|by apply ok_ret]. intros v a v' Hv. rewrite (bind_run _ _ v v v) by done.
  destruct (mGenerateBandwidthAmplitudeMapDone v) eqn:Hd; cbn [negb when].
  { intros [= <- <-]. done. }
  unfold bind. destruct (generateBandwidthAmplitudeMap v) as [[m v1]|] eqn:E; [|done].
  intros [= <- <-]. split; [|done]. by eapply keeps_store_map.
Qed.

Lemma keeps_run r : keeps (run r).
Proof.
  destruct r; unfold run, done_; (apply (ok_bind _ _ (λ _, True)); [|intros; by apply ok_ret]).
  - unfold off, VHw.setF0Offset, VHw.setActivate, VHw.set_bool, VHw.set_u32. vib_ok.
  - unfold on, VHw.setF0Offset, VHw.set_u32. vib_ok.
  - unfold perform, performEffect. vib_ok.
  - unfold setAmplitude. vib_ok.
  - apply keeps_setExternalControl.
  - unfold compose. vib_ok.
  - unfold composePwle, setPwle, VHw.setPwle, VHw.setEffectIndex, VHw.setDuration, VHw.setActivate,
      VHw.set_bool, VHw.set_u32. vib_ok.
  - unfold alwaysOnEnable, VHw.setGpioRiseIndex, VHw.setGpioRiseScale, VHw.setGpioFallIndex,
      VHw.setGpioFallScale, VHw.set_u32. vib_ok.
  - unfold alwaysOnDisable, VHw.setGpioRiseIndex, VHw.setGpioFallIndex, VHw.set_u32. vib_ok.
  - apply keeps_getCapabilities.
  - eapply ok_weaken, keeps_getPwleCompositionSizeMax.
  - apply keeps_getBandwidthAmplitudeMap.
  - apply keeps_progress.
Qed.

(** *** The constructor *)

Lemma unpack_u32 n s l r : VHw.unpack n s = Some (l, r) → u32_list n l.
Proof.
  revert s l. induction n as [|n IH]; intros s l; cbn [VHw.unpack]; [by intros [= <- <-]|].
  destruct (VHw.assigned (VHw.scan_u32 s)) as [z|] eqn:Ez; [|done].
  destruct (VHw.good _); [|done]. destruct (VHw.unpack n _) as [[vs r']|] eqn:E; [|done]. cbn.
  intros [= <- <-]. destruct (IH _ _ E) as [Hl Hf]. split; [cbn; by rewrite Hl|].
  constructor; [by eapply scan_u32_range|done].
Qed.

Lemma array_or_u32 c key n def : u32_list n def → u32_list n (VHw.array_or c key n def).
Proof.
  intros Hd. unfold VHw.array_or. destruct (VHw.getPersist_array c key n) as [l|] eqn:E; [|done].
  unfold VHw.getPersist_array in E. destruct (c !! key) as [s|]; [|done]. cbn in E.
  destruct (VHw.unpack n s) as [[vs r]|] eqn:Eu; [|done]. cbn in E. case_match; [|done].
  injection E as <-. by eapply unpack_u32.
Qed.

Lemma u32_pair a b : 0 ≤ a < 2 ^ 32 → 0 ≤ b < 2 ^ 32 → u32_list 2 [a; b].
Proof. intros. split; [done|]. by apply Forall_cons; split; [|apply Forall_cons; split]. Qed.

Lemma effect_levels_u32 c t k l :
  effect_levels c = Some (t, k, l) → u32_list 2 t ∧ u32_list 2 k ∧ u32_list 2 l.
Proof.
  unfold effect_levels. destruct (_ =? 1).
  - assert (u32_list 6 (VHw.getVolLevels c)) as [_ Hf]
      by (apply array_or_u32; split; [done|]; apply (bool_decide_unpack _); by vm_compute).
    rewrite Forall_lookup in Hf.
    destruct (VHw.getVolLevels c !! WAVEFORM_EFFECT_0_20_LEVEL) as [v0|] eqn:E0; [|done].
    destruct (VHw.getVolLevels c !! WAVEFORM_EFFECT_1_00_LEVEL) as [v4|] eqn:E4; [|done].
    destruct (VHw.getVolLevels c !! VOLTAGE_GLOBAL_SCALE_LEVEL) as [v5|] eqn:E5; [|done].
    cbn. unfold click_minimum. destruct (lround _) as [r|]; [|done]. cbn. intros [= <- <- <-].
    assert (0 ≤ u32 (Z.max r WAVEFORM_EFFECT_LEVEL_MINIMUM) < 2 ^ 32) by (apply (wrapu_range 32); lia).
    split_and!; apply u32_pair; eauto; lia.
  - intros [= <- <- <-]. split_and!; apply array_or_u32, u32_pair; lia.
Qed.

Lemma f0_offset_range z r : f0_offset z = Some r → 0 ≤ r < 2 ^ 32.
Proof.
  unfold f0_offset. destruct (if 0 <? z then _ else _) as [x|]; [|done]. cbn.
  zcase; cbn; intros [= <-]; lia.
Qed.

Definition levels_ok (l : levels) : Prop :=
  u32_list 2 (mTickEffectVol l) ∧ u32_list 2 (mClickEffectVol l) ∧
  u32_list 2 (mLongEffectVol l) ∧ 0 ≤ mF0Offset l < 2 ^ 32 ∧
  below (2 ^ 18) (mResonantFrequency l).

Lemma keeps_effect_durations n i : keeps (effect_durations n i).
Proof.
  revert i. induction n as [|n IH]; intros i; cbn [effect_durations];
    unfold VHw.setEffectIndex, VHw.getEffectDuration, VHw.set_u32; vib_ok.
Qed.

Lemma getPersist_range c key z : VHw.getPersist c key = Some z → 0 ≤ z < 2 ^ 32.
Proof.
  unfold VHw.getPersist. destruct (c !! key) as [s|]; [|done]. cbn. case_match; [|done].
  apply scan_u32_range.
Qed.

Lemma ok_read_levels c : ok (read_levels c) levels_ok.
Proof.
  unfold read_levels, VHw.setF0, VHw.setRedc, VHw.setQ, VHw.getEffectCount, VHw.set_u32.
  apply (ok_bind _ _ (below (2 ^ 18))).
  { destruct (VHw.getF0 c) as [f|] eqn:Ef; [|by apply ok_ret].
    apply (ok_bind _ _ (λ _, True)); [vib_ok|]. intros _ _. apply ok_ret, q14_below.
    by eapply getPersist_range. }
  intros f0 Hq.
  apply (ok_bind _ _ (λ _, True)); [vib_ok|]. intros redc _.
  apply (ok_bind _ _ (λ _, True)); [vib_ok|]. intros _ _.
  eapply ok_bind; [apply (ok_lift _ (λ r, 0 ≤ r < 2 ^ 32)); apply f0_offset_range|]. intros off Hoff.
  eapply ok_bind; [apply (ok_lift _ (λ r, u32_list 2 r.1.1 ∧ u32_list 2 r.1.2 ∧ u32_list 2 r.2))|].
  { intros [[t k] l] E. by apply (effect_levels_u32 c). }
  intros vols Hv. eapply ok_bind; [apply ok_api, hw_get_u32; file_name|]. intros count _.
  apply (ok_bind _ _ (λ _, True)); [vib_ok|]. intros n _.
  eapply ok_bind; [apply keeps_effect_durations|]. intros ds _. apply ok_ret.
  unfold levels_ok. naive_solver.
Qed.

Lemma fresh_records : records_ok (VHw.mRecords VHw.HwApi_new).
Proof.
  unfold VHw.HwApi_new.
  assert (∀ l s, records_ok (VHw.mRecords s) →
    records_ok (VHw.mRecords (fold_left (λ s name, VHw.open name s) l s))) as Hf;
    [|by apply Hf; split]. intros l.
  induction l as [|n l IH]; intros s Hs; [done|]. cbn [fold_left]. apply IH. unfold VHw.open.
  by case_match.
Qed.

Lemma ok_new c raw chirp v : Vibrator_new c raw chirp = Some v → wf v.
Proof.
  unfold Vibrator_new. set (v0 := Vib _ _ _ _ _ _ _ _ _ _ _ _ _ _).
  assert (wf v0) as Hv0.
  { constructor; cbn; try done; try by (apply u32_pair; lia).
    - apply fresh_records.
    - by left. }
  clearbody v0. intros Hn. match type of Hn with snd <$> ?m ?v = _ =>
    assert (keeps m) as Hk; [|destruct (m v) as [[[] v1]|] eqn:E; [|done]] end.
  2: { injection Hn as <-. by apply (Hk v0 tt v1). }
  clear Hn. rewrite setPwleRampDown_off.
  unfold VHw.setState, VHw.setClabEnable, VHw.setPwleRampDown, VHw.set_bool,
    VHw.set_u32.
  apply (ok_bind _ _ (λ _, True)); [vib_ok|]. intros _ _.
  eapply ok_bind; [apply ok_read_levels|]. intros l (Ht & Hc & Hl & Hf & Hq).
  apply (ok_bind _ _ (λ _, True)); [apply ok_modify; intros v1 []; by constructor|]. intros _ _.
  apply (ok_bind _ _ (λ _, True)); [vib_ok|]. intros _ _.
  eapply ok_bind; [apply keeps_getPwleCompositionSizeMax|]. intros sz _.
  apply (ok_bind _ _ (λ _, True)).
  { case_decide; [by apply ok_ret|]. apply ok_modify. intros. by apply wf_set_size. }
  intros _ _. apply (ok_bind _ _ (λ _, True)); [vib_ok|]. intros _ _.
  intros v1 a v2 Hv1. unfold bind at 1. cbn [modify]. set (v1' := set_bandwidth _ false v1).
  assert (wf v1') as Hv1' by (destruct Hv1; by constructor).
  unfold bind at 1. destruct (generateBandwidthAmplitudeMap v1') as [[m v3]|] eqn:Eg; [|done].
  unfold bind at 1. cbn [modify]. set (v4 := set_bandwidth m _ v3).
  assert (wf v4) as Hv4 by by eapply keeps_store_map. clearbody v4. clear Eg.
  assert (keeps (modify (set_external false) ;; api_ (VHw.set (dec 0) VHw.mPwleRampDown) ;;
    modify (set_chirp VHw.isChirpEnabled))) as Hrest by vib_ok.
  apply (Hrest v4 a v2 Hv4).
Qed.

Lemma wf_reachable v : reachable v → wf v.
Proof.
  intros (c & raw & chirp & v0 & rs & Hn & Hrun). apply ok_new in Hn.
  revert v0 Hn Hrun. induction rs as [|r rs IH]; intros v0 Hn; cbn [run_all]; [by intros [= <-]|].
  unfold bind. destruct (run r v0) as [[[] v1]|] eqn:E; [|done].
  apply IH. by destruct (keeps_run r v0 tt v1 Hn E).
Qed.

(** C14. The state of the service is well typed in every run: after the constructor
    and any sequence of requests, whatever the driver and the memory held, the
    record of driver calls holds 32 entries, all of files the constructor opened,
    the map of level limits 999, the size limit for envelopes is between 0 and 82,
    the active effect fits its 8 bits, the levels are pairs of 32-bit numbers, the
    resonant frequency is at most 2^18 Hz, and the bandwidth map is complete
    whenever it is marked done. *)
Theorem vibrator_wf (v : vib) (Hr : reachable v) : wf v.
Proof. by apply wf_reachable. Qed.
End operations.


(** ** What the calls send to the driver *)

(** The lines the driver took. *)
Abbreviation log v := (VHw.written (hw v)).

Section sending.
Context `{VHw.Driver} `{VHw.Properties} `{Libm} `{Platform} `{Actuator}.

(** A driver with all its files that takes every line. *)
Definition willing : Prop :=
  (∀ n, n ∈ VHw.hwapi_names → VHw.node_opens n = true) ∧
  (∀ k n x, VHw.node_write k n x = true).

(** The state after the lines [ls], all taken. *)
Definition sent (ls : list (string * string)) (v v' : vib) : Prop :=
  ∃ h, v' = set_hw h v ∧ VHw.written h = VHw.written (hw v) ++ ls ∧ VHw.failed h = ∅.

Lemma sent_trans l1 l2 v1 v2 v3 : sent l1 v1 v2 → sent l2 v2 v3 → sent (l1 ++ l2) v1 v3.
Proof.
  intros (h1 & -> & E1 & _) (h2 & -> & E2 & F2). exists h2. split_and!; [done| |done].
  cbn in E2. rewrite E2, E1. by rewrite app_assoc.
Qed.

Lemma sent_refl v : VHw.failed (hw v) = ∅ → sent [] v v.
Proof. intros Hf. exists (hw v). rewrite app_nil_r. by destruct v. Qed.

Lemma send x n v :
  willing → n ∈ VHw.hwapi_names → VHw.failed (hw v) = ∅ →
  ∃ v', api (VHw.set x n) v = Some (true, v') ∧ sent [(n, x)] v v'.
Proof.
  intros [Ho Hw] Hn Hf. unfold api, VHw.set, bind. cbn [VHw.hw_get]. unfold VHw.usable.
  rewrite Ho, Hw by done. rewrite bool_decide_eq_true_2 by (rewrite Hf; set_solver). cbn.
  eexists. split; [reflexivity|]. eexists. split; [reflexivity|]. cbn. split; [done|].
  rewrite Hf. apply leibniz_equiv. set_solver.
Qed.

Lemma sent_failed ls v v' : sent ls v v' → VHw.failed (hw v') = ∅.
Proof. by intros (h & -> & _ & ?). Qed.
Lemma sent_log ls v v' : sent ls v v' → log v' = log v ++ ls.
Proof. by intros (h & -> & ? & _). Qed.

(** Full amplitude is no attenuation. *)
Lemma full_scale : log10f fone = fzero →
  amplitudeToScale (of_Z VOLTAGE_SCALE_MAX) (of_Z VOLTAGE_SCALE_MAX) = Some 0.
Proof.
  intros Hl. unfold amplitudeToScale.
  assert (fdiv (of_Z VOLTAGE_SCALE_MAX) (of_Z VOLTAGE_SCALE_MAX) = fone) as -> by by vm_compute.
  rewrite Hl. by vm_compute.
Qed.

(** Run one call of the driver that is known to succeed. *)
Lemma send_then {A} x n (k : V A) v :
  willing → n ∈ VHw.hwapi_names → VHw.failed (hw v) = ∅ →
  ∃ v', (api_ (VHw.set x n) ;; k) v = k v' ∧ sent [(n, x)] v v'.
Proof.
  intros Hw Hn Hf. destruct (send x n v Hw Hn Hf) as (v' & E & Hs). exists v'. split; [|done].
  unfold api_, bind. by rewrite E.
Qed.

(** Run the next call of the driver in the goal. *)
Ltac send_next v S :=
  match goal with |- context [(api_ (VHw.set ?x ?n) ;; ?k) ?w] =>
    destruct (send_then x n k w) as (v & -> & S);
      [done|apply (bool_decide_unpack _); by vm_compute|first [done|by eapply sent_failed]|] end.

Lemma progress_idle c n v : mAsyncHandle v = None → progress c n v = Some (true, v).
Proof. intros Hj. unfold progress, bind, get. by rewrite Hj. Qed.

(** The private [on], when nothing is in the way. *)
Lemma on_index_run t i cb v :
  willing → VHw.failed (hw v) = ∅ → mAsyncHandle v = None → mIsUnderExternalControl v = false →
  ∃ v', on_index t i cb v = Some (Ok, v') ∧
    log v' = log v ++ [(VHw.mEffectIndex, dec i); (VHw.mDuration, dec t); (VHw.mActivate, "1")] ∧
    VHw.failed (hw v') = ∅ ∧ mAsyncHandle v' = Some (Job Polling cb) ∧ mActiveId v' = i8 i ∧
    mIsUnderExternalControl v' = false ∧ lv v' = lv v ∧ completed v' = completed v ∧
    sound v' = sound v.
Proof.
  intros Hw Hf Hj He. unfold on_index. rewrite (bind_run _ _ v v v) by done. rewrite He. cbn [when].
  rewrite (bind_run _ _ v tt v) by done. erewrite bind_run by reflexivity.
  erewrite bind_run by (by apply progress_idle).
  unfold VHw.setEffectIndex, VHw.setDuration, VHw.setActivate, VHw.set_bool, VHw.set_u32.
  send_next v1 S1. send_next v2 S2. send_next v3 S3.
  pose proof (sent_trans _ _ _ _ _ (sent_trans _ _ _ _ _ S1 S2) S3) as (h & -> & Hl & Hh).
  unfold start_job, bind, modify, event, get. cbn. rewrite Hj.
  eexists. split; [reflexivity|]. split_and!; done.
Qed.

Lemma send_named x n v :
  willing → VHw.failed (hw v) = ∅ → bool_decide (n ∈ VHw.hwapi_names) = true →
  ∃ v', api (VHw.set x n) v = Some (true, v') ∧ sent [(n, x)] v v'.
Proof. intros ? ? Hn%bool_decide_eq_true. by apply send. Qed.

(** A queue of effects, played at full scale. *)
Lemma play_queue i l q cb v :
  willing → log10f fone = fzero → q ≠ EmptyString →
  VHw.failed (hw v) = ∅ → mAsyncHandle v = None → mIsUnderExternalControl v = false →
  ∃ v', performEffect_index i l q cb v = Some (Ok, v') ∧
    log v' = log v ++ [(VHw.mEffectQueue, q); (VHw.mEffectScale, "0");
      (VHw.mEffectIndex, "65534"); (VHw.mDuration, "4294967295"); (VHw.mActivate, "1")] ∧
    VHw.failed (hw v') = ∅ ∧ mAsyncHandle v' = Some (Job Polling cb) ∧ mIsUnderExternalControl v' = false ∧
    lv v' = lv v.
Proof.
  intros Hw Hlog Hq Hf Hj He. unfold performEffect_index.
  destruct (String.eqb_spec q EmptyString); [done|]. cbn [negb].
  destruct (send_named q VHw.mEffectQueue v Hw Hf) as (v1 & E1 & S1); [by vm_compute|].
  unfold setEffectQueue, VHw.setEffectQueue. unfold bind at 1 2. rewrite E1. cbn [ret status_of].
  rewrite decide_True by done.
  destruct (send_named (dec 0) VHw.mEffectScale v1 Hw (sent_failed _ _ _ S1)) as (v2 & E2 & S2);
    [by vm_compute|].
  unfold setEffectAmplitude, VHw.setEffectScale, VHw.set_u32. rewrite full_scale by done. cbn [lift].
  unfold bind at 1 2 3. cbn [ret lift]. rewrite E2. cbn [ret].
  pose proof (sent_trans _ _ _ _ _ S1 S2) as S12. pose proof S12 as (h & -> & Hl & Hh).
  destruct (on_index_run MAX_TIME_MS WAVEFORM_TRIGGER_QUEUE_INDEX cb (set_hw h v)) as
    (v' & E & Hlog' & ? & ? & _ & ? & ? & _); [done..|].
  exists v'. split; [done|]. split; [|done]. rewrite Hlog'. cbn [hw set_hw]. rewrite Hl, <- app_assoc.
  done.
Qed.

(** *** Compositions *)

(** The range of levels of a pair. *)
Definition level_pair (p : list Z) : Prop :=
  ∃ v0 v1, p = [v0; v1] ∧ 0 ≤ v0 ≤ v1 ∧ v1 < 2 ^ 24.

Definition in_pair (p : list Z) (r : Z) : Prop :=
  ∃ v0 v1, p = [v0; v1] ∧ v0 ≤ r ≤ v1.

Lemma calc_in_pair x p : below 1 x → level_pair p → ∃ r, calc x p = Some r ∧ in_pair p r.
Proof.
  intros Hx (v0 & v1 & -> & Hv & Hmax). unfold calc. cbn -[lround fmul of_Z].
  rewrite (wrapu_small 32 (v1 - v0)) by lia.
  assert (below (v1 - v0) (fmul x (of_Z (v1 - v0)))) as Hb.
  { apply below_mul; [lia|done|]. apply below_of_Z. lia. }
  destruct (below_lround_total (v1 - v0) _ ltac:(lia) Hb) as (r & Er). rewrite Er. cbn.
  pose proof (below_lround (v1 - v0) _ r ltac:(lia) Hb Er).
  rewrite wrapu_small by lia. eexists. split; [done|]. exists v0, v1. split; [done|lia].
Qed.

(** The pair of levels an effect is played with. *)
Definition pair_of (l : levels) (effectIndex : Z) : list Z :=
  if effectIndex =? WAVEFORM_LIGHT_TICK_INDEX then mTickEffectVol l
  else if (effectIndex =? WAVEFORM_QUICK_RISE_INDEX) || (effectIndex =? WAVEFORM_QUICK_FALL_INDEX)
  then mLongEffectVol l else mClickEffectVol l.

Definition levels_sorted (l : levels) : Prop :=
  level_pair (mTickEffectVol l) ∧ level_pair (mClickEffectVol l) ∧ level_pair (mLongEffectVol l).

Lemma intensity_in_pair l x i :
  levels_sorted l → below 1 x →
  ∃ r, intensityToVolLevel l x i = Some r ∧ in_pair (pair_of l i) r.
Proof.
  intros (Ht & Hc & Hl) Hx. unfold intensityToVolLevel, pair_of.
  destruct (_ =? _); [by apply calc_in_pair|]. destruct (_ || _); by apply calc_in_pair.
Qed.

(** What the interface allows in a composition. *)
Definition element_ok (e : CompositeEffect) : bool :=
  fleb fzero (scale e) && fleb (scale e) fone && (delayMs e <=? COMPOSE_DELAY_MAX_MS) &&
  bool_decide (primitive e ∈ getSupportedPrimitives).

Definition audible (e : CompositeEffect) : bool :=
  negb (delayMs e =? 0) || bool_decide (primitive e ≠ P_NOOP).

Definition composite_ok (es : list CompositeEffect) : bool :=
  (Z.of_nat (length es) <=? COMPOSE_SIZE_MAX) && forallb element_ok es && existsb audible es.

(** The text of an element played at level [vol]: its delay, then its waveform. *)
Definition render (e : CompositeEffect) (vol : Z) : string :=
  ((if (delayMs e =? 0)%Z then "" else dec (delayMs e) ++ ",") ++
   match getPrimitiveDetails (primitive e) with
   | inr i => dec i ++ "." ++ dec vol ++ ","
   | inl _ => ""
   end)%string.

Fixpoint render_all (es : list CompositeEffect) (vols : list Z) : string :=
  match es, vols with
  | e :: es, vol :: vols => (render e vol ++ render_all es vols)%string
  | _, _ => EmptyString
  end.

(** Each element's level lies in the range of its waveform. *)
Definition levels_for (l : levels) (es : list CompositeEffect) (vols : list Z) : Prop :=
  Forall2 (λ e vol, ∀ i, getPrimitiveDetails (primitive e) = inr i → in_pair (pair_of l i) vol)
    es vols.

(** A float argument: a value of the type that is a number. *)
Definition number (x : float) : Prop := valid_binary 24 128 x = true ∧ x ≠ S754_nan.

Lemma fltb_fleb_number x y : number x → number y → fltb x y = negb (fleb y x).
Proof.
  intros [_ Hx] [_ Hy]. unfold fltb, fleb, SFltb, SFleb.
  destruct x as [[]|[]| |[] mx ex], y as [[]|[]| |[] my ey]; try done; cbn [SFcompare];
    rewrite (Z.compare_antisym ex ey); destruct (ex ?= ey); cbn [CompOpp]; try done;
    change (Pos.compare_cont Eq mx my) with (Pos.compare mx my);
    change (Pos.compare_cont Eq my mx) with (Pos.compare my mx);
    rewrite (Pos.compare_antisym mx my); by destruct (mx ?= my)%positive.
Qed.

Lemma compose_element_spec l e :
  levels_sorted l → number (scale e) →
  if element_ok e then
    ∃ vol, compose_element l e = Some (inr (render e vol)) ∧
      (∀ i, getPrimitiveDetails (primitive e) = inr i → in_pair (pair_of l i) vol)
  else ∃ st, compose_element l e = Some (inl st) ∧ st ≠ Ok.
Proof.
  intros Hl Hn. unfold element_ok, compose_element.
  assert (number fzero ∧ number fone) as [Hz Ho] by (split; split; [by vm_compute|done|by vm_compute|done]).
  rewrite (fltb_fleb_number (scale e) fzero), (fltb_fleb_number fone (scale e)) by done.
  destruct (fleb fzero (scale e)) eqn:E0; [|by eexists]. destruct (fleb (scale e) fone) eqn:E1; [|by eexists].
  cbn [negb orb andb].
  assert (below 1 (scale e)) as Hb.
  { destruct Hn. apply unit_interval; [done|done| |]; rewrite fltb_fleb_number by done;
      [by rewrite E0|by rewrite E1]. }
  destruct (Z.leb_spec (delayMs e) COMPOSE_DELAY_MAX_MS) as [Hd|Hd].
  2: { unfold COMPOSE_DELAY_MAX_MS in *. rewrite (proj2 (Z.eqb_neq _ _)), (proj2 (Z.ltb_lt _ _)) by lia.
       by eexists. }
  rewrite (proj2 (Z.ltb_ge _ _)), andb_false_r by lia. cbn [andb].
  unfold render. destruct (primitive e) eqn:Ep;
    lazymatch type of Ep with
    | _ = P_NOOP =>
        rewrite decide_True by done; cbn [getPrimitiveDetails]; exists 0;
        split; [by rewrite Text.string_app_nil|done]
    | _ = P_Other _ =>
        rewrite bool_decide_eq_false_2;
          [by eexists|rewrite list_elem_of_In; cbn; naive_solver]
    | _ =>
        rewrite decide_False by done; cbn [getPrimitiveDetails];
        match goal with |- context [intensityToVolLevel l (scale e) ?i] =>
          destruct (intensity_in_pair l (scale e) i Hl Hb) as (r & -> & Hr) end;
        exists r; split; [done|]; by intros i [= <-]
    end.
Qed.

Lemma compose_loop_spec l es acc :
  levels_sorted l → Forall (λ e, number (scale e)) es →
  if forallb element_ok es then
    ∃ vols, compose_loop l es acc = Some (inr (acc ++ render_all es vols)%string) ∧
      levels_for l es vols
  else ∃ st, compose_loop l es acc = Some (inl st) ∧ st ≠ Ok.
Proof.
  intros Hl Hn. revert acc. induction Hn as [|e es He Hes IH]; intros acc; cbn [forallb compose_loop].
  { exists []. split; [|constructor]. cbn [render_all]. by rewrite Text.string_app_nil. }
  pose proof (compose_element_spec l e Hl He) as Hc. destruct (element_ok e); cbn [andb].
  - destruct Hc as (vol & -> & Hv). cbn. specialize (IH (acc ++ render e vol)%string).
    destruct (forallb element_ok es); [|done]. destruct IH as (vols & -> & Hvs).
    exists (vol :: vols). split; [|by constructor]. cbn. by rewrite Text.string_app_assoc.
  - destruct Hc as (st & -> & Hst). by exists st.
Qed.

Lemma dec_nonempty z : dec z ≠ EmptyString.
Proof.
  destruct (VHw.dec_shape z) as (u & [[-> _]|[-> _]]); [|done].
  by destruct u.
Qed.

Lemma app_nonempty (a b : string) : a ≠ EmptyString → (a ++ b)%string ≠ EmptyString.
Proof. by destruct a. Qed.

Lemma render_empty e vol :
  element_ok e = true → (render e vol = EmptyString ↔ audible e = false).
Proof.
  intros (_ & Hp)%andb_true_iff. apply bool_decide_eq_true in Hp. unfold render, audible.
  destruct (delayMs e =? 0).
  - destruct (primitive e); cbn; try (split; [|done]); try done;
      try (intros He; exfalso; revert He; apply app_nonempty, dec_nonempty).
    rewrite list_elem_of_In in Hp. cbn in Hp. naive_solver.
  - split; [|done]. intros He. exfalso. revert He. do 2 apply app_nonempty. apply dec_nonempty.
Qed.

Lemma render_all_empty l es vols :
  forallb element_ok es = true → levels_for l es vols →
  (render_all es vols = EmptyString ↔ existsb audible es = false).
Proof.
  intros He Hf. induction Hf as [|e vol es vols _ _ IH]; [done|].
  cbn [forallb existsb render_all] in *. apply andb_true_iff in He as [He Hes].
  rewrite orb_false_iff, <- (render_empty e vol), <- IH by done.
  destruct (render e vol); cbn; naive_solver.
Qed.

(** The state lets a vibration start: no stream has failed, no job is pending and
    the device is not under external control. *)
Definition idle (v : vib) : Prop :=
  VHw.failed (hw v) = ∅ ∧ mAsyncHandle v = None ∧ mIsUnderExternalControl v = false.

(** C11. [compose] plays exactly the compositions the interface allows.  On an idle
    service with sorted calibration levels and a driver that takes every line, and
    for scales that are numbers, an allowed one is sent as its queue, at full scale,
    with the index of the trigger queue, and activated; each level in the queue
    lies in the calibrated range of its waveform.  Any other is refused, and then
    nothing is sent and nothing changes. *)
Theorem compose_spec (es : list CompositeEffect) (cb : option nat) (v : vib)
    (Hw : willing) (Hlog : log10f fone = fzero) (Hl : levels_sorted (lv v)) (Hi : idle v)
    (Hn : Forall (λ e, number (scale e)) es) :
  if composite_ok es then
    ∃ vols v', compose es cb v = Some (Ok, v') ∧ levels_for (lv v) es vols ∧
      log v' = log v ++ [(VHw.mEffectQueue, render_all es vols ++ "0")%string;
        (VHw.mEffectScale, "0"); (VHw.mEffectIndex, "65534"); (VHw.mDuration, "4294967295");
        (VHw.mActivate, "1")] ∧
      mAsyncHandle v' = Some (Job Polling cb)
  else ∃ st, compose es cb v = Some (st, v) ∧ st ≠ Ok.
Proof.
  destruct Hi as (Hf & Hj & He). unfold composite_ok, compose.
  destruct (Z.leb_spec (Z.of_nat (length es)) COMPOSE_SIZE_MAX) as [Hs|Hs]; cbn [andb].
  2: { rewrite (proj2 (Z.ltb_lt _ _)) by lia. by eexists. }
  rewrite (proj2 (Z.ltb_ge _ _)) by lia. rewrite (bind_run _ _ v v v) by done.
  pose proof (compose_loop_spec (lv v) es EmptyString Hl Hn) as Hc.
  destruct (forallb element_ok es) eqn:Eok; cbn [andb].
  - destruct Hc as (vols & -> & Hv). erewrite bind_run by reflexivity. cbv iota beta.
    change (EmptyString ++ ?x)%string with x.
    pose proof (render_all_empty (lv v) es vols Eok Hv) as Hr.
    destruct (String.eqb_spec (render_all es vols) EmptyString) as [Ee|Ee].
    + rewrite (proj1 Hr Ee). by eexists.
    + destruct (existsb audible es); [|by destruct Ee; apply Hr].
      destruct (play_queue 0 0 (render_all es vols ++ "0") cb v) as (v' & E & Hlog' & _ & Hj' & _);
        [done|done|by apply app_nonempty|done..|].
      exists vols, v'. done.
  - destruct Hc as (st & -> & Hst). erewrite bind_run by reflexivity. by exists st.
Qed.

(** *** Envelopes *)

Lemma level_ok_below a : number a → level_ok a = true → below 1 a.
Proof.
  intros [Hv Hn]. unfold level_ok. rewrite negb_true_iff, orb_false_iff. intros [].
  by apply unit_interval.
Qed.

Lemma clip_max_below a : below 1 a → below 1 (clip_max a).
Proof. unfold clip_max. case_match; [|done]. intros _. by vm_compute. Qed.

(** The level limit is looked up inside the map. *)
Lemma max_level_limit_total m f :
  length m = PWLE_BW_MAP_SIZE → Forall (below 1) m → number f → frequency_ok f = true →
  below 999 f ∧ ∃ x, max_level_limit m f = Some x ∧ below 1 x.
Proof.
  intros Hl Hm [Hv Hn]. unfold frequency_ok. rewrite negb_true_iff, orb_false_iff. intros [Hlo Hhi].
  destruct (index_below 999 PWLE_FREQUENCY_MAX_HZ 16367616 (-14) f) as [Hi Hb]; [by vm_compute|lia..|done|done|done|done|].
  split; [done|]. unfold max_level_limit, float_index, to_unsigned.
  change (fdiv f PWLE_FREQUENCY_RESOLUTION_HZ) with (fdiv f fone).
  destruct (below_trunc (999 - 1) _ ltac:(lia) Hi) as (z & -> & Hz). cbn -[lookup]. zbool. cbn -[lookup].
  destruct (lookup_lt_is_Some_2 m (Z.to_nat z)) as [x Hx]; [rewrite Hl; unfold PWLE_BW_MAP_SIZE; lia|].
  exists x. split; [done|]. by eapply Forall_lookup_1 in Hm.
Qed.

Lemma clip_limit_total m a f :
  length m = PWLE_BW_MAP_SIZE → Forall (below 1) m → number f → frequency_ok f = true → below 1 a →
  ∃ x, clip_limit m a f = Some x ∧ below 1 x.
Proof.
  intros Hl Hm Hn Hf Ha. destruct (max_level_limit_total m f Hl Hm Hn Hf) as (_ & x & E & Hx).
  unfold clip_limit. rewrite E. cbn. eexists. split; [done|]. by case_match.
Qed.

Lemma active_segment_total i d a f K :
  below 1 a → 0 ≤ K < 2 ^ 24 → below K f → is_Some (constructActiveSegment i d a f).
Proof.
  intros Ha HK Hf. unfold constructActiveSegment. destruct (print1_total a Ha) as [x ->].
  destruct (below_lround_total K f HK Hf) as [y ->]. by eexists.
Qed.

Lemma braking_segment_total i d b f K :
  0 ≤ K < 2 ^ 24 → below K f → is_Some (constructBrakingSegment i d b f).
Proof.
  intros HK Hf. unfold constructBrakingSegment. destruct (below_lround_total K f HK Hf) as [y ->].
  by eexists.
Qed.

Definition pwle_numbers (e : PrimitivePwle) : Prop :=
  match e with
  | ActivePwle sa sf ea ef _ => number sa ∧ number sf ∧ number ea ∧ number ef
  | BrakingPwle _ _ => True
  end.

Definition pwle_duration (e : PrimitivePwle) : Z :=
  match e with ActivePwle _ _ _ _ d => d | BrakingPwle _ d => d end.

(** What one element does to the loop's variables. *)
Definition pwle_next (d : Z) (p : pwle_state) (r : status + pwle_state) : Prop :=
  match r with
  | inl st => st ≠ Ok
  | inr p' =>
      segmentIdx p + 1 ≤ segmentIdx p' ≤ segmentIdx p + 2 ∧
      totalDuration p' = u32 (totalDuration p + d) ∧
      below (2 ^ 24 - 1) (prevEndFrequency p')
  end.

Lemma pwle_active_total m sa sf ea ef d p :
  length m = PWLE_BW_MAP_SIZE → Forall (below 1) m →
  number sa → number sf → number ea → number ef →
  ∃ r, pwle_active m sa sf ea ef d p = Some r ∧ pwle_next d p r.
Proof.
  intros Hl Hm Hsa Hsf Hea Hef. unfold pwle_active, incrementIndex.
  destruct (_ || _); [by eexists|].
  destruct (level_ok sa) eqn:L1, (level_ok ea) eqn:L2; cbn [andb negb]; try by eexists.
  destruct (frequency_ok sf) eqn:F1, (frequency_ok ef) eqn:F2; cbn [andb negb]; try by eexists.
  destruct (clip_limit_total m (clip_max sa) sf) as (a1 & -> & A1); [done..|by apply clip_max_below, level_ok_below|].
  destruct (clip_limit_total m (clip_max ea) ef) as (a2 & -> & A2); [done..|by apply clip_max_below, level_ok_below|].
  destruct (max_level_limit_total m sf) as [B1 _]; [done..|].
  destruct (max_level_limit_total m ef) as [B2 _]; [done..|]. cbn [mbind option_bind].
  assert (below (2 ^ 24 - 1) ef) by by eapply below_mono; [|exact B2].
  destruct (_ && _); cbn [mbind option_bind].
  - destruct (active_segment_total (segmentIdx p) d a2 ef 999) as [x ->]; [done|lia|done|]. cbn.
    eexists. split; [done|]. cbn. split_and!; try done; lia.
  - destruct (active_segment_total (segmentIdx p) 0 a1 sf 999) as [x ->]; [done|lia|done|]. cbn [mbind option_bind].
    destruct (active_segment_total (segmentIdx p + 1) d a2 ef 999) as [y ->]; [done|lia|done|]. cbn.
    eexists. split; [done|]. cbn. split_and!; try done; lia.
Qed.

Lemma pwle_braking_total b d p :
  below (2 ^ 24 - 1) (prevEndFrequency p) →
  ∃ r, pwle_braking b d p = Some r ∧ pwle_next d p r.
Proof.
  intros Hp. unfold pwle_braking, incrementIndex. destruct (1 <? b); [by eexists|]. destruct (_ <? d); [by eexists|].
  destruct (braking_segment_total (segmentIdx p) d b (prevEndFrequency p) (2 ^ 24 - 1)) as [x ->];
    [lia|done|]. cbn. eexists. split; [done|]. cbn. split_and!; try done; lia.
Qed.

Definition total (es : list PrimitivePwle) : Z := fold_right Z.add 0 (pwle_duration <$> es).

Lemma pwle_loop_total m es p :
  length m = PWLE_BW_MAP_SIZE → Forall (below 1) m → Forall pwle_numbers es →
  below (2 ^ 24 - 1) (prevEndFrequency p) →
  ∃ r, pwle_loop m es p = Some r ∧
    match r with
    | inl st => st ≠ Ok
    | inr p' =>
        segmentIdx p + Z.of_nat (length es) ≤ segmentIdx p' ≤ segmentIdx p + 2 * Z.of_nat (length es) ∧
        u32 (totalDuration p') = u32 (totalDuration p + total es)
    end.
Proof.
  intros Hl Hm Hn. revert p. induction Hn as [|e es He _ IH]; intros p Hp; cbn [pwle_loop].
  { eexists. split; [done|]. split; [cbn [length]; lia|].
    change (total []) with 0. by rewrite Z.add_0_r. }
  assert (∃ r, match e with
    | ActivePwle sa sf ea ef d => pwle_active m sa sf ea ef d p
    | BrakingPwle b d => pwle_braking b d p end = Some r ∧ pwle_next (pwle_duration e) p r) as (r & -> & Hr).
  { destruct e as [sa sf ea ef d|b d]; [|by apply pwle_braking_total].
    destruct He as (? & ? & ? & ?). by apply pwle_active_total. }
  cbn [mbind option_bind]. destruct r as [st|p1]; [by exists (inl st)|]. destruct Hr as (Hs & Ht & Hb).
  destruct (IH p1 Hb) as (r & -> & Hr). exists r. split; [done|]. destruct r as [st|p2]; [done|].
  destruct Hr as [Hs2 Ht2]. split; [cbn [length]; lia|]. rewrite Ht2, Ht.
  unfold total. cbn [fmap list_fmap fold_right]. unfold wrapu. rewrite Zplus_mod_idemp_l. f_equal. lia.
Qed.

(** A call with an envelope, where the limits and the resonant frequency can be
    printed. *)
Lemma composePwle_run (es : list PrimitivePwle) (cb : option nat) (v : vib)
    (Hwf : wf v) (Hw : willing) (Hlog : log10f fone = fzero) (Hi : idle v)
    (Hm : Forall (below 1) (pwleMaxLevelLimitMap v))
    (Hf : below (2 ^ 24 - 1) (mResonantFrequency (lv v))) (Hn : Forall pwle_numbers es) :
  ∃ st v', composePwle es cb v = Some (st, v') ∧
    (st ≠ Ok → v' = v) ∧
    (st = Ok →
      0 < Z.of_nat (length es) ≤ mCompositionSizeMax v ∧
      ∃ queue segments,
        pwle_loop (pwleMaxLevelLimitMap v) es (pwle_start v) = Some (inr segments) ∧
        pwleBuilder segments = queue ∧ Z.of_nat (String.length queue) ≤ CS40L2X_PWLE_LENGTH_MAX ∧
        Z.of_nat (length es) ≤ segmentIdx segments ≤ 2 * Z.of_nat (length es) ∧
        log v' = log v ++ [(VHw.mPwle, queue); (VHw.mEffectScale, "0"); (VHw.mEffectIndex, "65529");
          (VHw.mDuration, dec (u32 (total es + MAX_COLD_START_LATENCY_MS))); (VHw.mActivate, "1")] ∧
        mAsyncHandle v' = Some (Job Polling cb)).
Proof.
  destruct Hi as (Hff & Hj & He). unfold composePwle. rewrite (bind_run _ _ v v v) by done.
  destruct (mIsChirpEnabled v); cbn [negb]; [|by exists EX_UNSUPPORTED_OPERATION, v].
  pose proof (wf_size v Hwf) as Hsz. rewrite (wrapu_small 64) by (unfold COMPOSE_PWLE_SIZE_LIMIT in Hsz; lia).
  destruct (Nat.eqb_spec (length es) 0) as [|Hne]; [by exists EX_ILLEGAL_ARGUMENT, v|].
  destruct (Z.ltb_spec (mCompositionSizeMax v) (Z.of_nat (length es))) as [|Hle];
    [by exists EX_ILLEGAL_ARGUMENT, v|]. cbn [orb].
  destruct (pwle_loop_total (pwleMaxLevelLimitMap v) es (pwle_start v)) as (r & E & Hr);
    [apply Hwf|done..|]. rewrite E. cbn [lift]. erewrite bind_run by reflexivity.
  destruct r as [st|p]; [by exists st, v|]. destruct Hr as [Hseg Htot]. cbn in Hseg, Htot.
  destruct (Z.ltb_spec CS40L2X_PWLE_LENGTH_MAX (Z.of_nat (String.length (pwleBuilder p)))) as [|Hlen];
    [by exists EX_ILLEGAL_STATE, v|].
  destruct (send_named (pwleBuilder p) VHw.mPwle v Hw Hff) as (v1 & E1 & S1); [by vm_compute|].
  unfold setPwle, VHw.setPwle. unfold bind at 1 2. rewrite E1. cbn [ret status_of].
  rewrite decide_True by done.
  destruct (send_named (dec 0) VHw.mEffectScale v1 Hw (sent_failed _ _ _ S1)) as (v2 & E2 & S2);
    [by vm_compute|].
  unfold setEffectAmplitude, VHw.setEffectScale, VHw.set_u32. rewrite full_scale by done. cbn [lift].
  unfold bind at 1 2 3. cbn [ret lift]. rewrite E2. cbn [ret].
  unfold VHw.setEffectIndex, VHw.setDuration, VHw.setActivate, VHw.set_bool, VHw.set_u32.
  send_next v3 S3. send_next v4 S4. send_next v5 S5.
  pose proof (sent_trans _ _ _ _ _ (sent_trans _ _ _ _ _ (sent_trans _ _ _ _ _
    (sent_trans _ _ _ _ _ S1 S2) S3) S4) S5) as (h & -> & Hl & Hh).
  unfold start_job, bind, event, modify, get. cbn -[dec wrapu]. rewrite Hj.
  eexists Ok, _. split; [reflexivity|]. split; [done|]. intros _. split; [lia|].
  exists (pwleBuilder p), p. split_and!; try done; try lia. cbn -[dec wrapu]. rewrite Hl. do 3 f_equal.
  assert (u32 (totalDuration p + MAX_COLD_START_LATENCY_MS) = u32 (total es + MAX_COLD_START_LATENCY_MS)) as ->.
  { unfold wrapu in *. rewrite <- (Zplus_mod_idemp_l (totalDuration p)), Htot, Zplus_mod_idemp_l. done. }
  done.
Qed.

(** *** Effects *)

(** Set the scale of the effect, known to be [x]. *)
Lemma effect_scale_then {A} a m x (k : V A) v :
  willing → amplitudeToScale a m = Some x → VHw.failed (hw v) = ∅ →
  ∃ v', (setEffectAmplitude a m ;; k) v = k v' ∧ sent [(VHw.mEffectScale, dec x)] v v'.
Proof.
  intros Hw Hx Hf. destruct (send_named (dec x) VHw.mEffectScale v Hw Hf) as (v' & E & S); [by vm_compute|].
  exists v'. split; [|done]. unfold setEffectAmplitude, VHw.setEffectScale, VHw.set_u32. rewrite Hx.
  unfold bind. cbn [lift]. by rewrite E.
Qed.

Lemma play_index i l x cb v :
  willing → amplitudeToScale (of_Z l) (of_Z VOLTAGE_SCALE_MAX) = Some x → idle v →
  ∃ v', performEffect_index i l EmptyString cb v = Some (Ok, v') ∧
    log v' = log v ++ [(VHw.mEffectScale, dec x); (VHw.mEffectIndex, dec i);
      (VHw.mDuration, "4294967295"); (VHw.mActivate, "1")] ∧ mAsyncHandle v' = Some (Job Polling cb).
Proof.
  intros Hw Hx (Hf & Hj & He). unfold performEffect_index. cbn [String.eqb negb].
  match goal with |- context [(setEffectAmplitude ?a ?m ;; ?k) v] =>
    destruct (effect_scale_then a m x k v Hw Hx Hf) as (v1 & -> & (h & -> & Hl & Hh)) end.
  destruct (on_index_run MAX_TIME_MS i cb (set_hw h v)) as (v' & E & Hlog & _ & Hj' & _); [done..|].
  exists v'. split; [done|]. split; [|done]. rewrite Hlog. cbn [hw set_hw].
  rewrite Hl, <- app_assoc. done.
Qed.

(** The level of a simple effect, and its duration in the firmware. *)
Definition simple_level (l : levels) (i : Z) (x : float) (vol : Z) : Prop :=
  calc x (pair_of l i) = Some vol ∧ in_pair (pair_of l i) vol.

Lemma simple_details l e st i x d :
  levels_sorted l → simple_index e = Some i → simple_intensity st = Some x →
  mEffectDurations l !! Z.to_nat i = Some d → 0 ≤ d < 2 ^ 32 - 6 →
  ∃ vol, getSimpleDetails l e st = Some (inr (i, d + MAX_COLD_START_LATENCY_MS, vol)) ∧
    simple_level l i x vol.
Proof.
  intros Hl Hi Hx Hd Hr. unfold getSimpleDetails. rewrite Hi, Hx.
  assert (below 1 x) as Hb.
  { destruct st; cbn in Hx; try done; injection Hx as <-; by vm_compute. }
  destruct (intensity_in_pair l x i Hl Hb) as (vol & E & Hin). exists vol. rewrite E. cbn [mbind option_bind].
  rewrite Hd. cbn [mbind option_bind]. unfold MAX_COLD_START_LATENCY_MS.
  rewrite (wrapu_small 32) by lia. split; [done|]. split; [|done].
  rewrite <- E. unfold intensityToVolLevel, pair_of. destruct (_ =? _); [done|]. by destruct (_ || _).
Qed.

(** [perform] by the tables of the code. *)
Lemma perform_run (e : Effect) (st : EffectStrength) (cb : option nat) (v : vib)
    (Hw : willing) (Hlog : log10f fone = fzero) (Hl : levels_sorted (lv v)) (Hi : idle v)
    (Hscale : ∀ vol, in_pair (mClickEffectVol (lv v)) vol →
       is_Some (amplitudeToScale (of_Z vol) (of_Z VOLTAGE_SCALE_MAX)))
    (Hd : ∀ i, (i < 14)%nat → ∃ d, mEffectDurations (lv v) !! i = Some d ∧ 0 ≤ d < 2 ^ 29) :
  match simple_intensity st with
  | Some x =>
      match simple_index e with
      | Some i => ∃ d vol s v',
          mEffectDurations (lv v) !! Z.to_nat i = Some d ∧ simple_level (lv v) i x vol ∧
          amplitudeToScale (of_Z vol) (of_Z VOLTAGE_SCALE_MAX) = Some s ∧
          perform e st cb v = Some ((Ok, d + 6), v') ∧
          log v' = log v ++ [(VHw.mEffectScale, dec s); (VHw.mEffectIndex, dec i);
            (VHw.mDuration, "4294967295"); (VHw.mActivate, "1")]
      | None =>
          if decide (e = DOUBLE_CLICK) then ∃ d1 d2 v1 v2 v',
            mEffectDurations (lv v) !! 2%nat = Some d1 ∧ mEffectDurations (lv v) !! 13%nat = Some d2 ∧
            simple_level (lv v) 2 x v1 ∧ simple_level (lv v) 13 x v2 ∧
            perform e st cb v = Some ((Ok, d1 + d2 + 113), v') ∧
            log v' = log v ++ [(VHw.mEffectQueue, "2." ++ dec v1 ++ ",100,13." ++ dec v2)%string;
              (VHw.mEffectScale, "0"); (VHw.mEffectIndex, "65534");
              (VHw.mDuration, "4294967295"); (VHw.mActivate, "1")]
          else perform e st cb v = Some ((EX_UNSUPPORTED_OPERATION, 0), v)
      end
  | None => perform e st cb v = Some ((EX_UNSUPPORTED_OPERATION, 0), v)
  end.
Proof.
  unfold perform, performEffect. rewrite (bind_run _ _ v v v) by done.
  destruct (simple_intensity st) as [x|] eqn:Ex.
  2: { destruct e; try done; unfold getCompoundDetails, getSimpleDetails; rewrite Ex; done. }
  destruct (simple_index e) as [i|] eqn:Ei.
  - assert (∃ d, mEffectDurations (lv v) !! Z.to_nat i = Some d ∧ 0 ≤ d < 2 ^ 29) as (d & Ed & Hdr).
    { apply Hd. destruct e; cbn in Ei; try done; injection Ei as <-; unfold lt; apply (bool_decide_unpack _); by vm_compute. }
    destruct (simple_details (lv v) e st i x d) as (vol & E & Hv); [done..|lia|].
    assert (pair_of (lv v) i = mClickEffectVol (lv v)) as Hpair
      by by destruct e; cbn in Ei; try done; injection Ei as <-.
    destruct (Hscale vol) as [s Hs]; [rewrite <- Hpair; apply Hv|].
    destruct (play_index i vol s cb v Hw Hs Hi) as (v' & Ep & Hlog' & _).
    exists d, vol, s, v'. do 3 (split; [done|]). split; [|done].
    assert (i32 (d + MAX_COLD_START_LATENCY_MS) = d + 6) as Ht
      by (apply (wraps_small 32); unfold MAX_COLD_START_LATENCY_MS; lia).
    destruct e; try done; rewrite E; cbn [lift]; erewrite bind_run by reflexivity; cbv iota beta;
      rewrite (bind_run _ _ v Ok v' Ep); unfold ret; by rewrite Ht.
  - case_decide as He; [subst|by destruct e].
    destruct (Hd 2%nat) as (d1 & E1 & Hd1); [lia|]. destruct (Hd 13%nat) as (d2 & E2 & Hd2); [lia|].
    destruct (simple_details (lv v) CLICK st 2 x d1) as (v1 & S1 & L1); [done..|lia|].
    destruct (simple_details (lv v) HEAVY_CLICK st 13 x d2) as (v2 & S2 & L2); [done..|lia|].
    unfold getCompoundDetails. rewrite S1. cbn [mbind option_bind]. rewrite S2. cbn [mbind option_bind].
    cbn [lift]. erewrite bind_run by reflexivity. cbv iota beta.
    destruct (play_queue 0 0 (dec 2 ++ "." ++ dec v1 ++ "," ++ dec WAVEFORM_DOUBLE_CLICK_SILENCE_MS ++ ","
      ++ dec 13 ++ "." ++ dec v2)%string cb v) as (v' & Ep & Hlog' & _);
      [done|done|by vm_compute|apply Hi..|].
    exists d1, d2, v1, v2, v'. do 4 (split; [done|]).
    split; [|exact Hlog'].
    rewrite (bind_run _ _ v Ok v' Ep). unfold ret. do 3 f_equal.
    unfold MAX_COLD_START_LATENCY_MS, WAVEFORM_DOUBLE_CLICK_SILENCE_MS, MAX_PAUSE_TIMING_ERROR_MS.
    rewrite (wrapu_small 32 (0 + _)), (wrapu_small 32 (_ + (100 + 1))), (wrapu_small 32) by lia.
    rewrite (wraps_small 32) by lia. lia.
Qed.

(** The waveforms of the simple effects, and the strengths as shares of the level. *)
Definition waveforms : list (Effect * Z) :=
  [(TEXTURE_TICK, 10); (TICK, 10); (CLICK, 2); (THUD, 11); (POP, 12); (HEAVY_CLICK, 13)].
Definition strengths : list (EffectStrength * float) :=
  [(LIGHT, ratio 1 2); (MEDIUM, ratio 7 10); (STRONG, fone)].

Lemma waveforms_code e i : (e, i) ∈ waveforms ↔ simple_index e = Some i.
Proof.
  unfold waveforms. rewrite !elem_of_cons, elem_of_nil. destruct e; cbn; naive_solver.
Qed.

Lemma strengths_code st x : (st, x) ∈ strengths ↔ simple_intensity st = Some x.
Proof.
  unfold strengths. rewrite !elem_of_cons, elem_of_nil. destruct st; cbn [simple_intensity];
    split; try naive_solver; intros [[=]|[[=]|[[=]|[]]]]; by subst.
Qed.

(** C22. [perform] plays exactly the effects the service advertises, at the three
    strengths, on an idle service with a driver that takes every line and sorted
    calibration levels.  The advertised effects are the double click and the simple
    effects of the table.  A simple effect is sent as its attenuation, its waveform
    from the table and the activation, with a level in its calibrated range computed
    from the share of its strength, and the time returned is its duration plus the
    cold start; the double click is sent as the queue of a click, 100 ms and a heavy
    click, and its time is the sum of both with the pause and the timing error.  An
    effect that is not advertised or any other strength is refused without a change. *)
Theorem perform_spec (e : Effect) (st : EffectStrength) (cb : option nat) (v : vib)
    (Hw : willing) (Hlog : log10f fone = fzero) (Hl : levels_sorted (lv v)) (Hi : idle v)
    (Hscale : ∀ vol, in_pair (mClickEffectVol (lv v)) vol →
       is_Some (amplitudeToScale (of_Z vol) (of_Z VOLTAGE_SCALE_MAX)))
    (Hd : ∀ i, (i < 14)%nat → ∃ d, mEffectDurations (lv v) !! i = Some d ∧ 0 ≤ d < 2 ^ 29) :
  (∀ i x, (e, i) ∈ waveforms → (st, x) ∈ strengths → ∃ d vol s v',
     mEffectDurations (lv v) !! Z.to_nat i = Some d ∧ simple_level (lv v) i x vol ∧
     amplitudeToScale (of_Z vol) (of_Z VOLTAGE_SCALE_MAX) = Some s ∧
     perform e st cb v = Some ((Ok, d + 6), v') ∧
     log v' = log v ++ [(VHw.mEffectScale, dec s); (VHw.mEffectIndex, dec i);
       (VHw.mDuration, "4294967295"); (VHw.mActivate, "1")]) ∧
  (∀ x, e = DOUBLE_CLICK → (st, x) ∈ strengths → ∃ d1 d2 v1 v2 v',
     mEffectDurations (lv v) !! 2%nat = Some d1 ∧ mEffectDurations (lv v) !! 13%nat = Some d2 ∧
     simple_level (lv v) 2 x v1 ∧ simple_level (lv v) 13 x v2 ∧
     perform e st cb v = Some ((Ok, d1 + d2 + 113), v') ∧
     log v' = log v ++ [(VHw.mEffectQueue, "2." ++ dec v1 ++ ",100,13." ++ dec v2)%string;
       (VHw.mEffectScale, "0"); (VHw.mEffectIndex, "65534");
       (VHw.mDuration, "4294967295"); (VHw.mActivate, "1")]) ∧
  (e ∉ getSupportedEffects ∨ (∀ x, (st, x) ∉ strengths) →
     perform e st cb v = Some ((EX_UNSUPPORTED_OPERATION, 0), v)) ∧
  (e ∈ getSupportedEffects ↔ e = DOUBLE_CLICK ∨ ∃ i, (e, i) ∈ waveforms).
Proof.
  assert (e ∈ getSupportedEffects ↔ e = DOUBLE_CLICK ∨ ∃ i, (e, i) ∈ waveforms) as Hsup.
  { unfold getSupportedEffects, waveforms. rewrite !elem_of_cons, elem_of_nil.
    setoid_rewrite elem_of_cons. setoid_rewrite elem_of_cons. setoid_rewrite elem_of_cons.
    setoid_rewrite elem_of_cons. setoid_rewrite elem_of_cons. setoid_rewrite elem_of_cons.
    setoid_rewrite elem_of_nil. naive_solver. }
  pose proof (perform_run e st cb v Hw Hlog Hl Hi Hscale Hd) as Hr. split_and!; [| | |done].
  - intros i x Hwf Hx. apply waveforms_code in Hwf. apply strengths_code in Hx.
    rewrite Hwf, Hx in Hr. exact Hr.
  - intros x -> Hx. apply strengths_code in Hx. rewrite Hx in Hr. cbn [simple_index] in Hr.
    rewrite decide_True in Hr by done. exact Hr.
  - intros Hno. destruct (simple_intensity st) as [x|] eqn:Ex; [|exact Hr].
    destruct Hno as [Hno|Hno]; [|by apply strengths_code, Hno in Ex].
    rewrite Hsup in Hno. destruct (simple_index e) as [i|] eqn:Ei.
    { exfalso. apply Hno. right. exists i. by apply waveforms_code. }
    rewrite decide_False in Hr by naive_solver. exact Hr.
Qed.

(** *** Long vibrations and external control *)

Lemma global_scale_then {A} (b : bool) p0 p1 x (k : V A) v :
  willing → mLongEffectVol (lv v) = [p0; p1] →
  amplitudeToScale (of_Z (u8 (if b then p1 else VOLTAGE_SCALE_MAX))) (of_Z VOLTAGE_SCALE_MAX) = Some x →
  VHw.failed (hw v) = ∅ →
  ∃ v', (setGlobalAmplitude b ;; k) v = k v' ∧ sent [(VHw.mGlobalScale, dec x)] v v'.
Proof.
  intros Hw Hp Hx Hf. destruct (send_named (dec x) VHw.mGlobalScale v Hw Hf) as (v' & E & S); [by vm_compute|].
  exists v'. split; [|done]. unfold setGlobalAmplitude, VHw.setGlobalScale, VHw.set_u32, level_at, bind, get.
  destruct b; [rewrite Hp|]; cbn [lift lookup list_lookup ret]; rewrite Hx; cbn [lift]; by rewrite E.
Qed.

(** C33. A long vibration is sent with the cold start added to its time, up to
    the largest time for which the signed addition fits; for the six times above
    that the addition overflows, which is undefined: the test before it
    compares with the unsigned maximum. *)
Theorem on_spec (t : Z) (cb : option nat) (v : vib) (p0 p1 s : Z)
    (Ht : 0 ≤ t < 2 ^ 31) (Hw : willing) (Hi : idle v)
    (Hp : mLongEffectVol (lv v) = [p0; p1])
    (Hs : amplitudeToScale (of_Z (u8 p1)) (of_Z VOLTAGE_SCALE_MAX) = Some s) :
  if decide (t ≤ 2 ^ 31 - 1 - MAX_COLD_START_LATENCY_MS) then
    ∃ v', on t cb v = Some (Ok, v') ∧
      log v' = log v ++ [(VHw.mGlobalScale, dec s); (VHw.mF0Offset, dec (mF0Offset (lv v)));
        (VHw.mEffectIndex, "0"); (VHw.mDuration, dec (t + MAX_COLD_START_LATENCY_MS));
        (VHw.mActivate, "1")] ∧
      mAsyncHandle v' = Some (Job Polling cb) ∧ mActiveId v' = 0
  else on t cb v = None.
Proof.
  destruct Hi as (Hf & Hj & He). unfold on, MAX_COLD_START_LATENCY_MS.
  rewrite (wrapu_small 32 t) by lia. unfold UINT32_MAX. rewrite (wrapu_small 32 (_ - t)) by lia.
  rewrite (proj2 (Z.leb_le _ _)) by lia. case_decide as Hd.
  2: { destruct (Pid.ck32 (t + 6)) as [z|] eqn:E; [|done]. apply Pid.checked_inv in E. lia. }
  rewrite Pid.checked_Some by lia. cbn [lift]. erewrite bind_run by reflexivity.
  match goal with |- context [(setGlobalAmplitude true ;; ?k) v] =>
    destruct (global_scale_then true p0 p1 s k v Hw Hp Hs Hf) as (v1 & -> & S1) end.
  rewrite (bind_run _ _ v1 v1 v1) by done. unfold VHw.setF0Offset, VHw.set_u32.
  match goal with |- context [(api_ (VHw.set ?x ?n) ;; ?k) v1] =>
    destruct (send_then x n k v1 Hw) as (v2 & -> & S2);
      [apply (bool_decide_unpack _); by vm_compute|by eapply sent_failed|] end.
  pose proof S1 as (h1 & -> & _ & _). cbn [lv set_hw] in S2.
  pose proof (sent_trans _ _ _ _ _ S1 S2) as (h & -> & Hl & Hh).
  rewrite (wrapu_small 32 (t + 6)) by lia.
  destruct (on_index_run (t + 6) WAVEFORM_LONG_VIBRATION_EFFECT_INDEX cb (set_hw h v))
    as (v' & E & Hlog' & _ & Hj' & Ha & _); [done..|].
  exists v'. split; [done|]. split; [|done]. rewrite Hlog'. cbn [hw set_hw]. by rewrite Hl, <- app_assoc.
Qed.

(** The PCM pointer may be closed. *)
Definition pcm_ok (v : vib) : Prop :=
  mHasHapticAlsaDevice (sound v) = true → mHapticPcm (sound v) ≠ PcmWild.

Lemma set_sound_id v : set_sound (sound v) v = v.
Proof. by destruct v. Qed.

Lemma has_run n v : VHw.failed (hw v) = ∅ → api (VHw.has n) v = Some (true, v).
Proof.
  intros Hf. unfold api, VHw.has. rewrite Hf, bool_decide_eq_true_2 by set_solver. by destruct v.
Qed.

Lemma pcm_off v :
  pcm_ok v →
  ∃ a, (if mHasHapticAlsaDevice (sound v) then enableHapticPcmAmp false else ret true) v =
      Some (true, set_sound a v) ∧
    (mHasHapticAlsaDevice (sound v) = true → mHapticPcm a = PcmNull).
Proof.
  unfold pcm_ok. intros Hp. destruct (mHasHapticAlsaDevice (sound v)) eqn:Eh.
  - unfold enableHapticPcmAmp. rewrite (bind_run _ _ v v v) by done.
    destruct (mHapticPcm (sound v)) eqn:Em; [|by eexists|by destruct Hp].
    exists (sound v). by rewrite set_sound_id.
  - exists (sound v). by rewrite set_sound_id.
Qed.

(** Turning external control off: the amplitude, the PCM device and the ASP file. *)
Lemma external_off v p0 p1 :
  willing → log10f fone = fzero → mLongEffectVol (lv v) = [p0; p1] → pcm_ok v →
  VHw.failed (hw v) = ∅ → mIsUnderExternalControl v = true →
  ∃ v', setExternalControl false v = Some (Ok, v') ∧
    log v' = log v ++ [(VHw.mGlobalScale, "0"); (VHw.mAspEnable, "0")] ∧
    VHw.failed (hw v') = ∅ ∧ mIsUnderExternalControl v' = false ∧ mAsyncHandle v' = mAsyncHandle v ∧
    (mHasHapticAlsaDevice (sound v) = true → mHapticPcm (sound v') = PcmNull).
Proof.
  intros Hw Hlog Hp Hpcm Hf He. unfold setExternalControl.
  match goal with |- context [(setGlobalAmplitude false ;; ?k) v] =>
    destruct (global_scale_then false p0 p1 0 k v Hw Hp (full_scale Hlog) Hf) as (v1 & -> & S1) end.
  rewrite (bind_run _ _ v1 v1 v1) by done. destruct S1 as (h1 & -> & Hl1 & Hh1).
  cbn [mIsUnderExternalControl set_hw]. rewrite He. cbn [Bool.eqb].
  destruct (pcm_off (set_hw h1 v)) as (a & Ea & Hn); [done|].
  destruct (send_named "0" VHw.mAspEnable (set_sound a (set_hw h1 v)) Hw Hh1)
    as (v3 & E3 & (h3 & -> & Hl3 & Hh3)); [by vm_compute|].
  assert (switch_external false (set_hw h1 v) = Some (true, set_hw h3 (set_sound a (set_hw h1 v)))) as E.
  { unfold switch_external. rewrite (bind_run _ _ (set_hw h1 v) _ _) by reflexivity.
    rewrite (bind_run _ _ _ _ _ Ea). cbv iota. unfold VHw.hasAspEnable.
    rewrite (bind_run _ _ _ _ _ (has_run VHw.mAspEnable (set_sound a (set_hw h1 v)) Hh1)). exact E3. }
  rewrite (bind_run _ _ _ _ _ E). unfold bind, modify, ret.
  eexists. split; [reflexivity|]. cbn. rewrite Hl3. cbn. rewrite Hl1, <- app_assoc. done.
Qed.

(** A vibration never starts under external control: when the device is under
    external control, starting one first restores the amplitude, turns the ASP
    file off and closes the PCM device, and only then is the waveform activated. *)
Theorem on_leaves_external (t i : Z) (cb : option nat) (v : vib) (p0 p1 : Z)
    (Hw : willing) (Hlog : log10f fone = fzero) (Hp : mLongEffectVol (lv v) = [p0; p1])
    (Hpcm : pcm_ok v) (Hf : VHw.failed (hw v) = ∅) (Hj : mAsyncHandle v = None)
    (He : mIsUnderExternalControl v = true) :
  ∃ v', on_index t i cb v = Some (Ok, v') ∧
    log v' = log v ++ [(VHw.mGlobalScale, "0"); (VHw.mAspEnable, "0");
      (VHw.mEffectIndex, dec i); (VHw.mDuration, dec t); (VHw.mActivate, "1")] ∧
    mIsUnderExternalControl v' = false ∧
    (mHasHapticAlsaDevice (sound v) = true → mHapticPcm (sound v') = PcmNull).
Proof.
  destruct (external_off v p0 p1) as (v1 & E1 & Hl1 & Hf1 & He1 & Hj1 & Hn1); [done..|].
  assert (on_index t i cb v = on_index t i cb v1) as ->.
  { unfold on_index. rewrite (bind_run _ _ v v v), (bind_run _ _ v1 v1 v1) by done. rewrite He, He1.
    cbn [when]. rewrite (bind_run _ _ v1 tt v1) by done. unfold bind at 1 2. by rewrite E1. }
  destruct (on_index_run t i cb v1) as (v' & E & Hl & _ & _ & _ & He' & _ & _ & Hs);
    [done|done|congruence|done|].
  exists v'. split; [done|]. split; [rewrite Hl, Hl1, <- app_assoc; done|]. split; [done|].
  by rewrite Hs.
Qed.

(** *** Defects *)

Lemma bind_split {A B} (m : V A) (k : A → V B) v b v'' :
  bind m k v = Some (b, v'') → ∃ a v', m v = Some (a, v') ∧ k a v' = Some (b, v'').
Proof. unfold bind. destruct (m v) as [[a v']|]; [eauto|done]. Qed.

Lemma has_scale_capability v caps v' :
  VHw.mEffectScale ∉ VHw.failed (hw v) → getCapabilities v = Some (caps, v') →
  CAP_AMPLITUDE_CONTROL ∈ caps.
Proof.
  intros Hn. unfold getCapabilities, VHw.hasEffectScale. rewrite (bind_run _ _ v true v).
  2: { unfold api, VHw.has. rewrite bool_decide_eq_true_2 by done. by destruct v. }
  intros (? & ? & _ & (? & ? & _ & (? & ? & _ & (? & ? & _ & [= <- _])%bind_split)%bind_split)%bind_split)%bind_split.
  rewrite list_elem_of_In. cbn. tauto.
Qed.

(** A failed write turns a missing file into a supported one: without the file of
    the effect scale, the first attempt to set the amplitude fails, clears the state
    of the stream, and from then on the service advertises amplitude control. *)
Theorem failed_scale_is_advertised (v : vib)
    (Hmiss : VHw.node_opens VHw.mEffectScale = false)
    (Hlog : log10f fone = fzero) (He : mIsUnderExternalControl v = false) :
  ∃ v', setAmplitude fone v = Some (EX_ILLEGAL_STATE, v') ∧ log v' = log v ∧
    ∀ caps v'', getCapabilities v' = Some (caps, v'') → CAP_AMPLITUDE_CONTROL ∈ caps.
Proof.
  unfold setAmplitude. change (fleb fone fzero || fltb fone fone) with false. cbv iota.
  rewrite (bind_run _ _ v v v) by done. rewrite He. unfold setEffectAmplitude.
  assert (amplitudeToScale fone fone = Some 0) as ->.
  { unfold amplitudeToScale. assert (fdiv fone fone = fone) as -> by by vm_compute.
    rewrite Hlog. by vm_compute. }
  cbn [lift]. erewrite bind_run by reflexivity.
  unfold VHw.setEffectScale, VHw.set_u32, VHw.set, api, bind. cbn [VHw.hw_get]. unfold VHw.usable.
  rewrite Hmiss, andb_false_r. cbn. eexists. split; [reflexivity|]. split; [cbn; by rewrite app_nil_r|].
  intros caps v'' Hc. eapply has_scale_capability; [|exact Hc]. cbn. set_solver.
Qed.

(** Floats the checks let through are undefined further on: an amplitude of one
    percent attenuates by 320 steps, which does not fit the eight bits it is
    converted to, and a scale that is not a number passes the range check of
    [compose] and has no nearest integer. *)
Theorem accepted_floats_undefined (v : vib) (cb : option nat)
    (Hlog : log10f (ratio 1 100) = of_Z (-2)) (He : mIsUnderExternalControl v = false) :
  setAmplitude (ratio 1 100) v = None ∧
  compose [Composite 0 P_CLICK S754_nan] cb v = None.
Proof.
  split.
  - unfold setAmplitude. assert (fleb (ratio 1 100) fzero || fltb fone (ratio 1 100) = false) as ->
      by by vm_compute.
    rewrite (bind_run _ _ v v v) by done. rewrite He. unfold setEffectAmplitude, amplitudeToScale.
    assert (fdiv (ratio 1 100) fone = ratio 1 100) as -> by by vm_compute. rewrite Hlog. by vm_compute.
  - assert (compose_loop (lv v) [Composite 0 P_CLICK S754_nan] EmptyString = None) as E.
    { assert (compose_element (lv v) (Composite 0 P_CLICK S754_nan) = None) as E;
        [|cbn [compose_loop]; by rewrite E].
      change (calc S754_nan (mClickEffectVol (lv v)) ≫= (λ vol, Some (inr
        ("" ++ dec WAVEFORM_CLICK_INDEX ++ "." ++ dec vol ++ ",")%string : status + string)) = None).
      unfold calc. by destruct (mClickEffectVol (lv v)) as [|v0 [|v1 l]]. }
    change (compose _ cb v) with
      ((let* v := get in let* r := lift (compose_loop (lv v) [Composite 0 P_CLICK S754_nan] EmptyString) in
        match r with
        | inl st => ret st
        | inr b => if String.eqb b EmptyString then ret EX_ILLEGAL_ARGUMENT
                   else performEffect_index 0 0 (b ++ "0")%string cb
        end) v).
    rewrite (bind_run _ _ v v v) by done. by rewrite E.
Qed.

(** The limit of the driver is 0.99, but with one digit it is sent as 1, like every
    amplitude above it. *)
Theorem clipped_level_prints_one (a : float) (Ha : fltb CS40L2X_PWLE_LEVEL_MAX a = true) :
  print1 (clip_max a) = Some "1" ∧ print1 fone = Some "1".
Proof. unfold clip_max. rewrite Ha. by vm_compute. Qed.
End sending.

End VibratorProps.
