(* ===== verification/VibratorTrace.v ===== *)
(** * VibratorTrace: the vibrator service over whole runs

    [frame] says what almost every operation leaves alone: the map of level limits,
    the pending job and the callbacks called.  The ledger is the callbacks already
    called followed by the one of the pending job.  Starting a job adds to it, and
    the job's last call moves a callback from one part to the other; where two jobs
    run at once, the ledger is only kept up to the order.  From this follow the
    accounting of callbacks over all runs and, for the actuators the source is
    built for, that every reachable state satisfies what the envelope code needs. *)

From Stdlib Require Import SpecFloat.
From stdpp Require Import gmap strings.
From S2P Require Import Prelude PowerPid Float32 VibratorHw Vibrator VibratorProps.

Module VibratorTrace.
Import F32 Vibrator VibratorProps.

Definition callback_list (c : option nat) : list nat :=
  match c with Some c => [c] | None => [] end.

(** The callback a job still has to call. *)
Definition owed (j : option job) : list nat :=
  match j with Some j => callback_list (notify j) | None => [] end.

(** The callbacks called, then the one that is still to be called. *)
Definition ledger (v : vib) : list nat := completed v ++ owed (mAsyncHandle v).

Record frame (v v' : vib) : Prop := Frame {
  fr_limits : pwleMaxLevelLimitMap v' = pwleMaxLevelLimitMap v;
  fr_job : mAsyncHandle v' = mAsyncHandle v;
  fr_completed : completed v' = completed v;
}.

Lemma frame_ledger v v' : frame v v' → ledger v' = ledger v.
Proof. intros [_ E1 E2]. unfold ledger. by rewrite E1, E2. Qed.

#[global] Instance frame_pre : PreOrder frame.
Proof.
  split; [by constructor|]. intros v1 v2 v3 [? ? ?] [? ? ?]. constructor; congruence.
Qed.

Definition framed {A} (m : V A) : Prop := ∀ v a v', m v = Some (a, v') → frame v v'.

Create HintDb vframe.

Section rules.
Lemma framed_ret {A} (a : A) : framed (ret a).
Proof. by intros v b v' [= _ <-]. Qed.
Lemma framed_bind {A B} (m : V A) (k : A → V B) :
  framed m → (∀ a, framed (k a)) → framed (bind m k).
Proof.
  intros Hm Hk v b v''. unfold bind. destruct (m v) as [[a v']|] eqn:E; [|done]. intros E'.
  etrans; [by eapply Hm|by eapply Hk].
Qed.
Lemma framed_lift {A} (o : option A) : framed (lift o).
Proof. intros v a v'. unfold lift. destruct o; [|done]. by intros [= _ <-]. Qed.
Lemma framed_ub {A} : framed (@ub vib A).
Proof. done. Qed.
Lemma framed_get : framed get.
Proof. by intros v a v' [= _ <-]. Qed.
Lemma framed_event : framed event.
Proof. by intros v a v' [= _ <-]. Qed.
Lemma framed_when b m : framed m → framed (when b m).
Proof. destruct b; [done|]. intros _. apply framed_ret. Qed.
Lemma framed_modify f : (∀ v, frame v (f v)) → framed (modify f).
Proof. intros Hf v a v' [= _ <-]. auto. Qed.
Lemma framed_api {A} (m : VHw.HW A) : framed (api m).
Proof.
  intros v a v'. unfold api. destruct (m (hw v)) as [[b h]|]; [|done]. by intros [= _ <-].
Qed.
Lemma framed_api_ m : framed (api_ m).
Proof. apply framed_bind; [apply framed_api|]. intros. apply framed_ret. Qed.
End rules.

#[export] Hint Resolve framed_ret framed_lift framed_ub framed_get framed_event framed_api
  framed_api_ framed_when : vframe.
#[export] Hint Extern 2 (framed (modify _)) => apply framed_modify; by constructor : vframe.

(** Split an operation into its calls. *)
Ltac frames :=
  repeat first
    [ progress intros
    | solve [auto with vframe nocore]
    | apply framed_bind
    | apply framed_when
    | match goal with
      | |- framed (if ?b then _ else _) => destruct b
      | |- framed (match ?x with _ => _ end) => destruct x
      end ].

Section operations.
Context `{VHw.Driver} `{VHw.Properties} `{Libm} `{Platform} `{Actuator}.

Lemma framed_hasHapticAlsaDevice : framed hasHapticAlsaDevice.
Proof. unfold hasHapticAlsaDevice, findHapticAlsaDevice. frames. Qed.
Hint Resolve framed_hasHapticAlsaDevice : vframe.
Lemma framed_getCapabilities : framed getCapabilities.
Proof. unfold getCapabilities. frames. Qed.
Hint Resolve framed_getCapabilities : vframe.
Lemma framed_has_cap c : framed (has_cap c).
Proof. unfold has_cap. frames. Qed.
Hint Resolve framed_has_cap : vframe.
Lemma framed_getPwleCompositionSizeMax : framed getPwleCompositionSizeMax.
Proof. unfold getPwleCompositionSizeMax. frames. Qed.
Lemma framed_setEffectAmplitude a b : framed (setEffectAmplitude a b).
Proof. unfold setEffectAmplitude. frames. Qed.
Lemma framed_setGlobalAmplitude b : framed (setGlobalAmplitude b).
Proof. unfold setGlobalAmplitude, level_at. frames. Qed.
Hint Resolve framed_getPwleCompositionSizeMax framed_setEffectAmplitude
  framed_setGlobalAmplitude : vframe.
Lemma framed_setExternalControl b : framed (setExternalControl b).
Proof.
  unfold setExternalControl, switch_external, enableHapticPcmAmp, pcm_fail, set_pcm. frames.
Qed.
Hint Resolve framed_setExternalControl : vframe.
Lemma framed_generate : framed generateBandwidthAmplitudeMap.
Proof. unfold generateBandwidthAmplitudeMap. frames. Qed.
Hint Resolve framed_generate : vframe.

(** *** Jobs *)

(** One call of a job: it leaves the limits and [mAsyncHandle] alone, and what it has
    called and still owes is the same. *)
Lemma job_call n j v r v' :
  waitForComplete n j v = Some (r, v') →
  pwleMaxLevelLimitMap v' = pwleMaxLevelLimitMap v ∧ mAsyncHandle v' = mAsyncHandle v ∧
  completed v' ++ owed r = completed v ++ owed (Some j).
Proof.
  unfold waitForComplete. destruct (next_call j).
  - destruct (api _ v) as [[[b|] v1]|] eqn:E; intros [= <- <-]; [|done..].
    by destruct (framed_api _ _ _ _ E) as [-> -> ->].
  - match goal with |- ?m v = _ → _ => assert (framed m) as Hm by frames end. intros E.
    destruct (Hm _ _ _ E) as [-> -> ->]. revert E. unfold bind.
    destruct (api_ _ v) as [[u v1]|]; [|done]. by intros [= <- _].
  - intros [= <- <-]. cbn. split; [done|]. split; [done|]. by rewrite app_nil_r.
Qed.

Lemma job_calls_run k n j v r v' :
  advance k n j v = Some (r, v') →
  pwleMaxLevelLimitMap v' = pwleMaxLevelLimitMap v ∧ mAsyncHandle v' = mAsyncHandle v ∧
  completed v' ++ owed r = completed v ++ owed (Some j).
Proof.
  revert j v. induction k as [|k IH]; intros j v; cbn [advance]; [by intros [= <- <-]|].
  unfold bind. destruct (waitForComplete n j v) as [[[j'|] v1]|] eqn:E; [| |done];
    apply job_call in E as (E1 & E2 & E3).
  - intros (F1 & F2 & F3)%IH. split_and!; congruence.
  - by intros [= <- <-].
Qed.

(** Two jobs at once: nothing is lost or repeated, but the order is the scheduler's. *)
Lemma race_run sch n old new v r v' :
  race sch n old new v = Some (r, v') →
  pwleMaxLevelLimitMap v' = pwleMaxLevelLimitMap v ∧
  completed v' ++ owed r ≡ₚ completed v ++ owed (Some old) ++ owed new.
Proof.
  revert old new v. induction sch as [|[] sch IH]; intros old new v; cbn [race]; [done|..];
    unfold bind.
  - destruct (call_if_running n new v) as [[o w]|] eqn:En; [|done].
    assert (pwleMaxLevelLimitMap w = pwleMaxLevelLimitMap v ∧
      completed w ++ owed o = completed v ++ owed new) as [F1 F2].
    { destruct new as [j|]; [by apply job_call in En as (? & _ & ?)|by injection En as <- <-]. }
    intros [G1 G2]%IH. split; [congruence|].
    rewrite G2, (Permutation_app_comm (owed (Some old))), app_assoc, F2, <- app_assoc.
    by rewrite (Permutation_app_comm (owed new)).
  - destruct (waitForComplete n old v) as [[[o|] w]|] eqn:E; [| |done];
      apply job_call in E as (F1 & _ & F2).
    + intros [G1 G2]%IH. split; [congruence|]. by rewrite G2, !app_assoc, F2.
    + intros [= <- <-]. split; [done|]. cbn [owed] in F2. rewrite app_nil_r in F2.
      by rewrite F2, <- app_assoc.
Qed.

(** ** Calls that start a job *)

(** [m] leaves the limits alone and adds the callbacks [L] of its result to the
    ledger, up to [R]: equality, or equality up to the order. *)
Definition adds {A} (R : relation (list nat)) (m : V A) (L : A → list nat) : Prop :=
  ∀ v a v', m v = Some (a, v') →
    pwleMaxLevelLimitMap v' = pwleMaxLevelLimitMap v ∧ R (ledger v') (ledger v ++ L a).

(** Running the pending job changes the ledger in no way. *)
Lemma progress_ledger k n v a v' :
  progress k n v = Some (a, v') →
  pwleMaxLevelLimitMap v' = pwleMaxLevelLimitMap v ∧ ledger v' = ledger v ∧
  (a = true → mAsyncHandle v' = None).
Proof.
  unfold progress, bind, get, ledger. destruct (mAsyncHandle v) as [j|] eqn:Ej;
    [|intros [= <- <-]; by rewrite Ej].
  destruct (advance k n j v) as [[r w]|] eqn:E; [|done]. apply job_calls_run in E as (F1 & _ & F2).
  intros [= <- <-]. cbn. split; [done|]. split; [done|]. by destruct r.
Qed.

(** The callback counts when the call was accepted. *)
Definition cb_if (cb : option nat) (st : status) : list nat :=
  if decide (st = Ok) then callback_list cb else [].

Section relation.
Context (R : relation (list nat)) `{!PreOrder R}.

Lemma adds_bind {A B} (m : V A) (k : A → V B) L :
  framed m → (∀ a, adds R (k a) L) → adds R (bind m k) L.
Proof.
  intros Hm Hk v b v''. unfold bind. destruct (m v) as [[a v']|] eqn:E; [|done]. intros E'.
  pose proof (Hm _ _ _ E) as F. rewrite <- (frame_ledger _ _ F). destruct F as [<- _ _].
  by eapply Hk.
Qed.
Lemma adds_ret {A} (a : A) L : L a = [] → adds R (ret a) L.
Proof. intros E v b v' [= <- <-]. by rewrite E, app_nil_r. Qed.
Lemma adds_framed {A} (m : V A) L : framed m → (∀ a, L a = []) → adds R m L.
Proof.
  intros Hm E v a v' Ea. pose proof (Hm _ _ _ Ea) as F. rewrite (frame_ledger _ _ F).
  destruct F as [-> _ _]. by rewrite E, app_nil_r.
Qed.
Lemma adds_map {A B} (m : V A) (f : A → B) L L' :
  adds R m L → (∀ a, L' (f a) = L a) → adds R (let* x := m in ret (f x)) L'.
Proof.
  intros Hm E v b v'. unfold bind. destruct (m v) as [[a v1]|] eqn:Ea; [|done].
  intros [= <- <-]. rewrite E. by eapply Hm.
Qed.

Lemma adds_lift {A B} (o : option A) (k : A → V B) L :
  (∀ a, o = Some a → adds R (k a) L) → adds R (let* x := lift o in k x) L.
Proof.
  intros Hk v b v'. unfold bind, lift. destruct o as [a|]; [|done]. by apply Hk.
Qed.
Lemma adds_eq {A} (m : V A) L : adds eq m L → adds R m L.
Proof. intros Hm v a v' E. destruct (Hm _ _ _ E) as [? ->]. done. Qed.
End relation.

Lemma cb_if_refused cb st : st ≠ Ok → cb_if cb st = [].
Proof. intros Hst. unfold cb_if. by rewrite decide_False. Qed.

(** A status computed without a call to the driver is a refusal. *)
Definition refuses {A} (r : status + A) : Prop := match r with inl st => st ≠ Ok | inr _ => True end.

Lemma simple_refuses l e st r : getSimpleDetails l e st = Some r → refuses r.
Proof.
  unfold getSimpleDetails. destruct (simple_intensity st); [|by intros [= <-]].
  destruct (simple_index e); [|by intros [= <-]]. destruct (intensityToVolLevel _ _ _); [|done].
  cbn. destruct (mEffectDurations l !! _); [|done]. by intros [= <-].
Qed.

Lemma compound_refuses l e st r : getCompoundDetails l e st = Some r → refuses r.
Proof.
  unfold getCompoundDetails. destruct e; try by intros [= <-].
  destruct (getSimpleDetails l CLICK st) as [r1|] eqn:E1; [|done]. apply simple_refuses in E1. cbn.
  destruct r1 as [|[[]]]; [by intros [= <-]|].
  destruct (getSimpleDetails l HEAVY_CLICK st) as [r2|] eqn:E2; [|done]. apply simple_refuses in E2.
  cbn. destruct r2 as [|[[]]]; by intros [= <-].
Qed.

Lemma primitive_refuses p st : getPrimitiveDetails p = inl st → st ≠ Ok.
Proof. destruct p; try done; by intros [= <-]. Qed.

Lemma element_refuses l e r : compose_element l e = Some r → refuses r.
Proof.
  unfold compose_element. repeat case_match; try by intros [= <-].
  all: first [intros [= <-]; by eapply primitive_refuses
             |destruct (intensityToVolLevel _ _ _); [|done]; by intros [= <-]].
Qed.

Lemma compose_refuses l es b r : compose_loop l es b = Some r → refuses r.
Proof.
  revert b. induction es as [|e es IH]; intros b; cbn [compose_loop]; [by intros [= <-]|].
  destruct (compose_element l e) as [x|] eqn:E; [|done]. apply element_refuses in E. cbn.
  destruct x; [by intros [= <-]|apply IH].
Qed.

Lemma pwle_refuses m es p r : pwle_loop m es p = Some r → refuses r.
Proof.
  revert p. induction es as [|e es IH]; intros p; cbn [pwle_loop]; [by intros [= <-]|].
  destruct (match e with ActivePwle _ _ _ _ _ => _ | _ => _ end) as [x|] eqn:E; [|done]. cbn.
  assert (refuses x) as Hx.
  { destruct e; revert E; unfold pwle_active, pwle_braking;
      repeat (case_match; [by intros [= <-]|]); unfold mbind, option_bind;
      repeat (case_match; try done); intros; by simplify_eq. }
  destruct x; [by intros [= <-]|apply IH].
Qed.

(** Starting a job adds its callback; when a job is pending, its callback may be
    called before or after the new one's. *)
Lemma adds_start_job cb : adds Permutation (start_job cb ;; ret Ok) (cb_if cb).
Proof.
  intros v a v'. unfold start_job, bind, event, get, modify, ledger. cbn [mAsyncHandle].
  destruct (mAsyncHandle v) as [old|] eqn:Ej.
  - destruct (race _ _ _ _ _) as [[new w]|] eqn:E; [|done]. apply race_run in E as [F1 F2].
    intros [= <- <-]. split; [done|]. cbn. cbn in F2. rewrite F2, <- app_assoc. done.
  - intros [= <- <-]. split; [done|]. cbn. by rewrite app_nil_r.
Qed.

Lemma start_job_idle cb v a v' :
  (start_job cb ;; ret Ok) v = Some (a, v') → mAsyncHandle v = None →
  pwleMaxLevelLimitMap v' = pwleMaxLevelLimitMap v ∧ ledger v' = ledger v ++ cb_if cb a.
Proof.
  intros E Hj. revert E. unfold start_job, bind, event, get, modify, ledger. cbn [mAsyncHandle].
  rewrite Hj. intros [= <- <-]. split; [done|]. cbn. by rewrite app_nil_r.
Qed.

(** Split a call into its steps up to the one that starts the job. *)
Ltac adds_steps :=
  repeat first
    [ progress intros
    | solve [auto with vadds nocore]
    | apply adds_ret; [apply _|reflexivity]
    | apply adds_lift
    | apply adds_bind; [solve [frames]|]
    | eapply adds_map; [solve [auto with vadds nocore]|by intros]
    | apply adds_ret; [apply _|apply cb_if_refused; assumption]
    | match goal with
      | H : getSimpleDetails _ _ _ = Some _ |- _ => apply simple_refuses in H; cbn in H
      | H : getCompoundDetails _ _ _ = Some _ |- _ => apply compound_refuses in H; cbn in H
      | H : compose_loop _ _ _ = Some _ |- _ => apply compose_refuses in H; cbn in H
      | H : pwle_loop _ _ _ = Some _ |- _ => apply pwle_refuses in H; cbn in H
      end
    | match goal with
      | |- adds _ (if ?b then _ else _) _ => destruct b
      | |- adds _ (match ?x with _ => _ end) _ => destruct x
      end ].

Create HintDb vadds.

Lemma framed_then {A B} (m : V A) (k : A → V B) v b v'' :
  framed m → bind m k v = Some (b, v'') → ∃ a v', frame v v' ∧ k a v' = Some (b, v'').
Proof.
  intros Hm. unfold bind. destruct (m v) as [[a v']|] eqn:E; [|done]. intros Ek.
  exists a, v'. split; [by eapply Hm|done].
Qed.

(** The private [on] waits for the pending job to be ready first, so the order is
    kept. *)
Lemma adds_on_index t i cb : adds eq (on_index t i cb) (cb_if cb).
Proof.
  intros v st v'. unfold on_index. intros E.
  apply framed_then in E as (v0 & v1 & F1 & E); [|apply framed_get].
  apply framed_then in E as (? & v2 & F2 & E); [|solve [frames]].
  apply framed_then in E as (k & v3 & F3 & E); [|apply framed_event].
  assert (frame v v3) as F by (etrans; [exact F1|]; by etrans). clear F1 F2 F3.
  unfold bind at 1 in E. destruct (progress _ _ v3) as [[ready v4]|] eqn:Ep; [|done].
  apply progress_ledger in Ep as (L4 & G4 & J4).
  rewrite <- (frame_ledger _ _ F), <- (fr_limits _ _ F), <- L4, <- G4. destruct ready.
  - apply framed_then in E as (? & v5 & F5 & E); [|apply framed_api_].
    apply framed_then in E as (? & v6 & F6 & E); [|apply framed_api_].
    apply framed_then in E as (? & v7 & F7 & E); [|apply framed_api_].
    apply framed_then in E as (? & v8 & F8 & E); [|apply framed_modify; by constructor].
    assert (frame v4 v8) as F48 by (etrans; [exact F5|]; etrans; [exact F6|]; by etrans).
    rewrite <- (frame_ledger _ _ F48), <- (fr_limits _ _ F48). apply start_job_idle; [done|].
    rewrite (fr_job _ _ F48). by apply J4.
  - injection E as <- <-. by rewrite app_nil_r.
Qed.

Section keeping_order.
Context (R : relation (list nat)) `{!PreOrder R}.

Lemma adds_on_index_up_to t i cb : adds R (on_index t i cb) (cb_if cb).
Proof. apply adds_eq; [done|]. apply adds_on_index. Qed.
Hint Resolve adds_on_index_up_to : vadds.

Lemma adds_on t cb : adds R (on t cb) (cb_if cb).
Proof. unfold on. adds_steps. Qed.

Lemma adds_performEffect_index i l q cb : adds R (performEffect_index i l q cb) (cb_if cb).
Proof.
  unfold performEffect_index, setEffectQueue. adds_steps.
Qed.
Hint Resolve adds_performEffect_index : vadds.

Lemma adds_perform e st cb : adds R (perform e st cb) (λ r, cb_if cb r.1).
Proof.
  unfold perform, performEffect. adds_steps.
Qed.

Lemma adds_compose c cb : adds R (compose c cb) (cb_if cb).
Proof. unfold compose. adds_steps. Qed.
End keeping_order.

Hint Resolve adds_start_job : vadds.

Lemma adds_composePwle c cb : adds Permutation (composePwle c cb) (cb_if cb).
Proof. unfold composePwle, setPwle. adds_steps. Qed.

(** ** Runs *)

(** A request with the callbacks it commits the service to call. *)
Definition serve (r : request) : V (list nat) :=
  match r with
  | ROn t cb => let* st := on t cb in ret (cb_if cb st)
  | RPerform e s cb => let* x := perform e s cb in ret (cb_if cb x.1)
  | RCompose c cb => let* st := compose c cb in ret (cb_if cb st)
  | RComposePwle c cb => let* st := composePwle c cb in ret (cb_if cb st)
  | _ => run r ;; ret []
  end.

(** The callbacks of the accepted requests, in order. *)
Fixpoint serve_all (rs : list request) : V (list nat) :=
  match rs with
  | [] => ret []
  | r :: rs' => let* l := serve r in let* ls := serve_all rs' in ret (l ++ ls)
  end.

(** [serve] makes the same step as [run]. *)
Lemma serve_same_step r v : run r v = match serve r v with Some (_, v') => Some (tt, v') | None => None end.
Proof.
  destruct r; cbn [run serve]; unfold done_, bind, ret;
    by match goal with |- context [match ?m v with _ => _ end] => destruct (m v) as [[? ?]|] end.
Qed.

Lemma serve_all_run rs v :
  run_all rs v = match serve_all rs v with Some (_, v') => Some (tt, v') | None => None end.
Proof.
  revert v. induction rs as [|r rs IH]; intros v; cbn [run_all serve_all]; [done|].
  unfold bind. rewrite serve_same_step. destruct (serve r v) as [[l v1]|]; [|done]. rewrite IH.
  by destruct (serve_all rs v1) as [[ls v2]|].
Qed.

(** Requests that start an envelope. *)
Definition is_envelope (r : request) : bool :=
  match r with RComposePwle _ _ => true | _ => false end.

Lemma adds_serve R `{!PreOrder R} r :
  (is_envelope r = true → ∀ c cb, adds R (composePwle c cb) (cb_if cb)) → adds R (serve r) id.
Proof.
  intros He. destruct r; cbn [serve].
  2: by eapply adds_map; [by apply adds_on|].
  2: by eapply adds_map; [by apply adds_perform|].
  4: by eapply adds_map; [by apply adds_compose|].
  4: by eapply adds_map; [by apply He|].
  9: { intros v a v'. unfold run, done_, bind.
    destruct (progress calls rounds v) as [[b w]|] eqn:E; [|done]. intros [= <- <-].
    apply progress_ledger in E as (-> & -> & _). cbn. by rewrite app_nil_r. }
  all: eapply (adds_map _ _ _ (λ _, [])); [|done]; apply adds_framed; [done| |done]; unfold run, done_;
    (apply framed_bind; [|intros; apply framed_ret]).
  - unfold off. frames.
  - unfold setAmplitude. frames.
  - apply framed_setExternalControl.
  - unfold alwaysOnEnable. frames.
  - unfold alwaysOnDisable. frames.
  - apply framed_getCapabilities.
  - apply framed_getPwleCompositionSizeMax.
  - unfold getBandwidthAmplitudeMap. frames.
Qed.

(** A relation that is kept when callbacks are added at the end. *)
Definition append_ok (R : relation (list nat)) : Prop := ∀ a b c, R a b → R (a ++ c) (b ++ c).

Lemma adds_serve_all R `{!PreOrder R} rs :
  append_ok R →
  (existsb is_envelope rs = true → ∀ c cb, adds R (composePwle c cb) (cb_if cb)) →
  adds R (serve_all rs) id.
Proof.
  intros Ha. induction rs as [|r rs IH]; cbn [serve_all existsb]; intros He; [by apply adds_ret|].
  intros v a v''. unfold bind. destruct (serve r v) as [[l v1]|] eqn:E1; [|done].
  destruct (serve_all rs v1) as [[ls v2]|] eqn:E2; [|done]. intros [= <- <-].
  destruct (adds_serve R r) with (2 := E1) as [F1 G1]; [intros Hr; apply He; by rewrite Hr|].
  destruct IH with (2 := E2) as [F2 G2]; [intros Hr; apply He; by rewrite Hr, orb_true_r|].
  split; [congruence|]. cbn in *. rewrite G2, app_assoc. by apply Ha.
Qed.

Lemma adds_serve_all_once rs : adds Permutation (serve_all rs) id.
Proof.
  apply adds_serve_all; [apply _|intros a b c ->; done|]. intros _. apply adds_composePwle.
Qed.

Lemma adds_serve_all_in_order rs : existsb is_envelope rs = false → adds eq (serve_all rs) id.
Proof. intros Hrs. apply adds_serve_all; [apply _|by intros a b c ->|]. by rewrite Hrs. Qed.

(** ** The constructor *)

Lemma framed_effect_durations n i : framed (effect_durations n i).
Proof. revert i. induction n as [|n IH]; intros i; cbn [effect_durations]; frames; apply IH. Qed.
Hint Resolve framed_effect_durations : vframe.

Lemma framed_read_levels c : framed (read_levels c).
Proof. unfold read_levels. frames. Qed.
Hint Resolve framed_read_levels : vframe.

Lemma framed_setPwleRampDown : framed setPwleRampDown.
Proof. rewrite setPwleRampDown_off. frames. Qed.
Hint Resolve framed_setPwleRampDown : vframe.

(** The map of limits the constructor may leave. *)
Definition initial_limits (m : list float) : Prop :=
  let d := replicate PWLE_BW_MAP_SIZE pwleDefaultLevel in
  m = d ∨ limit_map discretePwleMaxLevels d = Some m.

Lemma create_limits v a v' :
  createPwleMaxLevelLimitMap v = Some (a, v') → ledger v' = ledger v ∧
  (pwleMaxLevelLimitMap v' = pwleMaxLevelLimitMap v ∨
   limit_map discretePwleMaxLevels (pwleMaxLevelLimitMap v) = Some (pwleMaxLevelLimitMap v')).
Proof.
  unfold createPwleMaxLevelLimitMap. intros (b & v1 & F & E)%framed_then; [|apply framed_has_cap].
  pose proof (frame_ledger _ _ F) as G. destruct F as [F _ _].
  destruct b; cbn [when] in E; [|injection E as _ <-; by auto].
  unfold bind, get, lift, modify in E. destruct (limit_map _ _) as [m|] eqn:Em; [|done].
  injection E as _ <-. split; [done|]. right. by rewrite <- F.
Qed.

Ltac frame_facts X F G := pose proof (fr_limits _ _ X) as F; pose proof (frame_ledger _ _ X) as G.

Lemma new_initial c raw chirp v :
  Vibrator_new c raw chirp = Some v → ledger v = [] ∧ initial_limits (pwleMaxLevelLimitMap v).
Proof.
  unfold Vibrator_new. set (v0 := Vib _ _ _ _ _ _ _ _ _ _ _ _ _ _).
  assert (ledger v0 = [] ∧ pwleMaxLevelLimitMap v0 = replicate PWLE_BW_MAP_SIZE pwleDefaultLevel)
    as [L0 M0] by done. clearbody v0. intros Hn.
  match type of Hn with snd <$> ?m = _ => destruct m as [[[] v1]|] eqn:E; [|done] end.
  injection Hn as <-.
  apply framed_then in E as (? & ? & X1 & E); [|solve [frames]]. frame_facts X1 F1 G1.
  apply framed_then in E as (l & ? & X2 & E); [|solve [frames]]. frame_facts X2 F2 G2.
  apply framed_then in E as (? & ? & X3 & E); [|solve [frames]]. frame_facts X3 F3 G3.
  apply framed_then in E as (? & ? & X4 & E); [|solve [frames]]. frame_facts X4 F4 G4.
  apply framed_then in E as (sz & ? & X5 & E); [|solve [frames]]. frame_facts X5 F5 G5.
  apply framed_then in E as (? & w & X6 & E); [|solve [frames]]. frame_facts X6 F6 G6.
  unfold bind at 1 in E. destruct (createPwleMaxLevelLimitMap w) as [[u w']|] eqn:Ec; [|done].
  apply create_limits in Ec as [Lw Mw].
  assert (frame w' v1) as X7.
  { match type of E with ?m w' = _ => assert (framed m) as Hm by frames; by eapply Hm end. }
  frame_facts X7 F7 G7. split; [congruence|]. unfold initial_limits. rewrite <- M0, F7.
  assert (pwleMaxLevelLimitMap w = pwleMaxLevelLimitMap v0) as <- by congruence. naive_solver.
Qed.

(** C13. Every accepted vibration's callback is called once.  In every run from the
    constructor, with any mixture of requests, any progress of the completion jobs
    in between and any scheduling of two jobs that run at once, the callbacks called
    so far, with the one of the vibration still in progress, are exactly those passed
    with the requests that were answered with success, each as often as it was
    passed: none is lost, repeated or called for a request that was refused, and
    only one can be outstanding.  As long as no envelope is asked for, they are also
    called in the order of the requests; [composePwle] launches its job before the
    pending one has returned, and then the scheduler decides. *)
Theorem callbacks_once (c : gmap string string) (raw : alsa) (chirp : bool) (v0 v : vib)
    (rs : list request) (Hnew : Vibrator_new c raw chirp = Some v0)
    (Hrun : run_all rs v0 = Some (tt, v)) :
  ∃ accepted, serve_all rs v0 = Some (accepted, v) ∧
    completed v ++ owed (mAsyncHandle v) ≡ₚ accepted ∧
    (existsb is_envelope rs = false → completed v ++ owed (mAsyncHandle v) = accepted).
Proof.
  apply new_initial in Hnew as [L0 _]. rewrite serve_all_run in Hrun.
  destruct (serve_all rs v0) as [[l v1]|] eqn:E; [|done]. injection Hrun as ->.
  exists l. split; [done|]. fold (ledger v). split.
  - destruct (adds_serve_all_once rs _ _ _ E) as [_ G]. by rewrite L0 in G.
  - intros Hrs. destruct (adds_serve_all_in_order rs Hrs _ _ _ E) as [_ G]. by rewrite L0 in G.
Qed.

(** A run leaves the limits alone. *)
Lemma run_all_limits rs v0 v :
  run_all rs v0 = Some (tt, v) → pwleMaxLevelLimitMap v = pwleMaxLevelLimitMap v0.
Proof.
  rewrite serve_all_run. destruct (serve_all rs v0) as [[l v1]|] eqn:E; [|done]. intros [= <-].
  by apply adds_serve_all_once in E as [? _].
Qed.

(** ** Envelopes in reachable states *)

(** An actuator whose limits fit the map and do not exceed 1. *)
Class SafeActuator := {
  default_below : below 1 pwleDefaultLevel;
  limits_below : ∃ m,
    limit_map discretePwleMaxLevels (replicate PWLE_BW_MAP_SIZE pwleDefaultLevel) = Some m ∧
    Forall (below 1) m
}.

Lemma reachable_limits `{SafeActuator} v :
  reachable v → Forall (below 1) (pwleMaxLevelLimitMap v).
Proof.
  intros (c & raw & chirp & v0 & rs & Hn & Hr). apply new_initial in Hn as [_ Hi].
  apply run_all_limits in Hr as ->. destruct Hi as [->|Hm].
  - apply Forall_replicate, default_below.
  - destruct limits_below as (m & E & Hb). rewrite E in Hm. by injection Hm as <-.
Qed.
End operations.

(** The tables the source is built with, one for each actuator it names, and none. *)
Definition shipped : list Actuator :=
  [LUXSHARE_ICT_081545; LUXSHARE_ICT_LT_XLRA1906D; default_actuator].

Lemma shipped_safe A : A ∈ shipped → @SafeActuator A.
Proof.
  assert (∀ A : Actuator, bool_decide (below 1 pwleDefaultLevel) &&
    match limit_map discretePwleMaxLevels (replicate PWLE_BW_MAP_SIZE pwleDefaultLevel) with
    | Some m => bool_decide (Forall (below 1) m) | None => false end = true → SafeActuator) as Hs.
  { intros A' [Hd Hm]%andb_prop. apply bool_decide_eq_true in Hd. split; [done|].
    destruct (limit_map _ _) as [m|]; [|done]. exists m. by apply bool_decide_eq_true in Hm. }
  unfold shipped. rewrite !elem_of_cons.
  intros [->|[->|[->|[]%elem_of_nil]]]; apply Hs; vm_compute; reflexivity.
Qed.

(** C12. Envelopes are safe to send.  For each actuator the source has a table for, in
    every state the service can reach that is idle (no pending job, no failed
    stream, no external control), on a driver that takes every line, and for every
    composition of numbers the call returns: it never reads the map of limits outside its bounds, whatever the
    frequencies, and never converts a float that does not fit.  It accepts only
    between 1 and the advertised number of elements and at most 4094 characters;
    an accepted envelope has between one and two segments for each element and is
    sent with its exact total duration plus the cold start, and a refused one
    sends nothing and changes nothing. *)
Theorem composePwle_safe `{VHw.Driver} `{VHw.Properties} `{Libm} `{Platform} (A : Actuator)
    (es : list PrimitivePwle) (cb : option nat) (v : vib)
    (HA : A ∈ shipped) (Hr : reachable v) (Hw : willing) (Hlog : log10f fone = fzero)
    (Hi : idle v) (Hn : Forall pwle_numbers es) :
  ∃ st v', composePwle es cb v = Some (st, v') ∧
    (st ≠ Ok → v' = v) ∧
    (st = Ok →
      0 < Z.of_nat (length es) ≤ mCompositionSizeMax v ∧
      ∃ queue segments,
        pwle_loop (pwleMaxLevelLimitMap v) es (pwle_start v) = Some (inr segments) ∧
        pwleBuilder segments = queue ∧ Z.of_nat (String.length queue) ≤ CS40L2X_PWLE_LENGTH_MAX ∧
        Z.of_nat (length es) ≤ segmentIdx segments ≤ 2 * Z.of_nat (length es) ∧
        log v' = log v ++ [(VHw.mPwle, queue); (VHw.mEffectScale, "0"); (VHw.mEffectIndex, "65529");
          (VHw.mDuration, dec (u32 (total es + MAX_COLD_START_LATENCY_MS))); (VHw.mActivate, "1")] ∧
        mAsyncHandle v' = Some (Job Polling cb)).
Proof.
  pose proof (shipped_safe A HA) as HS. pose proof (wf_reachable v Hr) as Hwf.
  apply composePwle_run; try done.
  - by apply reachable_limits.
  - eapply below_mono; [|by apply wf_frequency]. done.
Qed.

End VibratorTrace.
