(* ===== verification/VibratorDump.v ===== *)
(** * VibratorDump: the text the vibrator service prints about itself
      (aidl/vibrator/utils.h, HardwareBase.{h,cpp} and Vibrator.cpp: [dump], the two
      [debug] functions, [toString], [pathsFromEnv], [fileFromEnv])

    [dump] prints the settings, the driver files named in the environment, the ring
    of driver calls, the system properties and the calibration file.  Printing a
    record looks its stream up with [at], which throws for a stream that was not
    saved, while the mutex of the records is held without a guard; the theorem shows
    that this does not happen in any reachable state.

    What the C library and the system provide is a parameter: the environment, the
    list of properties, the files outside the driver's directory.  Text is the
    concatenation of what [dprintf] sends to the descriptor.  A record whose value
    was never initialised prints as the parameter [indeterminate]. *)

From Stdlib Require Import Ascii SpecFloat Sorted.
From stdpp Require Import gmap strings.
From S2P Require Import Prelude Float32 Text VibratorHw Vibrator VibratorProps.

Module VibratorDump.
Import F32 Vibrator VibratorProps Text.
Local Open Scope string_scope.

(** ** Streams *)

Definition NUL : ascii := "000".

(** A string as [%s] prints it: up to its first null character. *)
Fixpoint c_str (s : string) : string :=
  match s with
  | String c s' => if Ascii.eqb c NUL then "" else String c (c_str s')
  | "" => ""
  end.

Definition nonempty (s : string) : list string := if String.eqb s "" then [] else [s].

(** The strings successive [stream >> path] extract, after the characters [acc]. *)
Fixpoint words_from (acc s : string) : list string :=
  match s with
  | String c s' =>
      if VHw.isspace c then nonempty acc ++ words_from "" s'
      else words_from (acc ++ String c "") s'
  | "" => nonempty acc
  end%list.
Definition words : string → list string := words_from "".

(** The lines successive [std::getline] extract. *)
Fixpoint lines_from (acc s : string) : list string :=
  match s with
  | String c s' =>
      if Ascii.eqb c "010" then acc :: lines_from "" s'
      else lines_from (acc ++ String c "") s'
  | "" => nonempty acc
  end.
Definition getlines : string → list string := lines_from "".

Definition put_line (l : string) : string := "    " ++ c_str l ++ NL.
Definition put_all (ls : list string) : string := fold_right String.append "" ls.

(** An [std::ifstream]: a second [open] of an open one fails. *)
Record ifstream := IfStream { is_open : bool; fail : bool }.
Definition closed : ifstream := IfStream false false.

(** The environment of the process, the properties of the system, the text of a file
    that can be opened, and what is printed for an uninitialised value. *)
Class Host := {
  getenv : string → option string;
  property_list : list (string * string);
  file_text : string → option string;
  indeterminate : string;
}.

Section code.
Context `{VHw.Driver} `{Host}.

(** ** utils.h *)

Definition open_stream (path : string) (s : ifstream) : ifstream :=
  if is_open s then IfStream true true
  else if VHw.node_opens path then IfStream true false else IfStream false true.

(** [ret[path].open(prefix + path)], on the map as the list of its entries in order. *)
Fixpoint open_at (path : string) (m : list (string * ifstream)) : list (string * ifstream) :=
  match m with
  | [] => [(path, open_stream path closed)]
  | (q, s) :: m' =>
      if String.eqb path q then (q, open_stream path s) :: m'
      else if String.ltb path q then (path, open_stream path closed) :: m
      else (q, s) :: open_at path m'
  end.

Definition pathsFromEnv (env : string) : list (string * ifstream) :=
  match getenv env with
  | None => []
  | Some value => fold_left (λ m path, open_at path m) (words value) []
  end.

(** The name and, when it could be opened, the text of the file. *)
Definition fileFromEnv (env : string) : string * option string :=
  match getenv env with
  | None => ("", None)
  | Some file => (file, file_text file)
  end.

(** ** HwApiBase *)

(** The streams [saveName] was called with. *)
Definition mNames : list string := VHw.hwapi_names.

(** [None] when [names.at] throws. *)
Definition toString (r : VHw.Record_) : option string :=
  if bool_decide (VHw.mStream r ∈ mNames) then
    Some (VHw.mFunc r ++ " '" ++ VHw.mStream r ++ "' = '" ++ default indeterminate (VHw.mValue r) ++ "'")
  else None.

(** One of the paths: its lines are read from the driver unless the stream failed. *)
Definition debug_path (entry : string * ifstream) : VHw.HW string :=
  let '(path, stream) := entry in
  if fail stream then ret ("  " ++ c_str path ++ ":" ++ NL)
  else
    let* k := VHw.tick in
    ret ("  " ++ c_str path ++ ":" ++ NL ++ put_all (put_line <$> getlines (VHw.node_read k path))).

Fixpoint debug_paths (m : list (string * ifstream)) : VHw.HW string :=
  match m with
  | [] => ret ""
  | entry :: m' => let* t := debug_path entry in let* ts := debug_paths m' in ret (t ++ ts)
  end.

Fixpoint debug_records (rs : list (option VHw.Record_)) : option string :=
  match rs with
  | [] => Some ""
  | None :: rs' => debug_records rs'
  | Some r :: rs' => t ← toString r; ts ← debug_records rs'; Some (put_line t ++ ts)
  end.

Definition HwApiBase_debug : VHw.HW string :=
  let* paths := debug_paths (pathsFromEnv "HWAPI_DEBUG_PATHS") in
  let* s := VHw.hw_get in
  let* records := lift (debug_records (VHw.mRecords s)) in
  ret ("Kernel:" ++ NL ++ paths ++ "  Records:" ++ NL ++ records).

(** ** HwCalBase *)

Definition debug_property (p : string * string) : string :=
  let '(key, value) := p in
  let expect := VHw.mPropertyPrefix in
  let actual := substring 0 (Nat.min (String.length key) (String.length expect)) key in
  if String.eqb actual expect then "  " ++ key ++ ":" ++ NL ++ "    " ++ value ++ NL else "".

Definition HwCalBase_debug : string :=
  let '(path, text) := fileFromEnv "CALIBRATION_FILEPATH" in
  "Properties:" ++ NL ++ put_all (debug_property <$> property_list) ++ NL ++
  "Persist:" ++ NL ++ "  " ++ c_str path ++ ":" ++ NL ++
  match text with Some t => put_all (put_line <$> getlines t) | None => "" end.

(** ** Vibrator *)

Definition STATUS_OK : Z := 0.

Definition put_range (name : string) (vol : list Z) : string :=
  "    " ++ name ++ " Effect Min: " ++ dec (nth 0 vol 0) ++ " Max: " ++ dec (nth 1 vol 0) ++ NL.

Definition dump_settings (l : levels) : string :=
  "AIDL:" ++ NL ++
  "  F0 Offset: " ++ dec (mF0Offset l) ++ NL ++
  "  Voltage Levels:" ++ NL ++
  put_range "Tick" (mTickEffectVol l) ++ put_range "Click" (mClickEffectVol l) ++
  put_range "Long" (mLongEffectVol l) ++
  "  Effect Durations:" ++ put_all ((λ d, " " ++ dec d) <$> mEffectDurations l) ++ NL ++ NL.

Definition dump (fd : Z) : V (Z * string) :=
  if (fd <? 0)%Z then ret (STATUS_OK, "")
  else
    let* v := get in
    let* kernel := api HwApiBase_debug in
    ret (STATUS_OK, dump_settings (lv v) ++ kernel ++ NL ++ HwCalBase_debug).

Definition isUnderExternalControl : V bool :=
  let* v := get in ret (mIsUnderExternalControl v).

(** ** The paths of the environment *)

Abbreviation keys m := (fst <$> m).

(** The stream after [n] calls of [open]. *)
Definition opened (n : nat) (path : string) : ifstream := Nat.iter n (open_stream path) closed.
Definition times (p : string) (ws : list string) : nat := length (filter (p =.) ws).

Lemma ltb_le p q : String.ltb p q = true → String.le p q.
Proof. unfold String.ltb, String.le, String.leb. by destruct (String.compare p q). Qed.
Lemma not_ltb_le p q : String.ltb p q = false → String.le q p.
Proof.
  unfold String.ltb, String.le, String.leb. rewrite (String.compare_antisym q p).
  by destruct (String.compare p q).
Qed.

Lemma open_at_keys p m q : q ∈ keys (open_at p m) ↔ q = p ∨ q ∈ keys m.
Proof.
  induction m as [|[r s] m IH]; cbn [open_at]; [set_solver|].
  destruct (String.eqb_spec p r) as [->|]; [set_solver|]. case_match; set_solver.
Qed.

Lemma open_at_sorted p m :
  StronglySorted String.le (keys m) ∧ NoDup (keys m) →
  StronglySorted String.le (keys (open_at p m)) ∧ NoDup (keys (open_at p m)).
Proof.
  induction m as [|[r s] m IH]; cbn [open_at]; intros [Hs Hn].
  { split; [repeat constructor|apply NoDup_singleton]. }
  destruct (String.eqb_spec p r) as [->|Hp]; [done|].
  apply StronglySorted_inv in Hs as [Hs Hr]. apply NoDup_cons in Hn as [Hni Hn].
  rewrite Forall_forall in Hr. destruct (String.ltb p r) eqn:El.
  - apply ltb_le in El. split.
    + constructor; [by constructor; [|apply Forall_forall]|]. apply Forall_forall.
      cbn. intros q [->|Hq]%elem_of_cons; [done|]. etrans; [done|by apply Hr].
    + apply NoDup_cons. split; [|by apply NoDup_cons]. cbn. intros [->|Hq]%elem_of_cons; [done|].
      apply Hp, (anti_symm String.le); [done|by apply Hr].
  - apply not_ltb_le in El. destruct IH as [IHs IHn]; [done|]. cbn. split.
    + constructor; [done|]. apply Forall_forall. intros q [->|Hq]%open_at_keys; [done|by apply Hr].
    + apply NoDup_cons. split; [|done]. intros [->|Hq]%open_at_keys; done.
Qed.

(** Opening [p] changes its entry only. *)
Lemma open_at_entry p m q s :
  NoDup (keys m) → StronglySorted String.le (keys m) →
  ((q, s) ∈ open_at p m ↔
   if decide (q = p)
   then (∃ s0, (p, s0) ∈ m ∧ s = open_stream p s0) ∨ ((p ∉ keys m) ∧ s = open_stream p closed)
   else (q, s) ∈ m).
Proof.
  induction m as [|[r t] m IH]; cbn [open_at]; intros Hn Hs.
  { case_decide; set_solver. }
  apply NoDup_cons in Hn as [Hni Hn]. apply StronglySorted_inv in Hs as [Hs Hr].
  rewrite Forall_forall in Hr.
  assert (∀ x, (r, x) ∉ m) as Hnr by (intros x Hx; apply Hni, list_elem_of_fmap; by exists (r, x)).
  destruct (String.eqb_spec p r) as [->|Hp]; [case_decide; set_solver|].
  destruct (String.ltb p r) eqn:El.
  - assert (p ∉ keys m) as Hpm.
    { intros Hq. apply Hp, (anti_symm String.le); [by apply ltb_le|by apply Hr]. }
    assert (∀ x, (p, x) ∉ m) by (intros x Hx; apply Hpm, list_elem_of_fmap; by exists (p, x)).
    case_decide; set_solver.
  - rewrite elem_of_cons, IH by done. case_decide; set_solver.
Qed.

Lemma times_snoc p w ws : times p (ws ++ [w])%list = if decide (p = w) then S (times p ws) else times p ws.
Proof.
  unfold times. rewrite filter_app, length_app, filter_cons, filter_nil. case_decide; cbn; lia.
Qed.
Lemma times_0 p ws : p ∉ ws → times p ws = 0%nat.
Proof.
  intros Hp. unfold times. induction ws as [|w ws IH]; [done|].
  apply not_elem_of_cons in Hp as [Hw Hp]. rewrite filter_cons, decide_False by done. by apply IH.
Qed.

(** The map holds the words in order, each once, with the stream opened as often as
    the word occurs. *)
Lemma open_all_spec ws :
  let m := fold_left (λ m path, open_at path m) ws [] in
  StronglySorted String.le (keys m) ∧ NoDup (keys m) ∧
  ∀ q s, (q, s) ∈ m ↔ q ∈ ws ∧ s = opened (times q ws) q.
Proof.
  induction ws as [|w ws (Hs & Hn & Hm)] using rev_ind; cbn zeta.
  { split_and!; [constructor|apply NoDup_nil_2|]. cbn. set_solver. }
  rewrite fold_left_app. cbn [fold_left]. cbn zeta in Hs, Hn, Hm.
  set (m := fold_left _ ws []) in *. destruct (open_at_sorted w m) as [Hs' Hn']; [done|].
  split_and!; [done..|]. intros q s. rewrite open_at_entry, times_snoc by done.
  case_decide as Eq; [subst q|set_solver].
  assert (w ∈ keys m ↔ w ∈ ws) as Hk.
  { rewrite list_elem_of_fmap. split; [intros ([w' t] & -> & Hx); by apply Hm in Hx as [? _]|].
    intros Hw. exists (w, opened (times w ws) w). split; [done|]. by apply Hm. }
  rewrite Hk. cbn. destruct (decide (w ∈ ws)) as [Hw|Hw].
  - split.
    + intros [(s0 & [_ ->]%Hm & ->)|[? _]]; [|done]. split; [set_solver|done].
    + intros [_ ->]. left. exists (opened (times w ws) w). split; [by apply Hm|done].
  - rewrite (times_0 _ _ Hw). split.
    + intros [(s0 & [? _]%Hm & ->)|[_ ->]]; [done|]. split; [set_solver|done].
    + intros [_ ->]. by right.
Qed.

Lemma opened_S n p : opened (S n) p = open_stream p (opened n p).
Proof. reflexivity. Qed.

Lemma opened_open n p : is_open (opened (S n) p) = VHw.node_opens p.
Proof.
  induction n as [|n IH]; rewrite opened_S; unfold open_stream;
    [cbn|rewrite IH]; by destruct (VHw.node_opens p).
Qed.

(** Only a file that exists and was listed once can be read. *)
Lemma opened_fail n p : fail (opened (S n) p) = negb ((n =? 0)%nat && VHw.node_opens p).
Proof.
  rewrite opened_S. unfold open_stream. destruct n as [|n]; [cbn|rewrite opened_open];
    by destruct (VHw.node_opens p).
Qed.

(** ** What is printed *)

Definition listed : list string := words (default "" (getenv "HWAPI_DEBUG_PATHS")).
Definition heading (p : string) : string := "  " ++ c_str p ++ ":" ++ NL.

(** The section of a path, when the driver is asked at an access from [lo] to [hi]. *)
Definition path_section (lo hi : nat) (p t : string) : Prop :=
  if (times p listed =? 1)%nat && VHw.node_opens p
  then ∃ k, (lo ≤ k < hi)%nat ∧ t = heading p ++ put_all (put_line <$> getlines (VHw.node_read k p))
  else t = heading p.

Definition record_line (r : VHw.Record_) : string :=
  put_line (VHw.mFunc r ++ " '" ++ VHw.mStream r ++ "' = '" ++ default indeterminate (VHw.mValue r) ++ "'").
Definition property_lines (p : string * string) : string :=
  "  " ++ p.1 ++ ":" ++ NL ++ "    " ++ p.2 ++ NL.

(** The driver saw nothing but reads. *)
Definition only_read (s s' : VHw.hwapi) : Prop :=
  VHw.failed s' = VHw.failed s ∧ VHw.written s' = VHw.written s ∧
  VHw.mRecords s' = VHw.mRecords s ∧ (VHw.accesses s ≤ VHw.accesses s')%nat.

Lemma paths_spec :
  let m := pathsFromEnv "HWAPI_DEBUG_PATHS" in
  StronglySorted String.le (keys m) ∧ NoDup (keys m) ∧
  ∀ q s, (q, s) ∈ m ↔ q ∈ listed ∧ s = opened (times q listed) q.
Proof.
  unfold pathsFromEnv, listed. destruct (getenv "HWAPI_DEBUG_PATHS") as [value|];
    [apply (open_all_spec (words value))|apply (open_all_spec [])].
Qed.

Lemma times_pos p ws : p ∈ ws → times p ws = S (pred (times p ws)).
Proof.
  intros Hp. unfold times. destruct (filter (p =.) ws) eqn:E; [|done].
  assert (p ∈ filter (p =.) ws) as Hx by by apply list_elem_of_filter. rewrite E in Hx. by apply elem_of_nil in Hx.
Qed.

#[local] Instance only_read_pre : PreOrder only_read.
Proof.
  split; [by intros s; unfold only_read; auto|]. intros s1 s2 s3 (? & ? & ? & ?) (? & ? & ? & ?).
  split_and!; [congruence..|lia].
Qed.

Lemma path_section_mono lo lo' hi hi' p t :
  (lo' ≤ lo)%nat → (hi ≤ hi')%nat → path_section lo hi p t → path_section lo' hi' p t.
Proof.
  intros Hl Hh. unfold path_section. case_match; [|done]. intros (k & Hk & ->).
  exists k. split; [lia|done].
Qed.

Lemma debug_path_run p s :
  p ∈ listed →
  ∃ t s', debug_path (p, opened (times p listed) p) s = Some (t, s') ∧ only_read s s' ∧
    path_section (VHw.accesses s) (VHw.accesses s') p t.
Proof.
  intros Hp. pose proof (times_pos _ _ Hp) as Ht.
  assert (fail (opened (times p listed) p) = negb ((times p listed =? 1)%nat && VHw.node_opens p)) as Hf.
  { rewrite Ht. apply opened_fail. }
  unfold path_section. cbn [debug_path]. rewrite Hf. clear Hf.
  destruct ((times p listed =? 1)%nat && VHw.node_opens p); cbn [negb].
  - unfold bind, VHw.tick, ret. eexists _, _. split; [reflexivity|]. split; [by split_and!; cbn; try lia|].
    exists (VHw.accesses s). split; [cbn; lia|]. unfold heading. by rewrite !string_app_assoc.
  - eexists _, _. by split_and!.
Qed.

Lemma debug_paths_run m s :
  (∀ q st, (q, st) ∈ m → q ∈ listed ∧ st = opened (times q listed) q) →
  ∃ texts s', debug_paths m s = Some (put_all texts, s') ∧ only_read s s' ∧
    Forall2 (path_section (VHw.accesses s) (VHw.accesses s')) (keys m) texts.
Proof.
  revert s. induction m as [|[p st] m IH]; intros s Hm.
  { exists [], s. split_and!; [done|done|constructor]. }
  destruct (Hm p st) as [Hp ->]; [set_solver|].
  destruct (debug_path_run p s Hp) as (t & s1 & E1 & R1 & T1).
  destruct (IH s1) as (ts & s2 & E2 & R2 & T2); [set_solver|].
  exists (t :: ts), s2. cbn [debug_paths]. unfold bind. rewrite E1, E2.
  split; [done|]. split; [by etrans|]. destruct R1 as (_ & _ & _ & R1), R2 as (_ & _ & _ & R2).
  constructor; [by eapply path_section_mono; [| |exact T1]|].
  eapply Forall2_impl; [exact T2|]. intros q u. by apply path_section_mono.
Qed.

Lemma debug_records_run rs :
  Forall (λ r, VHw.mStream r ∈ VHw.hwapi_names) (omap id rs) →
  debug_records rs = Some (put_all (record_line <$> omap id rs)).
Proof.
  induction rs as [|[r|] rs IH]; cbn [debug_records omap list_omap id]; [done| |apply IH].
  intros [Hr Hrs]%Forall_cons. unfold toString. rewrite bool_decide_true by done. cbn [mbind option_bind].
  by rewrite IH.
Qed.

(** The prefix is empty, so every property has it. *)
Lemma debug_property_all p : debug_property p = property_lines p.
Proof.
  destruct p as [key value]. unfold debug_property, VHw.mPropertyPrefix. cbn [String.length].
  rewrite Nat.min_0_r. by replace (substring 0 0 key) with "" by by destruct key.
Qed.

Context `{VHw.Properties} `{Libm} `{Platform} `{Actuator}.

(** A dump of the service always returns, changes nothing and is complete.  In
    every state the service can reach, whatever the environment, the files and the
    properties hold: no lookup of a record's stream fails (which would throw with the
    mutex of the records held), the driver is only read, and the state of the streams
    and the records stay as they are.  The text holds the settings; for each path of
    HWAPI_DEBUG_PATHS one section, in the order of the names and without repetition,
    with the lines of the file when it can be opened and is listed once, and empty
    otherwise; a line for every driver call in the ring, oldest first; every property
    of the system, since the prefix that should select the service's own is empty; and
    the calibration file.  With an invalid descriptor nothing happens. *)
Theorem dump_complete (v : vib) (fd : Z) (Hr : reachable v) :
  if (fd <? 0)%Z then dump fd v = Some ((STATUS_OK, ""), v)
  else ∃ paths sections h,
    dump fd v = Some ((STATUS_OK,
      dump_settings (lv v) ++
      ("Kernel:" ++ NL ++ put_all sections ++
       "  Records:" ++ NL ++ put_all (record_line <$> omap id (VHw.mRecords (hw v)))) ++ NL ++
      "Properties:" ++ NL ++ put_all (property_lines <$> property_list) ++ NL ++
      "Persist:" ++ NL ++ heading (default "" (getenv "CALIBRATION_FILEPATH")) ++
      put_all (put_line <$> getlines (default "" (getenv "CALIBRATION_FILEPATH" ≫= file_text)))),
      set_hw h v) ∧
    only_read (hw v) h ∧
    StronglySorted String.le paths ∧ NoDup paths ∧ (∀ p, p ∈ paths ↔ p ∈ listed) ∧
    Forall2 (path_section (VHw.accesses (hw v)) (VHw.accesses h)) paths sections.
Proof.
  unfold dump. destruct (fd <? 0)%Z; [done|].
  destruct paths_spec as (Hs & Hn & Hm).
  destruct (debug_paths_run (pathsFromEnv "HWAPI_DEBUG_PATHS") (hw v)) as (ts & h & E & R & T).
  { intros q st. by rewrite Hm. }
  exists (keys (pathsFromEnv "HWAPI_DEBUG_PATHS")), ts, h. split.
  2: { split_and!; try done. intros p. rewrite list_elem_of_fmap. split.
       - by intros ([q st] & -> & [? _]%Hm).
       - intros Hp. exists (p, opened (times p listed) p). split; [done|]. by apply Hm. }
  destruct R as (_ & _ & Er & _). pose proof (wf_records v (wf_reachable v Hr)) as [_ Hrec].
  unfold bind, get, api, HwApiBase_debug. unfold bind, VHw.hw_get, lift, ret. rewrite E, Er.
  rewrite debug_records_run by done. do 4 f_equal.
  unfold HwCalBase_debug, fileFromEnv. rewrite (list_fmap_ext debug_property property_lines)
    by (intros; apply debug_property_all).
  destruct (getenv "CALIBRATION_FILEPATH") as [f|]; [|done].
  unfold heading. cbn [default mbind option_bind]. rewrite !string_app_assoc. by destruct (file_text f).
Qed.
End code.

End VibratorDump.
