(* ===== verification/VibratorRuns.v ===== *)
(** * VibratorRuns: the vibrator service on concrete devices

    A driver, a trim area and a sound system for which the hypotheses of the
    theorems hold, and runs of the service that show its defects. *)

From Stdlib Require Import SpecFloat.
From stdpp Require Import gmap strings.
From S2P Require Import Prelude Float32 VibratorHw Vibrator VibratorProps VibratorTrace VibratorDump.

Module VibratorRuns.
Import F32 Vibrator VibratorProps VibratorTrace.

(** ** Devices *)

(** A driver without the files [missing], whose files hold fixed texts. *)
Definition text_of (n : string) : string :=
  if String.eqb n VHw.mEffectCount then "16"
  else if String.eqb n VHw.mEffectDuration then "480"
  else if String.eqb n VHw.mAvailablePwleSegments then "20"
  else "0".

Definition device (missing : list string) : VHw.Driver := {|
  VHw.node_opens := λ n, negb (existsb (String.eqb n) missing);
  VHw.node_write := λ _ _ _, true;
  VHw.node_read := λ _ n, text_of n;
  VHw.epoll_ctl_ok := λ _ _, true;
  VHw.epoll_wait := λ _, 1 |}.

Definition settings (chirp : bool) : VHw.Properties := {|
  VHw.GetProperty := λ _, EmptyString;
  VHw.ParseFloat := λ _, None;
  VHw.GetIntProperty := λ _ d, d;
  VHw.GetBoolProperty := λ _ _, chirp |}.

(** [log10] is exact at 1 and at 0.01, and [pow] is only used for squares. *)
Definition libm : Libm := {|
  log10f := λ x, if feqb x fone then fzero
                 else if feqb x (ratio 1 100) then of_Z (-2) else of_scaled (-1) (-3);
  pow := λ x _, dmul x x |}.

(** A sound system where the haptic device appears at the call [appears], and jobs
    scheduled by [order] where two of them run at once. *)
Definition system_with (order : list bool) (appears : nat) : Platform := {|
  pcm_is_ready := λ _, true;
  pcm_prepare := λ _, 0;
  pcm_start := λ _, 0;
  proc_snd_pcm := λ k, Some (if (appears <=? k)%nat
    then ["00-00: primary : : playback 1"; "00-05: haptic nohost playback : : playback 1"]
    else ["00-00: primary : : playback 1"]);
  job_calls := λ _, 3%nat;
  job_rounds := λ _, 3%nat;
  job_schedule := λ _, order |}.

(** The old job goes first. *)
Definition system : nat → Platform := system_with [false; false; false].

(** Units of four bytes: the resonant frequency is 145 Hz, the resistance unknown, so
    that there is no bandwidth map. *)
Definition trim_area : VHw.Miscta := {|
  VHw.ta_dlopen := true;
  VHw.ta_dlsym := λ _, true;
  VHw.miscta_get_unit_size := λ _, (0, 4);
  VHw.miscta_read_unit := λ u _,
    (0, if u =? 4733 then [0; 64; 36; 0] else [0; 0; 0; 0]) |}.

Definition calibration : gmap string string :=
  match @VHw.HwCalBase_new trim_area (replicate 24 0) with Some c => c | None => ∅ end.

(** The members that are not initialised: a pointer that is not null, no device. *)
Definition raw : alsa := Alsa PcmWild 0 0 false false 0.

Definition started (missing : list string) (chirp : bool) (appears : nat) (mem : bool) : option vib :=
  @Vibrator_new (device missing) (settings chirp) libm (system appears) default_actuator
    calibration raw mem.

Definition after (missing : list string) (chirp : bool) (appears : nat) (mem : bool)
    (rs : list request) : option vib :=
  v ← started missing chirp appears mem;
  snd <$> @run_all (device missing) (settings chirp) libm (system appears) rs v.

Definition no_vib : vib :=
  Vib (VHw.HwApiState ∅ 0 [] []) ∅ (Levels 0 [] [] [] [] fzero 0) raw None [] 0 false 0 false [] false [] 0.

(** The service on a device with all its files, envelopes enabled. *)
Definition sample : vib := default no_vib (started [] true 9 true).

Lemma sample_started : started [] true 9 true = Some sample.
Proof. by vm_compute. Qed.

Lemma after_reachable missing chirp appears mem rs v :
  after missing chirp appears mem rs = Some v →
  @reachable (device missing) (settings chirp) libm (system appears) default_actuator v.
Proof.
  unfold after, started. destruct (Vibrator_new calibration raw mem) as [v0|] eqn:E; [|done]. cbn.
  destruct (run_all rs v0) as [[[] v']|] eqn:Er; [|done]. intros [= <-].
  exists calibration, raw, mem, v0, rs. split; [exact E|exact Er].
Qed.

Lemma sample_lv :
  lv sample = Levels 0 [50; 100] [50; 100] [0; 100] (replicate 16 10) (of_Z 145) 0.
Proof. by vm_compute. Qed.

Lemma sample_idle : idle sample.
Proof. split; [|split]; by vm_compute. Qed.

Lemma device_willing : @willing (device []).
Proof. by split. Qed.

Lemma sample_sorted : levels_sorted (lv sample).
Proof.
  rewrite sample_lv. split_and!; (eexists _, _; split; [reflexivity|lia]).
Qed.

(** ** Witnesses *)

Lemma vibrator_wf_witness : mCompositionSizeMax sample = 20 ∧ wf sample.
Proof.
  split; [by vm_compute|].
  apply (@vibrator_wf (device []) (settings true) libm (system 9) default_actuator).
  exists calibration, raw, true, sample, []. split; [apply sample_started|reflexivity].
Defined.

Definition tick_tock : list CompositeEffect :=
  [Composite 0 P_CLICK (ratio 1 2); Composite 250 P_LIGHT_TICK fone].

Lemma compose_spec_witness :
  ∃ vols v', @compose (device []) libm (system 9) tick_tock (Some 1%nat) sample = Some (Ok, v') ∧
    levels_for (lv sample) tick_tock vols.
Proof.
  destruct (@compose_spec (device []) libm (system 9) tick_tock (Some 1%nat) sample)
    as (vols & v' & E & Hl & _).
  - apply device_willing.
  - by vm_compute.
  - apply sample_sorted.
  - apply sample_idle.
  - repeat (apply Forall_cons; split; [split; [by vm_compute|done]|]). done.
  - exists vols, v'. split; [exact E|exact Hl].
Defined.

Definition sweep : list PrimitivePwle :=
  [ActivePwle (ratio 1 2) (of_Z 100) fone (ratio 1997 2) 50; BrakingPwle 1 20].

Lemma sample_vib_reachable :
  @reachable (device []) (settings true) libm (system 9) default_actuator sample.
Proof. exists calibration, raw, true, sample, []. split; [apply sample_started|reflexivity]. Qed.

Lemma composePwle_safe_witness :
  ∃ st v', @composePwle (device []) libm (system 9) sweep None sample = Some (st, v') ∧ st = Ok.
Proof.
  destruct (@composePwle_safe (device []) (settings true) libm (system 9) default_actuator sweep None
    sample) as (st & v' & E & _ & _).
  - unfold shipped. rewrite !elem_of_cons. auto.
  - apply sample_vib_reachable.
  - apply device_willing.
  - by vm_compute.
  - apply sample_idle.
  - repeat (apply Forall_cons; split; [try done; split_and!; (split; [by vm_compute|done])|]). done.
  - exists st, v'. split; [exact E|].
    assert (fst <$> @composePwle (device []) libm (system 9) sweep None sample = Some Ok) as Hok
      by by vm_compute.
    rewrite E in Hok. by injection Hok as ->.
Defined.

(** A run with two accepted vibrations and a refused one between them. *)
Definition three_calls : list request :=
  [ROn 1000 (Some 1%nat); RCompose [] (Some 2%nat); RJob 3 5; RPerform TICK LIGHT (Some 3%nat)].

Lemma callbacks_once_witness :
  ∃ v, after [] true 9 true three_calls = Some v ∧ completed v = [1%nat] ∧
    mAsyncHandle v = Some (Job Polling (Some 3%nat)) ∧
    ∃ accepted, @serve_all (device []) (settings true) libm (system 9) three_calls sample
      = Some (accepted, v) ∧ completed v ++ [3%nat] = accepted.
Proof.
  destruct (after [] true 9 true three_calls) as [v|] eqn:Ea; [|exfalso; by vm_compute in Ea].
  exists v. split; [reflexivity|].
  assert (option_map (λ v, (completed v, mAsyncHandle v)) (after [] true 9 true three_calls)
    = Some ([1%nat], Some (Job Polling (Some 3%nat)))) as Ho by by vm_compute.
  rewrite Ea in Ho. injection Ho as Hc Hj. split; [exact Hc|]. split; [exact Hj|].
  unfold after in Ea. rewrite sample_started in Ea. cbn [mbind option_bind] in Ea.
  destruct (@run_all (device []) (settings true) libm (system 9) three_calls sample) as [[[] v1]|] eqn:Er;
    [|discriminate Ea]. injection Ea as ->.
  destruct (@callbacks_once (device []) (settings true) libm (system 9) default_actuator calibration
    raw true sample v three_calls sample_started Er) as (l & E & _ & Hl).
  exists l. split; [exact E|]. rewrite Hj in Hl. apply Hl. reflexivity.
Defined.

(** Two of the paths of the service's init script, one of them listed twice; the
    environment names no calibration file. *)
Definition host : VibratorDump.Host := {|
  VibratorDump.getenv := λ n, if String.eqb n "HWAPI_DEBUG_PATHS"
    then Some " state device/num_waves state " else None;
  VibratorDump.property_list := [("ro.vibrator.hal.chirp.enabled", "1"); ("ro.serialno", "QV1")];
  VibratorDump.file_text := λ _, None;
  VibratorDump.indeterminate := "?" |}.

Lemma dump_complete_witness :
  ∃ paths sections h,
    VibratorDump.only_read (hw sample) h ∧
    (∀ p, p ∈ paths ↔ p ∈ @VibratorDump.listed host) ∧
    Forall2 (@VibratorDump.path_section (device []) host (VHw.accesses (hw sample)) (VHw.accesses h))
      paths sections.
Proof.
  destruct (@VibratorDump.dump_complete (device []) host (settings true) libm (system 9)
    default_actuator sample 1 sample_vib_reachable) as (paths & sections & h & _ & Hh & _ & _ & Hp & Hs).
  exists paths, sections, h. split; [exact Hh|]. split; [exact Hp|exact Hs].
Defined.

Lemma perform_spec_witness :
  ∃ v', @perform (device []) libm (system 9) TICK LIGHT None sample = Some ((Ok, 16), v').
Proof.
  destruct (@perform_spec (device []) libm (system 9) TICK LIGHT None sample) as [Hp _].
  - apply device_willing.
  - by vm_compute.
  - apply sample_sorted.
  - apply sample_idle.
  - intros vol (v0 & v1 & Hp & Hv). rewrite sample_lv in Hp. injection Hp as <- <-.
    assert (Forall (λ vol, is_Some (@amplitudeToScale libm (of_Z vol) (of_Z VOLTAGE_SCALE_MAX)))
      (seqZ 50 51)) as Hall by (apply (bool_decide_unpack _); by vm_compute).
    rewrite Forall_forall in Hall. apply Hall. apply elem_of_seqZ. lia.
  - intros i Hi. exists 10. split; [|lia]. rewrite sample_lv. cbn [mEffectDurations].
    apply lookup_replicate_2. lia.
  - destruct (Hp 10 (ratio 1 2)) as (d & vol & s & v' & Hd & _ & _ & E & _).
    { apply elem_of_cons. right. apply elem_of_cons. left. reflexivity. }
    { apply elem_of_cons. left. reflexivity. }
    exists v'. rewrite E. do 3 f_equal. rewrite sample_lv in Hd. cbn in Hd. by injection Hd as <-.
Defined.

Lemma on_spec_witness :
  ∃ v', @on (device []) libm (system 9) 1000 None sample = Some (Ok, v') ∧ mActiveId v' = 0.
Proof.
  pose proof (@on_spec (device []) libm (system 9) 1000 None sample 0 100 0) as Ho.
  rewrite decide_True in Ho by (unfold MAX_COLD_START_LATENCY_MS; lia).
  destruct Ho as (v' & E & _ & _ & Ha).
  - lia.
  - apply device_willing.
  - apply sample_idle.
  - by rewrite sample_lv.
  - by vm_compute.
  - exists v'. split; [exact E|exact Ha].
Defined.

(** The same service under external control. *)
Definition sample_external : vib := set_external true sample.

Lemma on_leaves_external_witness :
  ∃ v', @on_index (device []) libm (system 9) 50 3 None sample_external = Some (Ok, v') ∧
    mIsUnderExternalControl v' = false.
Proof.
  destruct (@on_leaves_external (device []) libm (system 9) 50 3 None sample_external 0 100)
    as (v' & E & _ & He & _).
  - apply device_willing.
  - by vm_compute.
  - by vm_compute.
  - assert (mHasHapticAlsaDevice (sound sample_external) = false) as Hno by by vm_compute.
    intros Hh. rewrite Hno in Hh. discriminate Hh.
  - by vm_compute.
  - by vm_compute.
  - reflexivity.
  - exists v'. split; [exact E|exact He].
Defined.

Definition bare : vib := default no_vib (started [VHw.mEffectScale] true 9 true).

Lemma failed_scale_is_advertised_witness :
  ∃ v', @setAmplitude (device [VHw.mEffectScale]) libm fone bare = Some (EX_ILLEGAL_STATE, v').
Proof.
  destruct (@failed_scale_is_advertised (device [VHw.mEffectScale]) libm (system 9) bare) as (v' & E & _).
  - by vm_compute.
  - by vm_compute.
  - by vm_compute.
  - exists v'. exact E.
Defined.

Lemma accepted_floats_undefined_witness :
  @setAmplitude (device []) libm (ratio 1 100) sample = None.
Proof.
  destruct (@accepted_floats_undefined (device []) libm (system 9) sample None) as [E _].
  - by vm_compute.
  - by vm_compute.
  - exact E.
Defined.

Lemma calibration_roundtrip_witness :
  ∃ cal, @VHw.HwCalBase_new trim_area (replicate 24 0) = Some cal ∧
    VHw.getF0 cal = Some (145 * 2 ^ 14).
Proof.
  destruct (@VHw.calibration_roundtrip trim_area (replicate 24 0) [0; 0; 0; 0] [0; 0; 0; 0]
    [0; 0; 0; 0] [0; 64; 36; 0]) as (c & E & Hf & _).
  - by split_and!.
  - reflexivity.
  - split; [by exists 4|cbn; lia].
  - split; [by exists 4|cbn; lia].
  - split; [by exists 4|]. split; [done|]. repeat constructor; lia.
  - split; [by exists 4|]. split; [done|]. repeat constructor; lia.
  - exists c. split; [exact E|]. rewrite Hf. by vm_compute.
Defined.

(** A trim area whose last unit has eight bytes. *)
Definition long_unit : VHw.Miscta := {|
  VHw.ta_dlopen := true;
  VHw.ta_dlsym := λ _, true;
  VHw.miscta_get_unit_size := λ u, (0, if u =? 4733 then 8 else 4);
  VHw.miscta_read_unit := λ _ sz, (0, replicate (Z.to_nat sz) 7) |}.

Lemma calibration_overflow_witness : @VHw.HwCalBase_new long_unit (replicate 24 0) = None.
Proof.
  eapply (@VHw.calibration_overflow long_unit (replicate 24 0)
    (replicate 4 7 ++ replicate 4 0 ++ replicate 4 7 ++ replicate 4 0 ++ replicate 4 7 ++ replicate 4 0)
    8 (replicate 8 7)); try by vm_compute.
  cbn. lia.
Defined.



(** ** Defects *)

(** C40. A pointer nobody set is closed: the device is put under external control
    before the haptic PCM device shows up, which opens nothing; then a client asks
    for the capabilities, which finds the device; and when the next vibration
    turns external control off, the uninitialised pointer is passed to
    [pcm_close]. *)
Theorem wild_pcm_closed :
  ∃ v, @reachable (device [VHw.mAspEnable]) (settings false) libm (system 2) default_actuator v ∧
    mIsUnderExternalControl v = true ∧ open_pcms (sound v) = 0 ∧ mHapticPcm (sound v) = PcmWild ∧
    @on (device [VHw.mAspEnable]) libm (system 2) 100 None v = None.
Proof.
  destruct (after [VHw.mAspEnable] false 2 false [RSetExternalControl true; RGetCapabilities])
    as [v|] eqn:E; [|by vm_compute in E].
  exists v. split; [by eapply after_reachable|]. vm_compute in E. injection E as <-. by vm_compute.
Qed.

(** An envelope cuts itself off: [composePwle] activates its waveform without
    waiting for the previous vibration, and then, in storing its own job, waits for
    the previous job, whose last act is to deactivate.  After the call the
    envelope's job is pending, and the last line sent is the deactivation. *)
Theorem envelope_deactivated :
  ∃ v, @reachable (device []) (settings true) libm (system 9) default_actuator v ∧
    mAsyncHandle v = Some (Job Polling (Some 2%nat)) ∧ completed v = [1%nat] ∧
    drop (length (log v) - 3) (log v) =
      [(VHw.mDuration, "76"); (VHw.mActivate, "1"); (VHw.mActivate, "0")].
Proof.
  destruct (after [] true 9 true [ROn 1000 (Some 1%nat); RComposePwle sweep (Some 2%nat)])
    as [v|] eqn:E; [|by vm_compute in E].
  exists v. split; [by eapply after_reachable|]. vm_compute in E. injection E as <-. by vm_compute.
Qed.

(** The new job goes first. *)
Definition hasty : Platform := system_with [true; true; true; false; false; false] 9.

Definition overtaking : option vib :=
  v0 ← @Vibrator_new (device []) (settings true) libm hasty default_actuator calibration raw true;
  snd <$> @run_all (device []) (settings true) libm hasty
    [ROn 1000 (Some 1%nat); RComposePwle sweep (Some 2%nat)] v0.

(** Callbacks out of order: the job of an envelope is launched before the pending one
    has returned, and when it is scheduled first, the client of the later vibration
    hears of its end first. *)
Theorem callback_overtakes :
  ∃ v, @reachable (device []) (settings true) libm hasty default_actuator v ∧
    mAsyncHandle v = None ∧ completed v = [2%nat; 1%nat].
Proof.
  assert (option_map (λ v, (completed v, mAsyncHandle v)) overtaking = Some ([2%nat; 1%nat], None))
    as Ho by (vm_compute; reflexivity).
  destruct overtaking as [v|] eqn:Ea; [|discriminate Ho]. injection Ho as Hc Hj.
  exists v. split; [|exact (conj Hj Hc)]. unfold overtaking in Ea.
  destruct (@Vibrator_new (device []) (settings true) libm hasty default_actuator calibration raw true)
    as [v0|] eqn:E0; [|discriminate Ea]. cbn [mbind option_bind] in Ea.
  destruct (@run_all (device []) (settings true) libm hasty _ v0) as [[[] v1]|] eqn:E;
    [|discriminate Ea]. injection Ea as ->.
  eexists _, _, _, v0, _. exact (conj E0 E).
Qed.

(** The constructor asks for the size of envelopes before it knows whether they are
    enabled: the answer depends on what the memory of the object held.  With
    envelopes enabled on a driver with 20 segments, a zero byte there makes the
    service accept 82 elements. *)
Theorem uninitialised_chirp :
  ∃ v0 v1, started [] true 9 false = Some v0 ∧ started [] true 9 true = Some v1 ∧
    mIsChirpEnabled v0 = true ∧ mIsChirpEnabled v1 = true ∧
    mCompositionSizeMax v0 = 82 ∧ mCompositionSizeMax v1 = 20.
Proof.
  exists (default no_vib (started [] true 9 false)), sample. split_and!; by vm_compute.
Qed.

(** ** The builds *)

(** [x] is [y] up to a millionth. *)
Definition near (y x : float) : bool :=
  fltb (fsub y (ratio 1 1000000)) x && fltb x (fadd y (ratio 1 1000000)).

(** The map [m] has a limit in (0, 1] for each frequency and goes through [pts]. *)
Definition passes (pts : list (float * float)) (m : list float) : bool :=
  forallb (λ p, match float_index (map_index p.1) ≫= (λ i, m !! i) with
                | Some x => near p.2 x
                | None => false
                end) pts &&
  forallb (λ x, fltb fzero x && negb (fltb fone x)) m &&
  (length m =? PWLE_BW_MAP_SIZE)%nat.

(** The map of level limits, for each of the three builds: filling it ends, stays
    inside the map, leaves a limit above 0 and at most 1 for every frequency, and
    passes through the recommended maximum at each of the discrete points. *)
Theorem limit_map_points (a : Actuator)
    (Ha : a ∈ [LUXSHARE_ICT_081545; LUXSHARE_ICT_LT_XLRA1906D; default_actuator]) :
  ∃ m, limit_map (@discretePwleMaxLevels a) (replicate PWLE_BW_MAP_SIZE (@pwleDefaultLevel a)) = Some m ∧
    passes (@discretePwleMaxLevels a) m = true.
Proof.
  assert (match limit_map (@discretePwleMaxLevels a) (replicate PWLE_BW_MAP_SIZE (@pwleDefaultLevel a)) with
          | Some m => passes (@discretePwleMaxLevels a) m
          | None => false
          end = true) as Hm.
  { repeat (apply elem_of_cons in Ha as [->|Ha]; [by vm_compute|]). by apply not_elem_of_nil in Ha. }
  destruct (limit_map _ _) as [m|]; [|done]. by exists m.
Qed.

Lemma limit_map_points_witness :
  ∃ m, limit_map (@discretePwleMaxLevels LUXSHARE_ICT_081545)
    (replicate PWLE_BW_MAP_SIZE (@pwleDefaultLevel LUXSHARE_ICT_081545)) = Some m.
Proof.
  destruct (limit_map_points LUXSHARE_ICT_081545) as (m & E & _).
  - apply elem_of_cons. by left.
  - exists m. exact E.
Defined.
End VibratorRuns.
