(* ===== verification/Services.v ===== *)
(** * Services: the three processes
      (aidl/power-libperfmgr/service.cpp and [PowerHintMonitor] of
      PowerSessionManager.cpp, lights/main.cpp, aidl/vibrator/service.cpp)

    Each [main] builds its service, registers it and joins the binder thread pool.
    The power process also attaches the extension, starts the looper thread of the
    hint sessions when there is an ADPF profile, and has a thread that waits for a
    property before it starts HintManager.  What binder and libperfmgr answer is the
    class [Binder]; a failed CHECK or a FATAL log aborts the process.

    After [main] the power process runs its threads in any order ([pstep]): binder
    calls once the service is registered, the looper only if its thread was started,
    the worker of the interaction handler, and the waiting thread.  The theorem
    composes Power.v with the start-up: the calls served are those of a reachable
    service, and no message is ever queued without a thread to handle it. *)

From stdpp Require Import relations gmap.
From S2P Require Import Prelude Interaction PowerPid PowerSession PowerManager Power.
From S2P Require Import Lights Float32 VibratorHw Vibrator VibratorProps.

Module Services.

Definition STATUS_OK : Z := 0.
Definition EXIT_FAILURE : Z := 1.

(** How [main] goes on: aborted by a check, returned with a code, or serving. *)
Inductive ending := Aborted | Returned (code : Z) | Serving.
#[global] Instance ending_eq_dec : EqDecision ending.
Proof. solve_decision. Defined.

Class Binder := {
  hint_manager : bool;                (* [HintManager::GetInstance()] is not null *)
  AIBinder_setExtension : Z;          (* binder_status_t *)
  AServiceManager_addService : string → Z;
  descriptor : string;                (* of the interface, generated *)
}.

(** ** The power process *)

Record process := Process {
  service : Power.hal;
  extension : bool;       (* attached to the binder of the service *)
  registered : bool;
  monitor : bool;         (* the thread of PowerHintMonitor runs *)
  waiting : bool;         (* the thread that waits for the property *)
  property_set : bool;    (* [vendor.powerhal.init] is 1 *)
  hints_started : bool;   (* [HintManager::Start] was called *)
}.

Abbreviation PR := (M process).

Definition get_process : PR process := λ p, Some (p, p).
Definition attach : PR unit := λ p, Some (tt,
  Process (service p) true (registered p) (monitor p) (waiting p) (property_set p) (hints_started p)).
Definition register : PR unit := λ p, Some (tt,
  Process (service p) (extension p) true (monitor p) (waiting p) (property_set p) (hints_started p)).
Definition set_monitor : PR unit := λ p, Some (tt,
  Process (service p) (extension p) (registered p) true (waiting p) (property_set p) (hints_started p)).
Definition spawn_init : PR unit := λ p, Some (tt,
  Process (service p) (extension p) (registered p) (monitor p) true (property_set p) (hints_started p)).
Definition with_service (h : Power.hal) (p : process) : process :=
  Process h (extension p) (registered p) (monitor p) (waiting p) (property_set p) (hints_started p).
Definition set_sessions (w : Session.world) (h : Power.hal) : Power.hal :=
  Power.Hal (Power.mInteractionHandler h) (Power.mSustainedPerfModeOn h) w (Power.hal_hints h).

(** A call of the service's code. *)
Definition on_service {A} (m : Power.HP A) : PR A := λ p,
  match m (service p) with
  | Some (a, h) => Some (a, with_service h p)
  | None => None
  end.

(** A CHECK: the rest of [main], or the abort. *)
Definition check (b : bool) (k : PR ending) : PR ending := if b then k else ret Aborted.

(** PowerHintMonitor::start *)
Definition monitor_start : PR unit :=
  let* p := get_process in
  if monitor p then ret tt else set_monitor.

Section power.
Context `{Session.Platform} `{Interaction.Props} `{Binder}.

(** [main] of the power service; the arguments are those of [Power_new]. *)
Definition power_main (open0 open1 event : Z) (state audio rendering : string) : PR ending :=
  check hint_manager (
    on_service (Power.Power_new open0 open1 event state audio rendering) ;;
    check (AIBinder_setExtension =? STATUS_OK) (
      attach ;;
      check (AServiceManager_addService (descriptor ++ "/default") =? STATUS_OK) (
        register ;;
        let* p := get_process in
        (match Session.adpf (Power.sessions (service p)) with
         | Some _ => monitor_start
         | None => ret tt
         end) ;;
        spawn_init ;;
        ret Serving))).

(** The process before [main]: the profile HintManager parsed, the time, the property. *)
Definition process_zero (cfg : option Pid.AdpfConfig) (t : Z) (prop : bool) : process :=
  Process (Power.hal_zero cfg t) false false false false prop false.

(** The threads.  A binder call needs the registered service; the sessions' clients
    hold sessions the service created; [deliver] is an iteration of
    PowerHintMonitor::threadLoop. *)
Inductive pstep : process → process → Prop :=
  | ps_serve r st h p :
      registered p = true → Power.serve r (service p) = Some (st, h) → pstep p (with_service h p)
  | ps_create id tg u l d r h p :
      registered p = true → Session.heap (Power.sessions (service p)) !! id = None →
      Power.createHintSession id tg u l d (service p) = Some (r, h) → pstep p (with_service h p)
  | ps_call id c st w p :
      Session.run_call id c (Power.sessions (service p)) = Some (st, w) →
      pstep p (with_service (set_sessions w (service p)) p)
  | ps_destroy id w p :
      Session.destroy id (Power.sessions (service p)) = Some (tt, w) →
      pstep p (with_service (set_sessions w (service p)) p)
  | ps_looper k w p :
      monitor p = true → Session.deliver k (Power.sessions (service p)) = Some (tt, w) →
      pstep p (with_service (set_sessions w (service p)) p)
  | ps_worker h p :
      Interaction.Routine_step (Power.mInteractionHandler (service p)) = Some h →
      pstep p (with_service (Power.Hal h (Power.mSustainedPerfModeOn (service p))
                 (Power.sessions (service p)) (Power.hal_hints (service p))) p)
  | ps_time t p :
      Session.now (Power.sessions (service p)) ≤ t →
      pstep p (with_service (set_sessions (Session.set_now t (Power.sessions (service p))) (service p)) p)
  | ps_property p :
      pstep p (Process (service p) (extension p) (registered p) (monitor p) (waiting p) true
                 (hints_started p))
  | ps_init p :
      waiting p = true → property_set p = true →
      pstep p (Process (service p) (extension p) (registered p) (monitor p) false true true).

(** *** Without a profile there is nothing to handle *)

Record idle (w : Session.world) : Prop := Idle {
  idle_adpf : Session.adpf w = None;
  idle_heap : Session.heap w = ∅;
  idle_queue : Session.queue w = [];
}.

Lemma idle_serve r st h p :
  idle (Power.sessions p) → Power.serve r p = Some (st, h) → Power.sessions h = Power.sessions p.
Proof.
  intros [Ha _ _]. assert (Power.adpf_on (Power.sessions p) = false) as Hoff.
  { unfold Power.adpf_on. by rewrite Ha. }
  unfold Power.serve, Power.setMode, Power.setBoost, Power.ext_setMode, Power.ext_setBoost,
    Power.boost_hint, bind, Power.get_hal, Power.when_hal, ret, Power.do_hint, Power.set_sustained,
    Power.set_handler.
  destruct r; cbn [Power.sessions]; rewrite ?Hoff; repeat case_match; intros; simplify_eq; cbn in *;
    rewrite ?Hoff in *; by simplify_eq.
Qed.

Lemma idle_create id tg u l d r h p :
  idle (Power.sessions p) → Power.createHintSession id tg u l d p = Some (r, h) → h = p.
Proof.
  intros [Ha _ _]. unfold Power.createHintSession, bind, Power.get_hal, Power.adpf_on. rewrite Ha.
  by intros [= _ <-].
Qed.

(** Every entry point of a session reads the session first. *)
Lemma idle_deref {A} id (k : Session.session → Session.P A) w :
  idle w → bind (Session.deref id) k w = None.
Proof.
  intros [_ Hh _]. unfold bind, Session.deref, Session.get, lift. cbn. by rewrite Hh, lookup_empty.
Qed.

Lemma idle_call id c w : idle w → Session.run_call id c w = None.
Proof. intros Hw. by destruct c; apply idle_deref. Qed.

Lemma idle_destroy id w : idle w → Session.destroy id w = None.
Proof. intros Hw. unfold Session.destroy. unfold bind at 1.
  pose proof (idle_call id Session.CClose w Hw) as E. cbn [Session.run_call] in E. by rewrite E. Qed.

(** *** Start-up *)

(** What [main] can have done. *)
Lemma power_main_run o0 o1 ev s a r cfg t prop e p0 :
  power_main o0 o1 ev s a r (process_zero cfg t prop) = Some (e, p0) →
  hints_started p0 = false ∧ property_set p0 = prop ∧
  match e with
  | Aborted => registered p0 = false ∧ monitor p0 = false
  | Returned _ => False
  | Serving =>
      registered p0 = true ∧ extension p0 = true ∧ monitor p0 = bool_decide (is_Some cfg) ∧
      Session.adpf (Power.sessions (service p0)) = cfg ∧
      Power.sessions (service p0) = Session.start cfg t ∧
      Power.Power_new o0 o1 ev s a r (Power.hal_zero cfg t) = Some (tt, service p0)
  end.
Proof.
  unfold power_main, check, process_zero. destruct hint_manager; [|by intros [= <- <-]].
  unfold bind, on_service. cbn [service].
  destruct (Power.Power_new _ _ _ _ _ _ _) as [[[] h]|] eqn:En; [|done].
  destruct (Power.new_parts o0 o1 ev s a r (Power.hal_zero cfg t) h eq_refl En) as [Es _].
  destruct (_ =? STATUS_OK); [|by intros [= <- <-]].
  unfold attach. cbn [with_service service extension registered monitor waiting property_set hints_started].
  destruct (AServiceManager_addService _ =? STATUS_OK); [|by intros [= <- <-]].
  unfold register, get_process, monitor_start, bind, get_process, set_monitor, spawn_init, ret.
  cbn [service extension registered monitor waiting property_set hints_started].
  rewrite Es. cbn [Power.hal_zero Power.sessions Session.start Session.adpf].
  destruct cfg as [cfg|]; intros [= <- <-]; cbn; by rewrite Es.
Qed.

(** What holds in the running process. *)
Record running (cfg : option Pid.AdpfConfig) (p : process) : Prop := Running {
  run_registered : registered p = true;
  run_extension : extension p = true;
  run_monitor : monitor p = bool_decide (is_Some cfg);
  run_idle : cfg = None → idle (Power.sessions (service p));
  run_started : hints_started p = true → property_set p = true;
}.

Lemma running_service cfg p h :
  running cfg p → (cfg = None → idle (Power.sessions (service p)) → idle (Power.sessions h)) →
  running cfg (with_service h p).
Proof. intros [] Hi. constructor; cbn; auto. Qed.

Lemma running_step cfg p p' :
  running cfg p → pstep p p' →
  running cfg p' ∧ rtc Power.step (service p) (service p').
Proof.
  intros Hp Hs. destruct Hs as [r st h p _ E|id tg u l d r h p _ Hid E|id c st w p E|id w p E|
    k w p Hm E|h p E|t p Ht|p|p Hw Hprop].
  1-7: split; [apply running_service; [done|]|apply rtc_once].
  - intros _ Hi. by rewrite (idle_serve _ _ _ _ Hi E).
  - by eapply Power.step_serve.
  - intros _ Hi. by rewrite (idle_create _ _ _ _ _ _ _ _ Hi E).
  - by eapply Power.step_create.
  - intros _ Hi. by rewrite idle_call in E.
  - apply Power.step_sessions. by eapply Session.step_call.
  - intros _ Hi. by rewrite idle_destroy in E.
  - apply Power.step_sessions. by eapply Session.step_destroy.
  - intros -> _. rewrite (run_monitor _ _ Hp) in Hm. by apply bool_decide_eq_true in Hm as [].
  - apply Power.step_sessions. by eapply Session.step_deliver.
  - done.
  - by apply Power.step_worker.
  - intros _ []. by constructor.
  - by apply Power.step_sessions, Session.step_time.
  - split; [|apply rtc_refl]. destruct Hp. by constructor.
  - split; [|apply rtc_refl]. destruct Hp. by constructor.
Qed.

(** C16. The power process starts its parts in an order that holds together.  When a
    check of [main] fails, nothing is registered.  Otherwise, in every interleaving of
    binder calls, the sessions' clients, the looper, the worker, timers and the thread
    that waits: the service registered has its extension attached and is a reachable
    one, so that the guarantees of its parts apply; HintManager is only started once
    the property is set; and a queued message always has the looper's thread to handle
    it, although that thread is only started when a profile exists at the start. *)
Theorem power_process (o0 o1 ev : Z) (s a r : string) (cfg : option Pid.AdpfConfig) (t : Z)
    (prop : bool) (e : ending) (p0 : process)
    (Hmain : power_main o0 o1 ev s a r (process_zero cfg t prop) = Some (e, p0)) :
  e ≠ Serving ∧ registered p0 = false ∨
  e = Serving ∧ ∀ p, rtc pstep p0 p →
    registered p = true ∧ extension p = true ∧ Power.reachable (service p) ∧
    (hints_started p = true → property_set p = true) ∧
    (Session.queue (Power.sessions (service p)) ≠ [] → monitor p = true).
Proof.
  apply power_main_run in Hmain as (Hh & _ & He). destruct e; [by left; naive_solver|done|right].
  destruct He as (Hr & Hx & Hm & _ & Hs & Hn). split; [done|].
  assert (running cfg p0) as Hp0.
  { constructor; try done; [|by rewrite Hh]. intros ->. rewrite Hs. by constructor. }
  intros p Hrun.
  assert (running cfg p ∧ rtc Power.step (service p0) (service p)) as [Hp Hst].
  { clear -Hrun Hp0. induction Hrun as [x|x y z Hxy _ IH]; [split; [done|apply rtc_refl]|].
    destruct (running_step cfg x y Hp0 Hxy) as [Hy Hxy']. destruct (IH Hy) as [Hz Hyz].
    split; [done|by etrans]. }
  split_and!; [apply Hp|apply Hp| |apply Hp|].
  - by exists cfg, t, o0, o1, ev, s, a, r, (service p0).
  - intros Hq. rewrite (run_monitor _ _ Hp). destruct cfg; [by apply bool_decide_eq_true_2|].
    by destruct (run_idle _ _ Hp eq_refl).
Qed.

End power.

(** ** The lights process *)

Section lights.
Context `{Lights.Sysfs} `{Binder}.

(** [made]: the service object was allocated. *)
Definition lights_main (made : bool) : Lights.L (ending * option Lights.service) :=
  if negb made then ret (Returned EXIT_FAILURE, None)
  else
    let* lights := Lights.lights_new in
    if AServiceManager_addService (descriptor ++ "/default") =? STATUS_OK
    then ret (Serving, Some lights) else ret (Aborted, Some lights).

(** A serving process offers exactly the lights the module opened. *)
Lemma lights_main_serves s svc s' :
  lights_main true s = Some ((Serving, Some svc), s') →
  Lights.mAvailableLights svc = Lights.offered ∧
  ∀ id, Lights.mLights svc !! id = Lights.dispatch id.
Proof.
  unfold lights_main. cbn [negb]. destruct (Lights.lights_new_run s) as (x & s1 & E & _ & _ & Ha & Hl).
  rewrite (bind_run _ _ _ _ _ E). case_match; intros [=]. subst. by split.
Qed.
End lights.

(** ** The vibrator process *)

Section vibrator.
Context `{VHw.Driver} `{VHw.Properties} `{VHw.Miscta} `{Vibrator.Libm} `{Vibrator.Platform}
  `{Vibrator.Actuator} `{Binder}.

Definition VIBRATOR_NAME : string := "default".

(** [stack], [raw] and [chirp]: what the memory held before. *)
Definition vibrator_main (stack : list Z) (raw : Vibrator.alsa) (chirp : bool)
    : option (ending * Vibrator.vib) :=
  c ← VHw.HwCalBase_new stack;
  svc ← Vibrator.Vibrator_new c raw chirp;
  Some (if AServiceManager_addService (descriptor ++ "/" ++ VIBRATOR_NAME) =? STATUS_OK
        then Serving else Aborted, svc).

(** Whatever is requested of a serving process, its state is well formed. *)
Lemma vibrator_main_serves stack raw chirp svc rs v :
  vibrator_main stack raw chirp = Some (Serving, svc) →
  Vibrator.run_all rs svc = Some (tt, v) → VibratorProps.wf v.
Proof.
  unfold vibrator_main. destruct (VHw.HwCalBase_new stack) as [c|]; [|done].
  cbn [mbind option_bind]. destruct (Vibrator.Vibrator_new c raw chirp) as [v0|] eqn:E; [|done].
  cbn [mbind option_bind]. intros [= _ <-] Hr.
  apply VibratorProps.wf_reachable. by exists c, raw, chirp, v0, rs.
Qed.
End vibrator.

(** ** Concrete processes *)

Definition all_well : Binder := {|
  hint_manager := true;
  AIBinder_setExtension := 0;
  AServiceManager_addService := λ _, 0;
  descriptor := "android.hardware.power.IPower" |}.

Definition main_sample : option (ending * process) :=
  @power_main all_well 3 (-1) 4 "" "" "" (process_zero None 1000000 false).

(** The process with no profile, after the property was set and HintManager started. *)
Lemma power_process_witness :
  ∃ p0 p, main_sample = Some (Serving, p0) ∧ rtc (@pstep Manager.quiet Interaction.default_props) p0 p ∧
    hints_started p = true ∧ monitor p = false ∧ Session.queue (Power.sessions (service p)) = [].
Proof.
  destruct main_sample as [[e p0]|] eqn:E; [|exfalso; vm_compute in E; discriminate E].
  destruct (@power_process Manager.quiet Interaction.default_props all_well 3 (-1) 4 "" "" "" None 1000000
    false e p0 E) as [[Hne _]|[-> Hrun]].
  { exfalso. apply Hne. assert (option_map fst main_sample = Some Serving) as Hs by (by vm_compute).
    rewrite E in Hs. by injection Hs as ->. }
  pose (p1 := Process (service p0) (extension p0) (registered p0) (monitor p0) (waiting p0) true
    (hints_started p0)).
  pose (p2 := Process (service p1) (extension p1) (registered p1) (monitor p1) false true true).
  assert (rtc (@pstep Manager.quiet Interaction.default_props) p0 p2) as Hr.
  { eapply rtc_l; [apply ps_property|]. apply rtc_once, ps_init; [|reflexivity].
    assert (option_map (λ x, waiting x.2) main_sample = Some true) as Hs by (by vm_compute).
    rewrite E in Hs. by injection Hs. }
  destruct (Hrun p2 Hr) as (_ & _ & _ & _ & Hq).
  assert (option_map (λ x, monitor x.2) main_sample = Some false) as Hm by (by vm_compute).
  rewrite E in Hm. injection Hm as Hm.
  exists p0, p2. split; [reflexivity|]. split; [exact Hr|]. split; [reflexivity|]. split; [exact Hm|].
  destruct (decide (Session.queue (Power.sessions (service p2)) = [])) as [Eq|Eq]; [exact Eq|].
  exfalso. specialize (Hq Eq). change (monitor p0 = true) in Hq. rewrite Hm in Hq. discriminate Hq.
Defined.

End Services.
